(* ===== verification/_CoqProject ===== *)
-Q . S2P
Prelude.v
JsString.v
Json.v
Effects.v
Encoding.v
JsonParse.v
JsonRoundtrip.v
Http.v
SiteConfig.v
RoutingProfiles.v
JsDate.v
AdminLib.v
ServerApi.v
ApiRoutes.v
Session.v
Site.v
Component.v
Stack.v
AuthForm.v
DotMap.v
JsNumber.v
AdminText.v
AdminWire.v
AdminPanel.v
Charts.v
Pricing.v
PromoCode.v
PricingTable.v
PlanChooser.v
Compose.v
Landing.v
Dithering.v
Dashboard.v
DashboardPage.v
VipSection.v
VipPage.v
FullStack.v
Installer.v
InstallerSpec.v
InstallerPaths.v
InstallerControl.v
GoProg.v
Float64.v
GoModels.v
GoAuth.v
GoPay.v
GoFrame.v
GoAuthSpec.v
GoPaySpec.v
GoRenew.v
GoRenewSpec.v
GoRouter.v
GoPrices.v
GoLimits.v
GoWeb.v
GoSite.v
GoRuns.v
Shapes.v
