(* ===== verification/Prelude.v ===== *)
(** * Verification of the FBLink VPN site, its backend and its installer

    The development models the JavaScript and TypeScript of the repository:
    the Next.js site under [web/] (library, API routes, admin page, client
    components) and the two scripts of the Qt installer under
    [deploy/installer/]; and the part of the Go backend under [vpn-backend/]
    that the site depends on: sign-in, payments, promo codes.  Every definition
    is executable but those on real numbers.

    ** The program and its parts

    - [web/lib]: the site configuration and its merge with the backend's
      answer ([site-config.ts]), routing rules and their export
      ([routing-profiles.ts]), helpers of the admin panel ([admin.ts]), and the
      session with its cookies and backend calls ([server-api.ts]).
    - [web/app/api/**/route.ts]: handlers that the browser calls; they call
      the backend through [server-api.ts].  [web/app/admin/page.tsx] decides on
      the server who sees the admin panel.
    - [web/components]: client components that call the API routes: sign-in
      form, pricing table with the promo code field, plan chooser, dashboard,
      VIP rules, admin panel; the landing page around two of them
      ([web/app/page.tsx]), and two animated pictures.
    - [vpn-backend/Caddyfile]: the gateway in front of the site and the
      backend.  A click in the browser becomes a request, the gateway and the
      router choose who answers, a route handler calls the backend, and the
      answer comes back to the component that asked.
    - [vpn-backend/internal]: the backend.  [router.go] sends a request through
      the limiter and the checks of [middleware/] to a handler: [auth.go] for
      accounts, tokens and the device flow of televisions, [payment.go],
      [payment_sync.go] and [promo_codes.go] for orders and what YooKassa says
      of them, [web_config.go] for what the site shows; [renewal.go] charges
      saved cards every hour.  Handlers of several requests run at once and meet
      in the database.
    - [componentscript.js] and [controlscript.js]: the installer's service
      registration and repair, and its dialogs about older installations and a
      running client.

    ** Files

    Language and libraries of JavaScript:
    - [Prelude]: tactics, record update, lists and arithmetic.
    - [JsString]: UTF-16 strings, trimming, case, splitting; [JsHost] holds
      the parts of the host that depend on Unicode tables or the locale.
    - [Json], [JsonParse], [JsonRoundtrip]: dynamic values, [JSON.stringify]
      and [JSON.parse], and that the second undoes the first but for what JSON
      cannot say.
    - [Effects]: computations that change a world and throw, and the proof
      principle [preserves] for properties of all their paths.
    - [Encoding]: UTF-8, [encodeURIComponent], [unescape], base64.
    - [Http]: requests, responses, headers.  [JsDate], [JsNumber]: dates and
      number texts.

    The site's server:
    - [SiteConfig], [RoutingProfiles], [AdminLib]: the three pure libraries.
    - [ServerApi]: [server-api.ts] over the class [Server] (Next's cookies and
      [fetch]) with laws, instantiated by the writable cookie store of routes
      and the read-only one of page renders.
    - [ApiRoutes]: every route handler and the admin page.
    - [Session]: the contract of [authorizedFetch] as a relation on sessions,
      the class [TokenBackend] of what the backend promises, the refinement,
      and the session invariant of all routes.
    - [Site]: the gateway, the choice of the handler by path and method, JSON
      across the wire, and the table [intents] of what each endpoint asks of
      the backend.

    The site's client:
    - [Component]: state, events, requests in flight and rendered trees of a
      React component; [reached] are the states of all interleavings of what
      the tree offers and of replies.
    - [Compose]: a component inside another, with properties passed down and
      calls heard.
    - [AuthForm], [Pricing], [PromoCode], [PricingTable], [PlanChooser],
      [Dashboard], [VipSection]: the components, a module each;
      [DashboardPage] and [VipPage]: the two pages that contain another one.
    - [AdminText], [AdminWire], [AdminPanel]: texts and numbers of the admin
      panel, its reading of responses, and the panel; [Charts]: the
      coordinates of its charts.
    - [Landing]: the landing page with its components, and the policy page.
    - [Dithering], [DotMap]: the animated background on a graphics driver and
      the animated map on a canvas, with the frames they ask for; [Shapes]: the
      noise and the shapes of the background's shader, over real numbers.

    The backend:
    - [GoProg]: programs that other programs come between after every step, the
      pool of those under way, and the rule that what each keeps while the
      others interfere holds in every interleaving.
    - [Float64]: double precision as exact rounding of rational numbers.
    - [GoModels]: times, strings and JSON of Go, the tables of [models.go],
      queries and transactions of GORM that may fail, with rollback, and the
      classes of what lies outside: tokens, passwords, random numbers.
    - [GoAuth], [GoPay], [GoRenew]: the handlers and the scheduler of renewals;
      [PaymentHost] is YooKassa.
    - [GoFrame]: which tables each handler leaves alone.  [GoAuthSpec],
      [GoPaySpec], [GoRenewSpec]: what the others keep, one handler at a time,
      and how often a card is charged.
    - [GoRouter]: routes, and histories of requests in any interleaving.
    - [GoPrices], [GoLimits]: the arithmetic of prices and of limits.
    - [GoWeb]: the answer that the site merges into its configuration.
    - [GoSite]: the site against this backend; it discharges [TokenBackend].
    - [GoRuns]: concrete surroundings, in which the laws hold, and runs.

    Client and server together:
    - [Stack]: a component in the browser against [Site] and a backend; moves
      are clicks, the processing of a request, the arrival or the loss of an
      answer, in any order.
    - [FullStack]: the pages of the site in it.

    The installer:
    - [Installer]: [componentscript.js] over the class [Machine], whose
      answers to program runs, file tests, rights and dialogs are arbitrary;
      the world keeps the trace of calls with their answers.
    - [InstallerSpec]: rights, readiness and waiting times.
    - [InstallerPaths]: quoting, normal forms and candidate paths.
    - [InstallerControl]: [controlscript.js].

    ** What the theorems show

    - Sessions: a call in the user's name refines the contract written above
      [authorizedFetch]; both cookies or neither exist after any requests;
      tokens go only to the backend; sign-in answers carry no token; the admin
      page needs the role; a page render with an expired token ends in a
      redirect.
    - The whole site, for every order of processing and every lost answer: no
      request of a page is without a handler, a payment is created at most
      once per order and as ordered, the backend hears only what the intents
      allow, the session is never half stored; and the one request that
      cannot work.
    - Pure libraries: normalised configurations are well typed and offer the
      known plans; rule text and exports are characterised by reference
      functions; the incident banner, the merge of notifications and the
      filters meet their specifications.
    - Components, over all interleavings: single requests in flight, payments
      of the whole dashboard and update commands only with checked data, no
      VIP requests for other users, busy markers that end; and reachable runs
      that show races.
    - The backend, over every interleaving of requests and every failing query:
      a payment activates at most once by itself; a television gets tokens only
      of a user who approved it, once per approval; no card is charged for a
      period that has not begun, when charges are settled at once; and
      reachable runs that show what is not excluded (an approval by hand beside
      a webhook, checks that are too early, two approvals at once, slow or
      crossing charges).
    - The site with this backend: sessions are whole without assumptions on the
      backend, and last as long as their refresh token; what is shown is what
      is charged; amounts in doubles agree with kopecks, time that is left
      keeps its price; limits bound every window of time.
    - Texts: redaction, digests, the health index, subscription days, links
      that decode to what was exported.
    - Pages and pictures: every link of the landing page leads somewhere; the
      pictures order one frame at a time, name no deleted object and leave no
      program, buffer or frame behind, though their shaders; shapes lie between
      the two colours and dithering keeps the tone; charts and maps stay inside their frames.
    - Installer, for every machine: programs are launched without rights and
      only after the service was confirmed; nothing is removed unasked; retry
      loops have a total bound; paths survive quoting; the wizard presses no
      button for a user who is there.

    ** Bounds

    Recursion is structural almost everywhere.  [parse_value] takes the
    length of the text as fuel, which each step shortens.  The dialog about a
    running client recurses at the user's wish; it takes a number of rounds,
    and [message_loop_ends] shows that a larger number changes nothing once
    the user stops retrying.  Numbers of the sources are integers here (ids,
    amounts, counts, milliseconds); percentages are integer divisions with the
    rounding of the source.  The coordinates of pictures and charts are
    rational numbers, without the rounding of floating point; the loops of the
    map take the limit as fuel, which [DotMap.grid_spec] shows to be enough.

    Times of the backend are nanoseconds, amounts are doubles.  A query that
    fails is chosen by its number.  The world of the backend keeps logs that the
    code does not have, of approvals and grants, of activations and of charges,
    for the theorems to speak about.  The scheduler takes a number of rounds,
    and its theorem holds for every number.  The shapes have no value
    where GLSL leaves the result undefined.

    ** Not modelled

    Styles, icons, animation of the markup, focus, console output, request
    caching and aborts, unmounting of the top-level pages, browser validation
    of form fields.  The rounding of the graphics card and the vertex shader.
    TLS, logging and headers of the gateway.  Of the backend: servers and keys,
    routing profiles, Happ links, uploads, statistics, notifications, mail, the HTML page of the device flow, CORS; these call
    remote servers and shells or only print, and the site sees them as
    arbitrary answers.  The Go agent, the C++ client and service. *)
From stdpp Require Export base tactics option list list_numbers numbers sets gmap strings sorting.

#[global] Set Default Goal Selector "!".

(** ** Proof automation

    [fblink] holds the lemmas the components share; [unpack] opens
    conjunctions and existentials; [case_bool] splits on the boolean tests
    the sources write as conditions. *)

Create HintDb fblink.
Create Rewrite HintDb fblink.

Ltac unpack :=
  repeat match goal with
  | H : _ ∧ _ |- _ => destruct H
  | H : ∃ _, _ |- _ => destruct H
  | H : (_ && _) = true |- _ => apply andb_true_iff in H
  | H : negb _ = true |- _ => apply negb_true_iff in H
  | H : bool_decide _ = true |- _ => apply bool_decide_eq_true in H
  | H : bool_decide _ = false |- _ => apply bool_decide_eq_false in H
  end.

Ltac case_bool :=
  match goal with
  | |- context [if ?b then _ else _] => destruct b eqn:?
  | H : context [if ?b then _ else _] |- _ => destruct b eqn:?
  end.

Ltac crush :=
  intros; repeat (case_match || case_bool); simplify_eq/=; unpack; subst;
  try done; eauto with fblink.

(** ** Record updates

    [s <| f := v |>] is [s] with the field [f] replaced.  A record takes part
    by an instance of [Eta] that lists its fields; the update of a field is
    then found by abstracting its projection. *)

Class Eta (R : Type) := eta : R → R.
Class Update {R T : Type} (f : R → T) := update : (T → T) → R → R.
#[global] Arguments update {R T} f {_} g r /.

Ltac field_update R f :=
  let e := constr:(_ : Eta R) in
  let e := eval hnf in e in
  match eval pattern f in e with
  | ?upd _ => exact (λ g r, upd (λ x, g (f x)) r)
  end.

#[global] Hint Extern 1 (@Update ?R _ ?f) => field_update R f : typeclass_instances.

Declare Scope update_scope.
Delimit Scope update_scope with upd.
Notation "s <| f := v |>" := (update f (λ _, v) s)
  (at level 1, f constr at level 9, format "s  <| f  :=  v |>") : update_scope.
Open Scope update_scope.

(** ** Reachability of a transition system

    A component that reacts to events is a function from a state and an event
    to the next state, [None] when the event cannot happen in that state. *)

Section Transitions.
Context {S E : Type} (step : S → E → option S).

Inductive reachable (s0 : S) : S → Prop :=
| reachable_here : reachable s0 s0
| reachable_step s e s' : reachable s0 s → step s e = Some s' → reachable s0 s'.

Fixpoint run (s : S) (es : list E) : option S :=
  match es with
  | [] => Some s
  | e :: es => step s e ≫= λ s', run s' es
  end.

(** An inductive invariant holds in every reachable state. *)
Lemma reachable_invariant (P : S → Prop) s0 :
  P s0 → (∀ s e s', P s → step s e = Some s' → P s') →
  ∀ s, reachable s0 s → P s.
Proof. intros H0 Hstep s Hr. induction Hr; eauto. Qed.

Lemma reachable_trans s0 s1 s2 :
  reachable s0 s1 → reachable s1 s2 → reachable s0 s2.
Proof. intros H1 H2. induction H2; eauto using reachable. Qed.

Lemma run_reachable s es s' : run s es = Some s' → reachable s s'.
Proof.
  revert s. induction es as [|e es IH]; simpl; intros s H.
  - simplify_eq. constructor.
  - destruct (step s e) as [s1|] eqn:He; simplify_eq/=.
    eapply reachable_trans; [|by apply IH].
    eapply reachable_step; [constructor|done].
Qed.

Lemma run_app s es1 es2 :
  run s (es1 ++ es2) = run s es1 ≫= λ s', run s' es2.
Proof.
  revert s. induction es1 as [|e es1 IH]; intros s; simpl; [done|].
  destruct (step s e); simpl; [apply IH|done].
Qed.
End Transitions.

#[export] Hint Constructors reachable : fblink.

(** ** Removing duplicates

    [push_unique] is the loop body the sources write with [includes] or
    [Set.has] and [push]; [nub] is the reference definition. *)

Section Unique.
Context {A : Type} `{EqDecision A}.

Definition push_unique (acc : list A) (x : A) : list A :=
  if decide (x ∈ acc) then acc else acc ++ [x].

Fixpoint nub (l : list A) : list A :=
  match l with
  | [] => []
  | x :: l => x :: filter (λ y, y ≠ x) (nub l)
  end.

Lemma elem_of_push_unique acc x y : y ∈ push_unique acc x ↔ y ∈ acc ∨ y = x.
Proof. unfold push_unique. case_decide; set_solver. Qed.

Lemma NoDup_push_unique acc x : NoDup acc → NoDup (push_unique acc x).
Proof.
  unfold push_unique. intros H. case_decide; [done|].
  apply NoDup_app. split_and!; [done|set_solver|apply NoDup_singleton].
Qed.

Lemma elem_of_foldl_push_unique l acc y :
  y ∈ foldl push_unique acc l ↔ y ∈ acc ∨ y ∈ l.
Proof.
  revert acc. induction l as [|x l IH]; intros acc; simpl; [set_solver|].
  rewrite IH, elem_of_push_unique. set_solver.
Qed.

Lemma NoDup_foldl_push_unique l acc : NoDup acc → NoDup (foldl push_unique acc l).
Proof.
  revert acc. induction l as [|x l IH]; intros acc H; simpl; [done|].
  apply IH, NoDup_push_unique, H.
Qed.

Lemma foldl_push_unique_prefix l acc : acc `prefix_of` foldl push_unique acc l.
Proof.
  revert acc. induction l as [|x l IH]; intros acc; simpl; [done|].
  transitivity (push_unique acc x); [|apply IH].
  unfold push_unique. case_decide; [done|]. by eexists.
Qed.

Lemma elem_of_nub l y : y ∈ nub l ↔ y ∈ l.
Proof.
  induction l as [|x l IH]; simpl; [done|].
  rewrite !elem_of_cons, list_elem_of_filter, IH.
  destruct (decide (y = x)); naive_solver.
Qed.

Lemma NoDup_nub l : NoDup (nub l).
Proof.
  induction l as [|x l IH]; simpl; constructor.
  - rewrite list_elem_of_filter. naive_solver.
  - by apply NoDup_filter.
Qed.

(** The accumulating loop computes the reference definition. *)
Lemma foldl_push_unique_nub l acc :
  foldl push_unique acc l = acc ++ filter (λ y, y ∉ acc) (nub l).
Proof.
  revert acc. induction l as [|x l IH]; intros acc; simpl.
  { by rewrite app_nil_r. }
  rewrite IH. unfold push_unique. rewrite filter_cons, list_filter_filter.
  case_decide as Hx.
  - rewrite decide_False by naive_solver. f_equal.
    apply list_filter_iff. intros y. set_solver.
  - rewrite decide_True by done. rewrite <-app_assoc. simpl. do 2 f_equal.
    apply list_filter_iff. intros y. set_solver.
Qed.

Lemma foldl_push_unique_nub_nil l : foldl push_unique [] l = nub l.
Proof.
  rewrite foldl_push_unique_nub. simpl.
  induction (nub l) as [|x k IH]; [done|].
  rewrite filter_cons, decide_True by set_solver. by f_equal.
Qed.

Lemma nub_NoDup_id l : NoDup l → nub l = l.
Proof.
  induction 1 as [|x l Hx Hl IH]; simpl; [done|]. rewrite IH. f_equal.
  clear IH Hl. induction l as [|y l IH]; [done|].
  rewrite filter_cons, decide_True by set_solver. f_equal. apply IH. set_solver.
Qed.
End Unique.

#[export] Hint Resolve NoDup_push_unique NoDup_foldl_push_unique NoDup_nub : fblink.

(** ** Lists searched by a boolean test: [Array.prototype.find] and [some] *)

Section Find.
Context {A : Type}.

Definition find_first (f : A → bool) (l : list A) : option A :=
  head (filter (λ x, f x = true) l).

Lemma find_first_Some f l x : find_first f l = Some x → x ∈ l ∧ f x = true.
Proof.
  unfold find_first. intros H. apply head_Some_elem_of in H.
  by apply list_elem_of_filter in H as [??].
Qed.

Lemma find_first_None f l : find_first f l = None ↔ ∀ x, x ∈ l → f x = false.
Proof.
  unfold find_first. induction l as [|y l IH]; [set_solver|].
  rewrite filter_cons. case_decide as Hy.
  - split; [done|]. intros H. specialize (H y). rewrite Hy in H.
    exfalso. assert (true = false) by (apply H; set_solver). done.
  - rewrite IH. apply not_true_is_false in Hy. split; [|set_solver].
    intros H x. rewrite elem_of_cons. intros [->|]; auto.
Qed.

Lemma find_first_cons f x l :
  find_first f (x :: l) = if f x then Some x else find_first f l.
Proof.
  unfold find_first. rewrite filter_cons. by destruct (f x).
Qed.

Lemma existsb_elem_of f (l : list A) : existsb f l = true ↔ ∃ x, x ∈ l ∧ f x = true.
Proof. rewrite existsb_exists. by setoid_rewrite list_elem_of_In. Qed.
End Find.

#[export] Hint Resolve find_first_Some : fblink.

(** ** Filters that keep all, none, or what a map gives *)

Lemma filter_all {A} (P : A → Prop) `{∀ x, Decision (P x)} l : Forall P l → filter P l = l.
Proof. induction 1; [done|]. rewrite filter_cons, decide_True by done. by f_equal. Qed.

Lemma filter_none {A} (P : A → Prop) `{∀ x, Decision (P x)} l : Forall (λ x, ¬ P x) l → filter P l = [].
Proof. induction 1; [done|]. by rewrite filter_cons, decide_False by done. Qed.

Lemma filter_fmap_length {A B} (f : A → B) (P : B → Prop) `{∀ x, Decision (P x)} l :
  length (filter P (f <$> l)) = length (filter (λ x, P (f x)) l).
Proof.
  induction l as [|x l IH]; [done|]. rewrite fmap_cons, !filter_cons.
  case_decide; cbn; by rewrite IH.
Qed.

(** ** Elementwise choice *)

Lemma Forall2_choose {A B} (R : A → B → Prop) (l : list A) :
  (∀ x, x ∈ l → ∃ y, R x y) → ∃ k, Forall2 R l k.
Proof.
  induction l as [|x l IH]; intros H; [by exists []|].
  destruct (H x) as [y Hy]; [set_solver|].
  destruct IH as [k Hk]; [set_solver|]. exists (y :: k). by constructor.
Qed.

(** Reading every element of a list succeeds when each read does, and a fact
    relating source and result elements comes along. *)
Lemma mapM_choose {A B C} (f : A → option B) (g : C → A) (R : C → B → Prop) (l : list C) :
  (∀ x, x ∈ l → ∃ y, f (g x) = Some y ∧ R x y) →
  ∃ k, mapM f (g <$> l) = Some k ∧ Forall2 R l k.
Proof.
  intros H. apply (Forall2_choose (λ x y, f (g x) = Some y ∧ R x y)) in H as [k Hk].
  exists k. split.
  - apply mapM_Some. apply Forall2_fmap_l. eapply Forall2_impl; [exact Hk|by intros ?? []].
  - eapply Forall2_impl; [exact Hk|by intros ?? []].
Qed.

Lemma Forall2_fmap_eq {A B C} (f : A → C) (g : B → C) l k :
  Forall2 (λ x y, g y = f x) l k → g <$> k = f <$> l.
Proof. induction 1; csimpl; congruence. Qed.
