(* ===== verification/JsString.v ===== *)
(** * JavaScript strings

    A string of the sources is the sequence of its UTF-16 code units, a
    [list Z].  The file gives the operations of [String.prototype] the sources
    call, with the semantics of ECMAScript on code units, and the lemmas the
    components use.  Literals are written [§"text"]: [js] decodes the UTF-8
    bytes of a Rocq literal to code units.

    Case conversion of a string with a unit beyond ASCII is the Unicode
    database's, date strings outside the ISO format are parsed as the engine
    likes, and [Intl] output is the ICU library's: these three are fields of
    the class [JsHost]. *)
From Stdlib Require Import ZArith.
From stdpp Require Import pretty.
From S2P Require Export Prelude.
Open Scope Z_scope.

Abbreviation jstr := (list Z).

(** ** Literals *)

Fixpoint string_bytes (s : string) : list Z :=
  match s with
  | EmptyString => []
  | String a s => Z.of_N (Ascii.N_of_ascii a) :: string_bytes s
  end.

(** UTF-8 to UTF-16: a code point beyond the basic plane is a surrogate pair. *)
Definition utf16_units (cp : Z) : list Z :=
  if cp <? 65536 then [cp]
  else [55296 + (cp - 65536) / 1024; 56320 + (cp - 65536) mod 1024].

Fixpoint utf8_decode (l : list Z) : list Z :=
  match l with
  | [] => []
  | b0 :: l1 =>
      if b0 <? 128 then b0 :: utf8_decode l1 else
      match l1 with
      | [] => []
      | b1 :: l2 =>
          if b0 <? 224 then ((b0 - 192) * 64 + (b1 - 128)) :: utf8_decode l2 else
          match l2 with
          | [] => []
          | b2 :: l3 =>
              if b0 <? 240 then
                ((b0 - 224) * 4096 + (b1 - 128) * 64 + (b2 - 128)) :: utf8_decode l3
              else
              match l3 with
              | [] => []
              | b3 :: l4 =>
                  utf16_units ((b0 - 240) * 262144 + (b1 - 128) * 4096
                               + (b2 - 128) * 64 + (b3 - 128)) ++ utf8_decode l4
              end
          end
      end
  end.

Definition js (s : string) : jstr := utf8_decode (string_bytes s).
#[global] Arguments js : simpl never.

Declare Scope js_scope.
Delimit Scope js_scope with js.
Notation "§ s" := (js s%string) (at level 1, s constr at level 0, format "§ s") : js_scope.
Open Scope js_scope.

(** The double quote, which a literal of this development cannot contain. *)
Definition dq : jstr := [34].

(** ** Host-defined behaviour *)

Class JsHost := {
  unicode_lower : jstr → jstr;
  unicode_upper : jstr → jstr;
  date_fallback : jstr → option Z;
  intl_rub : Z → jstr;
  intl_date_long : Z → jstr;
  locale_number : Z → jstr;
  locale_datetime : Z → jstr;
}.

(** ** Truthiness, equality *)

Definition str_truthy (s : jstr) : bool :=
  match s with [] => false | _ => true end.

Definition str_eqb (a b : jstr) : bool := bool_decide (a = b).
#[global] Arguments str_eqb : simpl never.

(** [a || b] on strings. *)
Definition str_or (a b : jstr) : jstr := if str_truthy a then a else b.

(** ** White space: the [\s] class and what [trim] removes *)

Definition is_space (c : Z) : bool :=
  ((9 <=? c) && (c <=? 13)) || (c =? 32) || (c =? 160) || (c =? 5760)
  || ((8192 <=? c) && (c <=? 8202)) || (c =? 8232) || (c =? 8233)
  || (c =? 8239) || (c =? 8287) || (c =? 12288) || (c =? 65279).

Fixpoint drop_while (p : Z → bool) (s : jstr) : jstr :=
  match s with
  | [] => []
  | c :: s' => if p c then drop_while p s' else s
  end.

Definition trim_start (s : jstr) : jstr := drop_while is_space s.
Definition trim_end (s : jstr) : jstr := reverse (drop_while is_space (reverse s)).
Definition trim (s : jstr) : jstr := trim_end (trim_start s).

(** ** Splitting at runs of a character class: [split(/[class]+/)] *)

Fixpoint split_go (p : Z → bool) (cur : jstr) (insep : bool) (s : jstr) : list jstr :=
  match s with
  | [] => [reverse cur]
  | c :: s =>
      if p c then
        if insep then split_go p cur true s else reverse cur :: split_go p [] true s
      else split_go p (c :: cur) false s
  end.

Definition split_class (p : Z → bool) (s : jstr) : list jstr := split_go p [] false s.

Fixpoint join (sep : jstr) (l : list jstr) : jstr :=
  match l with
  | [] => []
  | [x] => x
  | x :: l => x ++ sep ++ join sep l
  end.

(** ** Searching *)

Fixpoint starts_with (p s : jstr) : bool :=
  match p, s with
  | [], _ => true
  | _, [] => false
  | a :: p, b :: s => (a =? b) && starts_with p s
  end.

(** First position of [p] in [s], as [indexOf]. *)
Fixpoint index_of (p s : jstr) : option nat :=
  if starts_with p s then Some O else
  match s with
  | [] => None
  | _ :: s => S <$> index_of p s
  end.

(** [s.indexOf(p, from)]; [from] is clamped to the length. *)
Definition index_of_from (p s : jstr) (from : nat) : option nat :=
  let k := Nat.min from (length s) in (Nat.add k) <$> index_of p (drop k s).

Definition includes (s p : jstr) : bool := bool_decide (is_Some (index_of p s)).

Definition ends_with (s p : jstr) : bool :=
  starts_with (reverse p) (reverse s).

Definition substring (s : jstr) (i j : nat) : jstr := take (j - i) (drop i s).

(** ** Replacement *)

Definition replace_unit (c : Z) (r : jstr) (s : jstr) : jstr :=
  s ≫= λ x, if x =? c then r else [x].

(** [s.replace(/\/$/, "")] *)
Definition strip_trailing (c : Z) (s : jstr) : jstr :=
  match last s with
  | Some x => if x =? c then take (length s - 1) s else s
  | None => s
  end.

(** [s.replace(/^\./, "")] *)
Definition strip_leading (c : Z) (s : jstr) : jstr :=
  match s with
  | x :: s' => if x =? c then s' else s
  | [] => []
  end.

(** ** Case *)

Definition is_ascii (s : jstr) : bool := forallb (λ c, (0 <=? c) && (c <? 128)) s.
Definition lower_unit (c : Z) : Z := if (65 <=? c) && (c <=? 90) then c + 32 else c.
Definition upper_unit (c : Z) : Z := if (97 <=? c) && (c <=? 122) then c - 32 else c.

Definition to_lower `{JsHost} (s : jstr) : jstr :=
  if is_ascii s then lower_unit <$> s else unicode_lower s.
Definition to_upper `{JsHost} (s : jstr) : jstr :=
  if is_ascii s then upper_unit <$> s else unicode_upper s.

(** ** Numbers as text: [String(n)] and template holes, on integers *)

Definition num_str (n : Z) : jstr := js (pretty n).

(** ** A concrete host, for evaluating definitions: no case mapping and no
    date format beyond the portable ones, decimal [Intl] output. *)

Definition plain_host : JsHost := {|
  unicode_lower s := lower_unit <$> s;
  unicode_upper s := upper_unit <$> s;
  date_fallback _ := None;
  intl_rub n := num_str n ++ §" ₽";
  intl_date_long n := num_str n;
  locale_number n := num_str n;
  locale_datetime n := num_str n;
|}.

(** ** Lemmas *)

Lemma str_eqb_eq a b : str_eqb a b = true ↔ a = b.
Proof. apply bool_decide_eq_true. Qed.

Lemma str_eqb_refl a : str_eqb a a = true.
Proof. by apply str_eqb_eq. Qed.

Lemma str_truthy_iff s : str_truthy s = true ↔ s ≠ [].
Proof. by destruct s. Qed.

Section DropWhile.
Context (p : Z → bool).

Lemma drop_while_suffix s : drop_while p s `suffix_of` s.
Proof.
  induction s as [|c s IH]; simpl; [done|].
  case_bool; [by apply suffix_cons_r|done].
Qed.

Lemma drop_while_head s c s' : drop_while p s = c :: s' → p c = false.
Proof.
  induction s as [|x s IH]; simpl; [done|].
  case_bool; [done|]. intros ?; by simplify_eq.
Qed.

Lemma drop_while_fix c s : p c = false → drop_while p (c :: s) = c :: s.
Proof. simpl. by intros ->. Qed.

Lemma drop_while_idemp s : drop_while p (drop_while p s) = drop_while p s.
Proof.
  induction s as [|c s IH]; simpl; [done|].
  case_bool; [done|]. by apply drop_while_fix.
Qed.

Lemma drop_while_none s : Forall (λ c, p c = false) s → drop_while p s = s.
Proof. destruct 1; [done|by apply drop_while_fix]. Qed.
End DropWhile.

Lemma trim_end_prefix s : trim_end s `prefix_of` s.
Proof.
  unfold trim_end. destruct (drop_while_suffix is_space (reverse s)) as [k Hk].
  exists (reverse k). rewrite <-reverse_app, <-Hk. by rewrite reverse_involutive.
Qed.

Lemma trim_end_fix s c : is_space c = false → trim_end (s ++ [c]) = s ++ [c].
Proof.
  intros Hc. unfold trim_end. rewrite reverse_snoc.
  rewrite drop_while_fix by done. rewrite reverse_cons, reverse_involutive. done.
Qed.

(** A string without white space is its own trim. *)
Lemma trim_no_space s : Forall (λ c, is_space c = false) s → trim s = s.
Proof.
  intros Hs. unfold trim, trim_start, trim_end. rewrite (drop_while_none _ s) by done.
  rewrite drop_while_none by (by apply Forall_reverse). apply reverse_involutive.
Qed.

Lemma trim_elem s c : c ∈ trim s → c ∈ s.
Proof.
  unfold trim. intros H. destruct (trim_end_prefix (trim_start s)) as [k Hk].
  destruct (drop_while_suffix is_space s) as [k' Hk'].
  rewrite Hk'. apply elem_of_app. right. unfold trim_start in *.
  rewrite Hk. set_solver.
Qed.

(** ** Words of a string: the nonempty pieces between separators *)

Section Split.
Context (p : Z → bool).

Definition words (s : jstr) : list jstr := filter (λ w, w ≠ []) (split_class p s).

Lemma split_go_no_sep s cur insep w :
  w ∈ split_go p cur insep s → Forall (λ c, p c = false) cur →
  Forall (λ c, p c = false) w.
Proof.
  revert cur insep. induction s as [|c s IH]; intros cur insep Hw Hcur; simpl in Hw.
  { apply list_elem_of_singleton in Hw as ->. by apply Forall_reverse. }
  destruct (p c) eqn:Hc.
  - destruct insep; [by eapply IH|].
    apply elem_of_cons in Hw as [->|Hw]; [by apply Forall_reverse|].
    by eapply IH.
  - eapply IH; [done|]. by constructor.
Qed.

Lemma words_no_sep s w : w ∈ words s → w ≠ [] ∧ Forall (λ c, p c = false) w.
Proof.
  unfold words. rewrite list_elem_of_filter. intros [Hne Hw].
  split; [done|]. eapply split_go_no_sep; [exact Hw|constructor].
Qed.

Lemma split_go_plain s cur insep :
  Forall (λ c, p c = false) s → s ≠ [] →
  split_go p cur insep s = [reverse cur ++ s].
Proof.
  intros Hs. revert cur insep. induction Hs as [|c s Hc Hs IH]; intros cur insep Hne; [done|].
  simpl. rewrite Hc. destruct (decide (s = [])) as [->|Hs0].
  - simpl. by rewrite reverse_cons.
  - rewrite IH by done. rewrite reverse_cons, <-app_assoc. done.
Qed.

Lemma words_plain s : Forall (λ c, p c = false) s → s ≠ [] → words s = [s].
Proof.
  intros Hs Hne. unfold words, split_class. rewrite split_go_plain by done.
  simpl. rewrite filter_cons, decide_True by done. done.
Qed.

Lemma words_sep_true u :
  filter (λ w, w ≠ []) (split_go p [] true u) = words u.
Proof.
  unfold words, split_class. destruct u as [|y u]; simpl; [done|].
  destruct (p y); [|done]. by rewrite filter_cons, decide_False by naive_solver.
Qed.

Lemma split_go_sep s c t cur insep :
  p c = true → (insep = true → cur = []) →
  filter (λ w, w ≠ []) (split_go p cur insep (s ++ c :: t)) =
  filter (λ w, w ≠ []) (split_go p cur insep s) ++ words t.
Proof.
  intros Hc. revert cur insep. induction s as [|x s IH]; intros cur insep Hi; simpl.
  - rewrite Hc. destruct insep.
    + rewrite Hi by done. rewrite words_sep_true. done.
    + rewrite !filter_cons, words_sep_true. by case_decide.
  - destruct (p x); [destruct insep|]; rewrite ?filter_cons.
    + by apply IH.
    + rewrite IH by done. by case_decide.
    + by apply IH.
Qed.

(** Words on the two sides of a separator are independent. *)
Lemma words_app_sep s c t : p c = true → words (s ++ c :: t) = words s ++ words t.
Proof. intros Hc. unfold words at 1, split_class. by rewrite split_go_sep. Qed.

Lemma words_nil : words [] = [].
Proof. done. Qed.

(** Printing a list of words with a separator and splitting again gives the
    list back. *)
Lemma words_join c l :
  p c = true → Forall (λ w, w ≠ [] ∧ Forall (λ x, p x = false) w) l →
  words (join [c] l) = l.
Proof.
  intros Hc. induction 1 as [|w l [Hne Hw] Hl IH]; [done|].
  destruct l as [|w' l].
  - simpl. by apply words_plain.
  - change (join [c] (w :: w' :: l)) with (w ++ c :: join [c] (w' :: l)).
    rewrite words_app_sep, IH, words_plain by done. done.
Qed.
End Split.

(** ** Searching, specified *)

Lemma starts_with_spec q s : starts_with q s = true ↔ q `prefix_of` s.
Proof.
  revert s. induction q as [|a q IH]; intros s; simpl.
  { split; [intros _; apply prefix_nil|done]. }
  destruct s as [|b s]; [split; [done|intros [k Hk]; done]|].
  rewrite andb_true_iff, Z.eqb_eq, IH. split.
  - intros [-> ?]. by apply prefix_cons.
  - intros H. split; [by eapply prefix_cons_inv_1|by eapply prefix_cons_inv_2].
Qed.

Lemma index_of_Some q s i :
  index_of q s = Some i → ∃ k, s = take i s ++ q ++ k.
Proof.
  revert i. induction s as [|c s IH]; intros i; simpl; case_bool; intros H; simplify_eq/=.
  - apply starts_with_spec in Heqb as [k ->]. by exists k.
  - apply starts_with_spec in Heqb as [k ->]. by exists k.
  - destruct (index_of q s) as [j|] eqn:Hj; simplify_eq/=.
    destruct (IH j eq_refl) as [k Hk]. exists k. by f_equal.
Qed.

(** [includes] is the substring relation. *)
Lemma includes_spec s q : includes s q = true ↔ ∃ a b, s = a ++ q ++ b.
Proof.
  unfold includes. rewrite bool_decide_eq_true. split.
  - intros [i Hi]. apply index_of_Some in Hi as [k ->]. eauto.
  - intros (a & b & ->). induction a as [|c a IH]; simpl.
    + destruct (q ++ b) as [|c r] eqn:E; simpl;
        rewrite (proj2 (starts_with_spec q _)) by (rewrite <-?E; by eexists); eauto.
    + case_bool; [eauto|]. destruct IH as [i Hi]. rewrite Hi. simpl. eauto.
Qed.

Lemma ends_with_spec s q : ends_with s q = true ↔ q `suffix_of` s.
Proof.
  unfold ends_with. rewrite starts_with_spec. rewrite suffix_prefix_reverse. done.
Qed.

(** ** Replacement and case *)

Lemma replace_unit_absent c r s : c ∉ r → c ∉ replace_unit c r s.
Proof.
  unfold replace_unit. intros Hr H. apply list_elem_of_bind in H as (x & Hx & _).
  destruct (x =? c) eqn:E; [done|]. apply Z.eqb_neq in E. set_solver.
Qed.

Lemma is_ascii_app a b : is_ascii (a ++ b) = is_ascii a && is_ascii b.
Proof. apply forallb_app. Qed.

Lemma is_ascii_trim s : is_ascii s = true → is_ascii (trim s) = true.
Proof.
  unfold is_ascii. rewrite !forallb_forall. intros Hs c Hc. apply Hs.
  apply list_elem_of_In. eapply trim_elem, list_elem_of_In, Hc.
Qed.

Lemma lower_unit_idemp c : lower_unit (lower_unit c) = lower_unit c.
Proof. unfold lower_unit. repeat case_match; lia. Qed.

Lemma upper_unit_idemp c : upper_unit (upper_unit c) = upper_unit c.
Proof. unfold upper_unit. repeat case_match; lia. Qed.

Lemma is_ascii_lower s : is_ascii s = true → is_ascii (lower_unit <$> s) = true.
Proof.
  unfold is_ascii. rewrite !forallb_forall. intros H c Hc.
  apply in_map_iff in Hc as (x & <- & Hx). specialize (H x Hx).
  unfold lower_unit. case_match; lia.
Qed.

#[export] Hint Resolve str_eqb_refl words_no_sep drop_while_idemp : fblink.
