(* ===== verification/Json.v ===== *)
(** * JSON values

    What [response.json()] returns and what [JSON.stringify] takes.  The
    sources read backend answers through casts, without validation, so the
    model keeps the dynamic value: property access, optional chaining, spread
    and truthiness are defined on every value.  Object fields are an
    association list in insertion order with unique keys.  Numbers in the
    payloads of this program (prices in roubles, days, ids, counters) are
    integers. *)
From Stdlib Require Import ZArith.
From S2P Require Export JsString.

Inductive jval :=
| JUndefined
| JNull
| JBool (b : bool)
| JNum (n : Z)
| JStr (s : jstr)
| JArr (l : list jval)
| JObj (fs : list (jstr * jval)).

(** ** Objects *)

Definition obj_get (fs : list (jstr * jval)) (k : jstr) : jval :=
  from_option snd JUndefined (find_first (λ f, str_eqb f.1 k) fs).

Definition obj_has (fs : list (jstr * jval)) (k : jstr) : bool :=
  existsb (λ f, str_eqb f.1 k) fs.

Fixpoint obj_set (k : jstr) (v : jval) (fs : list (jstr * jval)) : list (jstr * jval) :=
  match fs with
  | [] => [(k, v)]
  | (k', v') :: fs => if str_eqb k' k then (k, v) :: fs else (k', v') :: obj_set k v fs
  end.

(** ** Dynamic operations *)

Definition nullish (v : jval) : bool :=
  match v with JUndefined | JNull => true | _ => false end.

Definition truthy (v : jval) : bool :=
  match v with
  | JUndefined | JNull => false
  | JBool b => b
  | JNum n => negb (n =? 0)
  | JStr s => str_truthy s
  | JArr _ | JObj _ => true
  end.

(** [v?.k], and [v.k] when [v] is not nullish.  The names the sources read
    are not properties of strings, numbers or arrays. *)
Definition get (v : jval) (k : jstr) : jval :=
  match v with JObj fs => obj_get fs k | _ => JUndefined end.

(** [v ?? d] and [v || d] *)
Definition coalesce (v d : jval) : jval := if nullish v then d else v.
Definition or_else (v d : jval) : jval := if truthy v then v else d.

Definition is_array (v : jval) : bool :=
  match v with JArr _ => true | _ => false end.

(** [v === "s"] *)
Definition is_str (v : jval) (s : jstr) : bool :=
  match v with JStr t => str_eqb t s | _ => false end.

(** Own enumerable properties, as an object spread copies them: arrays and
    strings have their indices, other primitives nothing. *)
Definition own_fields (v : jval) : list (jstr * jval) :=
  match v with
  | JObj fs => fs
  | JArr l => imap (λ i x, (num_str (Z.of_nat i), x)) l
  | JStr s => imap (λ i c, (num_str (Z.of_nat i), JStr [c])) s
  | _ => []
  end.

(** [{ ...a, ...v }] for the fields [fs] of [a]. *)
Definition spread (fs : list (jstr * jval)) (v : jval) : list (jstr * jval) :=
  foldl (λ acc f, obj_set f.1 f.2 acc) fs (own_fields v).

(** ** [JSON.stringify] *)

Definition hex_digit (n : Z) : Z := if n <? 10 then 48 + n else 87 + n.
Definition hex4 (n : Z) : jstr :=
  [hex_digit (n / 4096 mod 16); hex_digit (n / 256 mod 16);
   hex_digit (n / 16 mod 16); hex_digit (n mod 16)].

Definition is_high (c : Z) : bool := (55296 <=? c) && (c <=? 56319).
Definition is_low (c : Z) : bool := (56320 <=? c) && (c <=? 57343).

Definition escape_unit (c : Z) : jstr :=
  if c =? 34 then [92; 34]
  else if c =? 92 then [92; 92]
  else if c =? 8 then [92; 98]
  else if c =? 12 then [92; 102]
  else if c =? 10 then [92; 110]
  else if c =? 13 then [92; 114]
  else if c =? 9 then [92; 116]
  else if c <? 32 then [92; 117] ++ hex4 c
  else [c].

(** A surrogate outside a pair is written as an escape. *)
Fixpoint quote_body (s : jstr) : jstr :=
  match s with
  | [] => []
  | c :: s' =>
      if is_high c then
        match s' with
        | d :: s'' =>
            if is_low d then c :: d :: quote_body s''
            else [92; 117] ++ hex4 c ++ quote_body s'
        | [] => [92; 117] ++ hex4 c
        end
      else if is_low c then [92; 117] ++ hex4 c ++ quote_body s'
      else escape_unit c ++ quote_body s'
  end.

Definition quote (s : jstr) : jstr := dq ++ quote_body s ++ dq.

Definition is_undefined (v : jval) : bool :=
  match v with JUndefined => true | _ => false end.

(** The text of a value that is not [undefined]; [undefined] in an array is
    [null], and an object field whose value is [undefined] is left out. *)
Fixpoint stringify (v : jval) : jstr :=
  match v with
  | JUndefined | JNull => §"null"
  | JBool b => if b then §"true" else §"false"
  | JNum n => num_str n
  | JStr s => quote s
  | JArr l => §"[" ++ join §"," (map stringify l) ++ §"]"
  | JObj fs =>
      §"{" ++ join §","
        ((fix fields (fs : list (jstr * jval)) : list jstr :=
            match fs with
            | [] => []
            | (k, v) :: fs =>
                match v with
                | JUndefined => fields fs
                | _ => (quote k ++ §":" ++ stringify v) :: fields fs
                end
            end) fs) ++ §"}"
  end.

#[global] Arguments stringify : simpl never.

(** ** Template holes and [String(v)] on the values the sources print *)

Fixpoint to_text (v : jval) : jstr :=
  match v with
  | JUndefined => §"undefined"
  | JNull => §"null"
  | JBool b => if b then §"true" else §"false"
  | JNum n => num_str n
  | JStr s => s
  | JArr l => join §"," (map (λ v, if nullish v then [] else to_text v) l)
  | JObj _ => §"[object Object]"
  end.

(** ** Lemmas *)

Lemma obj_get_cons k v fs k' :
  obj_get ((k, v) :: fs) k' = if decide (k = k') then v else obj_get fs k'.
Proof.
  unfold obj_get. rewrite find_first_cons. simpl. unfold str_eqb.
  case_decide; [by rewrite bool_decide_eq_true_2|by rewrite bool_decide_eq_false_2].
Qed.

Lemma obj_get_set_eq k v fs : obj_get (obj_set k v fs) k = v.
Proof.
  induction fs as [|[k' v'] fs IH]; simpl.
  - by rewrite obj_get_cons, decide_True.
  - unfold str_eqb. case_bool_decide; rewrite obj_get_cons.
    + by rewrite decide_True.
    + by rewrite decide_False.
Qed.

Lemma obj_get_set_ne k v fs k' : k ≠ k' → obj_get (obj_set k v fs) k' = obj_get fs k'.
Proof.
  intros Hk. induction fs as [|[k1 v1] fs IH]; simpl.
  - by rewrite obj_get_cons, decide_False.
  - unfold str_eqb. case_bool_decide; subst; rewrite !obj_get_cons.
    + by rewrite !decide_False.
    + case_decide; [done|apply IH].
Qed.

Lemma obj_get_set k v fs k' :
  obj_get (obj_set k v fs) k' = if decide (k = k') then v else obj_get fs k'.
Proof.
  case_decide; subst; [apply obj_get_set_eq|by apply obj_get_set_ne].
Qed.

Lemma obj_has_set k v fs k' : obj_has (obj_set k v fs) k' = str_eqb k k' || obj_has fs k'.
Proof.
  unfold obj_has. induction fs as [|[k1 v1] fs IH]; simpl; [done|].
  destruct (str_eqb k1 k) eqn:E; simpl.
  - apply str_eqb_eq in E as ->. by rewrite orb_assoc, orb_diag.
  - rewrite IH, !orb_assoc. f_equal. apply orb_comm.
Qed.

(** A field the spread value does not have keeps its value. *)
Lemma obj_get_spread_other fs v k :
  obj_has (own_fields v) k = false → obj_get (spread fs v) k = obj_get fs k.
Proof.
  unfold spread. revert fs. induction (own_fields v) as [|[k1 v1] l IH]; intros fs; simpl; [done|].
  intros [H1 H2]%orb_false_iff. rewrite IH by done.
  apply obj_get_set_ne. apply bool_decide_eq_false in H1. done.
Qed.

(** A field of the spread value comes through when keys are unique. *)
Lemma obj_get_spread_own fs v k x :
  NoDup (own_fields v).*1 → (k, x) ∈ own_fields v → obj_get (spread fs v) k = x.
Proof.
  unfold spread. generalize (own_fields v). intros l. revert fs.
  induction l as [|[k1 v1] l IH]; intros fs Hnd Hin; simpl; [by apply elem_of_nil in Hin|].
  apply NoDup_cons in Hnd as [Hk Hnd]. simpl in *.
  apply elem_of_cons in Hin as [Heq|Hin]; [|by apply IH].
  injection Heq as -> ->. clear IH.
  assert (obj_get (obj_set k1 v1 fs) k1 = v1) as H0 by apply obj_get_set_eq.
  revert H0. generalize (obj_set k1 v1 fs). clear Hnd.
  induction l as [|[k2 v2] l IH]; intros fs' H0; simpl; [done|].
  apply IH; [set_solver|]. rewrite obj_get_set_ne by set_solver. done.
Qed.

Lemma obj_has_false_get fs k : obj_has fs k = false → obj_get fs k = JUndefined.
Proof.
  induction fs as [|[k1 v1] fs IH]; [done|]. simpl.
  intros [H1 H2]%orb_false_iff. rewrite obj_get_cons.
  apply bool_decide_eq_false in H1. rewrite decide_False by done. by apply IH.
Qed.

(** The spread of a value with unique keys, field by field. *)
Lemma obj_get_elem fs k : obj_has fs k = true → (k, obj_get fs k) ∈ fs.
Proof.
  induction fs as [|[k1 v1] fs IH]; [done|]. simpl. rewrite obj_get_cons.
  intros [E|H]%orb_true_iff.
  - apply str_eqb_eq in E as ->. rewrite decide_True by done. set_solver.
  - case_decide; subst; [set_solver|]. apply elem_of_cons. right. by apply IH.
Qed.

Lemma obj_get_spread fs v k :
  NoDup (own_fields v).*1 →
  obj_get (spread fs v) k =
  if obj_has (own_fields v) k then obj_get (own_fields v) k else obj_get fs k.
Proof.
  intros Hnd. destruct (obj_has (own_fields v) k) eqn:E.
  - apply obj_get_spread_own; [done|]. by apply obj_get_elem.
  - by apply obj_get_spread_other.
Qed.

(** Values a JSON text can denote: the keys of an object are unique. *)
Fixpoint jval_wf (v : jval) : bool :=
  match v with
  | JArr l => forallb jval_wf l
  | JObj fs => bool_decide (NoDup fs.*1) && forallb (λ f, jval_wf f.2) fs
  | _ => true
  end.

Lemma jval_wf_get v k : jval_wf v = true → jval_wf (get v k) = true.
Proof.
  destruct v as [| |b|n|s|l|fs]; try done. simpl. intros [_ H]%andb_true_iff.
  destruct (obj_has fs k) eqn:E.
  - apply obj_get_elem in E. rewrite forallb_forall in H.
    by apply (H (k, obj_get fs k)), list_elem_of_In.
  - by rewrite obj_has_false_get.
Qed.

Lemma jval_wf_fields v : jval_wf v = true → ∀ k, get v k ≠ JUndefined → NoDup (own_fields v).*1.
Proof.
  destruct v as [| |b|n|s|l|fs]; try done. simpl. intros [H _]%andb_true_iff _ _.
  by apply bool_decide_eq_true in H.
Qed.

Lemma get_own_fields v k : (∃ fs, v = JObj fs) → obj_get (own_fields v) k = get v k.
Proof. by intros [fs ->]. Qed.

(** Decidable equality of values. *)
#[export] Instance jval_eq_dec : EqDecision jval.
Proof.
  refine (fix go (x y : jval) {struct x} : {x = y} + {x ≠ y} := _).
  destruct x as [| |b|n|s|l|fs], y as [| |b'|n'|s'|l'|fs'];
    try (right; discriminate); try (by left).
  - destruct (bool_eq_dec b b'); [left|right]; congruence.
  - destruct (Z.eq_dec n n'); [left|right]; congruence.
  - destruct (decide (s = s')); [left|right]; congruence.
  - destruct (List.list_eq_dec go l l'); [left|right]; congruence.
  - destruct (List.list_eq_dec (λ p q : jstr * jval,
      match decide (p.1 = q.1), go p.2 q.2 with
      | left H1, left H2 => left (injective_projections p q H1 H2)
      | right H1, _ => right (λ H, H1 (f_equal fst H))
      | _, right H2 => right (λ H, H2 (f_equal snd H))
      end) fs fs'); [left|right]; congruence.
Defined.

(** Evaluate field tests between literal keys. *)
Ltac js_neq := let H := fresh in intros H; vm_compute in H; discriminate H.

Ltac js_keys :=
  repeat match goal with
  | |- context [decide (js ?a = js ?b)] =>
      first [ rewrite (decide_True (P := js a = js b)) by reflexivity
            | rewrite (decide_False (P := js a = js b)) by js_neq ]
  end.

Ltac js_fields :=
  repeat first [ rewrite obj_get_set | rewrite obj_get_cons | progress js_keys ].

#[export] Hint Rewrite obj_get_set_eq obj_get_cons : fblink.
