(* ===== verification/Effects.v ===== *)
(** * Effects

    Handlers of the sources read and write state outside themselves and can
    throw.  [M W A] is a computation on a world [W] that ends with a value or
    an exception and the world it leaves: the world changes made before a
    [throw] stay.  stdpp's bind notation is the sequencing of [await] and
    [;].  [preserves R c] is the proof principle the components use for
    properties of every path of a handler, including the throwing ones. *)
From S2P Require Export Json.

(** [throw new Error(msg)], or another value thrown. *)
Inductive exn :=
| ErrorExn (msg : jstr)
| ThrownValue (v : jval).

Inductive res (A : Type) :=
| Ok (a : A)
| Throw (e : exn).
#[global] Arguments Ok {A} _.
#[global] Arguments Throw {A} _.

Definition M (W A : Type) : Type := W → res A * W.

Section Monad.
Context {W : Type}.

#[global] Instance M_ret : MRet (M W) := λ A a w, (Ok a, w).

#[global] Instance M_bind : MBind (M W) := λ A B f c w,
  match c w with
  | (Ok a, w') => f a w'
  | (Throw e, w') => (Throw e, w')
  end.

Definition throw {A} (e : exn) : M W A := λ w, (Throw e, w).

Definition get_world : M W W := λ w, (Ok w, w).
Definition gets {A} (f : W → A) : M W A := λ w, (Ok (f w), w).
Definition modify (f : W → W) : M W unit := λ w, (Ok tt, f w).

(** [try { c } catch (e) { h(e) }] *)
Definition try_catch {A} (c : M W A) (h : exn → M W A) : M W A := λ w,
  match c w with
  | (Ok a, w') => (Ok a, w')
  | (Throw e, w') => h e w'
  end.

(** [try { c } finally { f }]: [f] runs on both paths, and its own exception
    replaces the outcome. *)
Definition try_finally {A} (c : M W A) (f : M W unit) : M W A := λ w,
  match c w with
  | (r, w') =>
      match f w' with
      | (Ok _, w'') => (r, w'')
      | (Throw e, w'') => (Throw e, w'')
      end
  end.

(** A value computed without effects that can throw. *)
Definition of_res {A} (r : res A) : M W A := λ w, (r, w).

(** [if (b) c] *)
Definition when (b : bool) (c : M W unit) : M W unit := if b then c else mret tt.

(** [for (i = 0; i < n; ++i) { if (body) return true/break; ... }]: runs
    [body] until it answers [Some], at most [n] times. *)
Fixpoint attempts {A} (n : nat) (body : M W (option A)) : M W (option A) :=
  match n with
  | O => mret None
  | S n =>
      r ← body;
      match r with
      | Some a => mret (Some a)
      | None => attempts n body
      end
  end.

(** A loop over an array with an early [return]. *)
Fixpoint for_first {A B} (l : list A) (body : A → M W (option B)) : M W (option B) :=
  match l with
  | [] => mret None
  | x :: l =>
      r ← body x;
      match r with
      | Some b => mret (Some b)
      | None => for_first l body
      end
  end.
End Monad.

(** [v.k], which throws on [null] and [undefined]. *)
Definition access {W} (v : jval) (k : jstr) : M W jval :=
  if nullish v then throw (ErrorExn (§"Cannot read properties of " ++ to_text v))
  else mret (get v k).

(** [err instanceof Error ? err.message : fallback] *)
Definition error_message (e : exn) (fallback : jstr) : jstr :=
  match e with
  | ErrorExn m => m
  | ThrownValue _ => fallback
  end.

(** ** Computation rules *)

Section Rules.
Context {W : Type}.
Implicit Types (w : W).

Lemma bind_run {A B} (c : M W A) (f : A → M W B) w :
  (c ≫= f) w = match c w with
               | (Ok a, w') => f a w'
               | (Throw e, w') => (Throw e, w')
               end.
Proof. done. Qed.

Lemma bind_assoc {A B C} (c : M W A) (f : A → M W B) (g : B → M W C) w :
  ((c ≫= f) ≫= g) w = (c ≫= λ x, f x ≫= g) w.
Proof. rewrite !bind_run. by destruct (c w) as [[?|?] ?]. Qed.

Lemma bind_ret {A} (c : M W A) w : (c ≫= mret) w = c w.
Proof. rewrite bind_run. by destruct (c w) as [[?|?] ?]. Qed.

(** Attempts that ended are not repeated by a larger bound. *)
Lemma attempts_more {A} n m (body : M W (option A)) w r w' :
  attempts n body w = (r, w') → r ≠ Ok None → (n ≤ m)%nat → attempts m body w = (r, w').
Proof.
  revert m w. induction n as [|n IH]; intros m w Hn Hr Hm.
  - injection Hn as <- _. done.
  - destruct m as [|m]; [lia|]. revert Hn. cbn [attempts]. rewrite !bind_run.
    destruct (body w) as [[[a|]|e] w1]; [done| |done]. intros Hn. apply IH; [done..|lia].
Qed.
End Rules.

(** ** Relations every path respects *)

Section Preserves.
Context {W : Type} (R : W → W → Prop) `{!PreOrder R}.

Definition preserves {A} (c : M W A) : Prop := ∀ w, R w (c w).2.

Lemma preserves_ret {A} (a : A) : preserves (mret a).
Proof. by intros w. Qed.

Lemma preserves_throw {A} e : preserves (throw (A:=A) e).
Proof. by intros w. Qed.

Lemma preserves_gets {A} (f : W → A) : preserves (gets f).
Proof. by intros w. Qed.

Lemma preserves_of_res {A} (r : res A) : preserves (of_res r).
Proof. by intros w. Qed.

Lemma preserves_modify f : (∀ w, R w (f w)) → preserves (modify f).
Proof. intros H w. apply H. Qed.

Lemma preserves_bind {A B} (c : M W A) (f : A → M W B) :
  preserves c → (∀ a, preserves (f a)) → preserves (c ≫= f).
Proof.
  intros Hc Hf w. rewrite bind_run. specialize (Hc w).
  destruct (c w) as [[a|e] w']; simpl in *; [|done].
  transitivity w'; [done|apply Hf].
Qed.

Lemma preserves_try_catch {A} (c : M W A) h :
  preserves c → (∀ e, preserves (h e)) → preserves (try_catch c h).
Proof.
  intros Hc Hh w. unfold try_catch. specialize (Hc w).
  destruct (c w) as [[a|e] w']; simpl in *; [done|].
  transitivity w'; [done|apply Hh].
Qed.

Lemma preserves_try_finally {A} (c : M W A) f :
  preserves c → preserves f → preserves (try_finally c f).
Proof.
  intros Hc Hf w. unfold try_finally. specialize (Hc w).
  destruct (c w) as [r w']; simpl in *. specialize (Hf w').
  destruct (f w') as [[?|?] w'']; simpl in *; by transitivity w'.
Qed.

Lemma preserves_when b c : preserves c → preserves (when b c).
Proof. destruct b; [done|]. intros _. apply preserves_ret. Qed.

Lemma preserves_access v k : preserves (access v k).
Proof. unfold access. case_match; [apply preserves_throw|apply preserves_ret]. Qed.

Lemma preserves_attempts {A} n (body : M W (option A)) :
  preserves body → preserves (attempts n body).
Proof.
  intros Hb. induction n as [|n IH]; simpl; [apply preserves_ret|].
  apply preserves_bind; [done|]. intros [a|]; [apply preserves_ret|done].
Qed.

Lemma preserves_for_first {A B} (l : list A) (body : A → M W (option B)) :
  (∀ x, preserves (body x)) → preserves (for_first l body).
Proof.
  intros Hb. induction l as [|x l IH]; simpl; [apply preserves_ret|].
  apply preserves_bind; [done|]. intros [a|]; [apply preserves_ret|done].
Qed.
End Preserves.

Create HintDb effects.

(** Decompose a handler into its calls, which the hints of the components
    that declare them close. *)
Ltac preserve_step :=
  lazymatch goal with
  | |- preserves _ (_ ≫= _) => apply preserves_bind; [tc_solve| |intros ?]
  | |- preserves _ (try_catch _ _) => apply preserves_try_catch; [tc_solve| |intros ?]
  | |- preserves _ (try_finally _ _) => apply preserves_try_finally; [tc_solve| |]
  | |- preserves _ (mret _) => apply preserves_ret; tc_solve
  | |- preserves _ (throw _) => apply preserves_throw; tc_solve
  | |- preserves _ (gets _) => apply preserves_gets; tc_solve
  | |- preserves _ (of_res _) => apply preserves_of_res; tc_solve
  | |- preserves _ (access _ _) => apply preserves_access; tc_solve
  | |- preserves _ (when _ _) => apply preserves_when; [tc_solve|]
  | |- preserves _ (attempts _ _) => apply preserves_attempts; [tc_solve|]
  | |- preserves _ (for_first _ _) => apply preserves_for_first; [tc_solve|intros ?]
  | |- preserves _ (match ?c with _ => _ end) => destruct c
  | |- preserves _ _ => solve [eauto 2 with effects]
  end.
Ltac preserve := repeat preserve_step.
