(* ===== verification/Encoding.v ===== *)
(** * Encodings: [encodeURIComponent], [unescape], [btoa]

    The text codecs the sources put in links: UTF-8 of a UTF-16 string,
    percent encoding and base64, with decoders to state the round trips. *)
From stdpp Require Import pretty.
From S2P Require Export Effects.

(** ** UTF-8 *)

Definition utf8_of_cp (cp : Z) : list Z :=
  if cp <? 128 then [cp]
  else if cp <? 2048 then [192 + cp / 64; 128 + cp mod 64]
  else if cp <? 65536 then [224 + cp / 4096; 128 + cp / 64 mod 64; 128 + cp mod 64]
  else [240 + cp / 262144; 128 + cp / 4096 mod 64; 128 + cp / 64 mod 64; 128 + cp mod 64].

(** [None]: a surrogate outside a pair. *)
Fixpoint utf8_encode (s : jstr) : option (list Z) :=
  match s with
  | [] => Some []
  | c :: s' =>
      if is_high c then
        match s' with
        | d :: s'' =>
            if is_low d
            then app (utf8_of_cp (65536 + (c - 55296) * 1024 + (d - 56320))) <$> utf8_encode s''
            else None
        | [] => None
        end
      else if is_low c then None
      else app (utf8_of_cp c) <$> utf8_encode s'
  end.

(** ** Percent encoding *)

Definition upper_hex (n : Z) : Z := if n <? 10 then 48 + n else 55 + n.

(** The characters [encodeURIComponent] leaves alone: [A-Z a-z 0-9] and
    [- _ . ! ~ * ' ( )]. *)
Definition unreserved (c : Z) : bool :=
  ((65 <=? c) && (c <=? 90)) || ((97 <=? c) && (c <=? 122)) || ((48 <=? c) && (c <=? 57)) ||
  bool_decide (c ∈ [45; 95; 46; 33; 126; 42; 39; 40; 41]).

Definition percent (b : Z) : jstr :=
  if unreserved b then [b] else [37; upper_hex (b / 16); upper_hex (b mod 16)].

Definition encodeURIComponent (s : jstr) : res jstr :=
  match utf8_encode s with
  | Some bs => Ok (bs ≫= percent)
  | None => Throw (ErrorExn §"URI malformed")
  end.

Definition hex_val (c : Z) : option Z :=
  if (48 <=? c) && (c <=? 57) then Some (c - 48)
  else if (65 <=? c) && (c <=? 70) then Some (c - 55)
  else if (97 <=? c) && (c <=? 102) then Some (c - 87)
  else None.

Definition hex_pair (s : jstr) : option (Z * jstr) :=
  match s with
  | a :: b :: s => x ← hex_val a; y ← hex_val b; Some (16 * x + y, s)
  | _ => None
  end.

(** What follows a percent sign: [uXXXX] or [XX]. *)
Definition escape_seq (s : jstr) : option (Z * jstr) :=
  match s with
  | c :: s' =>
      if c =? 117
      then '(x, r) ← hex_pair s'; '(y, r) ← hex_pair r; Some (256 * x + y, r)
      else hex_pair s
  | [] => None
  end.

(** [unescape]: an escape is decoded, anything else is copied.  The fuel is
    the length of the string. *)
Fixpoint unescape_go (fuel : nat) (s : jstr) : jstr :=
  match fuel, s with
  | O, _ | _, [] => s
  | S n, c :: s' =>
      if c =? 37 then
        match escape_seq s' with
        | Some (c, r) => c :: unescape_go n r
        | None => c :: unescape_go n s'
        end
      else c :: unescape_go n s'
  end.

Definition unescape (s : jstr) : jstr := unescape_go (length s) s.

(** ** Base64 *)

Definition b64_char (n : Z) : Z :=
  if n <? 26 then 65 + n
  else if n <? 52 then 71 + n
  else if n <? 62 then n - 4
  else if n =? 62 then 43 else 47.

Fixpoint base64 (l : list Z) : jstr :=
  match l with
  | a :: b :: c :: l =>
      b64_char (a / 4) :: b64_char (a mod 4 * 16 + b / 16) ::
      b64_char (b mod 16 * 4 + c / 64) :: b64_char (c mod 64) :: base64 l
  | [a; b] => [b64_char (a / 4); b64_char (a mod 4 * 16 + b / 16); b64_char (b mod 16 * 4); 61]
  | [a] => [b64_char (a / 4); b64_char (a mod 4 * 16); 61; 61]
  | [] => []
  end.

(** [btoa]: throws on a unit beyond Latin-1. *)
Definition btoa (s : jstr) : res jstr :=
  if forallb (λ c, (0 <=? c) && (c <? 256)) s then Ok (base64 s)
  else Throw (ErrorExn §"InvalidCharacterError").

Definition b64_val (c : Z) : Z :=
  if (65 <=? c) && (c <=? 90) then c - 65
  else if (97 <=? c) && (c <=? 122) then c - 71
  else if (48 <=? c) && (c <=? 57) then c + 4
  else if c =? 43 then 62 else 63.

Fixpoint unbase64 (s : jstr) : list Z :=
  match s with
  | p :: q :: r :: t :: s =>
      let x := b64_val p * 4 + b64_val q / 16 in
      if r =? 61 then [x] else
      let y := b64_val q mod 16 * 16 + b64_val r / 4 in
      if t =? 61 then [x; y] else
      x :: y :: (b64_val r mod 4 * 64 + b64_val t) :: unbase64 s
  | _ => []
  end.

(** ** Round trips *)

Definition is_unit (c : Z) : Prop := 0 ≤ c < 65536.
Definition is_byte (b : Z) : Prop := 0 ≤ b < 256.

Lemma b64_val_char n : 0 ≤ n < 64 → b64_val (b64_char n) = n.
Proof. intros Hn. unfold b64_char, b64_val. repeat case_match; lia. Qed.

Lemma b64_char_pad n : 0 ≤ n < 64 → (b64_char n =? 61) = false.
Proof. intros Hn. apply Z.eqb_neq. unfold b64_char. repeat case_match; lia. Qed.

Ltac euclid := Z.to_euclidean_division_equations; lia.

Lemma unbase64_base64 l : Forall is_byte l → unbase64 (base64 l) = l.
Proof.
  unfold is_byte. revert l. fix IH 1. intros [|a [|b [|c l]]] Hl.
  - done.
  - inversion_clear Hl as [|?? Ha _]. cbn [base64 unbase64].
    rewrite Z.eqb_refl, !b64_val_char by euclid. f_equal. euclid.
  - inversion_clear Hl as [|?? Ha Hl']. inversion_clear Hl' as [|?? Hb _]. cbn [base64 unbase64].
    rewrite !b64_val_char, b64_char_pad, Z.eqb_refl by euclid. f_equal; [euclid|]. f_equal. euclid.
  - inversion_clear Hl as [|?? Ha Hl']. inversion_clear Hl' as [|?? Hb Hl''].
    inversion_clear Hl'' as [|?? Hc Hl]. cbn [base64 unbase64].
    rewrite !b64_val_char, !b64_char_pad by euclid. rewrite IH by done.
    f_equal; [euclid|]. f_equal; [euclid|]. f_equal. euclid.
Qed.

Lemma utf8_of_cp_bytes cp : 0 ≤ cp < 1114112 → Forall is_byte (utf8_of_cp cp).
Proof.
  intros H. unfold utf8_of_cp, is_byte.
  repeat case_match; repeat constructor; euclid.
Qed.

Lemma utf8_decode_of_cp cp rest :
  0 ≤ cp < 1114112 → utf8_decode (utf8_of_cp cp ++ rest) = utf16_units cp ++ utf8_decode rest.
Proof.
  intros H. unfold utf8_of_cp, utf16_units.
  destruct (Z.ltb_spec cp 128); [|destruct (Z.ltb_spec cp 2048); [|destruct (Z.ltb_spec cp 65536)]].
  - cbn [app utf8_decode]. rewrite !(proj2 (Z.ltb_lt _ _)) by lia. done.
  - cbn [app utf8_decode]. rewrite (proj2 (Z.ltb_ge _ _)), !(proj2 (Z.ltb_lt _ _)) by euclid.
    cbn [app]. f_equal. euclid.
  - cbn [app utf8_decode]. rewrite !(proj2 (Z.ltb_ge _ _)), !(proj2 (Z.ltb_lt _ _)) by euclid.
    cbn [app]. f_equal. euclid.
  - cbn [app utf8_decode]. rewrite !(proj2 (Z.ltb_ge (240 + _) _)) by euclid.
    f_equal. unfold utf16_units.
    replace ((240 + cp / 262144 - 240) * 262144 + (128 + cp / 4096 mod 64 - 128) * 4096
             + (128 + cp / 64 mod 64 - 128) * 64 + (128 + cp mod 64 - 128)) with cp by euclid.
    by rewrite (proj2 (Z.ltb_ge cp 65536)) by lia.
Qed.

(** Induction over a string by code points. *)
Lemma units_ind (P : jstr → Prop) :
  P [] →
  (∀ c s, is_high c = false → P s → P (c :: s)) →
  (∀ c, is_high c = true → P [c]) →
  (∀ c d s, is_high c = true → is_low d = false → P (d :: s) → P (c :: d :: s)) →
  (∀ c d s, is_high c = true → is_low d = true → P s → P (c :: d :: s)) →
  ∀ s, P s.
Proof.
  intros Hnil Hbmp Hend Hlone Hpair s.
  induction s as [s IH] using (induction_ltof1 _ length). unfold ltof in IH.
  destruct s as [|c s]; [done|]. destruct (is_high c) eqn:Hc.
  - destruct s as [|d s]; [by apply Hend|]. destruct (is_low d) eqn:Hd.
    + apply Hpair; [done..|]. apply IH. simpl. lia.
    + apply Hlone; [done..|]. apply IH. simpl. lia.
  - apply Hbmp; [done|]. apply IH. simpl. lia.
Qed.

Lemma utf8_encode_bmp c s :
  is_high c = false → is_low c = false →
  utf8_encode (c :: s) = app (utf8_of_cp c) <$> utf8_encode s.
Proof. intros H1 H2. simpl. by rewrite H1, H2. Qed.

Lemma utf8_encode_pair c d s :
  is_high c = true → is_low d = true →
  utf8_encode (c :: d :: s) =
    app (utf8_of_cp (65536 + (c - 55296) * 1024 + (d - 56320))) <$> utf8_encode s.
Proof. intros H1 H2. simpl. by rewrite H1, H2. Qed.

Lemma pair_units c d :
  is_high c = true → is_low d = true →
  utf16_units (65536 + (c - 55296) * 1024 + (d - 56320)) = [c; d] ∧
  0 ≤ 65536 + (c - 55296) * 1024 + (d - 56320) < 1114112.
Proof.
  unfold is_high, is_low, utf16_units. intros [??]%andb_true_iff [??]%andb_true_iff.
  rewrite (proj2 (Z.ltb_ge _ _)) by lia. split; [|lia]. f_equal; [euclid|]. f_equal. euclid.
Qed.

(** Decoding the UTF-8 bytes of a string gives the string. *)
Lemma utf8_roundtrip s bs :
  Forall is_unit s → utf8_encode s = Some bs → utf8_decode bs = s ∧ Forall is_byte bs.
Proof.
  unfold is_unit. revert bs. induction s as [|c s Hc IH|c Hc|c d s Hc Hd _|c d s Hc Hd IH] using units_ind;
    intros bs Hu Hs.
  - by injection Hs as <-.
  - inversion_clear Hu as [|?? Hcu Hu']. destruct (is_low c) eqn:Hl; [simpl in Hs; by rewrite Hc, Hl in Hs|].
    rewrite utf8_encode_bmp in Hs by done. apply fmap_Some in Hs as (bs' & Hs & ->).
    destruct (IH bs' Hu' Hs) as [E Hb]. split.
    + rewrite utf8_decode_of_cp, E by lia. unfold utf16_units.
      by rewrite (proj2 (Z.ltb_lt _ _)) by lia.
    + apply Forall_app. split; [apply utf8_of_cp_bytes; lia|done].
  - simpl in Hs. by rewrite Hc in Hs.
  - simpl in Hs. by rewrite Hc, Hd in Hs.
  - inversion_clear Hu as [|?? _ Hu']. inversion_clear Hu' as [|?? _ Hu''].
    rewrite utf8_encode_pair in Hs by done. apply fmap_Some in Hs as (bs' & Hs & ->).
    destruct (IH bs' Hu'' Hs) as [E Hb]. destruct (pair_units c d Hc Hd) as [Eu Hr]. split.
    + by rewrite utf8_decode_of_cp, E, Eu by done.
    + apply Forall_app. split; [by apply utf8_of_cp_bytes|done].
Qed.

Lemma utf8_encode_app s t bs bt :
  utf8_encode s = Some bs → utf8_encode t = Some bt → utf8_encode (s ++ t) = Some (bs ++ bt).
Proof.
  intros Hs Ht. revert bs Hs.
  induction s as [|c s Hc IH|c Hc|c d s Hc Hd _|c d s Hc Hd IH] using units_ind; intros bs Hs.
  - by injection Hs as <-.
  - destruct (is_low c) eqn:Hl; [simpl in Hs; by rewrite Hc, Hl in Hs|]. simpl app.
    rewrite utf8_encode_bmp in Hs |- * by done. apply fmap_Some in Hs as (bs' & Hs & ->).
    rewrite (IH bs' Hs). simpl. by rewrite app_assoc.
  - simpl in Hs. by rewrite Hc in Hs.
  - simpl in Hs. by rewrite Hc, Hd in Hs.
  - simpl app. rewrite utf8_encode_pair in Hs |- * by done. apply fmap_Some in Hs as (bs' & Hs & ->).
    rewrite (IH bs' Hs). simpl. by rewrite app_assoc.
Qed.

(** ** Well-formed strings *)

Definition well_formed (s : jstr) : Prop := is_Some (utf8_encode s).

Lemma well_formed_app s t : well_formed s → well_formed t → well_formed (s ++ t).
Proof. intros [bs Hs] [bt Ht]. exists (bs ++ bt). by apply utf8_encode_app. Qed.

Lemma well_formed_unit c : is_high c = false → is_low c = false → well_formed [c].
Proof. intros H1 H2. unfold well_formed. rewrite utf8_encode_bmp by done. simpl. eauto. Qed.

Lemma well_formed_low s : Forall (λ c, c < 55296) s → well_formed s.
Proof.
  induction 1 as [|c s Hc Hs IH]; [by exists []|]. apply (well_formed_app [c]); [|done].
  apply well_formed_unit; unfold is_high, is_low; lia.
Qed.

Lemma well_formed_join sep l :
  well_formed sep → Forall well_formed l → well_formed (join sep l).
Proof.
  intros Hsep. induction 1 as [|x [|y l] Hx Hl IH]; [by exists []|done|].
  cbn [join] in *. by repeat apply well_formed_app.
Qed.

(** ** Percent encoding undone *)

Lemma hex_val_upper n : 0 ≤ n < 16 → hex_val (upper_hex n) = Some n.
Proof.
  intros Hn. unfold upper_hex, hex_val.
  repeat (case_match; try lia); f_equal; lia.
Qed.

Lemma upper_hex_not_u n : 0 ≤ n < 16 → upper_hex n ≠ 117.
Proof. intros Hn. unfold upper_hex. case_match; lia. Qed.

Lemma unescape_percent_go bs n :
  Forall is_byte bs → (length (bs ≫= percent) ≤ n)%nat → unescape_go n (bs ≫= percent) = bs.
Proof.
  intros Hb. revert n. induction Hb as [|b bs Hb Hbs IH]; intros n Hn; [by destruct n|].
  rewrite bind_cons in Hn |- *. unfold percent in *. destruct (unreserved b) eqn:Hu.
  - simpl in *. destruct n as [|n]; [lia|].
    assert (b ≠ 37) by (intros ->; vm_compute in Hu; discriminate).
    simpl. rewrite (proj2 (Z.eqb_neq b 37)) by done. f_equal. apply IH. lia.
  - simpl in *. destruct n as [|n]; [lia|]. unfold is_byte in Hb.
    simpl. rewrite (proj2 (Z.eqb_neq _ 117)) by (apply upper_hex_not_u; euclid).
    rewrite !hex_val_upper by euclid. simpl.
    replace (16 * (b / 16) + b mod 16) with b by euclid.
    by rewrite IH by lia.
Qed.

Lemma encodeURIComponent_decodes s :
  Forall is_unit s →
  (well_formed s ↔ ∃ e, encodeURIComponent s = Ok e) ∧
  ∀ e, encodeURIComponent s = Ok e →
    Forall (λ c, unreserved c = true ∨ c = 37) e ∧ utf8_decode (unescape e) = s.
Proof.
  intros Hu. unfold encodeURIComponent, well_formed.
  destruct (utf8_encode s) as [bs|] eqn:E; [|split; [split; [by intros [? ?]|naive_solver]|done]].
  split; [split; eauto|]. intros e [= <-].
  destruct (utf8_roundtrip s bs Hu E) as [Hd Hb]. split.
  - apply Forall_bind. eapply Forall_impl; [exact Hb|]. intros b Hbb. unfold percent, is_byte, compose in *.
    destruct (unreserved b) eqn:Hub; [apply Forall_singleton; by left|].
    assert (∀ n, 0 ≤ n < 16 → unreserved (upper_hex n) = true) as Hx.
    { intros n Hn. unfold unreserved, upper_hex. case_match; lia. }
    apply Forall_cons; split; [by right|]. apply Forall_cons; split; [left; apply Hx; euclid|].
    apply Forall_singleton. left. apply Hx. euclid.
  - unfold unescape. by rewrite unescape_percent_go.
Qed.

(** [encodeURIComponent] succeeds exactly on strings without lone
    surrogates, its output is in the ASCII range the URI grammar leaves
    unreserved plus percent signs, and undoing the escapes and the UTF-8
    gives the string back. *)
Theorem encodeURIComponent_roundtrip s :
  Forall is_unit s →
  (well_formed s ↔ ∃ e, encodeURIComponent s = Ok e) ∧
  ∀ e, encodeURIComponent s = Ok e →
    Forall (λ c, unreserved c = true ∨ c = 37) e ∧ utf8_decode (unescape e) = s.
Proof. apply encodeURIComponent_decodes. Qed.

Lemma encodeURIComponent_roundtrip_witness :
  ∃ e, encodeURIComponent [118; 105; 47; 1073; 55357; 56832] = Ok e ∧
       utf8_decode (unescape e) = [118; 105; 47; 1073; 55357; 56832].
Proof.
  eexists. split; [vm_compute; reflexivity|].
  apply (encodeURIComponent_roundtrip [118; 105; 47; 1073; 55357; 56832]).
  - repeat constructor; unfold is_unit; lia.
  - vm_compute. reflexivity.
Defined.

(** ** The text of a JSON value *)

(** A sequence of code units without lone surrogates. *)
Definition text (s : jstr) : Prop := well_formed s ∧ Forall is_unit s.

Lemma text_app s t : text s → text t → text (s ++ t).
Proof. intros [??] [??]. split; [by apply well_formed_app|by apply Forall_app]. Qed.

Lemma text_ascii s : Forall (λ c, 0 ≤ c < 128) s → text s.
Proof.
  intros Hs. split; [apply well_formed_low|]; (eapply Forall_impl; [exact Hs|]); unfold is_unit; simpl; lia.
Qed.

Lemma text_join sep l : text sep → Forall text l → text (join sep l).
Proof.
  intros Hsep. induction 1 as [|x [|y l] Hx Hl IH]; [by apply text_ascii|done|].
  cbn [join] in *. by repeat apply text_app.
Qed.

(** Decides [text] of a literal. *)
Definition asciib (s : jstr) : bool := forallb (λ c, (0 <=? c) && (c <? 128)) s.

Lemma text_asciib s : asciib s = true → text s.
Proof.
  unfold asciib. rewrite forallb_forall. intros H. apply text_ascii, Forall_forall.
  intros c Hc%list_elem_of_In. specialize (H c Hc). lia.
Qed.

Lemma hex4_text c : text (hex4 c).
Proof.
  apply text_ascii. unfold hex4, hex_digit.
  repeat constructor; case_match; euclid.
Qed.

Lemma text_unit c : is_high c = false → is_low c = false → is_unit c → text [c].
Proof. intros. split; [by apply well_formed_unit|by apply Forall_singleton]. Qed.

Lemma escape_unit_text c :
  is_high c = false → is_low c = false → is_unit c → text (escape_unit c).
Proof.
  intros H1 H2 Hu. unfold escape_unit.
  repeat (case_match; [by apply text_asciib|]).
  case_match; [apply text_app; [by apply text_asciib|apply hex4_text]|by apply text_unit].
Qed.

Lemma text_pair c d :
  is_high c = true → is_low d = true → text [c; d].
Proof.
  intros Hc Hd. split.
  - unfold well_formed. rewrite utf8_encode_pair by done. simpl. eauto.
  - unfold is_high, is_low in *. repeat constructor; unfold is_unit; lia.
Qed.

Lemma quote_body_text s : Forall is_unit s → text (quote_body s).
Proof.
  assert (∀ c, text ([92; 117] ++ hex4 c)) as Hesc.
  { intros c. apply text_app; [by apply text_asciib|apply hex4_text]. }
  induction s as [|c s Hc IH|c Hc|c d s Hc Hd IH|c d s Hc Hd IH] using units_ind; intros Hu.
  - by apply text_asciib.
  - inversion_clear Hu as [|?? Hcu Hu']. simpl. rewrite Hc. destruct (is_low c) eqn:Hl.
    + apply (text_app (_ :: _ :: hex4 c)); [apply (Hesc c)|by apply IH].
    + apply text_app; [by apply escape_unit_text|by apply IH].
  - simpl. rewrite Hc. apply (Hesc c).
  - inversion_clear Hu as [|?? _ Hu'].
    replace (quote_body (c :: d :: s)) with ([92; 117] ++ hex4 c ++ quote_body (d :: s))
      by (cbn [quote_body]; by rewrite Hc, Hd).
    rewrite app_assoc. apply text_app; [apply (Hesc c)|by apply IH].
  - inversion_clear Hu as [|?? _ Hu']. inversion_clear Hu' as [|?? _ Hu''].
    cbn [quote_body]. rewrite Hc, Hd. apply (text_app [c; d]); [by apply text_pair|by apply IH].
Qed.

Lemma quote_text s : Forall is_unit s → text (quote s).
Proof.
  intros Hs. unfold quote. repeat apply text_app; [by apply text_asciib|by apply quote_body_text|by apply text_asciib].
Qed.

Lemma Forall_filter_all {A} (P Q : A → Prop) `{∀ x, Decision (Q x)} l :
  Forall P l → Forall P (filter Q l).
Proof.
  rewrite !Forall_forall. intros Hl x [_ Hx]%list_elem_of_filter. by apply Hl.
Qed.

(** Decimal text is ASCII. *)
Lemma string_bytes_app a b : string_bytes (a +:+ b) = string_bytes a ++ string_bytes b.
Proof. induction a as [|x a IH]; [done|]. simpl. by rewrite IH. Qed.

Lemma js_ascii str :
  Forall (λ c, 0 ≤ c < 128) (string_bytes str) → Forall (λ c, 0 ≤ c < 128) (js str).
Proof.
  unfold js. generalize (string_bytes str) as l.
  induction 1 as [|b l Hb Hl IH]; [constructor|]. simpl.
  rewrite (proj2 (Z.ltb_lt _ _)) by lia. by constructor.
Qed.

Lemma pretty_N_ascii n s :
  Forall (λ c, 0 ≤ c < 128) (string_bytes s) →
  Forall (λ c, 0 ≤ c < 128) (string_bytes (pretty_N_go n s)).
Proof.
  revert s. induction (N.lt_wf_0 n) as [n _ IH]. intros s Hs.
  destruct (decide (0 < n)%N) as [Hn|Hn].
  - rewrite pretty_N_go_step by done. apply IH; [apply N.div_lt; lia|].
    simpl. constructor; [|done].
    unfold pretty_N_char. repeat case_match; simpl; lia.
  - replace n with 0%N by lia. by rewrite pretty_N_go_0.
Qed.

Lemma num_str_text n : text (num_str n).
Proof.
  apply text_ascii. unfold num_str. apply js_ascii.
  assert (∀ m : N, Forall (λ c, 0 ≤ c < 128) (string_bytes (pretty m))) as HN.
  { intros m. unfold pretty, pretty_N. case_decide; [repeat constructor; simpl; lia|].
    apply pretty_N_ascii. constructor. }
  destruct n as [|p|p]; [apply (HN 0%N)|apply (HN (Npos p))|].
  change (pretty (Z.neg p)) with ("-" +:+ pretty (Npos p)). rewrite string_bytes_app.
  apply Forall_app. split; [repeat constructor; simpl; lia|apply HN].
Qed.

(** Values whose strings are sequences of code units, as all strings of the
    language are. *)
Definition unitsb (s : jstr) : bool := forallb (λ c, (0 <=? c) && (c <? 65536)) s.

Fixpoint jval_units (v : jval) : bool :=
  match v with
  | JStr s => unitsb s
  | JArr l => forallb jval_units l
  | JObj fs => forallb (λ f, unitsb f.1 && jval_units f.2) fs
  | _ => true
  end.

Lemma unitsb_spec s : unitsb s = true ↔ Forall is_unit s.
Proof.
  unfold unitsb, is_unit. rewrite forallb_forall, Forall_forall.
  setoid_rewrite list_elem_of_In. split; intros H c Hc; specialize (H c Hc); lia.
Qed.

Lemma stringify_obj fs :
  stringify (JObj fs) = §"{" ++ join §","
    ((λ f : jstr * jval, quote f.1 ++ §":" ++ stringify f.2) <$>
       filter (λ f, f.2 ≠ JUndefined) fs) ++ §"}".
Proof.
  unfold stringify; fold stringify. f_equal. f_equal. f_equal.
  induction fs as [|[k v] fs IH]; [done|]. rewrite filter_cons.
  destruct v; simpl; first [exact IH | f_equal; exact IH].
Qed.

(** JSON text has no lone surrogates, whatever the strings in the value. *)
Lemma stringify_text v : jval_units v = true → text (stringify v).
Proof.
  revert v. fix IH 1. intros [| |b|n|s|l|fs] Hv.
  1, 2: by apply text_asciib.
  - destruct b; by apply text_asciib.
  - apply num_str_text.
  - by apply quote_text, unitsb_spec.
  - change (stringify (JArr l)) with (§"[" ++ join §"," (map stringify l) ++ §"]").
    apply text_app; [by apply text_asciib|]. apply text_app; [|by apply text_asciib].
    apply text_join; [by apply text_asciib|]. simpl in Hv. revert l Hv. fix IHl 1.
    intros [|x l] Hv; [constructor|]. simpl in *. apply andb_true_iff in Hv as [Hx Hl].
    constructor; [by apply IH|by apply IHl].
  - rewrite stringify_obj.
    apply text_app; [by apply text_asciib|]. apply text_app; [|by apply text_asciib].
    apply text_join; [by apply text_asciib|]. apply Forall_fmap, Forall_filter_all.
    cbn [jval_units] in Hv. revert fs Hv. fix IHf 1. intros [|[k x] fs] Hv; [constructor|]. cbn [forallb fst snd] in Hv.
    apply andb_true_iff in Hv as [[Hk Hx]%andb_true_iff Hl].
    constructor; [|by apply IHf]. unfold compose. cbn [fst snd].
    apply text_app; [by apply quote_text, unitsb_spec|]. apply (text_app §":"); [by apply text_asciib|].
    by apply IH.
Qed.
