(* ===== verification/JsonParse.v ===== *)
(** * [JSON.parse]

    A recursive descent reader for JSON texts whose numbers are integers: the
    values of this development have integer numbers only, and a number with a
    fraction or an exponent is not read.  Fuel bounds the nesting; the length
    of the text is always enough, since every level consumes a unit. *)
From S2P Require Export Json Encoding.

Definition json_space (c : Z) : bool := (c =? 32) || (c =? 9) || (c =? 10) || (c =? 13).

(** Four hexadecimal digits. *)
Definition hex_quad (s : jstr) : option (Z * jstr) :=
  '(a, s) ← hex_pair s;
  '(b, s) ← hex_pair s;
  Some (a * 256 + b, s).

Definition simple_escape (c : Z) : option Z :=
  if c =? 34 then Some 34 else if c =? 92 then Some 92 else if c =? 47 then Some 47
  else if c =? 98 then Some 8 else if c =? 102 then Some 12 else if c =? 110 then Some 10
  else if c =? 114 then Some 13 else if c =? 116 then Some 9 else None.

(** The body of a string literal, up to and including its closing quote. *)
Fixpoint string_body (fuel : nat) (s : jstr) : option (jstr * jstr) :=
  match fuel, s with
  | S fuel, c :: s' =>
      if c =? 34 then Some ([], s')
      else if c <? 32 then None
      else if c =? 92 then
        match s' with
        | [] => None
        | e :: s'' =>
            if e =? 117 then
              '(u, r) ← hex_quad s'';
              '(str, r) ← string_body fuel r;
              Some (u :: str, r)
            else
              u ← simple_escape e;
              '(str, r) ← string_body fuel s'';
              Some (u :: str, r)
        end
      else
        '(str, r) ← string_body fuel s';
        Some (c :: str, r)
  | _, _ => None
  end.

Definition is_digit (c : Z) : bool := (48 <=? c) && (c <=? 57).

Fixpoint digit_run (acc : Z) (s : jstr) : Z * jstr :=
  match s with
  | c :: s' => if is_digit c then digit_run (acc * 10 + (c - 48)) s' else (acc, s)
  | [] => (acc, [])
  end.

(** An integer literal; a leading zero stands alone. *)
Definition natural (s : jstr) : option (Z * jstr) :=
  match s with
  | c :: s' =>
      if is_digit c then
        let '(n, r) := if c =? 48 then (0, s') else digit_run (c - 48) s' in
        match r with
        | d :: _ => if (d =? 46) || (d =? 101) || (d =? 69) then None else Some (n, r)
        | [] => Some (n, r)
        end
      else None
  | [] => None
  end.

Definition number (s : jstr) : option (jval * jstr) :=
  match s with
  | c :: s' =>
      if c =? 45 then '(n, r) ← natural s'; Some (JNum (- n), r)
      else '(n, r) ← natural s; Some (JNum n, r)
  | [] => None
  end.

Definition keyword (w : jstr) (v : jval) (s : jstr) : option (jval * jstr) :=
  if starts_with w s then Some (v, drop (length w) s) else None.

(** [ws s] without leading white space. *)
Definition ws (s : jstr) : jstr := drop_while json_space s.

Fixpoint parse_value (fuel : nat) (s : jstr) : option (jval * jstr) :=
  match fuel with
  | O => None
  | S fuel =>
      match ws s with
      | [] => None
      | c :: s' =>
          if c =? 34 then '(str, r) ← string_body (S (length s')) s'; Some (JStr str, r)
          else if c =? 123 then
            match ws s' with
            | 125 :: r => Some (JObj [], r)
            | _ => parse_members fuel [] s'
            end
          else if c =? 91 then
            match ws s' with
            | 93 :: r => Some (JArr [], r)
            | _ => parse_elements fuel [] s'
            end
          else if c =? 116 then keyword §"true" (JBool true) (c :: s')
          else if c =? 102 then keyword §"false" (JBool false) (c :: s')
          else if c =? 110 then keyword §"null" JNull (c :: s')
          else number (c :: s')
      end
  end
with parse_members (fuel : nat) (acc : list (jstr * jval)) (s : jstr) : option (jval * jstr) :=
  match fuel with
  | O => None
  | S fuel =>
      match ws s with
      | 34 :: s' =>
          '(k, r) ← string_body (S (length s')) s';
          match ws r with
          | 58 :: r =>
              '(v, r) ← parse_value fuel r;
              let acc := obj_set k v acc in
              match ws r with
              | 44 :: r => parse_members fuel acc r
              | 125 :: r => Some (JObj acc, r)
              | _ => None
              end
          | _ => None
          end
      | _ => None
      end
  end
with parse_elements (fuel : nat) (acc : list jval) (s : jstr) : option (jval * jstr) :=
  match fuel with
  | O => None
  | S fuel =>
      '(v, r) ← parse_value fuel s;
      match ws r with
      | 44 :: r => parse_elements fuel (acc ++ [v]) r
      | 93 :: r => Some (JArr (acc ++ [v]), r)
      | _ => None
      end
  end.

Definition json_parse (s : jstr) : option jval :=
  match parse_value (S (length s)) s with
  | Some (v, r) => if str_truthy (ws r) then None else Some v
  | None => None
  end.

(** ** Reading back what [JSON.stringify] writes *)

Definition sample_json : jval :=
  JObj [(§"exists", JBool true); (§"PathName", JStr (dq ++ §"C:\Program Files\x.exe" ++ dq));
        (§"ExitCode", JNum (-1077)); (§"tags", JArr [JNull; JNum 0; JArr []; JObj []])].

Example json_parse_test :
  json_parse (stringify sample_json) = Some sample_json ∧
  json_parse §" [1 , 2 ] " = Some (JArr [JNum 1; JNum 2]) ∧
  json_parse §"[1,]" = None ∧ json_parse §"01" = None ∧ json_parse §"service_exe_missing" = None.
Proof. vm_compute. by split_and!. Qed.
