(* ===== verification/JsonRoundtrip.v ===== *)
(** * [JSON.parse] after [JSON.stringify]

    What one side of a connection writes is what the other reads:
    [JSON.stringify] leaves out the fields that are [undefined] and writes
    [null] for an [undefined] element, and reading the text gives back exactly
    that value ([clean]).  It holds for every value whose strings are code
    units and whose objects have unique keys; each reader is stated on its
    text followed by an arbitrary rest. *)
From stdpp Require Import pretty.
From S2P Require Export JsonParse.

(** ** Numbers *)

(** The value of a run of decimal digits. *)
Definition digits_value (ds : jstr) (acc : Z) : Z := foldl (λ a c, a * 10 + (c - 48)) acc ds.

Definition decimal (c : Z) : Prop := 48 ≤ c ≤ 57.

(** What may follow a number. *)
Definition ends_number (r : jstr) : Prop :=
  match r with
  | [] => True
  | c :: _ => is_digit c = false ∧ c ≠ 46 ∧ c ≠ 101 ∧ c ≠ 69
  end.

Lemma digit_is c : decimal c → is_digit c = true.
Proof. unfold decimal, is_digit. lia. Qed.

Lemma js_bytes str : Forall (λ c, 0 ≤ c < 128) (string_bytes str) → js str = string_bytes str.
Proof.
  unfold js. generalize (string_bytes str) as l.
  induction 1 as [|b l Hb Hl IH]; [done|]. simpl.
  rewrite (proj2 (Z.ltb_lt _ _)) by lia. by rewrite IH.
Qed.

Lemma pretty_char_value x : (x < 10)%N → Z.of_N (Ascii.N_of_ascii (pretty_N_char x)) = 48 + Z.of_N x.
Proof.
  intros Hx. assert (x = 0 ∨ x = 1 ∨ x = 2 ∨ x = 3 ∨ x = 4 ∨ x = 5 ∨ x = 6 ∨ x = 7 ∨ x = 8 ∨ x = 9)%N
    as Hc by lia.
  by repeat destruct Hc as [->|Hc]; [..|subst x].
Qed.

(** The digits of a positive number: their value is the number, and the
    first one is not zero. *)
Lemma pretty_go_digits n s :
  ∃ ds, string_bytes (pretty_N_go n s) = ds ++ string_bytes s ∧ Forall decimal ds ∧
        (∀ acc, digits_value ds acc = acc * 10 ^ Z.of_nat (length ds) + Z.of_N n) ∧
        ((0 < n)%N → ∃ d ds', ds = d :: ds' ∧ d ≠ 48).
Proof.
  revert s. induction (N.lt_wf_0 n) as [n _ IH]. intros s.
  destruct (decide (0 < n)%N) as [Hn|Hn].
  - rewrite pretty_N_go_step by done.
    set (c := pretty_N_char (n `mod` 10)).
    assert (n `mod` 10 < 10)%N as Hm by (apply N.mod_lt; lia).
    assert (n `div` 10 < n)%N as Hlt by (apply N.div_lt; lia).
    destruct (IH (n `div` 10)%N Hlt (String c s)) as (ds & E & Hd & Hv & Hh).
    pose proof (pretty_char_value _ Hm) as Hc. fold c in Hc.
    exists (ds ++ [48 + Z.of_N (n `mod` 10)]). split_and!.
    + rewrite E. simpl. by rewrite Hc, <-app_assoc.
    + apply Forall_app. split; [done|]. apply Forall_singleton. unfold decimal. clear -Hm. revert Hm. generalize (n `mod` 10)%N. lia.
    + intros acc. unfold digits_value in *. rewrite foldl_app, Hv, length_app. simpl.
      rewrite Nat2Z.inj_add, Z.pow_add_r by lia.
      rewrite N2Z.inj_div, N2Z.inj_mod. pose proof (Z.div_mod (Z.of_N n) 10). lia.
    + intros _. destruct ds as [|d ds].
      * exists (48 + Z.of_N (n `mod` 10)), []. split; [done|].
        specialize (Hv 0). unfold digits_value in Hv. simpl in Hv.
        assert (n `div` 10 = 0)%N as H0 by lia.
        apply N.div_small_iff in H0; [|done]. rewrite N.mod_small by done. lia.
      * destruct (N.eq_0_gt_0_cases (n `div` 10)) as [H0|Hq].
        -- rewrite H0, pretty_N_go_0 in E.
           apply (f_equal length) in E. rewrite length_app in E. simpl in E. lia.
        -- destruct (Hh Hq) as (d' & ds' & [= -> ->] & Hne). by eexists _, _.
  - replace n with 0%N by lia. rewrite pretty_N_go_0. exists []. split_and!; try done.
    intros acc. unfold digits_value. simpl. lia.
Qed.

Lemma digit_run_app ds r acc :
  Forall decimal ds → ends_number r → digit_run acc (ds ++ r) = (digits_value ds acc, r).
Proof.
  intros Hd Hr. revert acc. induction Hd as [|c ds Hc Hd IH]; intros acc; simpl.
  - destruct r as [|x r]; [done|]. simpl. destruct Hr as [-> _]. done.
  - rewrite (digit_is c) by done. apply IH.
Qed.

Lemma ends_number_check {A} (r : jstr) (x : A) :
  ends_number r →
  match r with
  | d :: _ => if (d =? 46) || (d =? 101) || (d =? 69) then None else Some x
  | [] => Some x
  end = Some x.
Proof.
  destruct r as [|d r]; [done|]. intros (_ & H1 & H2 & H3).
  by rewrite !(proj2 (Z.eqb_neq _ _)) by done.
Qed.

(** The text of a natural number. *)
Lemma pretty_N_text m : ∃ d ds,
  js (pretty m) = d :: ds ∧ Forall decimal (d :: ds) ∧ (d = 48 → ds = []) ∧
  digits_value (d :: ds) 0 = Z.of_N m.
Proof.
  destruct (decide (m = 0)%N) as [->|Hm]; [by exists 48, []; repeat constructor|].
  destruct (pretty_go_digits m "") as (ds & E & Hd & Hv & Hh).
  destruct (Hh ltac:(lia)) as (d & ds' & -> & Hne). exists d, ds'.
  assert (pretty m = pretty_N_go m "") as ->.
  { unfold pretty, pretty_N. by rewrite decide_False. }
  rewrite app_nil_r in E. split_and!; [|done|done|by rewrite Hv].
  rewrite js_bytes; [done|]. rewrite E. eapply Forall_impl; [exact Hd|].
  unfold decimal. intros; simpl in *; lia.
Qed.

Lemma natural_text m r : ends_number r → natural (js (pretty m) ++ r) = Some (Z.of_N m, r).
Proof.
  intros Hr. destruct (pretty_N_text m) as (d & ds & E & Hd & H0 & Hv). rewrite E.
  apply Forall_cons in Hd as [Hd Hds]. simpl. rewrite (digit_is d) by done.
  destruct (Z.eqb_spec d 48) as [->|Hne].
  - rewrite (H0 eq_refl) in *. replace (Z.of_N m) with 0 by (by rewrite <-Hv).
    by apply ends_number_check.
  - rewrite digit_run_app by done.
    replace (digits_value ds (d - 48)) with (Z.of_N m) by (by rewrite <-Hv).
    by apply ends_number_check.
Qed.

Lemma num_str_neg p : num_str (Z.neg p) = 45 :: js (pretty (Npos p)).
Proof. reflexivity. Qed.

Lemma num_str_nonneg n : 0 ≤ n → num_str n = js (pretty (Z.to_N n)).
Proof. by destruct n. Qed.

Lemma number_text n r : ends_number r → number (num_str n ++ r) = Some (JNum n, r).
Proof.
  intros Hr. destruct (decide (0 ≤ n)) as [Hn|Hn].
  - rewrite num_str_nonneg by done. pose proof (natural_text (Z.to_N n) r Hr) as Hnat.
    destruct (pretty_N_text (Z.to_N n)) as (d & ds & E & Hd & _).
    apply Forall_cons in Hd as [Hd _]. unfold decimal in Hd. rewrite E in *. simpl app in *.
    unfold number. rewrite (proj2 (Z.eqb_neq d 45)) by lia. rewrite Hnat. simpl.
    by rewrite Z2N.id.
  - destruct n as [|p|p]; [lia..|]. rewrite num_str_neg. simpl app. unfold number. simpl (45 =? 45).
    by rewrite natural_text.
Qed.

(** The first unit of a number: a digit or the minus sign. *)
Lemma num_str_head n : ∃ c s, num_str n = c :: s ∧ (c = 45 ∨ decimal c).
Proof.
  destruct (decide (0 ≤ n)) as [Hn|Hn].
  - rewrite num_str_nonneg by done. destruct (pretty_N_text (Z.to_N n)) as (d & ds & E & Hd & _).
    apply Forall_cons in Hd as [Hd _]. exists d, ds. auto.
  - destruct n as [|p|p]; [lia..|]. eexists _, _. split; [apply num_str_neg|]. by left.
Qed.

(** Every unit of a number. *)
Lemma num_str_units n : Forall (λ c, c = 45 ∨ decimal c) (num_str n).
Proof.
  assert (∀ m : N, Forall (λ c, c = 45 ∨ decimal c) (js (pretty m))) as Hm.
  { intros m. destruct (pretty_N_text m) as (d & ds & -> & Hd & _).
    eapply Forall_impl; [exact Hd|]. by right. }
  destruct n as [|p|p]; [apply (Hm 0%N)|apply (Hm (Npos p))|].
  rewrite num_str_neg. constructor; [by left|apply Hm].
Qed.

(** ** Strings *)

Lemma hex_val_digit n : 0 ≤ n < 16 → hex_val (hex_digit n) = Some n.
Proof.
  intros Hn. unfold hex_digit, hex_val.
  repeat (case_match; try lia); f_equal; lia.
Qed.

Lemma hex_quad_hex4 c r : is_unit c → hex_quad (hex4 c ++ r) = Some (c, r).
Proof.
  unfold is_unit. intros Hc. unfold hex_quad, hex4. simpl.
  do 2 (rewrite !hex_val_digit by (apply Z.mod_pos_bound; lia); simpl).
  change 4096 with (16 * 16 * 16). change 256 with (16 * 16) at 1. rewrite <-!Z.div_div by lia.
  rewrite (Z.mod_small (c / 16 / 16 / 16)) by euclid. do 2 f_equal.
  pose proof (Z.div_mod c 16). pose proof (Z.div_mod (c / 16) 16).
  pose proof (Z.div_mod (c / 16 / 16) 16). lia.
Qed.

(** One more unit of a string that is read from escaped text. *)
Lemma string_body_hex c t r s n :
  is_unit c → string_body n t = Some (s, r) →
  string_body (S n) ([92; 117] ++ hex4 c ++ t) = Some (c :: s, r).
Proof.
  intros Hc E. simpl app. cbn [string_body]. simpl.
  change (hex_digit (c / 4096 mod 16) :: hex_digit (c / 256 mod 16) :: hex_digit (c / 16 mod 16)
            :: hex_digit (c mod 16) :: t) with (hex4 c ++ t).
  rewrite hex_quad_hex4 by done. simpl. by rewrite E.
Qed.

Lemma string_body_plain c t r s n :
  32 ≤ c → c ≠ 34 → c ≠ 92 → string_body n t = Some (s, r) →
  string_body (S n) (c :: t) = Some (c :: s, r).
Proof.
  intros H1 H2 H3 E. cbn [string_body].
  rewrite !(proj2 (Z.eqb_neq _ _)), (proj2 (Z.ltb_ge _ _)) by done. by rewrite E.
Qed.

Lemma string_body_escape c t r s n :
  is_unit c → string_body n t = Some (s, r) →
  string_body (S n) (escape_unit c ++ t) = Some (c :: s, r).
Proof.
  intros Hc E. unfold escape_unit.
  repeat (match goal with |- context [if ?x =? ?y then _ else _] => destruct (Z.eqb_spec x y) end;
          [subst; simpl; by rewrite E|]).
  destruct (Z.ltb_spec c 32).
  - rewrite <-app_assoc. by apply string_body_hex.
  - apply string_body_plain; [lia|done|done|exact E].
Qed.

Lemma string_body_more n m s x :
  string_body n s = Some x → (n ≤ m)%nat → string_body m s = Some x.
Proof.
  revert m s x. induction n as [|n IH]; intros m s x; [done|].
  destruct m as [|m]; [lia|]. intros E Hm. destruct s as [|c s]; [done|]. cbn [string_body] in *.
  destruct (c =? 34); [done|]. destruct (c <? 32); [done|].
  destruct (c =? 92).
  - destruct s as [|e s]; [done|]. destruct (e =? 117).
    + destruct (hex_quad s) as [[u r]|]; [|done]. simpl in *.
      destruct (string_body n r) as [y|] eqn:Er; [|done]. by rewrite (IH m r y) by (done || lia).
    + destruct (simple_escape e) as [u|]; [|done]. simpl in *.
      destruct (string_body n s) as [y|] eqn:Er; [|done]. by rewrite (IH m s y) by (done || lia).
  - destruct (string_body n s) as [y|] eqn:Er; [|done]. by rewrite (IH m s y) by (done || lia).
Qed.

Lemma surrogate_plain c : is_high c = true ∨ is_low c = true → 32 ≤ c ∧ c ≠ 34 ∧ c ≠ 92.
Proof. unfold is_high, is_low. lia. Qed.

Lemma quote_body_lone c d s :
  is_high c = true → is_low d = false →
  quote_body (c :: d :: s) = [92; 117] ++ hex4 c ++ quote_body (d :: s).
Proof. intros Hc Hd. cbn [quote_body]. by rewrite Hc, Hd. Qed.

(** The text of a string is read back, up to the closing quote. *)
Lemma string_body_quote s r :
  Forall is_unit s → string_body (S (length s)) (quote_body s ++ 34 :: r) = Some (s, r).
Proof.
  induction s as [|c s Hc IH|c Hc|c d s Hc Hd IH|c d s Hc Hd IH] using units_ind; intros Hs.
  - done.
  - apply Forall_cons in Hs as [Hu Hs]. cbn [quote_body]. rewrite Hc.
    destruct (is_low c); rewrite <-?app_assoc.
    + apply string_body_hex; auto.
    + apply string_body_escape; auto.
  - apply Forall_cons in Hs as [Hu Hs]. cbn [quote_body]. rewrite Hc, <-app_assoc.
    by apply string_body_hex.
  - apply Forall_cons in Hs as [Hu Hs].
    rewrite (quote_body_lone c d s), <-!app_assoc by done. apply string_body_hex; auto.
  - apply Forall_cons in Hs as [Hu [Hu' Hs]%Forall_cons]. cbn [quote_body]. rewrite Hc, Hd.
    destruct (surrogate_plain c) as (? & ? & ?); [by left|].
    destruct (surrogate_plain d) as (? & ? & ?); [by right|]. simpl app.
    apply string_body_plain; [done..|]. apply string_body_plain; auto.
Qed.

Lemma quote_body_length s : (length s ≤ length (quote_body s))%nat.
Proof.
  induction s as [|c s Hc IH|c Hc|c d s Hc Hd IH|c d s Hc Hd IH] using units_ind.
  - done.
  - cbn [quote_body]. rewrite Hc. destruct (is_low c); rewrite ?length_app; simpl; [lia|].
    unfold escape_unit. repeat case_match; simpl; lia.
  - cbn [quote_body]. rewrite Hc. simpl. lia.
  - rewrite (quote_body_lone c d s) by done. rewrite !length_app. simpl length in *. lia.
  - cbn [quote_body]. rewrite Hc, Hd. simpl. lia.
Qed.

Lemma string_text s r :
  Forall is_unit s →
  string_body (S (length (quote_body s ++ 34 :: r))) (quote_body s ++ 34 :: r) = Some (s, r).
Proof.
  intros Hs. eapply string_body_more; [by apply string_body_quote|].
  pose proof (quote_body_length s). rewrite length_app. lia.
Qed.

(** ** Values *)

(** What is left of a value in its text. *)
Fixpoint clean (v : jval) : jval :=
  match v with
  | JUndefined => JNull
  | JArr l => JArr (map clean l)
  | JObj fs =>
      JObj ((fix fields (fs : list (jstr * jval)) : list (jstr * jval) :=
               match fs with
               | [] => []
               | (k, v) :: fs =>
                   match v with
                   | JUndefined => fields fs
                   | _ => (k, clean v) :: fields fs
                   end
               end) fs)
  | _ => v
  end.

Definition defined (fs : list (jstr * jval)) : list (jstr * jval) :=
  filter (λ f, f.2 ≠ JUndefined) fs.

Definition clean_field (f : jstr * jval) : jstr * jval := (f.1, clean f.2).

Lemma clean_obj fs : clean (JObj fs) = JObj (clean_field <$> defined fs).
Proof.
  simpl. f_equal. unfold defined. induction fs as [|[k v] fs IH]; [done|]. rewrite filter_cons.
  destruct v; simpl; first [exact IH | f_equal; exact IH].
Qed.

(** Induction through the arrays and objects of a value. *)
Lemma jval_nested_ind (P : jval → Prop) :
  (∀ v, (∀ l, v ≠ JArr l) → (∀ fs, v ≠ JObj fs) → P v) →
  (∀ l, Forall P l → P (JArr l)) →
  (∀ fs, Forall (λ f, P f.2) fs → P (JObj fs)) →
  ∀ v, P v.
Proof.
  intros H0 Ha Ho. fix IH 1. intros [| |b|n|s|l|fs]; try (apply H0; discriminate).
  - apply Ha. induction l as [|v l IHl]; constructor; [apply IH|exact IHl].
  - apply Ho. induction fs as [|[k v] fs IHf]; constructor; [apply IH|exact IHf].
Qed.

(** What follows a value inside a text, or at its end. *)
Definition follows (r : jstr) : Prop :=
  match r with [] => True | c :: _ => c = 44 ∨ c = 93 ∨ c = 125 end.

Lemma follows_ends r : follows r → ends_number r.
Proof. destruct r as [|c r]; [done|]. by intros [->|[->| ->]]. Qed.

(** The first unit of the text of a value. *)
Definition opener (c : Z) : Prop := json_space c = false ∧ c ≠ 93 ∧ c ≠ 125.

Lemma stringify_head v : ∃ c s, stringify v = c :: s ∧ opener c.
Proof.
  destruct v as [| |b|n|s|l|fs].
  4: { destruct (num_str_head n) as (c & s & E & Hc). exists c, s. split; [exact E|].
       unfold opener, json_space, decimal in *. lia. }
  3: destruct b.
  all: eexists _, _; split; [reflexivity|split; [reflexivity|split; discriminate]].
Qed.

Lemma ws_opener c s : json_space c = false → ws (c :: s) = c :: s.
Proof. apply drop_while_fix. Qed.

Lemma ws_stringify v r : ws (stringify v ++ r) = stringify v ++ r.
Proof. destruct (stringify_head v) as (c & s & -> & Hc & _). by apply ws_opener. Qed.

(** A value is read back from its text. *)
Definition reads (v : jval) : Prop :=
  ∀ fuel r, follows r → (length (stringify v) < fuel)%nat →
  parse_value fuel (stringify v ++ r) = Some (clean v, r).

Lemma join_cons sep x l : l ≠ [] → join sep (x :: l) = x ++ sep ++ join sep l.
Proof. by destruct l. Qed.

Lemma parse_elements_text l acc fuel r :
  l ≠ [] → Forall reads l → (length (join §"," (map stringify l)) + 1 < fuel)%nat →
  parse_elements fuel acc (join §"," (map stringify l) ++ 93 :: r)
  = Some (JArr (acc ++ map clean l), r).
Proof.
  intros Hne Hl. revert acc fuel Hne. induction Hl as [|v l Hv Hl IH]; intros acc fuel Hne Hf; [done|].
  destruct fuel as [|fuel]; [lia|]. cbn [parse_elements]. destruct l as [|v' l].
  - simpl join in *. rewrite Hv; [|by right; left|simpl in Hf; lia]. done.
  - cbn [map] in *. cbn [join] in *. rewrite !length_app in Hf.
    rewrite <-!app_assoc, Hv; [|by left|lia]. simpl.
    rewrite IH; [by rewrite <-app_assoc|done|]. change (length §",") with 1%nat in Hf. simpl map. lia.
Qed.

Definition field_text (f : jstr * jval) : jstr := quote f.1 ++ §":" ++ stringify f.2.

Lemma obj_set_fresh k v fs : k ∉ fs.*1 → obj_set k v fs = fs ++ [(k, v)].
Proof.
  induction fs as [|[k' v'] fs IH]; [done|]. rewrite fmap_cons. simpl. intros Hk.
  unfold str_eqb. rewrite bool_decide_eq_false_2 by set_solver. f_equal. apply IH. set_solver.
Qed.

Lemma parse_members_text fs acc fuel r :
  fs ≠ [] → Forall (λ f, reads f.2) fs → Forall (λ f, Forall is_unit f.1) fs →
  NoDup (acc.*1 ++ fs.*1) → (length (join §"," (field_text <$> fs)) + 1 < fuel)%nat →
  parse_members fuel acc (join §"," (field_text <$> fs) ++ 125 :: r)
  = Some (JObj (acc ++ (clean_field <$> fs)), r).
Proof.
  intros Hne Hl. revert acc fuel Hne.
  induction Hl as [|[k v] fs Hv Hl IH]; intros acc fuel Hne Hu Hnd Hf; [done|].
  apply Forall_cons in Hu as [Hk Hu]. destruct fuel as [|fuel]; [lia|]. cbn [fst snd] in *.
  assert (k ∉ acc.*1) as Hfresh.
  { apply NoDup_app in Hnd as (_ & Hd & _). intros Hin. apply (Hd k Hin). by left. }
  assert (∀ t, parse_members (S fuel) acc (field_text (k, v) ++ t) =
    '(v, r) ← parse_value fuel (stringify v ++ t);
    match ws r with
    | 44 :: r => parse_members fuel (acc ++ [(k, v)]) r
    | 125 :: r => Some (JObj (acc ++ [(k, v)]), r)
    | _ => None
    end) as Hstep.
  { intros t. unfold field_text, quote. rewrite <-!app_assoc. simpl app. cbn [parse_members].
    change (ws (34 :: ?s)) with (34 :: s). cbv iota. rewrite string_text by done. simpl.
    destruct (parse_value fuel (stringify v ++ t)) as [[v1 r1]|]; [|done]. simpl.
    by rewrite obj_set_fresh. }
  destruct fs as [|f' fs].
  - cbn [fmap list_fmap join] in *. rewrite Hstep, Hv; [done|by right; right|].
    unfold field_text in Hf. rewrite !length_app in Hf. simpl in Hf. lia.
  - rewrite fmap_cons, join_cons, !length_app in Hf by done. rewrite fmap_cons, join_cons by done.
    rewrite <-!app_assoc, Hstep, Hv; [|by left|].
    2: { unfold field_text in Hf. rewrite !length_app in Hf. simpl in Hf. lia. }
    simpl app. simpl ws. cbv iota beta. simpl mbind. cbv iota beta.
    change ((k, v) :: f' :: fs) with ([(k, v)] ++ (f' :: fs)) in Hnd.
    rewrite IH; [by rewrite <-app_assoc|done|done| |].
    + rewrite fmap_app, <-app_assoc. exact Hnd.
    + change (length §",") with 1%nat in Hf. lia.
Qed.

Lemma join_head sep l c s :
  head l = Some (c :: s) → ∃ t, join sep l = c :: t.
Proof. destruct l as [|x [|y l]]; simpl; intros [= ->]; eauto. Qed.

Lemma stringify_arr_text l : stringify (JArr l) = 91 :: join §"," (map stringify l) ++ [93].
Proof. reflexivity. Qed.

Lemma stringify_obj_text fs :
  stringify (JObj fs) = 123 :: join §"," (field_text <$> defined fs) ++ [125].
Proof. rewrite stringify_obj. reflexivity. Qed.

(** An array or an object with a first member is read member by member. *)
Lemma parse_value_array fuel c s :
  opener c → parse_value (S fuel) (91 :: c :: s) = parse_elements fuel [] (c :: s).
Proof.
  intros (Hs & H93 & _). cbn [parse_value]. rewrite ws_opener by done. cbv iota. simpl Z.eqb. cbv iota.
  rewrite ws_opener by done. repeat (case_match; try done).
Qed.

Lemma parse_value_object fuel s :
  parse_value (S fuel) (123 :: 34 :: s) = parse_members fuel [] (34 :: s).
Proof. done. Qed.

Lemma reads_array l : Forall reads l → reads (JArr l).
Proof.
  intros Hl fuel r Hr Hf. rewrite stringify_arr_text in *. simpl app.
  destruct fuel as [|fuel]; [lia|]. destruct l as [|v l]; [done|].
  destruct (stringify_head v) as (c & s & E & Hc).
  destruct (join_head §"," (map stringify (v :: l)) c s) as [t Et]; [simpl; by rewrite E|].
  cbn [length] in Hf. rewrite length_app in Hf. cbn [length] in Hf.
  rewrite <-app_assoc. simpl ([93] ++ r). rewrite Et. simpl app.
  rewrite parse_value_array by done. change (c :: t ++ 93 :: r) with ((c :: t) ++ 93 :: r).
  rewrite <-Et. rewrite parse_elements_text; [done..|lia].
Qed.

Lemma reads_object fs :
  NoDup fs.*1 → Forall (λ f, Forall is_unit f.1) fs → Forall (λ f, reads f.2) fs →
  reads (JObj fs).
Proof.
  intros Hnd Hu Hl fuel r Hr Hf. rewrite clean_obj. rewrite stringify_obj_text in *. simpl app.
  assert (NoDup (defined fs).*1) as Hnd'.
  { unfold defined. clear -Hnd. induction fs as [|f fs IH]; [constructor|].
    rewrite fmap_cons in Hnd. apply NoDup_cons in Hnd as [Hf Hnd]. rewrite filter_cons.
    case_decide; [|by apply IH]. rewrite fmap_cons. apply NoDup_cons. split; [|by apply IH].
    intros (g & Eg & Hg)%list_elem_of_fmap. apply Hf. rewrite Eg.
    apply list_elem_of_fmap_2. by apply list_elem_of_filter in Hg as [_ Hg]. }
  assert (Forall (λ f, Forall is_unit f.1) (defined fs)) as Hu' by (by apply Forall_filter_all).
  assert (Forall (λ f, reads f.2) (defined fs)) as Hl' by (by apply Forall_filter_all).
  destruct fuel as [|fuel]; [lia|]. destruct (defined fs) as [|[k v] gs] eqn:Ed; [done|].
  cbn [length] in Hf. rewrite length_app in Hf. cbn [length] in Hf.
  rewrite <-app_assoc. simpl ([125] ++ r).
  destruct (join_head §"," (field_text <$> (k, v) :: gs) 34
              (quote_body k ++ dq ++ §":" ++ stringify v)) as [t Et].
  { simpl. unfold field_text, quote. by rewrite <-!app_assoc. }
  rewrite Et. simpl app. rewrite parse_value_object.
  change (34 :: t ++ 125 :: r) with ((34 :: t) ++ 125 :: r). rewrite <-Et.
  rewrite parse_members_text; [done..|exact Hnd'|lia].
Qed.

Lemma reads_number n : reads (JNum n).
Proof.
  intros fuel r Hr Hf. destruct fuel as [|fuel]; [lia|].
  change (stringify (JNum n)) with (num_str n).
  pose proof (number_text n r (follows_ends r Hr)) as Hn.
  destruct (num_str_head n) as (c & s & E & Hc). rewrite E in *. simpl app in *.
  cbn [parse_value]. rewrite ws_opener by (unfold json_space, decimal in *; lia).
  rewrite !(proj2 (Z.eqb_neq _ _)) by (unfold decimal in Hc; lia). exact Hn.
Qed.

Lemma reads_string s : Forall is_unit s → reads (JStr s).
Proof.
  intros Hs fuel r Hr Hf. destruct fuel as [|fuel]; [lia|].
  change (stringify (JStr s)) with (34 :: quote_body s ++ [34]). simpl app. rewrite <-app_assoc.
  cbn [parse_value]. change (ws (34 :: ?t)) with (34 :: t). cbv iota. simpl Z.eqb. cbv iota.
  simpl ([34] ++ r). by rewrite string_text.
Qed.

Lemma reads_keyword v r :
  v ∈ [JUndefined; JNull; JBool true; JBool false] →
  ∀ fuel, parse_value (S fuel) (stringify v ++ r) = Some (clean v, r).
Proof.
  rewrite !elem_of_cons, elem_of_nil. by intros [->|[->|[->|[->|[]]]]].
Qed.

Lemma stringify_reads v : jval_wf v = true → jval_units v = true → reads v.
Proof.
  induction v as [v Ha Ho|l IH|fs IH] using jval_nested_ind; intros Hw Hu.
  - destruct v as [| |[]|n|s|l|fs]; [..|by destruct (Ha l)|by destruct (Ho fs)].
    5: apply reads_number.
    5: by apply reads_string, unitsb_spec.
    all: intros [|fuel] r _ Hf; [lia|]; apply reads_keyword; rewrite !elem_of_cons; auto 8.
  - apply reads_array. simpl in Hw, Hu. rewrite forallb_forall in Hw, Hu. rewrite Forall_forall in IH |- *.
    intros v Hv. apply IH; [done|by apply Hw, list_elem_of_In|by apply Hu, list_elem_of_In].
  - simpl in Hw. apply andb_true_iff in Hw as [Hnd Hw]. apply bool_decide_eq_true in Hnd.
    cbn [jval_units] in Hu. rewrite forallb_forall in Hw, Hu. rewrite Forall_forall in IH.
    assert (∀ f, f ∈ fs → unitsb f.1 = true ∧ jval_units f.2 = true ∧ jval_wf f.2 = true) as Hf.
    { intros f Hf%list_elem_of_In. specialize (Hu f Hf). specialize (Hw f Hf).
      apply andb_true_iff in Hu as [? ?]. done. }
    apply reads_object; [done| |]; apply Forall_forall; intros f Hin;
      destruct (Hf f Hin) as (? & ? & ?); [by apply unitsb_spec|by apply IH].
Qed.

(** Reading back what was written. *)
Lemma json_parse_stringify v :
  jval_wf v = true → jval_units v = true → json_parse (stringify v) = Some (clean v).
Proof.
  intros Hw Hu. unfold json_parse. rewrite <-(app_nil_r (stringify v)) at 2.
  rewrite stringify_reads; [done..|lia].
Qed.

(** What is left out of a text does not show in the text. *)
Lemma stringify_clean v : stringify (clean v) = stringify v.
Proof.
  induction v as [v Ha Ho|l IH|fs IH] using jval_nested_ind.
  - destruct v; try done; [by destruct (Ha l)|by destruct (Ho fs)].
  - cbn [clean]. rewrite !stringify_arr_text. do 3 f_equal. rewrite map_map.
    induction IH as [|v l Hv Hl IHl]; [done|]. simpl. by rewrite Hv, IHl.
  - rewrite clean_obj, !stringify_obj_text. do 3 f_equal. unfold defined.
    induction IH as [|[k v] fs Hv Hl IHl]; [done|]. rewrite filter_cons.
    case_decide as Hd; [|exact IHl]. rewrite fmap_cons, filter_cons_True.
    + rewrite !fmap_cons. f_equal; [|exact IHl]. unfold field_text. simpl in *. by rewrite Hv.
    + simpl in *. destruct v; simpl; done.
Qed.

(** The text of a value that went through the wire once is the same text. *)
Lemma stringify_parse_stringify v w :
  jval_wf v = true → jval_units v = true → json_parse (stringify v) = Some w →
  stringify w = stringify v.
Proof. intros Hw Hu. rewrite json_parse_stringify by done. intros [= <-]. apply stringify_clean. Qed.
