(* ===== verification/Http.v ===== *)
(** * HTTP messages and [fetch]

    Requests and responses as the handlers see them.  [Fetch W] is what a
    handler needs of its surroundings: the server side instantiates it with
    the backend service, the client side with the web server. *)
From S2P Require Export Effects.

Definition header : Type := jstr * jstr.

Record Request := {
  method : jstr;
  url : jstr;
  headers : list header;
  body : option jstr;
}.

(** A body that parses as JSON, or one that does not. *)
Inductive Body :=
| JsonBody (v : jval)
| RawBody (s : jstr).

Record Response := {
  status : Z;
  resp_headers : list header;
  resp_body : Body;
}.

(** [response.ok] *)
Definition ok (r : Response) : bool := (200 <=? status r) && (status r <=? 299).

(** [await response.json()] *)
Definition json {W} (r : Response) : M W jval :=
  match resp_body r with
  | JsonBody v => mret v
  | RawBody _ => throw (ErrorExn §"Unexpected token in JSON")
  end.

(** ** [Headers]: names compare without case *)

Definition header_key (k : jstr) : jstr := lower_unit <$> k.
#[global] Arguments header_key : simpl never.

Definition headers_get (hs : list header) (k : jstr) : option jstr :=
  snd <$> find_first (λ h, str_eqb (header_key h.1) (header_key k)) hs.

Definition headers_has (hs : list header) (k : jstr) : bool :=
  existsb (λ h, str_eqb (header_key h.1) (header_key k)) hs.

Fixpoint headers_set (k v : jstr) (hs : list header) : list header :=
  match hs with
  | [] => [(k, v)]
  | h :: hs =>
      if str_eqb (header_key h.1) (header_key k)
      then (k, v) :: filter (λ h', str_eqb (header_key h'.1) (header_key k) = false) hs
      else h :: headers_set k v hs
  end.

(** ** The interface *)

Class Fetch (W : Type) := fetch : Request → M W Response.

(** The outcome of a request: a response, or the rejection of the promise. *)
Inductive Reply :=
| Arrived (r : Response)
| NetworkError (msg : jstr).

(** [NextResponse.json(data, { status })] *)
Definition json_response (v : jval) (st : Z) : Response :=
  {| status := st;
     resp_headers := [(§"Content-Type", §"application/json")];
     resp_body := JsonBody v |}.

(** ** Lemmas *)

Lemma headers_get_set hs k v : headers_get (headers_set k v hs) k = Some v.
Proof.
  unfold headers_get. induction hs as [|h hs IH]; simpl.
  - by rewrite find_first_cons, str_eqb_refl.
  - destruct (str_eqb (header_key h.1) (header_key k)) eqn:E; rewrite find_first_cons; simpl.
    + by rewrite str_eqb_refl.
    + by rewrite E.
Qed.

Lemma headers_get_set_ne hs k k' v :
  header_key k ≠ header_key k' → headers_get (headers_set k v hs) k' = headers_get hs k'.
Proof.
  intros Hk. unfold headers_get.
  assert (str_eqb (header_key k) (header_key k') = false) as Hkk by by apply bool_decide_eq_false.
  induction hs as [|h hs IH]; simpl.
  - rewrite find_first_cons. simpl. by rewrite Hkk.
  - destruct (str_eqb (header_key h.1) (header_key k)) eqn:E; rewrite !find_first_cons; simpl.
    + apply str_eqb_eq in E. rewrite Hkk, E, Hkk. clear IH.
      induction hs as [|h' hs IH]; [done|].
      rewrite filter_cons, find_first_cons. case_decide as E'.
      * rewrite find_first_cons. case_match; [done|apply IH].
      * apply not_false_iff_true, str_eqb_eq in E'. simpl. rewrite E', Hkk. apply IH.
    + case_match; [done|apply IH].
Qed.

Lemma ok_not_401 r : ok r = true → status r ≠ 401.
Proof. unfold ok. intros [? ?]%andb_true_iff. lia. Qed.

#[export] Hint Resolve ok_not_401 headers_get_set : fblink.
