(* ===== verification/SiteConfig.v ===== *)
(** * Site configuration: [web/lib/site-config.ts]

    The plans and links the site shows.  [defaultSiteConfig] is the built-in
    configuration, [normalizeSiteConfig] overlays what the backend sent on
    it, and [loadSiteConfig] fetches and falls back.  [normalizeSiteConfig]
    works on the JSON value as received: the source casts it without
    validation. *)
From S2P Require Export Http.

(** ** Types *)

Inductive PlanId := basic | basic_3m | vip | vip_3m.
Inductive PlanCode := premium | vip_code.

#[export] Instance PlanId_eq_dec : EqDecision PlanId.
Proof. solve_decision. Defined.
#[export] Instance PlanCode_eq_dec : EqDecision PlanCode.
Proof. solve_decision. Defined.

Definition plan_id_str (p : PlanId) : jstr :=
  match p with
  | basic => §"basic"
  | basic_3m => §"basic_3m"
  | vip => §"vip"
  | vip_3m => §"vip_3m"
  end.

Definition plan_code_str (c : PlanCode) : jstr :=
  match c with premium => §"premium" | vip_code => §"vip" end.

Record PlanPeriod := {
  id : PlanId;
  label : jstr;
  duration_days : Z;
  amount : Z;
  currency : jstr;
}.

Record Plan := {
  code : PlanCode;
  title : jstr;
  description : jstr;
  periods : list PlanPeriod;
  features : list jstr;
}.

Record Downloads := {
  android : jstr;
  windows : jstr;
  macos : jstr;
  linux : jstr;
  happ : jstr;
  androidtv : jstr;
}.

Record Support := {
  email : jstr;
  telegram : jstr;
  whatsapp : jstr;
  max_link : jstr;
}.

Record SiteConfig := {
  brand : jstr;
  plans : list Plan;
  downloads : Downloads;
  support : Support;
}.

Inductive ChannelId := ch_telegram | ch_whatsapp | ch_max.

#[export] Instance ChannelId_eq_dec : EqDecision ChannelId.
Proof. solve_decision. Defined.

Record SupportChannel := {
  ch_id : ChannelId;
  ch_label : jstr;
  href : jstr;
  ch_description : jstr;
}.

(** ** The built-in configuration *)

Definition defaultSiteConfig : SiteConfig := {|
  brand := §"FBLink VPN";
  plans := [
    {| code := premium;
       title := §"Premium";
       description := §"Быстрый защищенный доступ для ежедневной работы.";
       periods := [
         {| id := basic; label := §"1 месяц"; duration_days := 30; amount := 199; currency := §"RUB" |};
         {| id := basic_3m; label := §"3 месяца"; duration_days := 90; amount := 505; currency := §"RUB" |} ];
       features := [§"Безлимитный трафик"; §"Все основные платформы"; §"Быстрое подключение"] |};
    {| code := vip_code;
       title := §"VIP";
       description := §"Приоритетная сеть, Xray и расширенные функции приватности.";
       periods := [
         {| id := vip; label := §"1 месяц"; duration_days := 30; amount := 399; currency := §"RUB" |};
         {| id := vip_3m; label := §"3 месяца"; duration_days := 90; amount := 1015; currency := §"RUB" |} ];
       features := [§"VLESS/Xray Reality"; §"VIP-серверы"; §"AdBlock DNS"] |} ];
  downloads := {|
    android := §"https://fblink-sc.com/download/android";
    windows := §"https://fblink-sc.com/download/windows";
    macos := §"https://fblink-sc.com/download/macos";
    linux := §"https://fblink-sc.com/download/linux";
    happ := §"https://apps.apple.com/search?term=happ%20proxy";
    androidtv := §"https://fblink-sc.com/download/androidtv" |};
  support := {|
    email := §"fbapps.help@yandex.ru";
    telegram := §"https://t.me/+79966732628";
    whatsapp := §"https://wa.me/79966732628";
    max_link := §"https://max.ru/fblinkvpn" |};
|}.

(** ** [supportChannels], [visiblePlanIds], [formatRub] *)

Definition supportChannels (config : SiteConfig) : list SupportChannel :=
  let channels := [
    {| ch_id := ch_telegram; ch_label := §"Telegram";
       href := telegram (support config); ch_description := §"Быстрый чат" |};
    {| ch_id := ch_whatsapp; ch_label := §"WhatsApp";
       href := whatsapp (support config); ch_description := §"Поддержка в мессенджере" |};
    {| ch_id := ch_max; ch_label := §"MAX";
       href := max_link (support config); ch_description := §"Российский мессенджер" |} ] in
  filter (λ c, trim (href c) ≠ []) channels.

Definition visiblePlanIds (config : SiteConfig) : list PlanId :=
  plans config ≫= λ plan, id <$> periods plan.

Definition formatRub `{JsHost} (amount : Z) : jstr := intl_rub amount.

(** ** The configuration as the JSON value the source builds *)

Definition period_json (p : PlanPeriod) : jval := JObj [
  (§"id", JStr (plan_id_str (id p))); (§"label", JStr (label p));
  (§"duration_days", JNum (duration_days p)); (§"amount", JNum (amount p));
  (§"currency", JStr (currency p)) ].

Definition plan_json (p : Plan) : jval := JObj [
  (§"code", JStr (plan_code_str (code p))); (§"title", JStr (title p));
  (§"description", JStr (description p));
  (§"periods", JArr (period_json <$> periods p));
  (§"features", JArr (JStr <$> features p)) ].

Definition downloads_json (d : Downloads) : jval := JObj [
  (§"android", JStr (android d)); (§"windows", JStr (windows d));
  (§"macos", JStr (macos d)); (§"linux", JStr (linux d));
  (§"happ", JStr (happ d)); (§"androidtv", JStr (androidtv d)) ].

Definition support_json (s : Support) : jval := JObj [
  (§"email", JStr (email s)); (§"telegram", JStr (telegram s));
  (§"whatsapp", JStr (whatsapp s)); (§"max", JStr (max_link s)) ].

Definition config_json (c : SiteConfig) : jval := JObj [
  (§"brand", JStr (brand c)); (§"plans", JArr (plan_json <$> plans c));
  (§"downloads", downloads_json (downloads c)); (§"support", support_json (support c)) ].

(** ** [normalizeSiteConfig] *)

Definition array_items (v : jval) : list jval :=
  match v with JArr l => l | _ => [] end.

Definition undefined_or (o : option jval) : jval := from_option Datatypes.id JUndefined o.

Definition normalizePeriod (incomingPeriods : list jval) (fallbackPeriod : PlanPeriod) : jval :=
  let incomingPeriod := undefined_or (find_first
    (λ period, is_str (get period §"id") (plan_id_str (id fallbackPeriod))) incomingPeriods) in
  JObj (spread (own_fields (period_json fallbackPeriod)) incomingPeriod).

Definition normalizePlan (incomingPlans : list jval) (fallbackPlan : Plan) : jval :=
  let incomingPlan := undefined_or (find_first
    (λ plan, is_str (get plan §"code") (plan_code_str (code fallbackPlan))) incomingPlans) in
  let incomingPeriods := array_items (get incomingPlan §"periods") in
  let fields := spread (own_fields (plan_json fallbackPlan)) incomingPlan in
  let fields := obj_set §"description"
    (or_else (get incomingPlan §"description") (JStr (description fallbackPlan))) fields in
  let fields := obj_set §"features"
    (match get incomingPlan §"features" with
     | JArr (f :: fs) => JArr (f :: fs)
     | _ => JArr (JStr <$> features fallbackPlan)
     end) fields in
  JObj (obj_set §"periods" (JArr (normalizePeriod incomingPeriods <$> periods fallbackPlan)) fields).

Definition normalizeSiteConfig (data : jval) : jval :=
  let incomingPlans := array_items (get data §"plans") in
  let plans' := normalizePlan incomingPlans <$> plans defaultSiteConfig in
  let fields := spread (own_fields (config_json defaultSiteConfig)) data in
  let fields := obj_set §"brand" (JStr §"FBLink VPN") fields in
  let fields := obj_set §"plans" (JArr plans') fields in
  let fields := obj_set §"downloads" (JObj (spread
    (own_fields (downloads_json (downloads defaultSiteConfig))) (get data §"downloads"))) fields in
  JObj (obj_set §"support" (JObj (spread
    (own_fields (support_json (support defaultSiteConfig))) (get data §"support"))) fields).

(** ** [loadSiteConfig] *)

Record Env := {
  NEXT_PUBLIC_API_BASE_URL : option jstr;
  BACKEND_API_URL : option jstr;
  NODE_ENV : jstr;
}.

Section Load.
Context {W : Type} `{!Fetch W}.

Definition loadSiteConfig (env : Env) : M W jval :=
  let base := match NEXT_PUBLIC_API_BASE_URL env with
              | Some b => Some b
              | None => BACKEND_API_URL env
              end in
  match base with
  | None | Some [] => mret (config_json defaultSiteConfig)
  | Some base =>
      try_catch
        (response ← fetch {| method := §"GET";
                             url := strip_trailing 47 base ++ §"/api/v1/web/config";
                             headers := []; body := None |};
         if ok response then
           data ← json response;
           mret (normalizeSiteConfig data)
         else mret (config_json defaultSiteConfig))
        (λ _, mret (config_json defaultSiteConfig))
  end.
End Load.

(** ** Reading a configuration back at its declared type *)

Definition as_str (v : jval) : option jstr := match v with JStr s => Some s | _ => None end.
Definition as_num (v : jval) : option Z := match v with JNum n => Some n | _ => None end.
Definition as_arr (v : jval) : option (list jval) := match v with JArr l => Some l | _ => None end.

Definition plan_id_of (s : jstr) : option PlanId :=
  find_first (λ p, str_eqb (plan_id_str p) s) [basic; basic_3m; vip; vip_3m].
Definition plan_code_of (s : jstr) : option PlanCode :=
  find_first (λ c, str_eqb (plan_code_str c) s) [premium; vip_code].

Definition decode_period (v : jval) : option PlanPeriod :=
  i ← as_str (get v §"id") ≫= plan_id_of;
  l ← as_str (get v §"label");
  d ← as_num (get v §"duration_days");
  a ← as_num (get v §"amount");
  c ← as_str (get v §"currency");
  Some {| id := i; label := l; duration_days := d; amount := a; currency := c |}.

Definition decode_plan (v : jval) : option Plan :=
  c ← as_str (get v §"code") ≫= plan_code_of;
  t ← as_str (get v §"title");
  d ← as_str (get v §"description");
  ps ← as_arr (get v §"periods") ≫= mapM decode_period;
  fs ← as_arr (get v §"features") ≫= mapM as_str;
  Some {| code := c; title := t; description := d; periods := ps; features := fs |}.

Definition decode_downloads (v : jval) : option Downloads :=
  a ← as_str (get v §"android"); w ← as_str (get v §"windows");
  m ← as_str (get v §"macos"); l ← as_str (get v §"linux");
  h ← as_str (get v §"happ"); t ← as_str (get v §"androidtv");
  Some {| android := a; windows := w; macos := m; linux := l; happ := h; androidtv := t |}.

Definition decode_support (v : jval) : option Support :=
  e ← as_str (get v §"email"); t ← as_str (get v §"telegram");
  w ← as_str (get v §"whatsapp"); m ← as_str (get v §"max");
  Some {| email := e; telegram := t; whatsapp := w; max_link := m |}.

Definition decode_config (v : jval) : option SiteConfig :=
  b ← as_str (get v §"brand");
  ps ← as_arr (get v §"plans") ≫= mapM decode_plan;
  d ← decode_downloads (get v §"downloads");
  s ← decode_support (get v §"support");
  Some {| brand := b; plans := ps; downloads := d; support := s |}.

(** ** [SiteConfigInput]: every field may be absent, present ones have the
    declared type *)

Definition is_jstr (v : jval) : bool := match v with JStr _ => true | _ => false end.
Definition is_jnum (v : jval) : bool := match v with JNum _ => true | _ => false end.

Definition opt_field (v : jval) (k : jstr) (p : jval → bool) : bool :=
  negb (obj_has (own_fields v) k) || p (get v k).

Definition is_record (v : jval) : bool := match v with JObj _ => true | _ => false end.

Definition typed_period (v : jval) : bool :=
  is_record v && opt_field v §"label" is_jstr && opt_field v §"duration_days" is_jnum
  && opt_field v §"amount" is_jnum && opt_field v §"currency" is_jstr.

Definition typed_array (p : jval → bool) (v : jval) : bool :=
  match v with JArr l => forallb p l | _ => false end.

Definition typed_plan (v : jval) : bool :=
  is_record v && opt_field v §"title" is_jstr && opt_field v §"description" is_jstr
  && opt_field v §"features" (typed_array is_jstr)
  && opt_field v §"periods" (typed_array typed_period).

Definition typed_strings (ks : list jstr) (v : jval) : bool :=
  is_record v && forallb (λ k, opt_field v k is_jstr) ks.

Definition download_keys : list jstr :=
  [§"android"; §"windows"; §"macos"; §"linux"; §"happ"; §"androidtv"].
Definition support_keys : list jstr := [§"email"; §"telegram"; §"whatsapp"; §"max"].

Definition typed_input (v : jval) : bool :=
  nullish v ||
  (is_record v && opt_field v §"plans" (typed_array typed_plan)
   && opt_field v §"downloads" (typed_strings download_keys)
   && opt_field v §"support" (typed_strings support_keys)).

(** ** Properties *)

Lemma plan_id_of_str p : plan_id_of (plan_id_str p) = Some p.
Proof. by destruct p. Qed.

Lemma plan_code_of_str c : plan_code_of (plan_code_str c) = Some c.
Proof. by destruct c. Qed.

(** What a spread can overlay: nothing, or an object with unique keys. *)
Definition overlay (inc : jval) : Prop :=
  inc = JUndefined ∨ (is_record inc = true ∧ jval_wf inc = true).

Lemma overlay_NoDup inc : overlay inc → NoDup (own_fields inc).*1.
Proof.
  intros [->|[Hr Hwf]]; [constructor|]. destruct inc; try done.
  simpl in Hwf. apply andb_true_iff in Hwf as [H _]. by apply bool_decide_eq_true in H.
Qed.

Lemma overlay_get inc k : overlay inc → obj_get (own_fields inc) k = get inc k.
Proof. intros [->|[Hr Hwf]]; [done|]. by destruct inc. Qed.

Lemma spread_field fs inc k (p : jval → bool) :
  overlay inc → (inc = JUndefined ∨ opt_field inc k p = true) →
  p (obj_get fs k) = true → p (obj_get (spread fs inc) k) = true.
Proof.
  intros Ho Hp Hd. rewrite obj_get_spread by by apply overlay_NoDup.
  destruct Hp as [->|Hp]; [done|]. unfold opt_field in Hp.
  rewrite overlay_get by done. by destruct (obj_has (own_fields inc) k).
Qed.

(** The element [find] returns is a record when its key is a string. *)
Lemma find_overlay l k s :
  forallb jval_wf l = true →
  overlay (undefined_or (find_first (λ v, is_str (get v k) s) l)).
Proof.
  intros Hwf. destruct (find_first _ l) as [v|] eqn:E; simpl; [right|by left].
  apply find_first_Some in E as [Hin Hs]. split.
  - by destruct v.
  - rewrite forallb_forall in Hwf. by apply Hwf, list_elem_of_In.
Qed.

(** The key the [find] compared survives the spread. *)
Lemma find_spread_key l k s fs :
  forallb jval_wf l = true → obj_get fs k = JStr s →
  obj_get (spread fs (undefined_or (find_first (λ v, is_str (get v k) s) l))) k = JStr s.
Proof.
  intros Hwf Hfs. pose proof (find_overlay l k s Hwf) as Ho.
  rewrite obj_get_spread by by apply overlay_NoDup. rewrite overlay_get by done.
  destruct (find_first _ l) as [v|] eqn:E; simpl; [|done].
  apply find_first_Some in E as [_ Hs].
  case_match; [|done]. destruct (get v k); try done. simpl in Hs.
  by apply str_eqb_eq in Hs as ->.
Qed.

Lemma array_items_wf v : jval_wf v = true → forallb jval_wf (array_items v) = true.
Proof. by destruct v. Qed.

Lemma undefined_or_wf (P : jval → bool) l :
  forallb jval_wf l = true → jval_wf (undefined_or (find_first P l)) = true.
Proof.
  intros Hwf. destruct (find_first P l) eqn:E; [|done]. simpl.
  apply find_first_Some in E as [Hin _]. rewrite forallb_forall in Hwf.
  by apply Hwf, list_elem_of_In.
Qed.

Lemma normalizePeriod_id ps fb :
  forallb jval_wf ps = true →
  get (normalizePeriod ps fb) §"id" = JStr (plan_id_str (id fb)).
Proof. intros Hwf. unfold normalizePeriod. simpl. by apply find_spread_key. Qed.

Lemma normalizePlan_code ps fb :
  forallb jval_wf ps = true →
  get (normalizePlan ps fb) §"code" = JStr (plan_code_str (code fb)).
Proof. intros Hwf. unfold normalizePlan. simpl. js_fields. by apply find_spread_key. Qed.

(** The ids of the periods of a configuration value, in page order. *)
Definition json_plan_ids (config : jval) : list jval :=
  array_items (get config §"plans") ≫= λ plan,
    (λ period, get period §"id") <$> array_items (get plan §"periods").

Lemma normalizePlan_ids ps fb :
  forallb jval_wf ps = true →
  (λ period, get period §"id") <$> array_items (get (normalizePlan ps fb) §"periods")
  = JStr ∘ plan_id_str ∘ id <$> periods fb.
Proof.
  intros Hwf. unfold normalizePlan. simpl. rewrite obj_get_set_eq. simpl.
  rewrite <-list_fmap_compose. apply list_fmap_ext. intros _ fbp _. simpl.
  apply normalizePeriod_id, array_items_wf, jval_wf_get, undefined_or_wf, Hwf.
Qed.

#[local] Opaque normalizePlan normalizePeriod.

Lemma normalize_ids data :
  jval_wf data = true →
  json_plan_ids (normalizeSiteConfig data)
  = JStr ∘ plan_id_str <$> visiblePlanIds defaultSiteConfig.
Proof.
  intros Hwf. unfold json_plan_ids, normalizeSiteConfig. simpl. js_fields.
  csimpl. rewrite !normalizePlan_ids by by apply array_items_wf, jval_wf_get. done.
Qed.

(** whatever JSON the backend answers, the normalized configuration shows
    exactly the four plan periods of the built-in one, in the same order,
    under the two plan codes and the product's brand. *)
Theorem normalize_plan_ids data :
  jval_wf data = true →
  json_plan_ids (normalizeSiteConfig data)
    = JStr ∘ plan_id_str <$> visiblePlanIds defaultSiteConfig ∧
  (λ p, get p §"code") <$> array_items (get (normalizeSiteConfig data) §"plans")
    = [JStr §"premium"; JStr §"vip"] ∧
  get (normalizeSiteConfig data) §"brand" = JStr §"FBLink VPN".
Proof.
  intros Hwf. split; [by apply normalize_ids|].
  unfold normalizeSiteConfig. simpl. js_fields. csimpl.
  rewrite !normalizePlan_code by by apply array_items_wf, jval_wf_get. done.
Qed.

(** A backend answer that renames a plan, drops a period and adds another. *)
Definition sample_data : jval := JObj [
  (§"plans", JArr [JObj [(§"code", JStr §"vip"); (§"title", JStr §"VIP+");
     (§"periods", JArr [JObj [(§"id", JStr §"vip"); (§"amount", JNum 450)];
                        JObj [(§"id", JStr §"vip_12m")]])]; JNull]);
  (§"support", JObj [(§"telegram", JStr [])])].

Lemma normalize_plan_ids_witness :
  json_plan_ids (normalizeSiteConfig sample_data)
    = JStr ∘ plan_id_str <$> visiblePlanIds defaultSiteConfig.
Proof. apply (normalize_plan_ids sample_data). vm_compute. reflexivity. Defined.

#[local] Transparent normalizePlan normalizePeriod.

(** ** A typed answer gives a typed configuration *)

Section Typed.

Lemma undefined_or_typed (P Q : jval → bool) l :
  forallb Q l = true →
  undefined_or (find_first P l) = JUndefined ∨ Q (undefined_or (find_first P l)) = true.
Proof.
  intros Hl. destruct (find_first P l) eqn:E; [right|by left]. simpl.
  apply find_first_Some in E as [Hin _]. rewrite forallb_forall in Hl.
  by apply Hl, list_elem_of_In.
Qed.

Lemma is_jstr_as v : is_jstr v = true → ∃ s, as_str v = Some s ∧ v = JStr s.
Proof. destruct v; try done. intros _. simpl. eauto. Qed.

Lemma is_jnum_as v : is_jnum v = true → ∃ n, as_num v = Some n ∧ v = JNum n.
Proof. destruct v; try done. intros _. simpl. eauto. Qed.

Lemma opt_field_undefined k p : p JUndefined = true ∨ opt_field JUndefined k p = true.
Proof. by right. Qed.

Lemma spread_typed fs inc k p (T : jval → bool) :
  overlay inc → (inc = JUndefined ∨ T inc = true) →
  (∀ v, T v = true → opt_field v k p = true) →
  p (obj_get fs k) = true → p (obj_get (spread fs inc) k) = true.
Proof.
  intros Ho HT Hop Hd. eapply spread_field; [done| |done].
  destruct HT as [->|HT]; [by left|right; by apply Hop].
Qed.

Lemma typed_period_fields v :
  typed_period v = true →
  opt_field v §"label" is_jstr = true ∧ opt_field v §"duration_days" is_jnum = true ∧
  opt_field v §"amount" is_jnum = true ∧ opt_field v §"currency" is_jstr = true.
Proof. unfold typed_period. rewrite !andb_true_iff. tauto. Qed.

Lemma decode_normalizePeriod ps fb :
  forallb jval_wf ps = true → forallb typed_period ps = true →
  ∃ p, decode_period (normalizePeriod ps fb) = Some p ∧ id p = id fb.
Proof.
  intros Hwf Hty. pose proof (normalizePeriod_id ps fb Hwf) as Hid.
  unfold normalizePeriod in *.
  set (inc := undefined_or _) in *. cbn [get own_fields period_json] in *.
  assert (overlay inc) as Ho by by apply find_overlay.
  pose proof (undefined_or_typed (λ period, is_str (get period §"id") (plan_id_str (id fb)))
    _ _ Hty) as HT. fold inc in HT.
  assert (∀ k p, (∀ v, typed_period v = true → opt_field v k p = true) →
    p (obj_get (own_fields (period_json fb)) k) = true →
    p (obj_get (spread (own_fields (period_json fb)) inc) k) = true) as Hf.
  { intros k p. by apply spread_typed. }
  cbn [own_fields period_json] in Hf.
  destruct (is_jstr_as _ (Hf §"label" is_jstr
    ltac:(intros ? ?%typed_period_fields; tauto) ltac:(js_fields; done))) as (l & Hl & _).
  destruct (is_jnum_as _ (Hf §"duration_days" is_jnum
    ltac:(intros ? ?%typed_period_fields; tauto) ltac:(js_fields; done))) as (d & Hd & _).
  destruct (is_jnum_as _ (Hf §"amount" is_jnum
    ltac:(intros ? ?%typed_period_fields; tauto) ltac:(js_fields; done))) as (a & Ha & _).
  destruct (is_jstr_as _ (Hf §"currency" is_jstr
    ltac:(intros ? ?%typed_period_fields; tauto) ltac:(js_fields; done))) as (c & Hc & _).
  unfold decode_period. cbn [get]. rewrite Hid, Hl, Hd, Ha, Hc. simpl.
  rewrite plan_id_of_str. simpl. eauto.
Qed.

Lemma typed_plan_fields v :
  typed_plan v = true →
  opt_field v §"title" is_jstr = true ∧ opt_field v §"description" is_jstr = true ∧
  opt_field v §"features" (typed_array is_jstr) = true ∧
  opt_field v §"periods" (typed_array typed_period) = true.
Proof. unfold typed_plan. rewrite !andb_true_iff. tauto. Qed.

(** An optional array field reads as an array of typed items. *)
Lemma opt_array_items (T : jval → bool) v k p :
  overlay v → (v = JUndefined ∨ T v = true) →
  (∀ v, T v = true → opt_field v k (typed_array p) = true) →
  forallb p (array_items (get v k)) = true.
Proof.
  intros Ho [->|HT] Hop; [done|]. specialize (Hop v HT). unfold opt_field in Hop.
  destruct (obj_has (own_fields v) k) eqn:E; simpl in Hop.
  - by destruct (get v k).
  - rewrite <-overlay_get by done. by rewrite obj_has_false_get.
Qed.

Lemma mapM_as_str l :
  forallb is_jstr l = true → ∃ ss, mapM as_str l = Some ss ∧ length ss = length l.
Proof.
  intros Hl. destruct (mapM_choose as_str (λ x, x) (λ _ _, True) l) as (k & Hk & Hf).
  - intros x Hx. rewrite forallb_forall in Hl.
    destruct (is_jstr_as x) as (s & Hs & _); [by apply Hl, list_elem_of_In|]. eauto.
  - rewrite list_fmap_id in Hk. exists k. split; [done|]. symmetry. by eapply Forall2_length.
Qed.

Section PlanFields.
Context (inc : jval) (Ho : overlay inc) (HT : inc = JUndefined ∨ typed_plan inc = true).
Context (fb : Plan).

Lemma title_field :
  ∃ t, as_str (obj_get (spread (own_fields (plan_json fb)) inc) §"title") = Some t.
Proof using Ho HT.
  destruct (is_jstr_as (obj_get (spread (own_fields (plan_json fb)) inc) §"title"))
    as (t & Ht & _); [|eauto].
  eapply (spread_typed _ _ _ _ typed_plan); [done..| |done].
  intros ? ?%typed_plan_fields. tauto.
Qed.

Lemma description_field :
  description fb ≠ [] →
  ∃ d, or_else (get inc §"description") (JStr (description fb)) = JStr d ∧ d ≠ [].
Proof using Ho HT.
  intros Hdesc. destruct HT as [->|HT']; [by exists (description fb)|].
  apply typed_plan_fields in HT' as (_ & Hop & _). unfold opt_field in Hop.
  rewrite <-overlay_get by done.
  destruct (obj_has (own_fields inc) §"description") eqn:E; simpl in Hop.
  - rewrite overlay_get by done. destruct (get inc §"description") as [| | | |s| |]; try done.
    unfold or_else. simpl. destruct s; simpl; [by exists (description fb)|by eexists].
  - rewrite obj_has_false_get by done. by exists (description fb).
Qed.

Lemma features_field :
  features fb ≠ [] →
  ∃ fs, (as_arr match get inc §"features" with
         | JArr (f :: fs) => JArr (f :: fs)
         | _ => JArr (JStr <$> features fb)
         end ≫= mapM as_str) = Some fs ∧ fs ≠ [].
Proof using Ho HT.
  intros Hfeat.
  assert (∃ fs, mapM as_str (JStr <$> features fb) = Some fs ∧ fs ≠ []) as (ss & Hss & ?).
  { destruct (mapM_as_str (JStr <$> features fb)) as (ss & Hss & Hlen).
    - apply forallb_forall. intros x (y & <- & _)%in_map_iff. done.
    - exists ss. split; [done|]. rewrite length_fmap in Hlen. by destruct ss, (features fb). }
  pose proof (opt_array_items typed_plan inc §"features" is_jstr Ho HT
    ltac:(intros ? ?%typed_plan_fields; tauto)) as Hl.
  destruct (get inc §"features") as [| | | | |[|f l]|]; simpl; eauto.
  destruct (mapM_as_str (f :: l) Hl) as (ss' & Hss' & Hlen). exists ss'.
  split; [exact Hss'|]. by destruct ss'.
Qed.
End PlanFields.

Lemma decode_normalizePlan ps fb :
  forallb jval_wf ps = true → forallb typed_plan ps = true →
  description fb ≠ [] → features fb ≠ [] →
  ∃ p, decode_plan (normalizePlan ps fb) = Some p ∧ code p = code fb ∧
       id <$> periods p = id <$> periods fb ∧ description p ≠ [] ∧ features p ≠ [].
Proof.
  intros Hwf Hty Hdesc Hfeat. pose proof (normalizePlan_code ps fb Hwf) as Hcode.
  unfold normalizePlan in *. set (inc := undefined_or _) in *.
  assert (overlay inc) as Ho by by apply find_overlay.
  pose proof (undefined_or_typed (λ plan, is_str (get plan §"code") (plan_code_str (code fb)))
    _ _ Hty) as HT. fold inc in HT.
  destruct (mapM_choose decode_period
    (normalizePeriod (array_items (get inc §"periods"))) (λ x y, id y = id x) (periods fb))
    as (qs & Hqs & Hids).
  { intros fbp _. apply decode_normalizePeriod.
    - by apply array_items_wf, jval_wf_get, undefined_or_wf.
    - eapply (opt_array_items typed_plan); [done..|]. intros ? ?%typed_plan_fields. tauto. }
  destruct (title_field inc Ho HT fb) as [t Ht].
  destruct (description_field inc Ho HT fb Hdesc) as (d & Hd & Hd0).
  destruct (features_field inc Ho HT fb Hfeat) as (fs & Hfs & Hfs0).
  unfold decode_plan. cbn [get] in *. rewrite Hcode. js_fields.
  rewrite Ht, Hd, Hfs. simpl in Hqs |- *. rewrite plan_code_of_str. simpl. rewrite Hqs. simpl.
  eexists. split; [reflexivity|]. simpl. split_and!; try done. by apply Forall2_fmap_eq.
Qed.

(** Link records: every known link decodes. *)
Lemma typed_strings_field ks v k :
  k ∈ ks → typed_strings ks v = true → opt_field v k is_jstr = true.
Proof.
  unfold typed_strings. rewrite andb_true_iff, forallb_forall.
  intros Hk [_ H]. by apply H, list_elem_of_In.
Qed.

Lemma spread_link fs ks inc k :
  overlay inc → (inc = JUndefined ∨ typed_strings ks inc = true) →
  k ∈ ks → is_jstr (obj_get fs k) = true →
  ∃ s, as_str (obj_get (spread fs inc) k) = Some s.
Proof.
  intros Ho HT Hk Hd.
  destruct (is_jstr_as (obj_get (spread fs inc) k)) as (s & Hs & _); [|eauto].
  eapply (spread_typed _ _ _ _ (typed_strings ks)); [done..| |done].
  intros v. by apply typed_strings_field.
Qed.

(** A record-valued optional field is an overlay of the right type. *)
Lemma opt_record_field v k (T : jval → bool) :
  jval_wf v = true → nullish v = true ∨ opt_field v k T = true →
  (∀ x, T x = true → is_record x = true) →
  overlay (get v k) ∧ (get v k = JUndefined ∨ T (get v k) = true).
Proof.
  intros Hwf Hv Hrec. destruct Hv as [Hv|Hv]; [destruct v; try done; split; by left|].
  unfold opt_field in Hv.
  destruct (obj_has (own_fields v) k) eqn:E; simpl in Hv.
  - split; right; [|done]. split; [by apply Hrec|by apply jval_wf_get].
  - destruct v as [| |b|n|s|l|fs]; try (split; by left).
    simpl in *. rewrite obj_has_false_get by done. split; by left.
Qed.

Lemma decode_downloads_spread d inc :
  overlay inc → (inc = JUndefined ∨ typed_strings download_keys inc = true) →
  is_Some (decode_downloads (JObj (spread (own_fields (downloads_json d)) inc))).
Proof.
  intros Ho HT. unfold decode_downloads. cbn [get].
  assert (∀ k, k ∈ download_keys →
    ∃ s, as_str (obj_get (spread (own_fields (downloads_json d)) inc) k) = Some s) as Hk.
  { intros k Hk. eapply spread_link; [done..|].
    repeat (apply elem_of_cons in Hk as [->|Hk]; [by cbn; js_fields|]).
    by apply elem_of_nil in Hk. }
  unfold download_keys in Hk.
  destruct (Hk §"android") as [? ->]; [set_solver|]. destruct (Hk §"windows") as [? ->]; [set_solver|].
  destruct (Hk §"macos") as [? ->]; [set_solver|]. destruct (Hk §"linux") as [? ->]; [set_solver|].
  destruct (Hk §"happ") as [? ->]; [set_solver|]. destruct (Hk §"androidtv") as [? ->]; [set_solver|].
  by eexists.
Qed.

Lemma decode_support_spread d inc :
  overlay inc → (inc = JUndefined ∨ typed_strings support_keys inc = true) →
  is_Some (decode_support (JObj (spread (own_fields (support_json d)) inc))).
Proof.
  intros Ho HT. unfold decode_support. cbn [get].
  assert (∀ k, k ∈ support_keys →
    ∃ s, as_str (obj_get (spread (own_fields (support_json d)) inc) k) = Some s) as Hk.
  { intros k Hk. eapply spread_link; [done..|].
    repeat (apply elem_of_cons in Hk as [->|Hk]; [by cbn; js_fields|]).
    by apply elem_of_nil in Hk. }
  unfold support_keys in Hk.
  destruct (Hk §"email") as [? ->]; [set_solver|]. destruct (Hk §"telegram") as [? ->]; [set_solver|].
  destruct (Hk §"whatsapp") as [? ->]; [set_solver|]. destruct (Hk §"max") as [? ->]; [set_solver|].
  by eexists.
Qed.

(** The plans of a typed answer. *)
Lemma decode_plans_normalize ps :
  forallb jval_wf ps = true → forallb typed_plan ps = true →
  ∃ qs, mapM decode_plan (normalizePlan ps <$> plans defaultSiteConfig) = Some qs ∧
        code <$> qs = [premium; vip_code] ∧
        (qs ≫= λ p, id <$> periods p) = [basic; basic_3m; vip; vip_3m] ∧
        Forall (λ p, description p ≠ [] ∧ features p ≠ []) qs.
Proof.
  intros Hw Ht.
  destruct (mapM_choose decode_plan (normalizePlan ps) (λ fb p, code p = code fb ∧
    id <$> periods p = id <$> periods fb ∧ description p ≠ [] ∧ features p ≠ [])
    (plans defaultSiteConfig)) as (qs & Hqs & Hrel).
  { intros fb Hfb. apply decode_normalizePlan; [done..| |];
      repeat (apply elem_of_cons in Hfb as [->|Hfb]; [done|]); by apply elem_of_nil in Hfb. }
  exists qs. split; [done|].
  apply Forall2_cons_inv_l in Hrel as (q1 & k1 & (Hc1 & Hi1 & ? & ?) & Hrel & ->).
  apply Forall2_cons_inv_l in Hrel as (q2 & k2 & (Hc2 & Hi2 & ? & ?) & Hrel & ->).
  apply Forall2_nil_inv_l in Hrel as ->. csimpl. rewrite Hc1, Hc2, Hi1, Hi2.
  split_and!; [done..|by repeat constructor].
Qed.
End Typed.



(** ** Loading *)

Section LoadTotal.
Context {W : Type} `{!Fetch W}.

(** JSON objects that arrive have unique keys, as [JSON.parse] builds them. *)
Definition fetch_wf : Prop :=
  ∀ r w res w' v, fetch r w = (Ok res, w') → resp_body res = JsonBody v → jval_wf v = true.

Lemma default_plan_ids :
  json_plan_ids (config_json defaultSiteConfig)
  = JStr ∘ plan_id_str <$> visiblePlanIds defaultSiteConfig.
Proof. reflexivity. Qed.

(** loading the configuration never fails: with no backend address, a
    backend that does not answer, an error status or an answer that is not
    JSON, the page still gets a configuration with the four plan periods. *)
Theorem loadSiteConfig_total env w :
  fetch_wf →
  ∃ v w', loadSiteConfig env w = (Ok v, w') ∧
          json_plan_ids v = JStr ∘ plan_id_str <$> visiblePlanIds defaultSiteConfig.
Proof.
  intros Hf. unfold loadSiteConfig.
  destruct (match NEXT_PUBLIC_API_BASE_URL env with
            | Some b => Some b | None => BACKEND_API_URL env end) as [[|c base]|].
  1, 3: eexists _, _; split; [reflexivity|apply default_plan_ids].
  unfold try_catch. rewrite bind_run.
  destruct (fetch _ w) as [[r|e] w'] eqn:E.
  2: eexists _, _; split; [reflexivity|apply default_plan_ids].
  destruct (ok r) eqn:Hok.
  2: eexists _, _; split; [reflexivity|apply default_plan_ids].
  rewrite bind_run. unfold json. destruct (resp_body r) as [v|s] eqn:Hb.
  - eexists _, _; split; [reflexivity|]. apply normalize_ids. by eapply Hf.
  - eexists _, _; split; [reflexivity|apply default_plan_ids].
Qed.
End LoadTotal.

(** A backend that answers a configuration, and an environment that names it. *)
#[local] Instance sample_fetch : Fetch nat := λ _ n,
  (Ok (json_response sample_data 200), S n).

Lemma loadSiteConfig_total_witness :
  ∃ v w', loadSiteConfig {| NEXT_PUBLIC_API_BASE_URL := None;
            BACKEND_API_URL := Some §"http://backend:8081/"; NODE_ENV := §"production" |} O
          = (Ok v, w') ∧
          json_plan_ids v = JStr ∘ plan_id_str <$> visiblePlanIds defaultSiteConfig.
Proof.
  apply loadSiteConfig_total. intros r w res w' v H Hb.
  vm_compute in H. injection H as <- _. vm_compute in Hb. injection Hb as <-.
  reflexivity.
Defined.
