(* ===== verification/RoutingProfiles.v ===== *)
(** * Routing profiles: [web/lib/routing-profiles.ts]

    User-editable rule lists, their summary line, and the profile handed to
    the Happ client.  The arrays the source pushes to are threaded as
    accumulators; [Set.has]/[add] and [includes]/[push] are the duplicate
    tests of the prelude, and the theorems relate the loops to [nub]. *)
From S2P Require Export JsString.

(** ** Types *)

Inductive RoutingAction := proxy | direct.
Inductive RoutingKind := system | custom.

#[export] Instance RoutingAction_eq_dec : EqDecision RoutingAction.
Proof. solve_decision. Defined.
#[export] Instance RoutingKind_eq_dec : EqDecision RoutingKind.
Proof. solve_decision. Defined.

Definition action_str (a : RoutingAction) : jstr :=
  match a with proxy => §"proxy" | direct => §"direct" end.

Record RoutingProfile := {
  rp_id : Z;
  name : jstr;
  rp_code : jstr;
  kind : RoutingKind;
  action : RoutingAction;
  enabled : bool;
  rp_description : jstr;
  domains : option (list jstr);
  domain_suffixes : option (list jstr);
  cidrs : option (list jstr);
  already_added : option bool;
}.

Record RoutingRuleCounts := {
  n_domains : nat;
  n_suffixes : nat;
  n_cidrs : nat;
  total : nat;
}.

Record HappRoutingProfile := {
  Name : jstr;
  GlobalProxy : jstr;
  RouteOrder : jstr;
  RemoteDNSType : jstr;
  RemoteDNSDomain : jstr;
  RemoteDNSIP : jstr;
  DomesticDNSType : jstr;
  DomesticDNSDomain : jstr;
  DomesticDNSIP : jstr;
  Geoipurl : jstr;
  Geositeurl : jstr;
  LastUpdated : jstr;
  DnsHosts : list (jstr * jstr);
  DirectSites : list jstr;
  DirectIp : list jstr;
  ProxySites : list jstr;
  ProxyIp : list jstr;
  BlockSites : list jstr;
  BlockIp : list jstr;
  DomainStrategy : jstr;
  FakeDNS : jstr;
  UseChunkFiles : jstr;
}.

Definition happDefaultDirectIpRules : list jstr :=
  [§"10.0.0.0/8"; §"172.16.0.0/12"; §"192.168.0.0/16"; §"169.254.0.0/16";
   §"224.0.0.0/4"; §"255.255.255.255"].

(** ** [normalizeRuleText] *)

(** The class [[\s,;]]. *)
Definition rule_separator (c : Z) : bool := is_space c || (c =? 44) || (c =? 59).

(** [.filter((item) => { if (seen.has(item)) return false; seen.add(item); return true; })] *)
Fixpoint filter_seen (seen : gset jstr) (l : list jstr) : list jstr :=
  match l with
  | [] => []
  | x :: l =>
      if decide (x ∈ seen) then filter_seen seen l
      else x :: filter_seen ({[x]} ∪ seen) l
  end.

Definition normalizeRuleText (value : jstr) : list jstr :=
  filter_seen ∅ (filter (λ item, str_truthy item = true)
                   (trim <$> split_class rule_separator value)).

(** ** Counting and the summary line *)

Definition countRoutingRules (ds ss cs : option (list jstr)) : RoutingRuleCounts :=
  let d := from_option length O ds in
  let s := from_option length O ss in
  let c := from_option length O cs in
  {| n_domains := d; n_suffixes := s; n_cidrs := c; total := (d + s + c)%nat |}.

(** Remainders of the source are on nonnegative counts. *)
Definition pluralRu (count : Z) (one few many : jstr) : jstr :=
  let mod10 := Z.rem count 10 in
  let mod100 := Z.rem count 100 in
  if (mod10 =? 1) && negb (mod100 =? 11) then one
  else if (2 <=? mod10) && (mod10 <=? 4) && ((mod100 <? 10) || (20 <=? mod100)) then few
  else many.

Definition routingSummary (ds ss cs : option (list jstr)) : jstr :=
  let counts := countRoutingRules ds ss cs in
  if (total counts =? 0)%nat then §"Правил нет" else
  let d := Z.of_nat (n_domains counts) in
  let s := Z.of_nat (n_suffixes counts) in
  let c := Z.of_nat (n_cidrs counts) in
  let parts := [] in
  let parts := if 0 <? d
    then parts ++ [num_str d ++ §" " ++ pluralRu d §"домен" §"домена" §"доменов"] else parts in
  let parts := if 0 <? s
    then parts ++ [num_str s ++ §" " ++ pluralRu s §"зона" §"зоны" §"зон"] else parts in
  let parts := if 0 <? c then parts ++ [num_str c ++ §" IP"] else parts in
  join §" · " parts.

(** ** The Happ profile *)

Definition appendUnique (target : list jstr) (value : jstr) : list jstr :=
  let normalized := trim value in
  if str_truthy normalized && negb (bool_decide (normalized ∈ target))
  then target ++ [normalized] else target.

(** Returns the two arrays after the calls that push to them. *)
Definition appendHappRules (profile : RoutingProfile) (sites ips : list jstr)
    : list jstr * list jstr :=
  let sites := foldl (λ t domain, appendUnique t (§"full:" ++ domain))
                 sites (default [] (domains profile)) in
  let sites := foldl (λ t suffix,
                  let normalized := strip_leading 46 (trim suffix) in
                  if str_truthy normalized then appendUnique t (§"domain:" ++ normalized) else t)
                 sites (default [] (domain_suffixes profile)) in
  let ips := foldl appendUnique ips (default [] (cidrs profile)) in
  (sites, ips).

Record HappArrays := {
  directSites : list jstr;
  directIp : list jstr;
  proxySites : list jstr;
  proxyIp : list jstr;
}.

(** The body of the [forEach] over the selected profiles. *)
Definition collect (a : HappArrays) (profile : RoutingProfile) : HappArrays :=
  match action profile with
  | proxy =>
      let '(sites, ips) := appendHappRules profile (proxySites a) (proxyIp a) in
      {| directSites := directSites a; directIp := directIp a;
         proxySites := sites; proxyIp := ips |}
  | direct =>
      let '(sites, ips) := appendHappRules profile (directSites a) (directIp a) in
      {| directSites := sites; directIp := ips;
         proxySites := proxySites a; proxyIp := proxyIp a |}
  end.

Definition selected (profile : RoutingProfile) : bool :=
  match kind profile with custom => enabled profile | system => false end.

Definition buildHappRoutingProfile (profiles : list RoutingProfile) (nowUnix : Z)
    : HappRoutingProfile :=
  let a := foldl collect
    {| directSites := []; directIp := happDefaultDirectIpRules; proxySites := []; proxyIp := [] |}
    (filter (λ p, selected p = true) profiles) in
  {| Name := §"FBLink VPN";
     GlobalProxy := §"true";
     RouteOrder := §"block-proxy-direct";
     RemoteDNSType := §"DoH";
     RemoteDNSDomain := §"https://cloudflare-dns.com/dns-query";
     RemoteDNSIP := §"1.1.1.1";
     DomesticDNSType := §"DoH";
     DomesticDNSDomain := §"https://dns.google/dns-query";
     DomesticDNSIP := §"8.8.8.8";
     Geoipurl := §"https://github.com/Loyalsoldier/v2ray-rules-dat/releases/latest/download/geoip.dat";
     Geositeurl := §"https://github.com/Loyalsoldier/v2ray-rules-dat/releases/latest/download/geosite.dat";
     LastUpdated := num_str nowUnix;
     DnsHosts := [(§"cloudflare-dns.com", §"1.1.1.1"); (§"dns.google", §"8.8.8.8")];
     DirectSites := directSites a;
     DirectIp := directIp a;
     ProxySites := proxySites a;
     ProxyIp := proxyIp a;
     BlockSites := [];
     BlockIp := [];
     DomainStrategy := §"IPIfNonMatch";
     FakeDNS := §"false";
     UseChunkFiles := §"true" |}.

(** ** The project's own tests, evaluated *)

Definition newline : jstr := [10].

Example normalize_test :
  normalizeRuleText (§"youtube.com, twitch.tv" ++ newline ++ §" youtube.com  .ru")
  = [§"youtube.com"; §"twitch.tv"; §".ru"].
Proof. vm_compute. reflexivity. Qed.

Example summary_test :
  routingSummary (Some [§"youtube.com"]) (Some [§".ru"]) (Some []) = §"1 домен · 1 зона".
Proof. vm_compute. reflexivity. Qed.

Definition test_profile (i : Z) (a : RoutingAction) (en : bool) (ds ss cs : list jstr)
    : RoutingProfile :=
  {| rp_id := i; name := []; rp_code := []; kind := custom; action := a; enabled := en;
     rp_description := []; domains := Some ds; domain_suffixes := Some ss; cidrs := Some cs;
     already_added := None |}.

Definition test_profiles : list RoutingProfile :=
  [ test_profile 1 proxy true [§"chatgpt.com"] [§".openai.com"] [];
    test_profile 2 direct true [§"gosuslugi.ru"] [§".ru"] [§"10.0.0.0/8"];
    test_profile 3 proxy false [§"disabled.example"] [] [] ].

Example build_test :
  let p := buildHappRoutingProfile test_profiles 123 in
  ProxySites p = [§"full:chatgpt.com"; §"domain:openai.com"] ∧
  DirectSites p = [§"full:gosuslugi.ru"; §"domain:ru"] ∧
  DirectIp p = happDefaultDirectIpRules ∧ LastUpdated p = §"123".
Proof. vm_compute. repeat split. Qed.

(** ** Properties of [normalizeRuleText] *)

Lemma filter_seen_nub seen l :
  filter_seen seen l = filter (λ x, x ∉ seen) (nub l).
Proof.
  revert seen. induction l as [|x l IH]; intros seen; [done|]. simpl.
  rewrite filter_cons, list_filter_filter. case_decide as Hx.
  - rewrite decide_False by naive_solver. rewrite IH.
    apply list_filter_iff. intros y. set_solver.
  - rewrite decide_True by done. f_equal. rewrite IH.
    apply list_filter_iff. intros y. set_solver.
Qed.

(** The trims between splitting and filtering change nothing: a piece has no
    white space. *)
Lemma trim_pieces value :
  filter (λ item, str_truthy item = true) (trim <$> split_class rule_separator value)
  = words rule_separator value.
Proof.
  unfold words.
  assert (trim <$> split_class rule_separator value = split_class rule_separator value) as ->.
  { rewrite <-(list_fmap_id (split_class rule_separator value)) at 2.
    apply list_fmap_ext. intros i w Hw%list_elem_of_lookup_2.
    apply trim_no_space. eapply Forall_impl;
      [exact (split_go_no_sep _ _ _ _ _ Hw (Forall_nil_2 _))|].
    intros c. unfold rule_separator. simpl. rewrite !orb_false_iff. tauto. }
  apply list_filter_iff. intros w. apply str_truthy_iff.
Qed.

Lemma normalizeRuleText_nub value :
  normalizeRuleText value = nub (words rule_separator value).
Proof.
  unfold normalizeRuleText. rewrite filter_seen_nub, trim_pieces.
  apply filter_all, Forall_forall. set_solver.
Qed.

(** rule text is normalized to its words in order of first appearance,
    each once; no rule is empty or holds a separator, and a rule is kept
    exactly when it occurs in the text. *)
Theorem normalizeRuleText_spec value :
  normalizeRuleText value = nub (words rule_separator value) ∧
  NoDup (normalizeRuleText value) ∧
  (∀ w, w ∈ normalizeRuleText value ↔ w ∈ words rule_separator value) ∧
  Forall (λ w, w ≠ [] ∧ Forall (λ c, rule_separator c = false) w) (normalizeRuleText value).
Proof.
  rewrite normalizeRuleText_nub.
  split_and!; [done|apply NoDup_nub|apply elem_of_nub|].
  apply Forall_forall. intros w Hw%(proj1 (elem_of_nub _ _)). exact (words_no_sep _ _ _ Hw).
Qed.

(** printing normalized rules one per line, or with any separator, and
    normalizing again gives them back: the editor's text box round-trips. *)
Theorem normalizeRuleText_join value c :
  rule_separator c = true →
  normalizeRuleText (join [c] (normalizeRuleText value)) = normalizeRuleText value.
Proof.
  intros Hc. rewrite !normalizeRuleText_nub.
  rewrite words_join; [|done|].
  - apply nub_NoDup_id, NoDup_nub.
  - apply Forall_forall. intros w Hw%(proj1 (elem_of_nub _ _)). exact (words_no_sep _ _ _ Hw).
Qed.

Lemma normalizeRuleText_join_witness :
  normalizeRuleText (join [10] (normalizeRuleText §"a.ru;;b.ru a.ru"))
  = normalizeRuleText §"a.ru;;b.ru a.ru".
Proof. apply (normalizeRuleText_join §"a.ru;;b.ru a.ru" 10). reflexivity. Defined.

(** ** Properties of the Happ profile

    What the exported arrays hold, stated without accumulators: the rules of
    the enabled custom profiles with that action, in order, each once. *)

Definition site_rules (p : RoutingProfile) : list jstr :=
  ((λ d, §"full:" ++ d) <$> default [] (domains p)) ++
  ((λ s, §"domain:" ++ s) <$>
     filter (λ s, s ≠ []) ((λ s, strip_leading 46 (trim s)) <$> default [] (domain_suffixes p))).

Definition ip_rules (p : RoutingProfile) : list jstr := default [] (cidrs p).

Definition cleaned (l : list jstr) : list jstr := filter (λ s, s ≠ []) (trim <$> l).

Definition chosen (a : RoutingAction) (ps : list RoutingProfile) : list RoutingProfile :=
  filter (λ p, kind p = custom ∧ enabled p = true ∧ action p = a) ps.

Definition exported (a : RoutingAction) (rules : RoutingProfile → list jstr)
    (ps : list RoutingProfile) : list jstr :=
  cleaned (chosen a ps ≫= rules).

Lemma cleaned_app l k : cleaned (l ++ k) = cleaned l ++ cleaned k.
Proof. unfold cleaned. by rewrite fmap_app, filter_app. Qed.

Lemma foldl_appendUnique t l :
  foldl appendUnique t l = foldl push_unique t (cleaned l).
Proof.
  revert t. induction l as [|v l IH]; intros t; [done|]. simpl. rewrite IH.
  change (v :: l) with ([v] ++ l). rewrite cleaned_app, foldl_app. f_equal.
  unfold appendUnique, cleaned. simpl. rewrite filter_cons.
  destruct (trim v) as [|c w] eqn:E; simpl; [done|].
  unfold push_unique.
  case_bool_decide; case_decide; done.
Qed.

Lemma foldl_suffixes t l :
  foldl (λ t suffix,
      let normalized := strip_leading 46 (trim suffix) in
      if str_truthy normalized then appendUnique t (§"domain:" ++ normalized) else t) t l
  = foldl appendUnique t
      ((λ s, §"domain:" ++ s) <$> filter (λ s, s ≠ []) ((λ s, strip_leading 46 (trim s)) <$> l)).
Proof.
  revert t. induction l as [|v l IH]; intros t; [done|]. csimpl. rewrite IH, filter_cons.
  destruct (strip_leading 46 (trim v)) as [|c w]; [done|]. by rewrite decide_True by done.
Qed.

Lemma foldl_fmap_arg {A B C} (f : C → B → C) (g : A → B) l c :
  foldl f c (g <$> l) = foldl (λ c x, f c (g x)) c l.
Proof. revert c. by induction l; intros; csimpl. Qed.

Lemma appendHappRules_spec p sites ips :
  appendHappRules p sites ips =
    (foldl push_unique sites (cleaned (site_rules p)), foldl push_unique ips (cleaned (ip_rules p))).
Proof.
  unfold appendHappRules, site_rules, ip_rules. rewrite foldl_suffixes.
  rewrite <-(foldl_fmap_arg appendUnique (λ d, §"full:" ++ d)).
  by rewrite <-foldl_app, !foldl_appendUnique.
Qed.

Definition arrays_of (a : HappArrays) (ps : list RoutingProfile) : HappArrays :=
  {| directSites := foldl push_unique (directSites a) (exported direct site_rules ps);
     directIp := foldl push_unique (directIp a) (exported direct ip_rules ps);
     proxySites := foldl push_unique (proxySites a) (exported proxy site_rules ps);
     proxyIp := foldl push_unique (proxyIp a) (exported proxy ip_rules ps) |}.

Lemma exported_cons a rules p ps :
  exported a rules (p :: ps) =
    (if decide (kind p = custom ∧ enabled p = true ∧ action p = a)
     then cleaned (rules p) else []) ++ exported a rules ps.
Proof.
  unfold exported, chosen. rewrite filter_cons. case_decide; [|done].
  csimpl. by rewrite cleaned_app.
Qed.

Lemma selected_true p : selected p = true ↔ kind p = custom ∧ enabled p = true.
Proof. unfold selected. destruct (kind p); naive_solver. Qed.

Lemma collect_spec a ps :
  foldl collect a (filter (λ p, selected p = true) ps) = arrays_of a ps.
Proof.
  revert a. induction ps as [|p ps IH]; intros a; [by destruct a|].
  unfold arrays_of. rewrite !exported_cons, !foldl_app, filter_cons.
  destruct (decide (selected p = true)) as [Hs|Hs].
  - apply selected_true in Hs as [Hk He]. simpl. rewrite IH. unfold arrays_of, collect.
    destruct (action p) eqn:Ea; rewrite appendHappRules_spec; simpl;
      repeat first [rewrite decide_True by done | rewrite decide_False by naive_solver]; done.
  - rewrite selected_true in Hs. repeat (rewrite decide_False by naive_solver). apply IH.
Qed.

Lemma build_arrays ps now :
  let h := buildHappRoutingProfile ps now in
  DirectSites h = nub (exported direct site_rules ps) ∧
  DirectIp h = nub (happDefaultDirectIpRules ++ exported direct ip_rules ps) ∧
  ProxySites h = nub (exported proxy site_rules ps) ∧
  ProxyIp h = nub (exported proxy ip_rules ps).
Proof.
  unfold buildHappRoutingProfile. rewrite collect_spec. unfold arrays_of.
  cbn [DirectSites DirectIp ProxySites ProxyIp directSites directIp proxySites proxyIp].
  rewrite !foldl_push_unique_nub_nil. split_and!; try done.
  rewrite <-(foldl_push_unique_nub_nil (_ ++ _)), foldl_app. f_equal.
Qed.

(** C28: each exported array is the duplicate-free list of the cleaned rules
    of the enabled custom profiles with that action, in order; the direct
    addresses are headed by the private ranges; nothing is blocked. *)
Theorem buildHapp_arrays ps now :
  let h := buildHappRoutingProfile ps now in
  DirectSites h = nub (exported direct site_rules ps) ∧
  DirectIp h = nub (happDefaultDirectIpRules ++ exported direct ip_rules ps) ∧
  ProxySites h = nub (exported proxy site_rules ps) ∧
  ProxyIp h = nub (exported proxy ip_rules ps) ∧
  BlockSites h = [] ∧ BlockIp h = [] ∧
  happDefaultDirectIpRules `prefix_of` DirectIp h.
Proof.
  destruct (build_arrays ps now) as (H1 & H2 & H3 & H4). split_and!; try done.
  unfold buildHappRoutingProfile. rewrite collect_spec. apply foldl_push_unique_prefix.
Qed.

(** no rule of a disabled or system profile is exported: the profile
    built from all profiles is the one built from the enabled custom ones. *)
Theorem buildHapp_selected ps now :
  buildHappRoutingProfile ps now =
  buildHappRoutingProfile (filter (λ p, kind p = custom ∧ enabled p = true) ps) now.
Proof.
  unfold buildHappRoutingProfile. rewrite list_filter_filter.
  rewrite (list_filter_iff (λ p, selected p = true)
    (λ p, selected p = true ∧ (kind p = custom ∧ enabled p = true)) ps); [done|].
  intros p. rewrite selected_true. naive_solver.
Qed.
