(* ===== verification/JsDate.v ===== *)
(** * [Date.parse] and [Array.prototype.sort]

    The standard date-time format [YYYY-MM-DDTHH:mm:ss.sssZ] and its shorter
    forms with an explicit offset are evaluated here, in milliseconds since
    the epoch.  Strings outside that grammar (including local times, whose
    meaning depends on the time zone) are left to the host. *)
From S2P Require Export JsString.

(** ** The civil calendar *)

Definition leap (y : Z) : bool :=
  (y mod 4 =? 0) && (negb (y mod 100 =? 0) || (y mod 400 =? 0)).

Definition days_in_month (y m : Z) : Z :=
  if m =? 2 then (if leap y then 29 else 28)
  else if (m =? 4) || (m =? 6) || (m =? 9) || (m =? 11) then 30 else 31.

(** Days between 1970-01-01 and a date of the proleptic Gregorian calendar;
    years start in March, so the leap day comes last. *)
Definition days_from_civil (y m d : Z) : Z :=
  let y' := if m <=? 2 then y - 1 else y in
  let era := y' / 400 in
  let yoe := y' - era * 400 in
  let mp := (m + 9) mod 12 in
  let doy := (153 * mp + 2) / 5 + d - 1 in
  let doe := yoe * 365 + yoe / 4 - yoe / 100 + doy in
  era * 146097 + doe - 719468.

(** ** The grammar *)

Definition digit (c : Z) : option Z :=
  if (48 <=? c) && (c <=? 57) then Some (c - 48) else None.

Fixpoint digits (n : nat) (acc : Z) (s : jstr) : option (Z * jstr) :=
  match n, s with
  | O, _ => Some (acc, s)
  | S n, c :: s => d ← digit c; digits n (10 * acc + d) s
  | S _, [] => None
  end.

Definition lit (c : Z) (s : jstr) : option jstr :=
  match s with
  | x :: s => if x =? c then Some s else None
  | [] => None
  end.

(** An optional suffix introduced by [c]. *)
Definition opt_digits (c : Z) (n : nat) (dflt : Z) (s : jstr) : option (Z * jstr) :=
  match lit c s with
  | Some s => digits n 0 s
  | None => Some (dflt, s)
  end.

(** [Z] or [±HH:mm], in minutes; the whole rest of the string. *)
Definition iso_offset (s : jstr) : option Z :=
  match s with
  | [90] => Some 0
  | sign :: s =>
      sg ← (if sign =? 43 then Some 1 else if sign =? 45 then Some (-1) else None);
      '(h, s) ← digits 2 0 s; s ← lit 58 s; '(m, s) ← digits 2 0 s;
      match s with
      | [] => if (h <? 24) && (m <? 60) then Some (sg * (60 * h + m)) else None
      | _ => None
      end
  | [] => None
  end.

Definition iso_parse (s : jstr) : option Z :=
  '(y, s) ← digits 4 0 s;
  '(mo, s) ← opt_digits 45 2 1 s;
  '(d, s) ← opt_digits 45 2 1 s;
  if negb ((1 <=? mo) && (mo <=? 12) && (1 <=? d) && (d <=? days_in_month y mo)) then None else
  let day := days_from_civil y mo d * 86400000 in
  match s with
  | [] => Some day
  | _ =>
      s ← lit 84 s;
      '(h, s) ← digits 2 0 s; s ← lit 58 s;
      '(mi, s) ← digits 2 0 s;
      '(sec, s) ← opt_digits 58 2 0 s;
      '(ms, s) ← opt_digits 46 3 0 s;
      off ← iso_offset s;
      if (h <? 24) && (mi <? 60) && (sec <? 60)
      then Some (day + ((h * 60 + mi - off) * 60 + sec) * 1000 + ms)
      else None
  end.

(** [Date.parse]; [None] is [NaN]. *)
Definition date_parse `{JsHost} (s : jstr) : option Z :=
  match iso_parse s with
  | Some t => Some t
  | None => date_fallback s
  end.

Example iso_epoch : iso_parse §"1970-01-01T00:00:00Z" = Some 0.
Proof. reflexivity. Qed.
Example iso_leap_day : iso_parse §"2024-02-29" = Some 1709164800000.
Proof. reflexivity. Qed.
Example iso_no_leap_day : iso_parse §"2023-02-29" = None.
Proof. reflexivity. Qed.
Example iso_zone : iso_parse §"2026-05-30T12:00:00+03:00" = Some 1780131600000.
Proof. reflexivity. Qed.
Example iso_millis : iso_parse §"1969-12-31T23:59:59.999Z" = Some (-1).
Proof. reflexivity. Qed.

Lemma StronglySorted_weaken {A} (R S : A → A → Prop) l :
  (∀ x y, R x y → S x y) → StronglySorted R l → StronglySorted S l.
Proof.
  intros HRS. induction 1 as [|x l Hl IH Hx]; constructor; [done|].
  eapply Forall_impl; [exact Hx|]. apply HRS.
Qed.

(** ** Sorting with a comparator

    [l.sort(cmp)] is stable; a comparator result that is [NaN] counts as 0.
    The insertion sort below returns the sorted list every stable sort
    returns when the comparator is a consistent order. *)

Section Sort.
Context {A : Type} (cmp : A → A → Z).

Fixpoint sort_insert (x : A) (l : list A) : list A :=
  match l with
  | [] => [x]
  | y :: l' => if 0 <? cmp x y then y :: sort_insert x l' else x :: l
  end.

Fixpoint js_sort (l : list A) : list A :=
  match l with
  | [] => []
  | x :: l => sort_insert x (js_sort l)
  end.

Lemma sort_insert_perm x l : sort_insert x l ≡ₚ x :: l.
Proof.
  induction l as [|y l IH]; [done|]. simpl. destruct (0 <? cmp x y); [|done].
  rewrite IH. apply Permutation_swap.
Qed.

Lemma js_sort_perm l : js_sort l ≡ₚ l.
Proof. induction l as [|x l IH]; [done|]. simpl. by rewrite sort_insert_perm, IH. Qed.

(** Sorted when the comparator is a difference of keys on the elements. *)
Lemma js_sort_sorted (key : A → Z) l :
  (∀ x y, x ∈ l → y ∈ l → cmp x y = key x - key y) →
  StronglySorted (λ x y, key x ≤ key y) (js_sort l).
Proof.
  induction l as [|x l IH]; intros Hc; [constructor|]. simpl.
  assert (StronglySorted (λ x y, key x ≤ key y) (js_sort l)) as Hs.
  { apply IH. intros; apply Hc; by right. }
  assert (∀ y, y ∈ js_sort l → cmp x y = key x - key y) as Hx.
  { intros y Hy. apply Hc; [by left|right; by rewrite <-js_sort_perm]. }
  clear IH Hc. induction Hs as [|y k Hk IH Hy]; simpl; [repeat constructor|].
  pose proof (Hx y ltac:(by left)) as E.
  destruct (Z.ltb_spec 0 (cmp x y)).
  - constructor; [apply IH; intros; apply Hx; by right|].
    apply Forall_forall. intros z. rewrite sort_insert_perm, elem_of_cons.
    intros [->|Hz]; [lia|]. by rewrite Forall_forall in Hy; apply Hy.
  - constructor; [by constructor|]. constructor; [lia|].
    eapply Forall_impl; [exact Hy|]. simpl. lia.
Qed.
End Sort.

(** The order of [sort()]: by UTF-16 units. *)
Fixpoint str_compare (a b : jstr) : Z :=
  match a, b with
  | [], [] => 0
  | [], _ => -1
  | _, [] => 1
  | x :: a, y :: b => if x =? y then str_compare a b else x - y
  end.
