(* ===== verification/AdminLib.v ===== *)
(** * Admin helpers: [web/lib/admin.ts]

    The notification and server records of the admin panel, the incident
    banner's condition, the merge of pushed notifications, the server filters
    and the selection that survives filtering. *)
From S2P Require Export JsString JsDate.

(** ** Types *)

Inductive AdminSeverity := sev_info | sev_warning | sev_critical.
Inductive AdminNotificationStatus := st_open | st_resolved.

#[export] Instance AdminSeverity_eq_dec : EqDecision AdminSeverity.
Proof. solve_decision. Defined.
#[export] Instance AdminNotificationStatus_eq_dec : EqDecision AdminNotificationStatus.
Proof. solve_decision. Defined.

(** A field [f?: T | null] that the code only tests or passes on is an
    [option]; absent and [null] are not told apart by the code. *)
Record NotificationServer := {
  ns_id : Z;
  ns_name : jstr;
  ns_region : option jstr;
  ns_endpoint : option jstr;
  ns_country_code : option jstr;
}.

Record AdminNotification := {
  n_id : Z;
  fingerprint : option jstr;
  severity : AdminSeverity;
  n_status : AdminNotificationStatus;
  n_title : jstr;
  n_message : jstr;
  n_server_id : option Z;
  n_server : option NotificationServer;
  metadata_json : option jstr;
  last_seen_at : jstr;
  acknowledged_at : option jstr;
  acknowledged_by_id : option Z;
  muted_until : option jstr;
  resolved_at : option jstr;
  n_created_at : jstr;
}.

Record AwgSummary := {
  listen_port : option Z;
  interface : option jstr;
  container : option jstr;
  jc : option jstr; jmin : option jstr; jmax : option jstr;
  s1 : option jstr; s2 : option jstr; s3 : option jstr; s4 : option jstr;
  h1 : option jstr; h2 : option jstr; h3 : option jstr; h4 : option jstr;
}.

Record XraySummary := {
  address : option jstr;
  port : option Z;
  server_name : option jstr;
  public_key : option jstr;
  short_id : option jstr;
  network : option jstr;
  security : option jstr;
  grpc_service_name : option jstr;
  container_name : option jstr;
}.

Record ConfigSummary := {
  awg : option AwgSummary;
  xray : option XraySummary;
}.

Record AdminServer := {
  s_id : Z;
  s_name : jstr;
  host : option jstr;
  endpoint : option jstr;
  region : option jstr;
  country_code : option jstr;
  active : bool;
  is_vip_only : option bool;
  max_peers : option Z;
  active_keys : option Z;
  active_awg : option Z;
  active_vless : option Z;
  utilization : option Z;
  agent_mode : option jstr;
  agent_node_id : option jstr;
  agent_last_heartbeat_at : option jstr;
  agent_heartbeat_stale : option bool;
  agent_docker_available : option bool;
  agent_uptime_seconds : option Z;
  agent_last_health_status : option jstr;
  agent_last_version : option jstr;
  agent_last_commit : option jstr;
  agent_active_digest : option jstr;
  agent_previous_digest : option jstr;
  agent_last_update_status : option jstr;
  agent_last_update_error : option jstr;
  agent_last_snapshot_hash : option jstr;
  agent_last_snapshot_at : option jstr;
  agent_last_snapshot_status : option jstr;
  agent_bootstrap_status : option jstr;
  agent_bootstrap_error : option jstr;
  agent_bootstrap_at : option jstr;
  pihole_enabled : option bool;
  pihole_last_sync_at : option jstr;
  pihole_last_sync_error : option jstr;
  config_summary : option ConfigSummary;
}.

Record Kpis := {
  total_users : Z;
  active_subscriptions : Z;
  active_vpn_keys : Z;
  total_servers : Z;
  active_servers : Z;
  open_incidents : Z;
  monthly_revenue : Z;
}.

Record AdminOverview := {
  kpis : Kpis;
  notifications : list AdminNotification;
  servers : list AdminServer;
}.

Record AdminAuditLog := {
  a_id : Z;
  actor_user_id : option Z;
  a_action : jstr;
  entity : jstr;
  entity_id : jstr;
  a_result : jstr;
  a_message : jstr;
  ip : jstr;
  a_created_at : jstr;
}.

Inductive StatusFilter := status_all | status_active | status_inactive | status_stale.
Inductive VipFilter := vip_all | vip_vip | vip_standard.

#[export] Instance StatusFilter_eq_dec : EqDecision StatusFilter.
Proof. solve_decision. Defined.
#[export] Instance VipFilter_eq_dec : EqDecision VipFilter.
Proof. solve_decision. Defined.

Record ServerFilters := {
  query : jstr;
  f_status : StatusFilter;
  f_region : jstr;
  vipOnly : VipFilter;
}.

(** Truthiness of optional fields. *)
Definition opt_str_truthy (o : option jstr) : bool := from_option str_truthy false o.
Definition opt_true (o : option bool) : bool := default false o.

(** ** Operations *)

Section Operations.
Context `{JsHost}.

(** The callback of [some]. *)
Definition unacknowledged (now : Z) (n : AdminNotification) : bool :=
  let mutedUntil :=
    if opt_str_truthy (muted_until n) then date_parse (default [] (muted_until n)) else Some 0 in
  bool_decide (severity n = sev_critical) &&
  bool_decide (n_status n = st_open) &&
  negb (opt_str_truthy (acknowledged_at n)) &&
  match mutedUntil with
  | None => true
  | Some t => (t =? 0) || (t <=? now)
  end.

Definition hasUnacknowledgedCriticalIncident (now : Z) (ns : list AdminNotification) : bool :=
  existsb (unacknowledged now) ns.

(** [byID.set(notification.id, notification)]: a [Map] keeps the position of
    a key that is set again. *)
Fixpoint map_set (byID : list AdminNotification) (n : AdminNotification) : list AdminNotification :=
  match byID with
  | [] => [n]
  | m :: rest => if n_id m =? n_id n then n :: rest else m :: map_set rest n
  end.

Definition event_time (n : AdminNotification) : option Z :=
  date_parse (str_or (n_created_at n) (last_seen_at n)).

(** The comparator of the sort: a difference with [NaN] counts as 0. *)
Definition newest_first (a b : AdminNotification) : Z :=
  match event_time b, event_time a with
  | Some tb, Some ta => tb - ta
  | _, _ => 0
  end.

Definition mergeNotificationEvent (current incoming : list AdminNotification)
    : list AdminNotification :=
  let byID := foldl map_set [] current in
  let byID := foldl map_set byID incoming in
  js_sort newest_first byID.

Definition haystack (s : AdminServer) : jstr :=
  to_lower (join §" " (filter (λ f, str_truthy f = true)
    [s_name s; default [] (region s); default [] (endpoint s); default [] (host s);
     default [] (country_code s)])).

(** The callback of [filter], by its early returns. *)
Definition server_visible (q : jstr) (filters : ServerFilters) (s : AdminServer) : bool :=
  if str_truthy q && negb (includes (haystack s) q) then false
  else if bool_decide (f_status filters = status_active) && negb (active s) then false
  else if bool_decide (f_status filters = status_inactive) && active s then false
  else if bool_decide (f_status filters = status_stale) && negb (opt_true (agent_heartbeat_stale s))
  then false
  else if str_truthy (f_region filters) && negb (bool_decide (region s = Some (f_region filters)))
  then false
  else if bool_decide (vipOnly filters = vip_vip) && negb (opt_true (is_vip_only s)) then false
  else if bool_decide (vipOnly filters = vip_standard) && opt_true (is_vip_only s) then false
  else true.

Definition applyServerFilters (ss : list AdminServer) (filters : ServerFilters) : list AdminServer :=
  let q := to_lower (trim (query filters)) in
  filter (λ s, server_visible q filters s = true) ss.

Definition preserveSelectedServer (selectedID : option Z) (visibleServers : list AdminServer)
    : option Z :=
  match visibleServers with
  | [] => None
  | first :: _ =>
      match selectedID with
      | Some i =>
          if negb (i =? 0) && existsb (λ s, s_id s =? i) visibleServers then Some i
          else Some (s_id first)
      | None => Some (s_id first)
      end
  end.
End Operations.

(** ** Concrete records, and the project's own tests *)

Definition sample_notification (i : Z) (sev : AdminSeverity) (title created : jstr)
    (ack muted : option jstr) : AdminNotification :=
  {| n_id := i; fingerprint := None; severity := sev; n_status := st_open; n_title := title;
     n_message := title; n_server_id := None; n_server := None; metadata_json := None;
     last_seen_at := created; acknowledged_at := ack; acknowledged_by_id := None;
     muted_until := muted; resolved_at := None; n_created_at := created |}.

Definition sample_server (i : Z) (nm rg ep : jstr) (vip stale : bool) : AdminServer :=
  {| s_id := i; s_name := nm; host := None; endpoint := Some ep; region := Some rg;
     country_code := None; active := true; is_vip_only := Some vip; max_peers := None;
     active_keys := None; active_awg := None; active_vless := None; utilization := None;
     agent_mode := Some §"agent"; agent_node_id := None; agent_last_heartbeat_at := None;
     agent_heartbeat_stale := Some stale; agent_docker_available := None;
     agent_uptime_seconds := None; agent_last_health_status := None; agent_last_version := None;
     agent_last_commit := None; agent_active_digest := None; agent_previous_digest := None;
     agent_last_update_status := None; agent_last_update_error := None;
     agent_last_snapshot_hash := None; agent_last_snapshot_at := None;
     agent_last_snapshot_status := None; agent_bootstrap_status := None;
     agent_bootstrap_error := None; agent_bootstrap_at := None; pihole_enabled := None;
     pihole_last_sync_at := None; pihole_last_sync_error := None; config_summary := None |}.

Definition noon : jstr := §"2026-05-30T12:00:00Z".

Definition two_servers : list AdminServer :=
  [ sample_server 1 §"Amsterdam" §"NL" §"ams.example.com" false false;
    sample_server 2 §"Paris" §"FR" §"par.example.com" true true ].

Definition paris_filters : ServerFilters :=
  {| query := §"paris"; f_status := status_stale; f_region := []; vipOnly := vip_all |}.

Example banner_test :
  let inc ack := [sample_notification 1 sev_critical §"VPS" noon ack None] in
  @hasUnacknowledgedCriticalIncident plain_host 0 (inc None) = true ∧
  @hasUnacknowledgedCriticalIncident plain_host 0 (inc (Some noon)) = false.
Proof. vm_compute. by split. Qed.

Example merge_test :
  n_title <$> @mergeNotificationEvent plain_host
    [sample_notification 1 sev_warning §"Old" noon None None]
    [sample_notification 1 sev_critical §"New" noon None None] = [§"New"].
Proof. vm_compute. reflexivity. Qed.

Example filters_test :
  let filtered := @applyServerFilters plain_host two_servers paris_filters in
  s_id <$> filtered = [2] ∧
  preserveSelectedServer (Some 2) filtered = Some 2 ∧
  preserveSelectedServer (Some 1) filtered = Some 2.
Proof. vm_compute. by split_and!. Qed.

(** ** The incident banner *)

Section Banner.
Context `{JsHost}.

(** Muted at [now]: a deadline that parses to an instant after [now]. *)
Definition muted_at (now : Z) (n : AdminNotification) : Prop :=
  ∃ s t, muted_until n = Some s ∧ s ≠ [] ∧ date_parse s = Some t ∧ t ≠ 0 ∧ now < t.

Lemma unacknowledged_spec now n :
  unacknowledged now n = true ↔
  severity n = sev_critical ∧ n_status n = st_open ∧
  opt_str_truthy (acknowledged_at n) = false ∧ ¬ muted_at now n.
Proof.
  unfold unacknowledged. rewrite !andb_true_iff, !bool_decide_eq_true, negb_true_iff.
  assert (match (if opt_str_truthy (muted_until n)
                 then date_parse (default [] (muted_until n)) else Some 0) with
          | None => true | Some t => (t =? 0) || (t <=? now) end = true ↔ ¬ muted_at now n) as ->;
    [|tauto].
  unfold muted_at. destruct (muted_until n) as [[|c s]|]; simpl; try naive_solver.
  destruct (date_parse (c :: s)) as [t|] eqn:E; [|naive_solver].
  rewrite orb_true_iff, Z.eqb_eq, Z.leb_le. split.
  - intros Ht (s' & t' & [= <-] & _ & Hp & ? & ?). simplify_eq. lia.
  - intros Hm. destruct (decide (t = 0)); [by left|]. right.
    destruct (decide (t ≤ now)) as [|Hlt]; [done|]. destruct Hm. exists (c :: s), t.
    split_and!; done || lia.
Qed.

(** C29: the incident banner is shown exactly when some critical notification
    is open, not acknowledged and not muted past the current instant; an
    unreadable deadline does not mute, and the passage of time alone never
    hides the banner. *)
Theorem banner_spec now ns :
  (hasUnacknowledgedCriticalIncident now ns = true ↔
     ∃ n, n ∈ ns ∧ severity n = sev_critical ∧ n_status n = st_open ∧
          opt_str_truthy (acknowledged_at n) = false ∧ ¬ muted_at now n) ∧
  (∀ later, now ≤ later → hasUnacknowledgedCriticalIncident now ns = true →
     hasUnacknowledgedCriticalIncident later ns = true).
Proof.
  assert (∀ t, hasUnacknowledgedCriticalIncident t ns = true ↔
     ∃ n, n ∈ ns ∧ severity n = sev_critical ∧ n_status n = st_open ∧
          opt_str_truthy (acknowledged_at n) = false ∧ ¬ muted_at t n) as Hs.
  { intros t. unfold hasUnacknowledgedCriticalIncident. rewrite existsb_elem_of.
    by setoid_rewrite unacknowledged_spec. }
  split; [apply Hs|]. intros later Hle. rewrite !Hs.
  intros (n & ? & ? & ? & ? & Hm). exists n. split_and!; try done.
  contradict Hm. destruct Hm as (s & t & ? & ? & ? & ? & ?). exists s, t. split_and!; done || lia.
Qed.

(** ** Merging pushed notifications *)

(** The last notification of a list with a given id. *)
Definition latest (i : Z) (l : list AdminNotification) : option AdminNotification :=
  foldl (λ acc n, if n_id n =? i then Some n else acc) None l.

Lemma map_set_ids byID n :
  n_id <$> map_set byID n = push_unique (n_id <$> byID) (n_id n).
Proof.
  unfold push_unique. induction byID as [|m l IH]; [done|]. csimpl.
  destruct (Z.eqb_spec (n_id m) (n_id n)) as [E|E]; csimpl.
  - rewrite decide_True by (rewrite E; by left). by rewrite E.
  - rewrite IH. case_decide as Hd.
    + by rewrite decide_True by (by right).
    + by rewrite decide_False by (rewrite elem_of_cons; naive_solver).
Qed.

Lemma elem_of_map_set byID n x :
  NoDup (n_id <$> byID) →
  x ∈ map_set byID n ↔ x = n ∨ x ∈ byID ∧ n_id x ≠ n_id n.
Proof.
  induction byID as [|m l IH]; csimpl; [set_solver|].
  intros [Hm Hl]%NoDup_cons. destruct (Z.eqb_spec (n_id m) (n_id n)) as [E|E].
  - rewrite !elem_of_cons. split; [|naive_solver]. intros [->|Hx]; [by left|].
    right. split; [by right|]. intros Ex. apply Hm. rewrite E, <-Ex.
    by apply list_elem_of_fmap_2.
  - rewrite !elem_of_cons, IH by done. naive_solver.
Qed.

Lemma foldl_map_set_NoDup acc l :
  NoDup (n_id <$> acc) → NoDup (n_id <$> foldl map_set acc l).
Proof.
  revert acc. induction l as [|n l IH]; intros acc Ha; [done|]. simpl. apply IH.
  rewrite map_set_ids. by apply NoDup_push_unique.
Qed.

Lemma latest_app_one i l n :
  latest i (l ++ [n]) = if n_id n =? i then Some n else latest i l.
Proof. unfold latest. by rewrite foldl_app. Qed.

Lemma latest_elem i l n : latest i l = Some n → n ∈ l.
Proof.
  induction l as [|m l IH] using rev_ind; [done|]. rewrite latest_app_one, elem_of_app.
  destruct (n_id m =? i); [intros [= ->]; set_solver|naive_solver].
Qed.

Lemma elem_of_foldl_map_set l x :
  x ∈ foldl map_set [] l ↔ latest (n_id x) l = Some x.
Proof.
  induction l as [|n l IH] using rev_ind; [set_solver|].
  rewrite foldl_app, latest_app_one. simpl.
  rewrite elem_of_map_set by (apply foldl_map_set_NoDup; constructor).
  rewrite IH. destruct (Z.eqb_spec (n_id n) (n_id x)); naive_solver.
Qed.

(** merging keeps one notification per id, namely the last one received
    with that id, incoming ones over current ones; and when every timestamp
    parses the result is ordered newest first. *)
Theorem merge_spec current incoming :
  let merged := mergeNotificationEvent current incoming in
  NoDup (n_id <$> merged) ∧
  (∀ n, n ∈ merged ↔ latest (n_id n) (current ++ incoming) = Some n) ∧
  ((∀ n, n ∈ current ++ incoming → is_Some (event_time n)) →
   StronglySorted (λ a b, default 0 (event_time b) ≤ default 0 (event_time a)) merged).
Proof.
  simpl. unfold mergeNotificationEvent. rewrite <-foldl_app.
  split_and!.
  - rewrite js_sort_perm. apply foldl_map_set_NoDup. constructor.
  - intros n. rewrite js_sort_perm. apply elem_of_foldl_map_set.
  - intros Hd. eapply StronglySorted_weaken; [|apply js_sort_sorted
      with (key := λ n, - default 0 (event_time n))]; [simpl; lia|].
    assert (∀ x, x ∈ foldl map_set [] (current ++ incoming) → is_Some (event_time x)) as He.
    { intros x Hx%elem_of_foldl_map_set. apply Hd. by eapply latest_elem. }
    intros x y [tx Hx]%He [ty Hy]%He. unfold newest_first. rewrite Hx, Hy. simpl. lia.
Qed.

(** ** Filtering and selection *)

Lemma elem_of_filtered ss f s :
  s ∈ applyServerFilters ss f ↔
  s ∈ ss ∧ server_visible (to_lower (trim (query f))) f s = true.
Proof. unfold applyServerFilters. rewrite list_elem_of_filter. tauto. Qed.

Lemma join_contains sep (l : list jstr) w :
  w ∈ l → ∃ a b, join sep l = a ++ w ++ b.
Proof.
  induction l as [|x l IH]; [set_solver|]. intros [->|Hw]%elem_of_cons.
  - destruct l; [exists [], []; simpl; by rewrite app_nil_r|]. by eexists [], _.
  - destruct (IH Hw) as (a & b & E). destruct l as [|y l]; [set_solver|].
    exists (x ++ sep ++ a), b. cbn [join] in *. rewrite E. by rewrite <-!app_assoc.
Qed.

Definition searchable (s : AdminServer) : list jstr :=
  [s_name s; default [] (region s); default [] (endpoint s); default [] (host s);
   default [] (country_code s)].

Lemma is_ascii_join sep l :
  is_ascii sep = true → Forall (λ f, is_ascii f = true) l → is_ascii (join sep l) = true.
Proof.
  intros Hsep. induction 1 as [|x [|y l] Hx Hl IH]; [done|done|].
  cbn [join] in *. by rewrite !is_ascii_app, Hx, Hsep, IH.
Qed.

(** A part of a field, in any case, is found in the haystack. *)
Lemma haystack_contains s field a q b w :
  Forall (λ f, is_ascii f = true) (searchable s) →
  field ∈ searchable s → field = a ++ q ++ b → q ≠ [] →
  lower_unit <$> w = lower_unit <$> q → is_ascii w = true →
  includes (haystack s) (to_lower w) = true.
Proof.
  intros Ha Hf -> Hq Hw Hasc. set (fs := filter (λ f, str_truthy f = true) (searchable s)).
  assert (Forall (λ f, is_ascii f = true) fs) as Hfs.
  { rewrite Forall_forall in Ha |- *. intros x [_ Hx]%list_elem_of_filter. by apply Ha. }
  assert (a ++ q ++ b ∈ fs) as Hin.
  { apply list_elem_of_filter. split; [|done]. apply str_truthy_iff.
    intros E. apply app_eq_nil in E as [_ E]. by apply app_eq_nil in E as [? _]. }
  destruct (join_contains §" " fs _ Hin) as (u & v & E).
  assert (is_ascii (join §" " fs) = true) as Hj by (by apply is_ascii_join).
  apply includes_spec. unfold haystack. fold (searchable s) fs. unfold to_lower.
  rewrite Hj, Hasc, E, Hw. exists (lower_unit <$> u ++ a), (lower_unit <$> b ++ v).
  by rewrite !fmap_app, <-!app_assoc.
Qed.

(** [if (c) return false; ...]: the guards of a filter callback. *)
Lemma early_return (c k : bool) : (if c then false else k) = true ↔ c = false ∧ k = true.
Proof. destruct c; naive_solver. Qed.

Lemma guard_negb (c d : bool) : c && negb d = false ↔ (c = true → d = true).
Proof. destruct c, d; naive_solver. Qed.

Lemma guard_pos (c d : bool) : c && d = false ↔ (c = true → d ≠ true).
Proof. destruct c, d; naive_solver. Qed.

Lemma server_visible_spec q f s :
  server_visible q f s = true ↔
  (q ≠ [] → includes (haystack s) q = true) ∧
  (f_status f = status_active → active s = true) ∧
  (f_status f = status_inactive → active s = false) ∧
  (f_status f = status_stale → agent_heartbeat_stale s = Some true) ∧
  (f_region f ≠ [] → region s = Some (f_region f)) ∧
  (vipOnly f = vip_vip → is_vip_only s = Some true) ∧
  (vipOnly f = vip_standard → is_vip_only s ≠ Some true).
Proof.
  assert (∀ o, opt_true o = true ↔ o = Some true) as Ho by (intros [[]|]; naive_solver).
  rewrite <-!Ho, <-(str_truthy_iff q), <-(str_truthy_iff (f_region f)).
  unfold server_visible. rewrite !early_return, !guard_negb, !guard_pos, !bool_decide_eq_true.
  rewrite not_true_iff_false. tauto.
Qed.

(** a server is listed exactly when it passes the search and each
    active filter, in the original order; and the search is complete: any
    part of an ASCII field, typed in any case and padded with spaces, finds
    the server when no other filter is set. *)
Theorem filters_spec ss f :
  applyServerFilters ss f `sublist_of` ss ∧
  (∀ s, s ∈ applyServerFilters ss f ↔
     s ∈ ss ∧
     (to_lower (trim (query f)) ≠ [] →
        includes (haystack s) (to_lower (trim (query f))) = true) ∧
     (f_status f = status_active → active s = true) ∧
     (f_status f = status_inactive → active s = false) ∧
     (f_status f = status_stale → agent_heartbeat_stale s = Some true) ∧
     (f_region f ≠ [] → region s = Some (f_region f)) ∧
     (vipOnly f = vip_vip → is_vip_only s = Some true) ∧
     (vipOnly f = vip_standard → is_vip_only s ≠ Some true)) ∧
  (∀ s field a q b,
     s ∈ ss → f_status f = status_all → f_region f = [] → vipOnly f = vip_all →
     Forall (λ x, is_ascii x = true) (searchable s) → is_ascii (query f) = true →
     field ∈ searchable s → field = a ++ q ++ b → q ≠ [] →
     lower_unit <$> trim (query f) = lower_unit <$> q →
     s ∈ applyServerFilters ss f).
Proof.
  split_and!.
  - apply sublist_filter.
  - intros s. rewrite elem_of_filtered, server_visible_spec. naive_solver.
  - intros s field a q b Hs Ef Er Ev Ha Hq Hin Hf Hne Hw.
    apply elem_of_filtered. split; [done|]. apply server_visible_spec.
    rewrite Ef, Er, Ev. split_and!; try done. intros _.
    eapply haystack_contains; try done. by apply is_ascii_trim.
Qed.

(** after filtering, the selection is a listed server, there is none
    only when nothing is listed, and a listed selected server stays
    selected (server ids are positive). *)
Theorem selection_spec selectedID visible :
  (∀ i, preserveSelectedServer selectedID visible = Some i → i ∈ s_id <$> visible) ∧
  (preserveSelectedServer selectedID visible = None ↔ visible = []) ∧
  (∀ i, selectedID = Some i → 0 < i → i ∈ s_id <$> visible →
     preserveSelectedServer selectedID visible = Some i).
Proof.
  assert (∀ i l, existsb (λ s, s_id s =? i) l = true ↔ i ∈ s_id <$> l) as He.
  { intros i l. rewrite existsb_elem_of, list_elem_of_fmap. setoid_rewrite Z.eqb_eq. naive_solver. }
  unfold preserveSelectedServer. destruct visible as [|v l]; [set_solver|].
  destruct selectedID as [j|]; [|csimpl; split_and!; [intros i [= <-]; by left|done|done]].
  split_and!.
  - intros i. destruct (negb (j =? 0) && _) eqn:E; intros [= <-]; [|by left].
    by apply andb_true_iff in E as [_ E%He].
  - by destruct (_ && _).
  - intros i [= ->] Hi Hin%He. rewrite Hin, (proj2 (Z.eqb_neq i 0)) by lia. done.
Qed.
End Banner.
