(* ===== verification/ServerApi.v ===== *)
(** * The server side of the site: [web/lib/server-api.ts]

    Every call of the site's server to the backend goes through here, with
    the session tokens kept in two cookies.  What the surroundings provide
    (Next's [cookies()] and [fetch]) is the class [Server]; [ServerLaws]
    states what the code relies on, and two instances discharge it: the
    writable jar of route handlers and the read-only one of server
    components, where [set] and [delete] throw. *)
From S2P Require Export SiteConfig.

Definition accessCookieName : jstr := §"fblink_access_token".
Definition refreshCookieName : jstr := §"fblink_refresh_token".

(** ** The interface *)

Record CookieOptions := {
  httpOnly : bool;
  secure : bool;
  sameSite : jstr;
  path : jstr;
  maxAge : Z;
}.

(** [store.get(k)?.value] is [undefined] when there is no such cookie.
    [sent] is the sequence of requests made so far. *)
Class Server (W : Type) := {
  server_fetch :: Fetch W;
  cookie_get : jstr → W → jval;
  cookie_set : jstr → jval → CookieOptions → M W unit;
  cookie_delete : jstr → M W unit;
  sent : W → list Request;
}.

Class ServerLaws (W : Type) `{!Server W} := {
  fetch_sent r w : sent (fetch r w).2 = sent w ++ [r];
  fetch_cookies r w k : cookie_get k (fetch r w).2 = cookie_get k w;
  set_sent k v o w : sent (cookie_set k v o w).2 = sent w;
  delete_sent k w : sent (cookie_delete k w).2 = sent w;
  set_get k s o w w' :
    cookie_set k (JStr s) o w = (Ok tt, w') → cookie_get k w' = JStr s;
  set_get_ne k k' v o w : k ≠ k' → cookie_get k' (cookie_set k v o w).2 = cookie_get k' w;
  delete_get k w w' : cookie_delete k w = (Ok tt, w') → cookie_get k w' = JUndefined;
  delete_get_ne k k' w : k ≠ k' → cookie_get k' (cookie_delete k w).2 = cookie_get k' w;
}.

(** Route handlers may write cookies. *)
Class Writable (W : Type) `{!Server W} := {
  set_ok k v o w : (cookie_set k v o w).1 = Ok tt;
  delete_ok k w : (cookie_delete k w).1 = Ok tt;
}.

(** ** The operations *)

Record RequestInit := {
  init_method : option jstr;
  init_headers : list header;
  init_body : option jstr;
}.

(** [{ Authorization: `Bearer ${token}` }] *)
Definition bearer (token : jval) : list header :=
  [(§"Authorization", §"Bearer " ++ to_text token)].

Definition backendBaseURL (env : Env) : jstr :=
  strip_trailing 47 (default §"http://backend:8081" (BACKEND_API_URL env)).

(** The request [backendFetch] sends; the caching mode is not modelled. *)
Definition backend_request (env : Env) (path : jstr) (init : RequestInit) : Request :=
  let hs := init_headers init in
  let hs := if headers_has hs §"Content-Type" then hs
            else headers_set §"Content-Type" §"application/json" hs in
  {| method := default §"GET" (init_method init);
     url := backendBaseURL env ++ path;
     headers := hs;
     body := init_body init |}.

#[global] Arguments backend_request : simpl never.

(** [JSON.stringify({ error: "unauthorized" })] with status 401. *)
Definition unauthorized_response : Response :=
  {| status := 401;
     resp_headers := [(§"Content-Type", §"application/json")];
     resp_body := JsonBody (JObj [(§"error", JStr §"unauthorized")]) |}.

Section Operations.
Context {W : Type} `{!Server W} (env : Env).

Definition backendFetch (path : jstr) (init : RequestInit) : M W Response :=
  fetch (backend_request env path init).

Definition currentAccessToken : M W jval := gets (cookie_get accessCookieName).
Definition currentRefreshToken : M W jval := gets (cookie_get refreshCookieName).

Definition cookieOptions : CookieOptions :=
  {| httpOnly := true; secure := str_eqb (NODE_ENV env) §"production"; sameSite := §"lax";
     path := §"/"; maxAge := 60 * 60 * 24 * 30 |}.

Definition setAuthCookies (access_token refresh_token : jval) : M W unit :=
  _ ← cookie_set accessCookieName access_token cookieOptions;
  cookie_set refreshCookieName refresh_token cookieOptions.

Definition clearAuthCookies : M W unit :=
  _ ← cookie_delete accessCookieName;
  cookie_delete refreshCookieName.

Definition backendJSON (response : Response) : M W jval :=
  try_catch (json response)
    (λ _, mret (JObj [(§"error", JStr §"Неверный ответ сервера")])).

(** [await clearAuthCookies(); return null;] *)
Definition sign_out : M W jval := _ ← clearAuthCookies; mret JNull.

Definition refreshAccessToken : M W jval :=
  refresh ← currentRefreshToken;
  if negb (truthy refresh) then mret JNull else
  response ← backendFetch §"/api/v1/auth/refresh"
    {| init_method := Some §"POST"; init_headers := [];
       init_body := Some (stringify (JObj [(§"refresh_token", refresh)])) |};
  if negb (ok response) then sign_out else
  try_catch
    (tokens ← json response;
     if negb (truthy (get tokens §"access_token")) || negb (truthy (get tokens §"refresh_token"))
     then sign_out
     else
       _ ← setAuthCookies (get tokens §"access_token") (get tokens §"refresh_token");
       mret (get tokens §"access_token"))
    (λ _, sign_out).

Definition authorizedFetch (build : jval → M W Response) : M W Response :=
  access ← currentAccessToken;
  if negb (truthy access) then
    refreshed ← refreshAccessToken;
    if negb (truthy refreshed) then mret unauthorized_response else build refreshed
  else
    response ← build access;
    if negb (status response =? 401) then mret response else
    refreshed ← refreshAccessToken;
    if negb (truthy refreshed) then mret response else build refreshed.
End Operations.

(** ** The two cookie stores of Next *)

Record Cookie := { value : jval; options : CookieOptions }.

(** The requests sent, the cookies, and the backend as a function of the
    requests it has seen. *)
Record ServerWorld := { log : list Request; jar : gmap jstr Cookie }.

Definition Backend : Type := list Request → Request → res Response.

Section Stores.
Context (backend : Backend).

Definition world_fetch (r : Request) : M ServerWorld Response := λ w,
  (backend (log w) r, {| log := log w ++ [r]; jar := jar w |}).

Definition jar_get (k : jstr) (w : ServerWorld) : jval := from_option value JUndefined (jar w !! k).

(** In a route handler. *)
Definition route_server : Server ServerWorld := {|
  server_fetch := world_fetch;
  cookie_get := jar_get;
  cookie_set k v o := modify (λ w,
    {| log := log w; jar := <[k := {| value := v; options := o |}]> (jar w) |});
  cookie_delete k := modify (λ w, {| log := log w; jar := delete k (jar w) |});
  sent := log;
|}.

(** In a server component: cookies can be read, not written. *)
Definition page_server : Server ServerWorld := {|
  server_fetch := world_fetch;
  cookie_get := jar_get;
  cookie_set _ _ _ := throw (ErrorExn §"Cookies can only be modified in a Server Action or Route Handler");
  cookie_delete _ := throw (ErrorExn §"Cookies can only be modified in a Server Action or Route Handler");
  sent := log;
|}.

#[global] Instance route_laws : @ServerLaws ServerWorld route_server.
Proof.
  split; intros; simpl in *; try done; unfold modify, jar_get in *; simplify_eq; simpl.
  all: rewrite ?lookup_insert_eq, ?lookup_delete_eq, ?lookup_insert_ne, ?lookup_delete_ne by done; done.
Qed.

#[global] Instance route_writable : @Writable ServerWorld route_server.
Proof. by split. Qed.

#[global] Instance page_laws : @ServerLaws ServerWorld page_server.
Proof. by split. Qed.
End Stores.

(** ** What the session code guarantees *)

Definition refresh_request (env : Env) (refresh : jval) : Request :=
  backend_request env §"/api/v1/auth/refresh"
    {| init_method := Some §"POST"; init_headers := [];
       init_body := Some (stringify (JObj [(§"refresh_token", refresh)])) |}.

(** The backend's answers to a refresh: a new pair of tokens, or no pair. *)
Definition renewed (r : Response) (a t : jstr) : Prop :=
  ok r = true ∧ a ≠ [] ∧ t ≠ [] ∧
  ∃ v, resp_body r = JsonBody v ∧ get v §"access_token" = JStr a ∧ get v §"refresh_token" = JStr t.

Definition rejected (r : Response) : Prop :=
  ok r = false ∨ (∃ s, resp_body r = RawBody s) ∨
  ∃ v, resp_body r = JsonBody v ∧
       (truthy (get v §"access_token") = false ∨ truthy (get v §"refresh_token") = false).

Section Session.
Context {W : Type} `{!Server W, !ServerLaws W} (env : Env).

Definition signed_out (w : W) : Prop :=
  cookie_get accessCookieName w = JUndefined ∧ cookie_get refreshCookieName w = JUndefined.

Definition signed_in (a t : jstr) (w : W) : Prop :=
  cookie_get accessCookieName w = JStr a ∧ cookie_get refreshCookieName w = JStr t.

(** No request is sent by cookie operations. *)
Definition same_sent (w w' : W) : Prop := sent w' = sent w.

#[local] Instance same_sent_preorder : PreOrder same_sent.
Proof. split; [by intros ?|]. intros ???. unfold same_sent. congruence. Qed.

Lemma clear_sent : preserves same_sent clearAuthCookies.
Proof. unfold clearAuthCookies. preserve; intros w; apply delete_sent. Qed.

Lemma set_auth_sent a t : preserves same_sent (setAuthCookies env a t).
Proof. unfold setAuthCookies. preserve; intros w; apply set_sent. Qed.

Lemma sign_out_sent : preserves same_sent sign_out.
Proof. unfold sign_out. preserve. apply clear_sent. Qed.

Lemma json_sent r : preserves same_sent (json r).
Proof. unfold json. preserve. Qed.

#[local] Hint Resolve clear_sent set_auth_sent sign_out_sent json_sent : effects.

(** A refresh sends at most one request. *)
Lemma refresh_sent w :
  sent (refreshAccessToken env w).2 = sent w ∧
    (refreshAccessToken env w).1 = Ok JNull ∨
  truthy (cookie_get refreshCookieName w) = true ∧
  sent (refreshAccessToken env w).2 = sent w ++ [refresh_request env (cookie_get refreshCookieName w)].
Proof.
  unfold refreshAccessToken, currentRefreshToken, gets. rewrite bind_run.
  set (rt := cookie_get refreshCookieName w). destruct (truthy rt) eqn:Hrt; simpl; [|by left].
  right. split; [done|]. rewrite bind_run. unfold backendFetch. fold (refresh_request env rt).
  pose proof (fetch_sent (refresh_request env rt) w) as Hs.
  destruct (fetch (refresh_request env rt) w) as [[r|e] w1]; cbn [snd] in *; [|exact Hs].
  rewrite <-Hs.
  match goal with |- sent (?c w1).2 = _ => cut (preserves same_sent c); [by intros Hp; apply Hp|] end.
  preserve.
Qed.

(** The requests of the second half: a refresh, then the retry. *)
Definition retry_trace (req : jval → Request) (refresh retry : list Request) : Prop :=
  (refresh = [] ∨ ∃ rt, truthy rt = true ∧ refresh = [refresh_request env rt]) ∧
  (retry = [] ∨ refresh ≠ [] ∧ ∃ t, truthy t = true ∧ retry = [req t]).

Lemma retry_sent path mk dflt w :
  ∃ refresh retry,
    sent ((refreshed ← refreshAccessToken env;
           if negb (truthy refreshed) then mret dflt else backendFetch env path (mk refreshed)) w).2
      = sent w ++ refresh ++ retry ∧
    retry_trace (λ t, backend_request env path (mk t)) refresh retry.
Proof.
  unfold retry_trace. rewrite bind_run. pose proof (refresh_sent w) as Hr.
  destruct (refreshAccessToken env w) as [r w2]; simpl in Hr.
  destruct Hr as [[Hs ->]|[Ht Hs]].
  { exists [], []. simpl. rewrite Hs, app_nil_r. auto. }
  destruct r as [t|e]; simpl; [destruct (truthy t) eqn:Ett; simpl|].
  1: unfold backendFetch; rewrite fetch_sent, Hs, <-app_assoc;
     eexists [_], [_]; split_and!; simpl; eauto.
  all: rewrite Hs; eexists [_], []; split_and!; eauto.
Qed.

Lemma authorizedFetch_sent path mk w :
  let req t := backend_request env path (mk t) in
  let access := cookie_get accessCookieName w in
  ∃ first refresh retry,
    sent (authorizedFetch env (λ t, backendFetch env path (mk t)) w).2
      = sent w ++ first ++ refresh ++ retry ∧
    first = (if truthy access then [req access] else []) ∧
    (refresh = [] ∨ ∃ rt, truthy rt = true ∧ refresh = [refresh_request env rt]) ∧
    (retry = [] ∨ refresh ≠ [] ∧ ∃ t, truthy t = true ∧ retry = [req t]).
Proof.
  simpl. unfold authorizedFetch, currentAccessToken, gets. rewrite bind_run.
  set (access := cookie_get accessCookieName w).
  destruct (truthy access) eqn:Ha; simpl.
  - rewrite bind_run. unfold backendFetch at 1.
    pose proof (fetch_sent (backend_request env path (mk access)) w) as Hs.
    destruct (fetch _ w) as [[r|e] w1]; simpl in *; [destruct (status r =? 401); simpl|].
    1: destruct (retry_sent path mk r w1) as (rf & rt & E & H1 & H2);
       exists [backend_request env path (mk access)], rf, rt; rewrite E, Hs, <-app_assoc; auto.
    all: exists [backend_request env path (mk access)], [], []; rewrite Hs; auto.
  - destruct (retry_sent path mk unauthorized_response w) as (rf & rt & E & H1 & H2).
    exists [], rf, rt. rewrite E. auto.
Qed.
(** a request on behalf of the user costs at most one refresh and one
    retry, in that order: the request with the current access token (skipped
    when there is none), then possibly a refresh with a refresh token, then,
    only after a refresh that gave a token, the same request with that
    token.  This holds on every path, network failures and stores that
    reject writes included. *)
Theorem authorizedFetch_trace path mk w :
  let req t := backend_request env path (mk t) in
  let access := cookie_get accessCookieName w in
  ∃ first refresh retry,
    sent (authorizedFetch env (λ t, backendFetch env path (mk t)) w).2
      = sent w ++ first ++ refresh ++ retry ∧
    first = (if truthy access then [req access] else []) ∧
    (refresh = [] ∨ ∃ rt, truthy rt = true ∧ refresh = [refresh_request env rt]) ∧
    (retry = [] ∨ refresh ≠ [] ∧ ∃ t, truthy t = true ∧ retry = [req t]).
Proof. apply authorizedFetch_sent. Qed.

(** *** Outcomes of a refresh, in a store that accepts writes *)

Context `{!Writable W}.

Lemma access_ne_refresh : accessCookieName ≠ refreshCookieName.
Proof. js_neq. Qed.

Lemma clear_run w : ∃ w', clearAuthCookies w = (Ok tt, w') ∧ signed_out w'.
Proof.
  unfold clearAuthCookies. rewrite bind_run.
  destruct (cookie_delete accessCookieName w) as [r1 w1] eqn:E1.
  pose proof (delete_ok accessCookieName w) as H1. rewrite E1 in H1. simpl in H1. subst r1.
  destruct (cookie_delete refreshCookieName w1) as [r2 w2] eqn:E2.
  pose proof (delete_ok refreshCookieName w1) as H2. rewrite E2 in H2. simpl in H2. subst r2.
  exists w2. split; [done|]. split.
  - pose proof (delete_get_ne refreshCookieName accessCookieName w1) as Hg.
    rewrite E2 in Hg. simpl in Hg. rewrite Hg by (apply not_eq_sym, access_ne_refresh).
    exact (delete_get _ _ _ E1).
  - exact (delete_get _ _ _ E2).
Qed.

Lemma set_auth_run a t w :
  ∃ w', setAuthCookies env (JStr a) (JStr t) w = (Ok tt, w') ∧ signed_in a t w' ∧ sent w' = sent w.
Proof.
  pose proof (set_auth_sent (JStr a) (JStr t) w) as Hs. revert Hs.
  unfold setAuthCookies. rewrite bind_run.
  destruct (cookie_set accessCookieName (JStr a) _ w) as [r1 w1] eqn:E1.
  pose proof (set_ok accessCookieName (JStr a) (cookieOptions env) w) as H1.
  rewrite E1 in H1. simpl in H1. subst r1.
  destruct (cookie_set refreshCookieName (JStr t) _ w1) as [r2 w2] eqn:E2.
  pose proof (set_ok refreshCookieName (JStr t) (cookieOptions env) w1) as H2.
  rewrite E2 in H2. simpl in H2. subst r2. simpl. intros Hs.
  exists w2. split; [done|]. split; [split|done].
  - pose proof (set_get_ne refreshCookieName accessCookieName (JStr t) (cookieOptions env) w1) as Hg.
    rewrite E2 in Hg. simpl in Hg. rewrite Hg by (apply not_eq_sym, access_ne_refresh).
    exact (set_get _ _ _ _ _ E1).
  - exact (set_get _ _ _ _ _ E2).
Qed.

Lemma sign_out_run w :
  ∃ w', sign_out w = (Ok JNull, w') ∧ signed_out w' ∧ sent w' = sent w.
Proof.
  destruct (clear_run w) as (w' & E & Hw). exists w'.
  assert (sign_out w = (Ok JNull, w')) as Eo by (unfold sign_out; by rewrite bind_run, E).
  pose proof (sign_out_sent w) as Hs. rewrite Eo in Hs. done.
Qed.

(** The part of [refreshAccessToken] after its request. *)
Lemma refresh_request_run rt w r w1 :
  cookie_get refreshCookieName w = rt → truthy rt = true →
  fetch (refresh_request env rt) w = (Ok r, w1) →
  (rejected r →
     ∃ w', refreshAccessToken env w = (Ok JNull, w') ∧ signed_out w' ∧ sent w' = sent w1) ∧
  (∀ a t, renewed r a t →
     ∃ w', refreshAccessToken env w = (Ok (JStr a), w') ∧ signed_in a t w' ∧ sent w' = sent w1).
Proof.
  intros Hrt Ht Hf. unfold refreshAccessToken, currentRefreshToken, gets.
  rewrite bind_run, Hrt, Ht. cbn [negb]. rewrite bind_run. unfold backendFetch.
  fold (refresh_request env rt). rewrite Hf.
  destruct (sign_out_run w1) as (wo & Eo & Ho). split.
  - intros [Hok|Hb]; [rewrite Hok; simpl; eauto|]. destruct (ok r); simpl; [|eauto].
    unfold try_catch. rewrite bind_run. unfold json.
    destruct Hb as [(s & ->)|(v & -> & Hv)]; simpl; [eauto|].
    replace (negb (truthy (get v §"access_token")) || negb (truthy (get v §"refresh_token")))
      with true by (by destruct Hv as [-> | ->]; rewrite ?orb_true_r).
    rewrite Eo. eauto.
  - intros a t (Hok & Ha & Htt & v & Hb & Ea & Et). rewrite Hok. simpl.
    unfold try_catch. rewrite bind_run. unfold json. rewrite Hb. simpl. rewrite Ea, Et.
    destruct (set_auth_run a t w1) as (w2 & E2 & H2 & Hs). exists w2. split; [|done].
    destruct a, t; try done. simpl. rewrite bind_run. by rewrite E2.
Qed.

(** when the backend answers 401 and the user has a refresh token, the
    session is renewed or ended: a refresh that gives a pair of tokens stores
    both and the request is repeated with the new access token, its answer
    being the result; a refresh without a pair (an error status, a body that
    is not JSON, a missing token) clears both cookies and the 401 is
    returned. *)
Theorem authorizedFetch_401 build w resp w1 rt r w2 :
  truthy (cookie_get accessCookieName w) = true →
  build (cookie_get accessCookieName w) w = (Ok resp, w1) → status resp = 401 →
  cookie_get refreshCookieName w1 = rt → truthy rt = true →
  fetch (refresh_request env rt) w1 = (Ok r, w2) →
  (rejected r →
     ∃ w3, authorizedFetch env build w = (Ok resp, w3) ∧ signed_out w3) ∧
  (∀ a t, renewed r a t →
     ∃ w3, authorizedFetch env build w = build (JStr a) w3 ∧ signed_in a t w3 ∧
           sent w3 = sent w2).
Proof.
  intros Ha Hb Hst Hrt Ht Hf.
  destruct (refresh_request_run rt w1 r w2 Hrt Ht Hf) as [Hrej Hren].
  unfold authorizedFetch, currentAccessToken, gets. rewrite bind_run, Ha. cbn [negb].
  rewrite bind_run, Hb, Hst. cbn [Z.eqb Pos.eqb negb]. rewrite bind_run. split.
  - intros (w3 & -> & Hw3 & _)%Hrej. exists w3. done.
  - intros a t Hr. destruct (Hren a t Hr) as (w3 & -> & Hw3 & Hs). exists w3.
    destruct Hr as (_ & Hne & _). destruct a; [done|]. done.
Qed.

(** without tokens nothing is sent: the caller gets a 401 made here, and
    the cookies and the requests are as before. *)
Theorem authorizedFetch_anonymous build w :
  truthy (cookie_get accessCookieName w) = false →
  truthy (cookie_get refreshCookieName w) = false →
  authorizedFetch env build w = (Ok unauthorized_response, w).
Proof.
  intros Ha Hr. unfold authorizedFetch, currentAccessToken, gets. rewrite bind_run, Ha.
  cbn [negb]. rewrite bind_run. unfold refreshAccessToken, currentRefreshToken, gets.
  by rewrite bind_run, Hr.
Qed.
End Session.

(** ** A concrete session: the access token has expired, the refresh token
    is good *)

Definition sample_env : Env :=
  {| NEXT_PUBLIC_API_BASE_URL := None; BACKEND_API_URL := Some §"http://api/"; NODE_ENV := §"production" |}.

(** [/auth/refresh] gives a new pair; other requests need the new token. *)
Definition sample_backend : Backend := λ _ r,
  if str_eqb (url r) §"http://api/api/v1/auth/refresh"
  then Ok (json_response (JObj [(§"access_token", JStr §"a2"); (§"refresh_token", JStr §"r2")]) 200)
  else if bool_decide (headers_get (headers r) §"authorization" = Some §"Bearer a2")
  then Ok (json_response (JObj [(§"email", JStr §"u@example.com"); (§"role", JStr §"admin")]) 200)
  else Ok (json_response (JObj [(§"error", JStr §"expired")]) 401).

Definition sample_world : ServerWorld :=
  let o := cookieOptions sample_env in
  {| log := [];
     jar := <[accessCookieName := {| value := JStr §"a1"; options := o |}]>
            (<[refreshCookieName := {| value := JStr §"r1"; options := o |}]> ∅) |}.

Definition get_me `{Server W} (env : Env) (token : jval) : M W Response :=
  backendFetch env §"/api/v1/me"
    {| init_method := None; init_headers := bearer token; init_body := None |}.

Definition sample_server_world : Server ServerWorld := route_server sample_backend.
#[local] Existing Instance sample_server_world.

(** The worlds after the first request and after the refresh. *)
Definition after_401 : ServerWorld :=
  (get_me sample_env (JStr §"a1") sample_world).2.
Definition after_refresh : ServerWorld :=
  (fetch (refresh_request sample_env (JStr §"r1")) after_401).2.

Lemma authorizedFetch_401_witness :
  ∃ w3, authorizedFetch sample_env (get_me sample_env) sample_world
          = get_me sample_env (JStr §"a2") w3 ∧ signed_in §"a2" §"r2" w3.
Proof.
  destruct (λ h1 h2 h3 h4 h5 h6,
    proj2 (@authorizedFetch_401 _ sample_server_world (route_laws sample_backend) sample_env
     (route_writable sample_backend) (get_me sample_env) sample_world
     (json_response (JObj [(§"error", JStr §"expired")]) 401) after_401 (JStr §"r1")
     (json_response (JObj [(§"access_token", JStr §"a2"); (§"refresh_token", JStr §"r2")]) 200)
     after_refresh h1 h2 h3 h4 h5 h6) §"a2" §"r2") as (w3 & E & Hw & _).
  1-6: vm_compute; reflexivity.
  - split_and!; [reflexivity|done|done|]. eexists. split_and!; reflexivity.
  - exists w3. exact (conj E Hw).
Defined.

Lemma authorizedFetch_anonymous_witness :
  authorizedFetch sample_env (get_me sample_env) {| log := []; jar := ∅ |}
  = (Ok unauthorized_response, {| log := []; jar := ∅ |}).
Proof. apply authorizedFetch_anonymous; vm_compute; reflexivity. Defined.

Lemma authorizedFetch_trace_witness :
  ∃ first refresh retry,
    sent (authorizedFetch sample_env (get_me sample_env) sample_world).2
      = first ++ refresh ++ retry ∧ length (first ++ refresh ++ retry) = 3%nat.
Proof.
  destruct (@authorizedFetch_trace _ sample_server_world (route_laws sample_backend) sample_env
    §"/api/v1/me" (λ t, {| init_method := None; init_headers := bearer t; init_body := None |})
    sample_world) as (first & refresh & retry & E & _).
  exists first, refresh, retry. split; [exact E|].
  apply (f_equal length) in E. vm_compute in E. symmetry. exact E.
Defined.
