(* ===== verification/ApiRoutes.v ===== *)
(** * Route handlers and the admin page: [web/app/api/**/route.ts] and
    [web/app/admin/page.tsx]

    Each handler of the site's API as a computation on the server world of
    [ServerApi]: what it asks of the backend, what it writes to the cookies
    and what it answers.  A handler that throws is answered 500 by Next. *)
From S2P Require Export Encoding ServerApi.

(** ** Requests to the site *)

(** [in_json] is what [request.json()] gives, [in_search] the query part of
    the address. *)
Record IncomingRequest := {
  in_method : jstr;
  in_search : jstr;
  in_headers : list header;
  in_text : jstr;
  in_json : res jval;
}.

(** Statuses a response with a body may have. *)
Definition body_status (st : Z) : bool :=
  (200 <=? st) && (st <=? 599) && negb (st =? 204) && negb (st =? 205) && negb (st =? 304).

(** [NextResponse.json(data, { status })] *)
Definition next_json {W} (data : jval) (st : Z) : M W Response :=
  if body_status st then mret (json_response data st)
  else throw (ErrorExn §"Response with null body status cannot have body").

(** [k in data]: a [TypeError] unless [data] is an object. *)
Definition has_key {W} (k : jstr) (data : jval) : M W bool :=
  match data with
  | JObj fs => mret (obj_has fs k)
  | JArr _ => mret false
  | _ => throw (ErrorExn §"Cannot use 'in' operator")
  end.

Definition ok_true : jval := JObj [(§"ok", JBool true)].

Section Handlers.
Context {W : Type} `{!Server W} (env : Env).

(** [const data = await backendJSON(response);
    return NextResponse.json(data, { status: response.status });] *)
Definition relay (response : Response) : M W Response :=
  data ← backendJSON response;
  next_json data (status response).

Definition post_init (body : jval) : RequestInit :=
  {| init_method := Some §"POST"; init_headers := []; init_body := Some (stringify body) |}.

(** [api/auth/register] *)
Definition register_POST (request : IncomingRequest) : M W Response :=
  body ← of_res (in_json request);
  response ← backendFetch env §"/api/v1/auth/register" (post_init body);
  relay response.

(** [api/auth/forgot] *)
Definition forgot_POST (request : IncomingRequest) : M W Response :=
  body ← of_res (in_json request);
  response ← backendFetch env §"/api/v1/auth/forgot-password" (post_init body);
  relay response.

(** [api/auth/reset] *)
Definition reset_POST (request : IncomingRequest) : M W Response :=
  body ← of_res (in_json request);
  response ← backendFetch env §"/api/v1/auth/reset-password" (post_init body);
  relay response.

(** [api/auth/login] *)
Definition login_POST (request : IncomingRequest) : M W Response :=
  body ← of_res (in_json request);
  response ← backendFetch env §"/api/v1/auth/login" (post_init body);
  data ← backendJSON response;
  has ← (if ok response then has_key §"access_token" data else mret false);
  if negb has then next_json data (status response) else
  _ ← setAuthCookies env (get data §"access_token") (get data §"refresh_token");
  next_json ok_true 200.

(** [api/auth/verify] *)
Definition verify_POST (request : IncomingRequest) : M W Response :=
  body ← of_res (in_json request);
  response ← backendFetch env §"/api/v1/auth/verify" (post_init body);
  data ← backendJSON response;
  has ← (if ok response then has_key §"access_token" data else mret false);
  if negb has then next_json data (status response) else
  _ ← setAuthCookies env (get data §"access_token") (get data §"refresh_token");
  next_json ok_true 200.

(** [api/auth/logout] *)
Definition logout_POST : M W Response :=
  _ ← clearAuthCookies;
  next_json ok_true 200.

(** [backendFetch(path, { headers: bearer(token) })] *)
Definition bearer_get (path : jstr) (token : jval) : M W Response :=
  backendFetch env path {| init_method := None; init_headers := bearer token; init_body := None |}.

(** [api/session] *)
Definition session_GET : M W Response :=
  meResponse ← authorizedFetch env (bearer_get §"/api/v1/me");
  if status meResponse =? 401 then next_json (JObj [(§"authenticated", JBool false)]) 401 else
  if negb (ok meResponse) then relay meResponse else
  subscriptionResponse ← authorizedFetch env (bearer_get §"/api/v1/me/subscription");
  if negb (ok subscriptionResponse) then relay subscriptionResponse else
  user ← json meResponse;
  subscription ← json subscriptionResponse;
  next_json (JObj [(§"authenticated", JBool true); (§"user", user);
                   (§"subscription", subscription)]) 200.

(** A call in the user's name whose answer is relayed. *)
Definition relay_authorized (path : jstr) (init : jval → RequestInit) : M W Response :=
  response ← authorizedFetch env (λ token, backendFetch env path (init token));
  relay response.

(** [api/payments/create] *)
Definition payments_create_POST (request : IncomingRequest) : M W Response :=
  body ← of_res (in_json request);
  relay_authorized §"/api/v1/payments/create" (λ token,
    {| init_method := Some §"POST"; init_headers := bearer token;
       init_body := Some (stringify body) |}).

(** [api/payments/preview] *)
Definition payments_preview_POST (request : IncomingRequest) : M W Response :=
  body ← of_res (in_json request);
  relay_authorized §"/api/v1/payments/preview" (λ token,
    {| init_method := Some §"POST"; init_headers := bearer token;
       init_body := Some (stringify body) |}).

(** [{ ...bearer(token), "Content-Type": "application/json" }] *)
Definition bearer_json (token : jval) : list header :=
  bearer token ++ [(§"Content-Type", §"application/json")].

(** [api/routing-profiles] *)
Definition routing_profiles_GET : M W Response :=
  relay_authorized §"/api/v1/me/routing-profiles" (λ token,
    {| init_method := Some §"GET"; init_headers := bearer token; init_body := None |}).

Definition routing_profiles_POST (request : IncomingRequest) : M W Response :=
  body ← of_res (in_json request);
  relay_authorized §"/api/v1/me/routing-profiles" (λ token,
    {| init_method := Some §"POST"; init_headers := bearer_json token;
       init_body := Some (stringify body) |}).

(** [api/routing-profiles/[id]] *)
Definition routing_profile_PUT (request : IncomingRequest) (id : jstr) : M W Response :=
  body ← of_res (in_json request);
  relay_authorized (§"/api/v1/me/routing-profiles/" ++ id) (λ token,
    {| init_method := Some §"PUT"; init_headers := bearer_json token;
       init_body := Some (stringify body) |}).

Definition routing_profile_DELETE (id : jstr) : M W Response :=
  relay_authorized (§"/api/v1/me/routing-profiles/" ++ id) (λ token,
    {| init_method := Some §"DELETE"; init_headers := bearer token; init_body := None |}).

(** [api/routing-profiles/system/[code]/copy]: the callback that builds the
    request throws on a code that cannot be encoded. *)
Definition copy_POST (code : jstr) : M W Response :=
  response ← authorizedFetch env (λ token,
    encoded ← of_res (encodeURIComponent code);
    backendFetch env (§"/api/v1/me/routing-profiles/system/" ++ encoded ++ §"/copy")
      {| init_method := Some §"POST"; init_headers := bearer token;
         init_body := Some (stringify (JObj [])) |});
  relay response.

(** [api/subscription/auto-renew] *)
Definition auto_renew_PATCH (req : IncomingRequest) : M W Response :=
  body ← of_res (in_json req);
  response ← authorizedFetch env (λ token,
    backendFetch env §"/api/v1/me/subscription/auto-renew"
      {| init_method := Some §"PATCH"; init_headers := bearer token;
         init_body := Some (stringify body) |});
  if negb (ok response) then relay response else
  data ← json response;
  next_json data 200.

(** [api/subscription/ad-block] *)
Definition ad_block_PATCH (request : IncomingRequest) : M W Response :=
  body ← of_res (in_json request);
  relay_authorized §"/api/v1/me/subscription/ad-block" (λ token,
    {| init_method := Some §"PATCH"; init_headers := bearer_json token;
       init_body := Some (stringify body) |}).

(** [api/happ-link] *)
Definition happ_link_POST : M W Response :=
  relay_authorized §"/api/v1/me/happ-link" (λ token,
    {| init_method := Some §"POST"; init_headers := bearer token; init_body := None |}).

(** [api/site-config] *)
Definition site_config_GET : M W Response :=
  config ← loadSiteConfig env;
  next_json config 200.

(** [api/admin/[...path]]: the verbs all call this; [console.error] has no
    effect on the model. *)
Definition proxyAdmin (request : IncomingRequest) (path : list jstr) : M W Response :=
  try_catch
    (let backendPath := §"/api/v1/admin/" ++ join §"/" path ++ in_search request in
     let body :=
       if str_eqb (in_method request) §"GET" || str_eqb (in_method request) §"HEAD"
       then None else Some (in_text request) in
     response ← authorizedFetch env (λ token,
       let hs := headers_set §"Authorization" (§"Bearer " ++ to_text token) [] in
       let hs := headers_set §"Content-Type"
         (default §"application/json" (headers_get (in_headers request) §"Content-Type")) hs in
       backendFetch env backendPath
         {| init_method := Some (in_method request); init_headers := hs; init_body := body |});
     let contentType := default [] (headers_get (resp_headers response) §"Content-Type") in
     let contentDisposition :=
       default [] (headers_get (resp_headers response) §"Content-Disposition") in
     let hs := [] in
     let hs := if str_truthy contentType
               then headers_set §"Content-Type" contentType hs else hs in
     let hs := if str_truthy contentDisposition
               then headers_set §"Content-Disposition" contentDisposition hs else hs in
     mret {| status := status response; resp_headers := hs; resp_body := resp_body response |})
    (λ _, next_json (JObj [(§"error", JStr §"admin_backend_unavailable")]) 502).
End Handlers.

(** ** [app/admin/page.tsx] *)

(** What the page component ends with: Next's [redirect] never returns. *)
Inductive Page :=
| Redirect (to : jstr)
| AdminPanelPage (adminEmail initialOverview : jval).

Definition emptyOverview : jval := JObj [
  (§"kpis", JObj [(§"total_users", JNum 0); (§"active_subscriptions", JNum 0);
     (§"active_vpn_keys", JNum 0); (§"total_servers", JNum 0); (§"active_servers", JNum 0);
     (§"open_incidents", JNum 0); (§"monthly_revenue", JNum 0)]);
  (§"notifications", JArr []);
  (§"servers", JArr [])].

(** [try { x = await c } catch { ... }]: the value, or that it failed. *)
Definition attempt {W A} (c : M W A) : M W (option A) :=
  try_catch (x ← c; mret (Some x)) (λ _, mret None).

Definition AdminPage {W} `{!Server W} (env : Env) : M W Page :=
  meResponse ← attempt (authorizedFetch env (bearer_get env §"/api/v1/me"));
  match meResponse with
  | None => mret (Redirect §"/auth")
  | Some meResponse =>
      if status meResponse =? 401 then mret (Redirect §"/auth") else
      if negb (ok meResponse) then mret (Redirect §"/dashboard") else
      me ← attempt (json meResponse);
      match me with
      | None => mret (Redirect §"/auth")
      | Some me =>
          role ← access me §"role";
          if negb (bool_decide (role = JStr §"admin")) then mret (Redirect §"/dashboard") else
          overview ← attempt (
            overviewResponse ← authorizedFetch env (bearer_get env §"/api/v1/admin/overview");
            if ok overviewResponse then json overviewResponse else mret emptyOverview);
          mret (AdminPanelPage (get me §"email") (default emptyOverview overview))
      end
  end.

(** ** What requests are sent *)

Section Sending.
Context {W : Type} `{!Server W, !ServerLaws W} (env : Env) (P : Request → Prop).
Context (P_refresh : ∀ rt, P (refresh_request env rt)).

(** The requests added all satisfy [P]. *)
Definition only_sends (w w' : W) : Prop :=
  ∃ rs, sent w' = sent w ++ rs ∧ Forall P rs.

#[export] Instance only_sends_preorder : PreOrder only_sends.
Proof.
  split.
  - intros w. exists []. by rewrite app_nil_r.
  - intros w1 w2 w3 (r1 & E1 & H1) (r2 & E2 & H2). exists (r1 ++ r2).
    rewrite E2, E1, app_assoc. split; [done|by apply Forall_app].
Qed.

Lemma same_sent_only w w' : same_sent w w' → only_sends w w'.
Proof. intros E. exists []. by rewrite app_nil_r. Qed.

Lemma fetch_only r : P r → preserves only_sends (fetch r).
Proof. intros Hr w. exists [r]. split; [apply fetch_sent|by apply Forall_singleton]. Qed.

Lemma backendFetch_only path init :
  P (backend_request env path init) → preserves only_sends (backendFetch env path init).
Proof. apply fetch_only. Qed.

Lemma set_auth_only a t : preserves only_sends (setAuthCookies env a t).
Proof. intros w. apply same_sent_only, set_auth_sent. Qed.

Lemma sign_out_only : preserves only_sends sign_out.
Proof. intros w. apply same_sent_only, sign_out_sent. Qed.

Lemma clear_only : preserves only_sends clearAuthCookies.
Proof. intros w. apply same_sent_only, clear_sent. Qed.

Lemma json_only r : preserves only_sends (json r).
Proof. unfold json. preserve. Qed.

#[local] Hint Resolve set_auth_only sign_out_only clear_only json_only : effects.

Lemma refresh_only : preserves only_sends (refreshAccessToken env).
Proof.
  unfold refreshAccessToken, currentRefreshToken. preserve. apply backendFetch_only, P_refresh.
Qed.

Lemma authorizedFetch_only build :
  (∀ t, preserves only_sends (build t)) → preserves only_sends (authorizedFetch env build).
Proof.
  intros Hb. unfold authorizedFetch, currentAccessToken. preserve; first [apply Hb|apply refresh_only].
Qed.

Lemma backendJSON_only r : preserves only_sends (backendJSON r).
Proof. unfold backendJSON. preserve. Qed.

Lemma next_json_only v st : preserves only_sends (next_json v st).
Proof. unfold next_json. preserve. Qed.

Lemma has_key_only k v : preserves only_sends (has_key k v).
Proof. unfold has_key. preserve. Qed.

#[local] Hint Resolve refresh_only backendJSON_only next_json_only has_key_only : effects.

Lemma relay_only r : preserves only_sends (relay r).
Proof. unfold relay. preserve. Qed.

#[local] Hint Resolve relay_only : effects.

Lemma relay_authorized_only path init :
  (∀ t, P (backend_request env path (init t))) →
  preserves only_sends (relay_authorized env path init).
Proof.
  intros Hp. unfold relay_authorized. preserve.
  apply authorizedFetch_only. intros t. by apply backendFetch_only.
Qed.
End Sending.

#[export] Hint Resolve set_auth_only sign_out_only clear_only json_only
  backendJSON_only next_json_only has_key_only relay_only : effects.

(** Unfold a handler down to its calls. *)
Ltac unfold_routes :=
  unfold register_POST, forgot_POST, reset_POST, login_POST, verify_POST, logout_POST,
    session_GET, payments_create_POST, payments_preview_POST, routing_profiles_GET,
    routing_profiles_POST, routing_profile_PUT, routing_profile_DELETE, copy_POST,
    auto_renew_PATCH, ad_block_PATCH, happ_link_POST, site_config_GET, proxyAdmin, bearer_get.

(** ** Where requests go *)

Section Destinations.
Context {W : Type} `{!Server W, !ServerLaws W} (env : Env).

Definition to_backend (r : Request) : Prop :=
  (backendBaseURL env ++ §"/api/v1/") `prefix_of` url r.

(** The requests added are all to the backend's API. *)
Definition only_backend : W → W → Prop := only_sends to_backend.

Lemma to_backend_api path init :
  §"/api/v1/" `prefix_of` path → to_backend (backend_request env path init).
Proof.
  intros [k ->]. exists k. unfold backend_request. cbn [url]. by rewrite app_assoc.
Qed.

Ltac api_path := first [eexists; vm_compute; reflexivity | eexists; reflexivity].

(** Every handler that talks to the backend API, with its path parameters. *)
Definition api_routes (id code : jstr) (path : list jstr)
    : list (IncomingRequest → M W Response) :=
  [ register_POST env; forgot_POST env; reset_POST env; login_POST env; verify_POST env;
    (λ _, logout_POST); (λ _, session_GET env); payments_create_POST env;
    payments_preview_POST env; (λ _, routing_profiles_GET env); routing_profiles_POST env;
    (λ req, routing_profile_PUT env req id); (λ _, routing_profile_DELETE env id);
    (λ _, copy_POST env code); auto_renew_PATCH env; ad_block_PATCH env;
    (λ _, happ_link_POST env); (λ req, proxyAdmin env req path) ].

(** on every path, errors included, a route handler sends requests only
    to the configured backend's API, so the tokens in the cookies never leave
    for another host. *)
Theorem routes_only_backend id code path h req w :
  h ∈ api_routes id code path → only_backend w (h req w).2.
Proof.
  intros Hh. cut (preserves only_backend (h req)); [by intros Hp; apply Hp|].
  unfold api_routes in Hh. rewrite !elem_of_cons, elem_of_nil in Hh.
  repeat destruct Hh as [->|Hh]; [..|done].
  all: unfold_routes; preserve.
  all: try (apply authorizedFetch_only; [|intros t; preserve]).
  all: try (intros rt; apply to_backend_api; api_path).
  all: first [apply backendFetch_only | apply relay_authorized_only; [|intros t]].
  all: try intros rt; apply to_backend_api; api_path.
Qed.
End Destinations.

(** ** Signing in and out *)

Section Answers.
Context {W : Type} `{!Server W, !ServerLaws W, !Writable W} (env : Env).

(** The common end of [login_POST] and [verify_POST]. *)
Definition sign_in_with (response : Response) : M W Response :=
  data ← backendJSON response;
  has ← (if ok response then has_key §"access_token" data else mret false);
  if negb has then next_json data (status response) else
  _ ← setAuthCookies env (get data §"access_token") (get data §"refresh_token");
  next_json ok_true 200.

Lemma sign_in_with_tokens r a t w :
  renewed r a t →
  ∃ w', sign_in_with r w = (Ok (json_response ok_true 200), w') ∧ signed_in a t w'.
Proof.
  intros (Hok & Ha & Ht & v & Hb & Ea & Et).
  destruct (set_auth_run env a t w) as (w' & E & Hw & _). exists w'. split; [|done].
  unfold sign_in_with, backendJSON, try_catch, json. rewrite bind_run, Hb. simpl.
  rewrite bind_run, Hok.
  assert (has_key (W:=W) §"access_token" v = mret true) as ->.
  { destruct v as [| |?|?|?|?|fs]; try discriminate Ea. simpl.
    destruct (obj_has fs §"access_token") eqn:Eh; [done|].
    apply obj_has_false_get in Eh. simpl in Ea. congruence. }
  simpl. rewrite bind_run, Ea, Et, E. done.
Qed.

Lemma sign_in_with_error r w :
  ok r = false → body_status (status r) = true →
  ∃ data, sign_in_with r w = (Ok (json_response data (status r)), w) ∧
          (∀ v, resp_body r = JsonBody v → data = v).
Proof.
  intros Hok Hst. unfold sign_in_with, backendJSON, try_catch, json. rewrite bind_run, Hok.
  unfold next_json. destruct (resp_body r) as [v|s]; simpl; rewrite Hst.
  - exists v. split; [done|]. congruence.
  - eexists. split; [done|discriminate].
Qed.

(** C11: signing in, by password or by code: when the backend gives a pair of
    tokens both go to the cookies and the answer to the browser is exactly
    [{ ok: true }], so no token reaches the page's scripts; when it refuses,
    its status and message are passed on and the cookies are as before. *)
Theorem sign_in_spec path handler request b r w w1 :
  (path, handler) ∈ [(§"/api/v1/auth/login", login_POST env);
                     (§"/api/v1/auth/verify", verify_POST env)] →
  in_json request = Ok b →
  fetch (backend_request env path (post_init b)) w = (Ok r, w1) →
  (∀ a t, renewed r a t →
     ∃ w', handler request w = (Ok (json_response ok_true 200), w') ∧ signed_in a t w') ∧
  (ok r = false → body_status (status r) = true →
     ∃ data, handler request w = (Ok (json_response data (status r)), w1) ∧
             (∀ v, resp_body r = JsonBody v → data = v) ∧
             ∀ k, cookie_get k w1 = cookie_get k w).
Proof.
  intros Hh Hb Hf.
  assert (handler request w = sign_in_with r w1) as ->.
  { rewrite !elem_of_cons, elem_of_nil in Hh. destruct Hh as [[= -> ->]|[[= -> ->]|[]]].
    all: unfold login_POST, verify_POST; rewrite Hb; unfold of_res; rewrite bind_run, bind_run.
    all: unfold backendFetch; rewrite Hf; reflexivity. }
  split.
  - intros a t Hr. by apply sign_in_with_tokens.
  - intros Hok Hst. destruct (sign_in_with_error r w1 Hok Hst) as (data & E & Hd).
    exists data. split_and!; [done..|]. intros k.
    pose proof (fetch_cookies (backend_request env path (post_init b)) w k) as Hc.
    by rewrite Hf in Hc.
Qed.

(** signing out always succeeds and leaves neither cookie. *)
Theorem logout_spec w :
  ∃ w', logout_POST w = (Ok (json_response ok_true 200), w') ∧ signed_out w'.
Proof.
  destruct (clear_run w) as (w' & E & Hw). exists w'. split; [|done].
  unfold logout_POST. rewrite bind_run, E. done.
Qed.
End Answers.

Lemma sign_in_spec_witness :
  let request := {| in_method := §"POST"; in_search := []; in_headers := []; in_text := [];
                    in_json := Ok (JObj [(§"email", JStr §"u@example.com")]) |} in
  let backend : Backend := λ _ _, Ok (json_response
     (JObj [(§"access_token", JStr §"a"); (§"refresh_token", JStr §"r")]) 200) in
  ∃ w', @login_POST _ (route_server backend) sample_env request {| log := []; jar := ∅ |}
        = (Ok (json_response ok_true 200), w') ∧ @signed_in _ (route_server backend) §"a" §"r" w'.
Proof.
  intros request backend.
  refine (proj1 (@sign_in_spec _ (route_server backend) (route_laws backend) (route_writable backend)
    sample_env §"/api/v1/auth/login" (@login_POST _ (route_server backend) sample_env) request
    (JObj [(§"email", JStr §"u@example.com")]) _ {| log := []; jar := ∅ |} _ _ eq_refl _) §"a" §"r" _).
  - apply elem_of_cons. by left.
  - reflexivity.
  - split_and!; [reflexivity|done|done|]. eexists. split_and!; reflexivity.
Defined.

(** ** The session and admin answers *)

Section Reading.
Context {W : Type} `{!Server W} (env : Env).

Lemma relay_status r (w : W) r' w' : relay r w = (Ok r', w') → ok r' = ok r.
Proof.
  unfold relay, backendJSON, try_catch, next_json. rewrite bind_run.
  destruct (json r w) as [[v|e] w1]; simpl; case_match; intros Hr; first [discriminate Hr | by injection Hr as <- _].
Qed.

(** The successful answer has three fields; in particular no token. *)
Lemma session_body w r w' :
  session_GET env w = (Ok r, w') → ok r = true →
  ∃ user subscription me sub w1 w2 w3,
    r = json_response (JObj [(§"authenticated", JBool true); (§"user", user);
                             (§"subscription", subscription)]) 200 ∧
    authorizedFetch env (bearer_get env §"/api/v1/me") w = (Ok me, w1) ∧ ok me = true ∧
    resp_body me = JsonBody user ∧
    authorizedFetch env (bearer_get env §"/api/v1/me/subscription") w2 = (Ok sub, w3) ∧
    ok sub = true ∧ resp_body sub = JsonBody subscription.
Proof.
  unfold session_GET. rewrite bind_run.
  destruct (authorizedFetch env (bearer_get env §"/api/v1/me") w) as [[me|e] w1] eqn:Eme; [|done].
  destruct (status me =? 401) eqn:E401; [by intros [= <- _]|].
  destruct (ok me) eqn:Hme; cbn [negb]; [|by intros Hr Hok; apply relay_status in Hr; congruence].
  rewrite bind_run.
  destruct (authorizedFetch env (bearer_get env §"/api/v1/me/subscription") w1) as [[sub|e] w2] eqn:Es;
    [|done].
  destruct (ok sub) eqn:Hsub; cbn [negb]; [|by intros Hr Hok; apply relay_status in Hr; congruence].
  unfold json. destruct (resp_body me) as [user|] eqn:Eu; [|done].
  destruct (resp_body sub) as [subscription|] eqn:Esub; [|done].
  intros [= <- _] _. by eexists user, subscription, me, sub, w1, w1, w2.
Qed.

(** the session endpoint answers success only after the backend
    accepted the user twice, for the account and for the subscription; the
    body then holds these two answers and nothing else: in particular it has
    no [token] field. *)
Theorem session_authenticated w r w' :
  session_GET env w = (Ok r, w') → ok r = true →
  ∃ user subscription me sub w1 w2 w3,
    r = json_response (JObj [(§"authenticated", JBool true); (§"user", user);
                             (§"subscription", subscription)]) 200 ∧
    (∀ body, resp_body r = JsonBody body → get body §"token" = JUndefined) ∧
    authorizedFetch env (bearer_get env §"/api/v1/me") w = (Ok me, w1) ∧ ok me = true ∧
    resp_body me = JsonBody user ∧
    authorizedFetch env (bearer_get env §"/api/v1/me/subscription") w2 = (Ok sub, w3) ∧
    ok sub = true ∧ resp_body sub = JsonBody subscription.
Proof.
  intros Hr Hok. destruct (session_body w r w' Hr Hok)
    as (user & subscription & me & sub & w1 & w2 & w3 & E & H).
  exists user, subscription, me, sub, w1, w2, w3. split; [done|]. split; [|done].
  intros body. rewrite E. by intros [= <-].
Qed.

(** C12: the admin panel is rendered only for a user whom the backend, in a
    successful answer to [/api/v1/me], gives the role [admin]; everyone else
    is redirected or gets an error. *)
Theorem admin_page_role w email overview w' :
  AdminPage env w = (Ok (AdminPanelPage email overview), w') →
  ∃ response me w1,
    authorizedFetch env (bearer_get env §"/api/v1/me") w = (Ok response, w1) ∧
    ok response = true ∧ resp_body response = JsonBody me ∧
    get me §"role" = JStr §"admin" ∧ email = get me §"email".
Proof.
  unfold AdminPage. rewrite bind_run. unfold attempt at 1, try_catch at 1. rewrite bind_run.
  destruct (authorizedFetch env (bearer_get env §"/api/v1/me") w) as [[r|e] w1] eqn:E; [|done].
  cbn [mret M_ret]. destruct (status r =? 401) eqn:E401; [done|]. destruct (ok r) eqn:Hok; [|done].
  cbn [negb]. rewrite bind_run. unfold attempt at 1, try_catch at 1, json at 1. rewrite bind_run.
  destruct (resp_body r) as [me|] eqn:Eb; [|done]. cbn [mret M_ret]. rewrite bind_run.
  unfold access. destruct (nullish me); [done|]. cbn [mret M_ret].
  case_bool_decide as Hrole; cbn [negb]; [|done]. rewrite bind_run.
  destruct (attempt _ w1) as [[o|e] w2]; [|done]. intros [= <- _ _].
  by exists r, me, w1.
Qed.

(** the admin proxy always answers: with the backend's status and body,
    or with 502 when the backend cannot be reached or the session cannot be
    renewed. *)
Theorem proxyAdmin_total request path w :
  ∃ r w', proxyAdmin env request path w = (Ok r, w') ∧
    (r = json_response (JObj [(§"error", JStr §"admin_backend_unavailable")]) 502 ∨
     ∃ build response w0,
       authorizedFetch env build w = (Ok response, w0) ∧
       status r = status response ∧ resp_body r = resp_body response ∧
       ∀ v, headers_get (resp_headers r) §"Content-Type" = Some v →
            headers_get (resp_headers response) §"Content-Type" = Some v).
Proof.
  unfold proxyAdmin, try_catch. rewrite bind_run.
  match goal with |- context [authorizedFetch env ?b w] => set (build := b) end.
  destruct (authorizedFetch env build w) as [[response|e] w1] eqn:E.
  - eexists _, _. split; [reflexivity|]. right. exists build, response, w1.
    split_and!; [done..|]. cbn [resp_headers]. intros v.
    destruct (headers_get (resp_headers response) §"Content-Type") as [[|c ct]|] eqn:Ect;
      cbn [from_option Datatypes.id str_truthy];
      (case_match; [rewrite headers_get_set_ne by js_neq|]); rewrite ?headers_get_set; done.
  - eexists _, _. split; [reflexivity|]. by left.
Qed.
End Reading.

(** The sample world after a renewal: the new tokens are in the jar. *)
Definition renewed_world : ServerWorld :=
  let o := cookieOptions sample_env in
  {| log := [];
     jar := <[accessCookieName := {| value := JStr §"a2"; options := o |}]>
            (<[refreshCookieName := {| value := JStr §"r2"; options := o |}]> ∅) |}.

Definition sample_user : jval :=
  JObj [(§"email", JStr §"u@example.com"); (§"role", JStr §"admin")].

#[local] Existing Instance sample_server_world.

Lemma session_authenticated_witness :
  ∃ user subscription,
    (session_GET sample_env renewed_world).1 =
      Ok (json_response (JObj [(§"authenticated", JBool true); (§"user", user);
                               (§"subscription", subscription)]) 200).
Proof.
  destruct (session_authenticated sample_env renewed_world
    (json_response (JObj [(§"authenticated", JBool true); (§"user", sample_user);
                          (§"subscription", sample_user)]) 200)
    (session_GET sample_env renewed_world).2)
    as (user & subscription & me & sub & w1 & w2 & w3 & E & _).
  - vm_compute. reflexivity.
  - reflexivity.
  - exists user, subscription. rewrite <-E. vm_compute. reflexivity.
Defined.

Lemma admin_page_role_witness :
  ∃ response me w1,
    authorizedFetch sample_env (bearer_get sample_env §"/api/v1/me") renewed_world
      = (Ok response, w1) ∧ resp_body response = JsonBody me ∧ get me §"role" = JStr §"admin".
Proof.
  destruct (admin_page_role sample_env renewed_world (JStr §"u@example.com") sample_user
    (AdminPage sample_env renewed_world).2) as (response & me & w1 & E & _ & Hb & Hr & _).
  - vm_compute. reflexivity.
  - exists response, me, w1. exact (conj E (conj Hb Hr)).
Defined.

(** ** Renewal during a page render *)

(** Server components cannot write cookies. *)
Class ReadOnly (W : Type) `{!Server W} := {
  set_throws k v o w : ∃ e, cookie_set k v o w = (Throw e, w);
  delete_throws k w : ∃ e, cookie_delete k w = (Throw e, w);
}.

#[export] Instance page_read_only backend : @ReadOnly ServerWorld (page_server backend).
Proof. split; intros; eexists; reflexivity. Qed.

Section PageRender.
Context {W : Type} `{!Server W, !ReadOnly W} (env : Env).

Lemma sign_out_throws w : ∃ e w', sign_out w = (Throw e, w').
Proof.
  unfold sign_out, clearAuthCookies. destruct (delete_throws accessCookieName w) as [e E].
  exists e, w. rewrite bind_run, bind_run, E. done.
Qed.

(** an administrator whose access token has expired is sent to the
    sign-in page even though the refresh token is good and the backend renews
    the session: the page render cannot store the new tokens, and the failed
    write is handled as a failed session. *)
Theorem admin_page_expired w response w1 rt r w2 a t :
  truthy (cookie_get accessCookieName w) = true →
  bearer_get env §"/api/v1/me" (cookie_get accessCookieName w) w = (Ok response, w1) →
  status response = 401 →
  cookie_get refreshCookieName w1 = rt → truthy rt = true →
  fetch (refresh_request env rt) w1 = (Ok r, w2) → renewed r a t →
  ∃ w', AdminPage env w = (Ok (Redirect §"/auth"), w').
Proof.
  intros Ha Hb Hst Hrt Ht Hf (Hok & Hne & Hne' & v & Hv & Ea & Et).
  assert (∃ e w', refreshAccessToken env w1 = (Throw e, w')) as (e & w' & Er).
  { destruct (sign_out_throws w2) as (e & w' & Es). exists e, w'.
    unfold refreshAccessToken, currentRefreshToken, gets. rewrite bind_run, Hrt, Ht. cbn [negb].
    rewrite bind_run. unfold backendFetch. fold (refresh_request env rt). rewrite Hf, Hok.
    cbn [negb]. unfold try_catch, json. rewrite bind_run, Hv. cbn [mret M_ret]. rewrite Ea, Et.
    destruct a as [|c a]; [done|]. destruct t as [|d t]; [done|]. cbn [truthy str_truthy negb orb].
    rewrite bind_run. unfold setAuthCookies. rewrite bind_run.
    destruct (set_throws accessCookieName (JStr (c :: a)) (cookieOptions env) w2) as [e0 ->].
    exact Es. }
  exists w'. unfold AdminPage. rewrite bind_run. unfold attempt at 1, try_catch at 1.
  rewrite bind_run. unfold authorizedFetch at 1, currentAccessToken, gets.
  rewrite bind_run, Ha. cbn [negb]. rewrite bind_run, Hb, Hst. cbn [Z.eqb Pos.eqb negb].
  by rewrite bind_run, Er.
Qed.
End PageRender.

Lemma admin_page_expired_witness :
  ∃ w', @AdminPage _ (page_server sample_backend) sample_env sample_world
        = (Ok (Redirect §"/auth"), w').
Proof.
  pose (S := page_server sample_backend).
  pose (w1 := (@bearer_get _ S sample_env §"/api/v1/me" (JStr §"a1") sample_world).2).
  refine (@admin_page_expired _ S (page_read_only sample_backend) sample_env sample_world
    (json_response (JObj [(§"error", JStr §"expired")]) 401) w1 (JStr §"r1")
    (json_response (JObj [(§"access_token", JStr §"a2"); (§"refresh_token", JStr §"r2")]) 200)
    (@fetch _ (@server_fetch _ S) (refresh_request sample_env (JStr §"r1")) w1).2 §"a2" §"r2"
    _ _ _ _ _ _ _).
  1-6: vm_compute; reflexivity.
  split_and!; [reflexivity|done|done|]. eexists. split_and!; reflexivity.
Defined.

Lemma routes_only_backend_witness :
  ∃ rs, sent (session_GET sample_env sample_world).2 = rs ∧ Forall (to_backend sample_env) rs ∧
        length rs = 4%nat.
Proof.
  destruct (@routes_only_backend _ sample_server_world (route_laws sample_backend) sample_env
    [] [] [] (λ _, session_GET sample_env)
    {| in_method := []; in_search := []; in_headers := []; in_text := []; in_json := Ok JNull |}
    sample_world) as (rs & E & Hrs).
  - unfold api_routes. rewrite !elem_of_cons. do 6 right. by left.
  - exists rs. split; [exact E|]. split; [exact Hrs|].
    apply (f_equal length) in E. vm_compute in E. symmetry. exact E.
Defined.
