(* ===== verification/Session.v ===== *)
(** * The session: what [authorizedFetch] and the routes promise

    The comment above [authorizedFetch] in [web/lib/server-api.ts] is a
    contract: one try, on a 401 one refresh and one retry, and when the
    refresh token is no good the cookies are cleared and the last 401 is
    returned.  [call_spec] writes it as a relation on abstract sessions, a
    pair of tokens or none, and the exchanges with the backend;
    [authorizedFetch] refines it.  The same abstraction gives the invariant
    of all routes: both cookies hold a token, or neither exists. *)
From S2P Require Export ApiRoutes.

(** A session: the access token and the refresh token, or signed out. *)
Definition Sess : Type := option (jstr * jstr).

(** A request and how it ended. *)
Definition Exchange : Type := Request * res Response.

(** ** The contract *)

Inductive call_spec (refresh req : jstr → Request)
    : Sess → list Exchange → res Response → Sess → Prop :=
| call_anonymous :
    call_spec refresh req None [] (Ok unauthorized_response) None
| call_unreachable a t e :
    call_spec refresh req (Some (a, t)) [(req a, Throw e)] (Throw e) (Some (a, t))
| call_served a t r :
    status r ≠ 401 →
    call_spec refresh req (Some (a, t)) [(req a, Ok r)] (Ok r) (Some (a, t))
| call_refresh_unreachable a t r e :
    status r = 401 →
    call_spec refresh req (Some (a, t)) [(req a, Ok r); (refresh t, Throw e)]
      (Throw e) (Some (a, t))
| call_ended a t r r' :
    status r = 401 → rejected r' →
    call_spec refresh req (Some (a, t)) [(req a, Ok r); (refresh t, Ok r')] (Ok r) None
| call_renewed a t r r' a' t' x :
    status r = 401 → renewed r' a' t' →
    call_spec refresh req (Some (a, t))
      [(req a, Ok r); (refresh t, Ok r'); (req a', x)] x (Some (a', t')).

(** ** What the backend promises: [BackendTokens] *)

(** A refresh is answered with a pair of tokens or without one, and a
    sign-in that carries an access token carries a pair. *)
Class TokenBackend (W : Type) `{!Server W} (env : Env) := {
  refresh_pair rt w r w' :
    fetch (refresh_request env rt) w = (Ok r, w') → rejected r ∨ ∃ a t, renewed r a t;
  sign_in_pair path init w r w' fs :
    path ∈ [§"/api/v1/auth/login"; §"/api/v1/auth/verify"] →
    fetch (backend_request env path init) w = (Ok r, w') →
    ok r = true → resp_body r = JsonBody (JObj fs) → obj_has fs §"access_token" = true →
    ∃ a t, renewed r a t;
}.

Section Refinement.
Context {W : Type} `{!Server W, !ServerLaws W, !Writable W} (env : Env) `{!TokenBackend W env}.

(** The cookies of a world hold a session. *)
Definition holds (s : Sess) (w : W) : Prop :=
  match s with
  | None => signed_out w
  | Some (a, t) => a ≠ [] ∧ t ≠ [] ∧ signed_in a t w
  end.

(** The exchanges between two worlds; steps in between send nothing. *)
Inductive exchanges : W → list Exchange → W → Prop :=
| exchanges_nil w : exchanges w [] w
| exchanges_quiet w w1 l w' : sent w1 = sent w → exchanges w1 l w' → exchanges w l w'
| exchanges_cons w r x w1 l w' :
    fetch r w = (x, w1) → exchanges w1 l w' → exchanges w ((r, x) :: l) w'.

Lemma exchanges_sent w l w' : exchanges w l w' → sent w' = sent w ++ l.*1.
Proof.
  induction 1 as [w|w w1 l w' E _ IH|w r x w1 l w' E _ IH]; simpl.
  - by rewrite app_nil_r.
  - by rewrite IH, E.
  - rewrite IH. pose proof (fetch_sent r w) as Hs. rewrite E in Hs. simpl in Hs.
    by rewrite Hs, <-app_assoc.
Qed.

Lemma holds_fetch s r w x w1 : holds s w → fetch r w = (x, w1) → holds s w1.
Proof.
  intros Hs E. pose proof (fetch_cookies r w) as Hc. rewrite E in Hc. simpl in Hc.
  destruct s as [[a t]|]; unfold holds, signed_in, signed_out in *; by rewrite !Hc.
Qed.

Lemma truthy_token a : a ≠ [] → truthy (JStr a) = true.
Proof. by destruct a. Qed.

(** A refresh in a session. *)
Lemma refresh_run a t w x w1 :
  holds (Some (a, t)) w → fetch (refresh_request env (JStr t)) w = (x, w1) →
  match x with
  | Throw e => refreshAccessToken env w = (Throw e, w1) ∧ holds (Some (a, t)) w1
  | Ok r =>
      (rejected r ∧ ∃ w2, refreshAccessToken env w = (Ok JNull, w2) ∧
         sent w2 = sent w1 ∧ holds None w2) ∨
      (∃ a' t', renewed r a' t' ∧ ∃ w2, refreshAccessToken env w = (Ok (JStr a'), w2) ∧
         sent w2 = sent w1 ∧ holds (Some (a', t')) w2)
  end.
Proof.
  intros Hs E. pose proof (holds_fetch _ _ _ _ _ Hs E) as Hs1.
  destruct Hs as (Ha & Ht & _ & Hrt). destruct x as [r|e].
  - destruct (refresh_request_run env (JStr t) w r w1 Hrt (truthy_token t Ht) E) as [Hrej Hren].
    destruct (refresh_pair _ _ _ _ E) as [Hr|(a' & t' & Hr)].
    + left. split; [done|]. destruct (Hrej Hr) as (w2 & ? & ? & ?). by exists w2.
    + right. exists a', t'. split; [done|]. destruct (Hren a' t' Hr) as (w2 & ? & ? & ?).
      exists w2. split_and!; [done..|]. destruct Hr as (_ & ? & ? & _). done.
  - split; [|done]. unfold refreshAccessToken, currentRefreshToken, gets.
    rewrite bind_run, Hrt, (truthy_token t Ht). cbn [negb]. rewrite bind_run. unfold backendFetch.
    fold (refresh_request env (JStr t)). by rewrite E.
Qed.

Lemma refines_by (run : res Response * W) refresh req s l x s' w w' :
  run = (x, w') → holds s' w' → call_spec refresh req s l x s' → exchanges w l w' →
  ∃ l x s' w', run = (x, w') ∧ exchanges w l w' ∧ call_spec refresh req s l x s' ∧ holds s' w'.
Proof. intros. by exists l, x, s', w'. Qed.

(** C8: a call in the user's name does what the comment above
    [authorizedFetch] says.  In a world whose cookies hold a session (or
    none), and against a backend that gives tokens in pairs, the call
    returns or throws what the contract [call_spec] allows, after exactly
    the exchanges of the contract, and leaves the cookies of the contract's
    final session: a 401 costs one refresh and one retry, a refused refresh
    signs the user out and hands back the 401, a network failure keeps the
    session. *)
Theorem authorizedFetch_refines path mk s w :
  holds s w →
  ∃ l x s' w',
    authorizedFetch env (λ t, backendFetch env path (mk t)) w = (x, w') ∧
    exchanges w l w' ∧
    call_spec (λ t, refresh_request env (JStr t)) (λ t, backend_request env path (mk (JStr t)))
      s l x s' ∧
    holds s' w'.
Proof.
  intros Hs. destruct s as [[a t]|].
  2: { exists [], (Ok unauthorized_response), None, w. destruct Hs as [Ha Ht].
       split; [|split; [constructor|split; [constructor|split; assumption]]].
       unfold authorizedFetch, refreshAccessToken, currentAccessToken, currentRefreshToken, gets.
       by rewrite bind_run, Ha; simpl; rewrite bind_run, bind_run, Ht. }
  pose proof Hs as (Ha & Ht & Eat & _).
  unfold authorizedFetch, currentAccessToken, gets. rewrite bind_run, Eat, (truthy_token a Ha).
  cbn [negb]. rewrite bind_run. unfold backendFetch.
  destruct (fetch (backend_request env path (mk (JStr a))) w) as [x1 w1] eqn:E1.
  pose proof (holds_fetch _ _ _ _ _ Hs E1) as Hs1.
  destruct x1 as [r|e]; [|by eapply refines_by; [reflexivity|exact Hs1|eapply call_unreachable; eauto|eauto 8 using exchanges]].
  destruct (status r =? 401) eqn:E401; cbn [negb].
  2: { apply Z.eqb_neq in E401.
       by eapply refines_by; [reflexivity|exact Hs1|eapply call_served; eauto|eauto 8 using exchanges]. }
  apply Z.eqb_eq in E401. rewrite bind_run.
  destruct (fetch (refresh_request env (JStr t)) w1) as [x2 w2] eqn:E2.
  pose proof (refresh_run a t w1 x2 w2 Hs1 E2) as Hr. destruct x2 as [r2|e].
  - destruct Hr as [(Hrej & w3 & -> & Hq & Hs3)|(a' & t' & Hren & w3 & -> & Hq & Hs3)].
    + by eapply refines_by; [reflexivity|exact Hs3|eapply call_ended; eauto|eauto 8 using exchanges].
    + rewrite (truthy_token a') by (by destruct Hs3). cbn [negb].
      destruct (fetch (backend_request env path (mk (JStr a'))) w3) as [x w4] eqn:E4.
      pose proof (holds_fetch _ _ _ _ _ Hs3 E4) as Hs4.
      by eapply refines_by; [reflexivity|exact Hs4|eapply call_renewed; eauto|eauto 8 using exchanges].
  - destruct Hr as [-> Hs2].
    by eapply refines_by; [reflexivity|exact Hs2|eapply call_refresh_unreachable; eauto|eauto 8 using exchanges].
Qed.
End Refinement.

(** ** Both cookies or neither *)

Section Whole.
Context {W : Type} `{!Server W, !ServerLaws W, !Writable W} (env : Env) `{!TokenBackend W env}.

Definition whole (w : W) : Prop := ∃ s, holds s w.

Definition keeps (w w' : W) : Prop := whole w → whole w'.

#[local] Instance keeps_preorder : PreOrder keeps.
Proof. split; [by intros w ?|]. intros w1 w2 w3 H1 H2 H. auto. Qed.

Lemma fetch_keeps path init : preserves keeps (backendFetch env path init).
Proof.
  intros w [s Hs]. exists s. unfold backendFetch. destruct (fetch _ w) as [x w1] eqn:E.
  by apply (holds_fetch _ _ _ _ _ Hs E).
Qed.

Lemma set_auth_whole a t w : a ≠ [] → t ≠ [] → whole (setAuthCookies env (JStr a) (JStr t) w).2.
Proof.
  intros Ha Ht. destruct (set_auth_run env a t w) as (w' & -> & Hw & _). by exists (Some (a, t)).
Qed.

Lemma clear_keeps : preserves keeps clearAuthCookies.
Proof. intros w _. destruct (clear_run w) as (w' & -> & Hw). by exists None. Qed.

Lemma json_keeps r : preserves keeps (json r).
Proof. unfold json. preserve. Qed.

Lemma next_json_keeps v st : preserves keeps (next_json v st).
Proof. unfold next_json. preserve. Qed.

#[local] Hint Resolve fetch_keeps clear_keeps json_keeps next_json_keeps : effects.

Lemma backendJSON_keeps r : preserves keeps (backendJSON r).
Proof. unfold backendJSON. preserve. Qed.

Lemma refresh_keeps : preserves keeps (refreshAccessToken env).
Proof.
  intros w [[[a t]|] Hs].
  - destruct (fetch (refresh_request env (JStr t)) w) as [x w1] eqn:E.
    pose proof (refresh_run env a t w x w1 Hs E) as Hr. destruct x as [r|e].
    + destruct Hr as [(_ & w2 & -> & _ & H2)|(a' & t' & _ & w2 & -> & _ & H2)]; eexists; exact H2.
    + destruct Hr as [-> H1]. eexists. exact H1.
  - exists None. pose proof Hs as [_ Ht]. unfold refreshAccessToken, currentRefreshToken, gets.
    by rewrite bind_run, Ht.
Qed.

#[local] Hint Resolve backendJSON_keeps refresh_keeps : effects.

Lemma relay_keeps r : preserves keeps (relay r).
Proof. unfold relay. preserve. Qed.

Lemma authorizedFetch_keeps build :
  (∀ t, preserves keeps (build t)) → preserves keeps (authorizedFetch env build).
Proof. intros Hb. unfold authorizedFetch, currentAccessToken. preserve; apply Hb. Qed.

#[local] Hint Resolve relay_keeps : effects.

Lemma relay_authorized_keeps path init : preserves keeps (relay_authorized env path init).
Proof. unfold relay_authorized. preserve. apply authorizedFetch_keeps. intros t. apply fetch_keeps. Qed.

#[local] Hint Resolve relay_authorized_keeps : effects.

(** The end of a sign-in, after an answer that gives tokens in pairs. *)
Lemma sign_in_with_keeps r :
  (∀ fs, ok r = true → resp_body r = JsonBody (JObj fs) → obj_has fs §"access_token" = true →
     ∃ a t, renewed r a t) →
  preserves keeps (sign_in_with env r).
Proof.
  intros Hpair w Hw. destruct (ok r) eqn:Hok.
  - unfold sign_in_with, backendJSON, try_catch, json. rewrite bind_run, Hok.
    destruct (resp_body r) as [v|] eqn:Eb; [|exact (next_json_keeps _ _ w Hw)]. cbn [mret M_ret].
    destruct v as [| |b|n|x|l|fs]; try exact Hw.
    + exact (next_json_keeps _ _ w Hw).
    + cbn [has_key]. rewrite bind_run. destruct (obj_has fs §"access_token") eqn:Eh.
      2: exact (next_json_keeps _ _ w Hw).
      destruct (Hpair fs eq_refl eq_refl Eh) as (a & t & _ & Ha & Ht & v & [= <-]%(eq_trans (eq_sym Eb)) & Ea & Et).
      cbn [mret M_ret negb]. rewrite Ea, Et, bind_run.
      pose proof (set_auth_whole a t w Ha Ht) as Hs.
      destruct (setAuthCookies env (JStr a) (JStr t) w) as [[u|e] w']; exact Hs.
  - pose proof (backendJSON_keeps r w Hw) as H1. unfold sign_in_with. rewrite Hok, bind_run.
    destruct (backendJSON r w) as [[v|e] w1]; [exact (next_json_keeps v _ w1 H1)|exact H1].
Qed.

Lemma sign_in_keeps path request :
  path ∈ [§"/api/v1/auth/login"; §"/api/v1/auth/verify"] →
  preserves keeps (body ← of_res (in_json request);
                   response ← backendFetch env path (post_init body);
                   sign_in_with env response).
Proof.
  intros Hp. apply preserves_bind; [tc_solve|preserve|]. intros body w Hw. rewrite bind_run.
  unfold backendFetch. destruct (fetch _ w) as [x w1] eqn:E.
  pose proof (fetch_keeps path (post_init body) w Hw) as H1. unfold backendFetch in H1.
  rewrite E in H1. destruct x as [r|e]; [|exact H1].
  apply sign_in_with_keeps; [|exact H1]. intros fs. apply (sign_in_pair _ _ _ _ _ _ Hp E).
Qed.

Lemma route_keeps id code path h req :
  h ∈ api_routes env id code path → preserves keeps (h req).
Proof.
  unfold api_routes. rewrite !elem_of_cons, elem_of_nil. intros Hh.
  repeat destruct Hh as [->|Hh]; [..|done].
  4: apply (sign_in_keeps §"/api/v1/auth/login" req), elem_of_cons; by left.
  4: apply (sign_in_keeps §"/api/v1/auth/verify" req); rewrite !elem_of_cons; auto.
  all: unfold_routes; preserve.
  all: apply authorizedFetch_keeps; intros t; preserve.
Qed.

(** A visit: a handler with its path parameters, and the request. *)
Definition visit_ok (v : (IncomingRequest → M W Response) * IncomingRequest) : Prop :=
  ∃ id code path, v.1 ∈ api_routes env id code path.

Definition visits (l : list ((IncomingRequest → M W Response) * IncomingRequest)) (w : W) : W :=
  foldl (λ w v, (v.1 v.2 w).2) w l.

(** whatever the browser asks of the site, in any order, the session is
    never half stored: starting from both cookies or none, after any sequence
    of requests to the route handlers (failed calls, refused refreshes and
    sign-ins included) either both cookies hold a non-empty token or neither
    cookie exists. *)
Theorem routes_keep_session l w :
  Forall visit_ok l → whole w → whole (visits l w).
Proof.
  intros Hl. revert w. induction Hl as [|v l (id & code & path & Hv) _ IH]; intros w Hw; [done|].
  apply IH. by apply (route_keeps id code path v.1 v.2 Hv).
Qed.
End Whole.

(** ** The sample backend keeps the promise *)

#[local] Existing Instance sample_server_world.

Lemma sample_tokens : TokenBackend ServerWorld sample_env.
Proof.
  split.
  - intros rt w r w'. unfold fetch. simpl. unfold world_fetch, sample_backend.
    replace (str_eqb (url (refresh_request sample_env rt)) §"http://api/api/v1/auth/refresh")
      with true by reflexivity.
    intros [= <- _]. right. exists §"a2", §"r2". split_and!; [reflexivity|done|done|].
    eexists. split_and!; reflexivity.
  - intros path init w r w' fs Hp. unfold fetch. simpl. unfold world_fetch, sample_backend.
    replace (str_eqb (url (backend_request sample_env path init)) §"http://api/api/v1/auth/refresh")
      with false by (rewrite !elem_of_cons, elem_of_nil in Hp;
                     by destruct Hp as [->|[->|[]]]; vm_compute).
    case_bool_decide; intros [= <- _] Hok; [|discriminate Hok].
    intros [= <-]. vm_compute. discriminate.
Qed.

Lemma authorizedFetch_refines_witness :
  ∃ l x s' w',
    authorizedFetch sample_env (get_me sample_env) sample_world = (x, w') ∧
    exchanges sample_world l w' ∧ length l = 3%nat ∧ s' = Some (§"a2", §"r2") ∧ holds s' w'.
Proof.
  assert (holds (Some (§"a1", §"r1")) sample_world) as Hs
    by (split; [done|split; [done|split; vm_compute; reflexivity]]).
  destruct (@authorizedFetch_refines _ sample_server_world (route_laws sample_backend) (route_writable sample_backend)
    sample_env sample_tokens §"/api/v1/me"
    (λ t, {| init_method := None; init_headers := bearer t; init_body := None |})
    (Some (§"a1", §"r1")) sample_world Hs) as (l & x & s' & w' & E & Hl & Hc & Hs').
  change (authorizedFetch sample_env (get_me sample_env) sample_world = (x, w')) in E.
  exists l, x, s', w'. split; [exact E|]. split; [exact Hl|].
  apply (f_equal snd) in E. cbn [snd] in E. split; [|split; [|exact Hs']].
  - apply exchanges_sent, (f_equal length) in Hl.
    rewrite <-E, length_app, length_fmap in Hl. symmetry. exact Hl.
  - clear Hc Hl. subst w'. destruct s' as [[a t]|].
    + destruct Hs' as (_ & _ & Ha & Ht). vm_compute in Ha, Ht.
      injection Ha as <-. injection Ht as <-. reflexivity.
    + destruct Hs' as [Ha _]. vm_compute in Ha. discriminate Ha.
Defined.

Definition blank_request : IncomingRequest :=
  {| in_method := §"POST"; in_search := []; in_headers := []; in_text := [];
     in_json := Ok (JObj []) |}.

Lemma routes_keep_session_witness :
  whole (visits [((λ _, session_GET sample_env), blank_request);
                 ((λ _, logout_POST), blank_request);
                 (login_POST sample_env, blank_request)] sample_world).
Proof.
  apply (@routes_keep_session _ sample_server_world (route_laws sample_backend) (route_writable sample_backend)
    sample_env sample_tokens).
  - apply Forall_cons_2; [|apply Forall_cons_2; [|apply Forall_cons_2; [|apply Forall_nil_2]]].
    all: exists [], [], []; unfold api_routes; cbn [fst]; rewrite !elem_of_cons.
    + do 6 right. left. reflexivity.
    + do 5 right. left. reflexivity.
    + do 3 right. left. reflexivity.
  - exists (Some (§"a1", §"r1")). split; [done|split; [done|split; vm_compute; reflexivity]].
Defined.
