(* ===== verification/Site.v ===== *)
(** * The site as a whole: [web/app/api] behind [vpn-backend/Caddyfile]

    A request of the browser goes through the gateway, which sends it to the
    backend or to the web server; the web server finds the route handler by
    the directory of its [route.ts] and the method by the name of the
    exported function.  [serve] is the web server: it answers every request.
    [intents] is the specification of the site as a proxy, a table of what a
    request may make the site ask of the backend, and [serve_sends] shows that
    the handlers keep to it. *)
From S2P Require Export JsonRoundtrip Session.

Module Site.

(** ** Addresses *)

(** The address without its query. *)
Fixpoint path_of (u : jstr) : jstr :=
  match u with
  | [] => []
  | c :: u => if c =? 63 then [] else c :: path_of u
  end.

(** The query with its question mark, [new URL(request.url).search]. *)
Definition search_of (u : jstr) : jstr := drop (length (path_of u)) u.

Definition slash (c : Z) : bool := c =? 47.
Definition segments (u : jstr) : list jstr := words slash (path_of u).

Lemma path_search u : path_of u ++ search_of u = u.
Proof.
  unfold search_of. induction u as [|c u IH]; [done|]. simpl.
  destruct (c =? 63); [done|]. simpl. by rewrite IH.
Qed.

Lemma path_of_app a b : Forall (λ c, c ≠ 63) a → path_of (a ++ b) = a ++ path_of b.
Proof.
  induction 1 as [|c a Hc Ha IH]; [done|]. simpl. rewrite (proj2 (Z.eqb_neq _ _)) by done.
  by rewrite IH.
Qed.

Lemma path_of_plain a : Forall (λ c, c ≠ 63) a → path_of a = a.
Proof. intros Ha. rewrite <-(app_nil_r a) at 1. rewrite path_of_app by done. apply app_nil_r. Qed.

(** Segments after a literal directory. *)
Lemma segments_dir a b :
  forallb (λ c, negb (c =? 63)) a = true → segments (a ++ 47 :: b) = words slash a ++ segments b.
Proof.
  intros Ha. unfold segments. rewrite path_of_app.
  - simpl. by apply words_app_sep.
  - apply Forall_forall. intros c Hc%list_elem_of_In. rewrite forallb_forall in Ha.
    specialize (Ha c Hc). lia.
Qed.

Lemma segments_plain a : a ≠ [] → Forall (λ c, c ≠ 63 ∧ c ≠ 47) a → segments a = [a].
Proof.
  intros Hne Ha. unfold segments. rewrite path_of_plain.
  - apply words_plain; [|done]. eapply Forall_impl; [exact Ha|]. unfold slash. intros c [_ Hc]. lia.
  - eapply Forall_impl; [exact Ha|]. by intros c [Hc _].
Qed.

(** ** The gateway: [vpn-backend/Caddyfile] *)

Inductive Upstream := VpnBackend | Frontend.

#[export] Instance Upstream_eq_dec : EqDecision Upstream.
Proof. solve_decision. Defined.

(** A [path] matcher: without regard to case, a final star stands for any
    rest, otherwise the whole path. *)
Definition path_matches (pattern path : jstr) : bool :=
  let path := lower_unit <$> path in
  match last pattern with
  | Some 42 => starts_with (take (length pattern - 1) pattern) path
  | _ => str_eqb pattern path
  end.

Definition vpn_backend : list jstr :=
  [§"/api/v1/*"; §"/tv"; §"/tv/*"; §"/download*"; §"/admin"; §"/admin/*"].

Definition vpn_frontend : list jstr :=
  [§"/api"; §"/api/*"; §"/auth"; §"/auth/*"; §"/dashboard"; §"/dashboard/*"; §"/_next/*";
   §"/favicon.ico"; §"/brand-icon.png"; §"/legal/*"; §"/apple-icon.png"; §"/icon*"].

(** The [handle] blocks are tried in order; the last one takes the rest. *)
Definition gateway (u : jstr) : Upstream :=
  if existsb (λ p, path_matches p (path_of u)) vpn_backend then VpnBackend
  else if existsb (λ p, path_matches p (path_of u)) vpn_frontend then Frontend
  else Frontend.

(** ** Endpoints: the directories under [web/app/api] *)

Inductive Endpoint :=
| AuthRegister | AuthForgot | AuthReset | AuthLogin | AuthVerify | AuthLogout
| SessionInfo | PaymentsCreate | PaymentsPreview
| Profiles | Profile (id : jstr) | CopyProfile (code : jstr)
| AutoRenewal | AdBlocking | HappLinks | Config
| AdminProxy (path : list jstr).

#[export] Instance Endpoint_eq_dec : EqDecision Endpoint.
Proof. solve_decision. Defined.

Definition api_dirs : list (list jstr * Endpoint) :=
  [ ([§"auth"; §"register"], AuthRegister); ([§"auth"; §"forgot"], AuthForgot);
    ([§"auth"; §"reset"], AuthReset); ([§"auth"; §"login"], AuthLogin);
    ([§"auth"; §"verify"], AuthVerify); ([§"auth"; §"logout"], AuthLogout);
    ([§"session"], SessionInfo); ([§"payments"; §"create"], PaymentsCreate);
    ([§"payments"; §"preview"], PaymentsPreview); ([§"routing-profiles"], Profiles);
    ([§"subscription"; §"auto-renew"], AutoRenewal); ([§"subscription"; §"ad-block"], AdBlocking);
    ([§"happ-link"], HappLinks); ([§"site-config"], Config) ].

(** The directories with parameters, after those without.  A parameter is
    the segment as it stands in the address: the ones the site's components
    send have no escapes. *)
Definition api_dynamic (segs : list jstr) : option Endpoint :=
  match segs with
  | a :: ((_ :: _) as path) =>
      if str_eqb a §"admin" then Some (AdminProxy path)
      else if str_eqb a §"routing-profiles" then
        match path with
        | [id] => Some (Profile id)
        | [b; code; c] =>
            if str_eqb b §"system" && str_eqb c §"copy" then Some (CopyProfile code) else None
        | _ => None
        end
      else None
  | _ => None
  end.

Definition resolve (segs : list jstr) : option Endpoint :=
  match segs with
  | a :: rest =>
      if str_eqb a §"api" then
        match find_first (λ d, bool_decide (d.1 = rest)) api_dirs with
        | Some d => Some d.2
        | None => api_dynamic rest
        end
      else None
  | [] => None
  end.

(** ** Serving *)

(** What a handler is given of a request. *)
Definition incoming (q : Request) : IncomingRequest :=
  let text := default [] (body q) in
  {| in_method := method q; in_search := search_of (url q); in_headers := headers q;
     in_text := text;
     in_json := match json_parse text with
                | Some v => Ok v
                | None => Throw (ErrorExn §"Unexpected token in JSON")
                end |}.

Definition html (st : Z) : Response :=
  {| status := st; resp_headers := [(§"Content-Type", §"text/html; charset=utf-8")];
     resp_body := RawBody [] |}.

(** What the browser reads of a body. *)
Definition over_wire (r : Response) : Response :=
  {| status := status r; resp_headers := resp_headers r;
     resp_body := match resp_body r with JsonBody v => JsonBody (clean v) | b => b end |}.

Section Serving.
Context {W : Type} `{!Server W} (env : Env).

Abbreviation Handler := (IncomingRequest → M W Response).

(** The verbs of the admin proxy, all the same function. *)
Definition admin_verbs (path : list jstr) : list (jstr * Handler) :=
  [(§"GET", λ request, proxyAdmin env request path);
   (§"POST", λ request, proxyAdmin env request path);
   (§"PUT", λ request, proxyAdmin env request path);
   (§"PATCH", λ request, proxyAdmin env request path);
   (§"DELETE", λ request, proxyAdmin env request path)].

(** The functions each [route.ts] exports. *)
Definition exports (e : Endpoint) : list (jstr * Handler) :=
  match e with
  | AuthRegister => [(§"POST", register_POST env)]
  | AuthForgot => [(§"POST", forgot_POST env)]
  | AuthReset => [(§"POST", reset_POST env)]
  | AuthLogin => [(§"POST", login_POST env)]
  | AuthVerify => [(§"POST", verify_POST env)]
  | AuthLogout => [(§"POST", λ _, logout_POST)]
  | SessionInfo => [(§"GET", λ _, session_GET env)]
  | PaymentsCreate => [(§"POST", payments_create_POST env)]
  | PaymentsPreview => [(§"POST", payments_preview_POST env)]
  | Profiles => [(§"GET", λ _, routing_profiles_GET env); (§"POST", routing_profiles_POST env)]
  | Profile id => [(§"PUT", λ request, routing_profile_PUT env request id);
                   (§"DELETE", λ _, routing_profile_DELETE env id)]
  | CopyProfile code => [(§"POST", λ _, copy_POST env code)]
  | AutoRenewal => [(§"PATCH", auto_renew_PATCH env)]
  | AdBlocking => [(§"PATCH", ad_block_PATCH env)]
  | HappLinks => [(§"POST", λ _, happ_link_POST env)]
  | Config => [(§"GET", λ _, site_config_GET env)]
  | AdminProxy path => admin_verbs path
  end.

Definition handler_of (q : Request) : option Handler :=
  e ← resolve (segments (url q));
  snd <$> find_first (λ v, str_eqb v.1 (method q)) (exports e).

(** No directory is a 404, no function of that name a 405, a handler that
    throws a 500.  (Next answers [HEAD] and [OPTIONS] on its own; no component
    of the site sends them.) *)
Definition serve (q : Request) : W → Response * W := λ w,
  match resolve (segments (url q)) with
  | None => (html 404, w)
  | Some _ =>
      match handler_of q with
      | None => (html 405, w)
      | Some h =>
          match h (incoming q) w with
          | (Ok r, w') => (over_wire r, w')
          | (Throw _, w') => (html 500, w')
          end
      end
  end.
End Serving.

(** ** The site as a proxy *)

(** A request to the backend: its path, and the rest given a token. *)
Definition Intent : Type := jstr * (jval → RequestInit).

Definition plain_post (path : jstr) (v : jval) : Intent := (path, λ _, post_init v).

Definition authorized (path verb : jstr) (hs : jval → list header) (body : option jval) : Intent :=
  (path, λ token, {| init_method := Some verb; init_headers := hs token;
                     init_body := stringify <$> body |}).

(** What the site may ask of the backend for a request, besides a refresh of
    the tokens: nothing when a body is required and is not JSON. *)
Definition intents (e : Endpoint) (q : Request) : list Intent :=
  let with_body (f : jval → Intent) : list Intent :=
    from_option (λ v, [f v]) [] (json_parse (default [] (body q))) in
  let get_ path : Intent :=
    (path, λ token, {| init_method := None; init_headers := bearer token; init_body := None |}) in
  match e with
  | AuthRegister => with_body (plain_post §"/api/v1/auth/register")
  | AuthForgot => with_body (plain_post §"/api/v1/auth/forgot-password")
  | AuthReset => with_body (plain_post §"/api/v1/auth/reset-password")
  | AuthLogin => with_body (plain_post §"/api/v1/auth/login")
  | AuthVerify => with_body (plain_post §"/api/v1/auth/verify")
  | AuthLogout => []
  | SessionInfo => [get_ §"/api/v1/me"; get_ §"/api/v1/me/subscription"]
  | PaymentsCreate =>
      with_body (λ v, authorized §"/api/v1/payments/create" §"POST" bearer (Some v))
  | PaymentsPreview =>
      with_body (λ v, authorized §"/api/v1/payments/preview" §"POST" bearer (Some v))
  | Profiles =>
      authorized §"/api/v1/me/routing-profiles" §"GET" bearer None ::
      with_body (λ v, authorized §"/api/v1/me/routing-profiles" §"POST" bearer_json (Some v))
  | Profile id =>
      authorized (§"/api/v1/me/routing-profiles/" ++ id) §"DELETE" bearer None ::
      with_body (λ v, authorized (§"/api/v1/me/routing-profiles/" ++ id) §"PUT" bearer_json (Some v))
  | CopyProfile code =>
      match encodeURIComponent code with
      | Ok encoded =>
          [authorized (§"/api/v1/me/routing-profiles/system/" ++ encoded ++ §"/copy") §"POST" bearer
             (Some (JObj []))]
      | Throw _ => []
      end
  | AutoRenewal =>
      with_body (λ v, authorized §"/api/v1/me/subscription/auto-renew" §"PATCH" bearer (Some v))
  | AdBlocking =>
      with_body (λ v, authorized §"/api/v1/me/subscription/ad-block" §"PATCH" bearer_json (Some v))
  | HappLinks => [authorized §"/api/v1/me/happ-link" §"POST" bearer None]
  | Config => []
  | AdminProxy path =>
      [(§"/api/v1/admin/" ++ join §"/" path ++ search_of (url q), λ token,
        {| init_method := Some (method q);
           init_headers :=
             headers_set §"Content-Type"
               (default §"application/json" (headers_get (headers q) §"Content-Type"))
               (headers_set §"Authorization" (§"Bearer " ++ to_text token) []);
           init_body := if str_eqb (method q) §"GET" || str_eqb (method q) §"HEAD"
                        then None else Some (default [] (body q)) |})]
  end.

Section Proxy.
Context {W : Type} `{!Server W, !ServerLaws W} (env : Env).

(** The request for the public configuration, which goes out without a
    token. *)
Definition config_request (base : jstr) : Request :=
  {| method := §"GET"; url := strip_trailing 47 base ++ §"/api/v1/web/config";
     headers := []; body := None |}.

(** A request to the backend that a request [q] to an endpoint accounts for. *)
Definition accounted (e : Endpoint) (q b : Request) : Prop :=
  (∃ refresh, b = refresh_request env refresh) ∨
  (∃ path init token, (path, init) ∈ intents e q ∧ b = backend_request env path (init token)) ∨
  (e = Config ∧ ∃ base, b = config_request base).

Lemma accounted_intent e q path init token :
  (path, init) ∈ intents e q → accounted e q (backend_request env path (init token)).
Proof. intros Hi. right. left. by exists path, init, token. Qed.

Lemma site_config_only q : preserves (only_sends (accounted Config q)) (site_config_GET (W:=W) env).
Proof.
  unfold site_config_GET, loadSiteConfig. preserve.
  apply fetch_only. right. right. split; [done|]. by eexists.
Qed.

(** A handler that needs the body as JSON fails before it sends anything. *)
Lemma with_json_only P (f : jval → M W Response) r :
  (∀ v, r = Ok v → preserves (only_sends P) (f v)) →
  preserves (only_sends P) (v ← of_res r; f v).
Proof.
  intros Hf w. rewrite bind_run. unfold of_res. destruct r as [v|e]; [by apply Hf|].
  apply (reflexivity (R := only_sends P)).
Qed.

Lemma incoming_json q v : in_json (incoming q) = Ok v → json_parse (default [] (body q)) = Some v.
Proof. simpl. by destruct (json_parse _); [intros [= ->]|]. Qed.

Lemma refresh_accounted e q rt : accounted e q (refresh_request env rt).
Proof. left. by exists rt. Qed.

#[local] Hint Resolve refresh_accounted : core.

Lemma authorized_only P path init :
  (∀ rt, P (refresh_request env rt)) → (∀ t, P (backend_request env path (init t))) →
  preserves (only_sends P) (authorizedFetch (W:=W) env (λ t, backendFetch env path (init t))).
Proof. intros Hr Hp. apply authorizedFetch_only; [done|]. intros t. by apply backendFetch_only. Qed.

Lemma copy_only code q : preserves (only_sends (accounted (CopyProfile code) q)) (copy_POST (W:=W) env code).
Proof.
  unfold copy_POST. preserve. apply authorizedFetch_only; [done|]. intros t w. rewrite bind_run.
  unfold of_res. destruct (encodeURIComponent code) as [x|e] eqn:E; [|reflexivity].
  refine (backendFetch_only env _ _ _ _ w).
  apply (accounted_intent _ q _ (λ token, {| init_method := _; init_headers := bearer token;
    init_body := _ |}) t). simpl. rewrite E. apply elem_of_cons. by left.
Qed.

(** Find a request in the table: the entry number [n], with token [t]. *)
Lemma accounted_at n e q path init t r :
  intents e q !! n = Some (path, init) → r = backend_request env path (init t) → accounted e q r.
Proof. intros Hn ->. apply accounted_intent. by eapply list_elem_of_lookup_2. Qed.

Ltac in_table :=
  let found n tok :=
    eapply (accounted_at n) with (t := tok);
    [unfold intents; repeat match goal with H : json_parse _ = _ |- _ => rewrite H end; reflexivity
    |reflexivity] in
  match goal with
  | t : jval |- _ => first [found 0%nat t | found 1%nat t]
  | |- _ => found 0%nat JNull
  end.

Lemma exports_only e q verb h :
  (verb, h) ∈ exports env e → preserves (only_sends (accounted e q)) (h (incoming q)).
Proof.
  destruct e; unfold exports, admin_verbs; rewrite !elem_of_cons, elem_of_nil; intros Hh.
  all: repeat (destruct Hh as [[= -> ->]|Hh]; [|]); try done.
  all: try apply copy_only; try apply site_config_only.
  all: unfold_routes.
  all: try (apply with_json_only; intros v Hv%incoming_json).
  all: preserve.
  all: try (apply relay_authorized_only; [done|intros t]).
  all: try (apply authorized_only; [done|intros t]).
  all: try apply backendFetch_only.
  all: in_table.
Qed.
End Proxy.

(** The requests of the site for a request of the browser. *)
Lemma serve_sends {W} `{!Server W, !ServerLaws W} (env : Env) q (w : W) :
  ∃ rs, sent (serve env q w).2 = sent w ++ rs ∧
    Forall (λ b, ∃ e, resolve (segments (url q)) = Some e ∧ accounted env e q b) rs.
Proof.
  unfold serve, handler_of. destruct (resolve (segments (url q))) as [e|] eqn:Ee.
  2: { exists []. by rewrite app_nil_r. }
  simpl. destruct (find_first _ (exports env e)) as [[verb h]|] eqn:Ef; simpl.
  2: { exists []. by rewrite app_nil_r. }
  apply find_first_Some in Ef as [Hin _].
  destruct (exports_only env e q verb h Hin w) as (rs & Es & Hrs). exists rs. split.
  - destruct (h (incoming q) w) as [[r|x] w']; exact Es.
  - eapply Forall_impl; [exact Hrs|]. intros b Hb. by exists e.
Qed.

(** ** Verbs *)

Definition verbs (e : Endpoint) : list jstr :=
  match e with
  | SessionInfo | Config => [§"GET"]
  | Profiles => [§"GET"; §"POST"]
  | Profile _ => [§"PUT"; §"DELETE"]
  | AutoRenewal | AdBlocking => [§"PATCH"]
  | AdminProxy _ => [§"GET"; §"POST"; §"PUT"; §"PATCH"; §"DELETE"]
  | _ => [§"POST"]
  end.

Lemma exports_verbs {W} `{!Server W} (env : Env) e : (exports (W:=W) env e).*1 = verbs e.
Proof. by destruct e. Qed.

(** The web server has a function for the request. *)
Definition routed (q : Request) : bool :=
  match resolve (segments (url q)) with
  | Some e => existsb (λ v, str_eqb v (method q)) (verbs e)
  | None => false
  end.

Lemma routed_handler {W} `{!Server W} (env : Env) q :
  routed q = true ↔ is_Some (handler_of (W:=W) env q).
Proof.
  unfold routed, handler_of. destruct (resolve (segments (url q))) as [e|]; simpl.
  2: { split; [done|]. by intros [? ?]. }
  rewrite <-(exports_verbs (W:=W) env e). generalize (exports (W:=W) env e). intros l.
  rewrite fmap_is_Some. induction l as [|[v h] l IH]; simpl.
  { split; [done|]. by intros [? ?]. }
  rewrite find_first_cons. simpl. destruct (str_eqb v (method q)); [|exact IH].
  split; [|done]. intros _. by eexists.
Qed.

(** ** The session *)

Section Keeping.
Context {W : Type} `{!Server W, !ServerLaws W, !Writable W} (env : Env) `{!TokenBackend W env}.

Lemma config_keeps : preserves keeps (site_config_GET (W:=W) env).
Proof.
  assert (∀ r, preserves (keeps (W:=W)) (fetch r)) as Hf.
  { intros r w [s Hs]. exists s. destruct (fetch r w) as [x w1] eqn:E.
    by apply (holds_fetch _ _ _ _ _ Hs E). }
  assert (∀ v st, preserves (keeps (W:=W)) (next_json v st)) as Hn by apply next_json_keeps.
  assert (∀ r, preserves (keeps (W:=W)) (json r)) as Hj by apply json_keeps.
  unfold site_config_GET, loadSiteConfig.
  pose proof (keeps_preorder (W:=W)). preserve; auto.
Qed.

Ltac at_route n := apply (list_elem_of_lookup_2 _ n); reflexivity.

Lemma exports_keep e q verb h : (verb, h) ∈ exports env e → preserves keeps (h (incoming q)).
Proof.
  intros Hh. destruct (decide (e = Config)) as [->|Hc].
  { apply list_elem_of_singleton in Hh as [= -> ->]. apply config_keeps. }
  assert (∃ id code path, h ∈ api_routes env id code path) as (id & code & path & Hr).
  { destruct e; try done; unfold exports, admin_verbs in Hh;
      rewrite !elem_of_cons, elem_of_nil in Hh.
    all: repeat (destruct Hh as [[= -> ->]|Hh]; [|]); try done.
    all: first [exists id, [], [] | exists [], code, [] | exists [], [], path | exists [], [], []].
    all: [> at_route 0%nat | at_route 1%nat | at_route 2%nat | at_route 3%nat | at_route 4%nat |
      at_route 5%nat | at_route 6%nat | at_route 7%nat | at_route 8%nat | at_route 9%nat |
      at_route 10%nat | at_route 11%nat | at_route 12%nat | at_route 13%nat | at_route 14%nat |
      at_route 15%nat | at_route 16%nat | at_route 17%nat | at_route 17%nat | at_route 17%nat |
      at_route 17%nat | at_route 17%nat ]. }
  by apply (route_keeps env id code path).
Qed.

Lemma serve_keeps q w : whole w → whole (serve env q w).2.
Proof.
  intros Hw. unfold serve, handler_of. destruct (resolve (segments (url q))) as [e|]; [|done].
  simpl. destruct (find_first _ (exports env e)) as [[verb h]|] eqn:Ef; [|done]. simpl.
  apply find_first_Some in Ef as [Hin _].
  pose proof (exports_keep e q verb h Hin w Hw) as Hk.
  by destruct (h (incoming q) w) as [[r|x] w'].
Qed.
End Keeping.
End Site.
