(* ===== verification/Component.v ===== *)
(** * Client components

    A React component of the sources is modelled by its state, the tree it
    renders, its event handlers and the continuations of its requests.

    - The tree keeps elements, text, links, values and handlers; class names,
      styles, icons and animation are left out.
    - A handler runs to its first [await] as one step; the request it awaits
      and the values its closure captured are an operation in flight.
    - The rest of the handler, from the [await] of the response to its end
      (the body of the response included), runs as one step when the reply
      arrives, on the state of that moment, with the captured values.
    - What a user can do in a state is what the rendered tree offers: a click
      on an element that is not disabled, text into a field, the submission
      of a form with an enabled submit button.  Browser-side validation of
      fields is not modelled; it only removes possibilities. *)
From S2P Require Export Http.

(** ** Rendered trees *)

Inductive prop (E : Type) :=
| Prop_ (k v : jstr)
| Flag (k : jstr) (b : bool)
| On (event : jstr) (e : E)
| OnText (f : jstr → E).
#[global] Arguments Prop_ {E} _ _.
#[global] Arguments Flag {E} _ _.
#[global] Arguments On {E} _ _.
#[global] Arguments OnText {E} _.

Inductive node (E : Type) :=
| Txt (s : jstr)
| El (tag : jstr) (props : list (prop E)) (children : list (node E)).
#[global] Arguments Txt {E} _.
#[global] Arguments El {E} _ _ _.

(** [{c && n}] *)
Definition show {E} (c : bool) (ns : list (node E)) : list (node E) := if c then ns else [].

Section Trees.
Context {E : Type}.

(** The text of a tree, in document order. *)
Fixpoint texts (n : node E) : list jstr :=
  match n with
  | Txt s => [s]
  | El _ _ cs => concat (map texts cs)
  end.

Definition is_disabled (ps : list (prop E)) : bool :=
  existsb (λ p, match p with Flag k b => str_eqb k §"disabled" && b | _ => false end) ps.

Definition is_submit (ps : list (prop E)) : bool :=
  existsb (λ p, match p with Prop_ k v => str_eqb k §"type" && str_eqb v §"submit" | _ => false end) ps.

Fixpoint has_submit (n : node E) : bool :=
  match n with
  | Txt _ => false
  | El _ ps cs => (is_submit ps && negb (is_disabled ps)) || existsb has_submit cs
  end.

Definition own_clicks (ps : list (prop E)) (submittable : bool) : list E :=
  if is_disabled ps then [] else
  omap (λ p, match p with
             | On ev e => if str_eqb ev §"submit" && negb submittable then None else Some e
             | _ => None
             end) ps.

(** The events a tree offers without text. *)
Fixpoint clicks (n : node E) : list E :=
  match n with
  | Txt _ => []
  | El _ ps cs => own_clicks ps (existsb has_submit cs) ++ concat (map clicks cs)
  end.

(** The text handlers a tree offers. *)
Fixpoint inputs (n : node E) : list (jstr → E) :=
  match n with
  | Txt _ => []
  | El _ ps cs =>
      (if is_disabled ps then [] else
       omap (λ p, match p with OnText f => Some f | _ => None end) ps) ++ concat (map inputs cs)
  end.

(** *** Reasoning about the events of a tree

    [every P ns]: all events of the enabled elements of [ns] satisfy [P];
    structural, so that it unfolds along the definition of a view. *)
Definition prop_event (P : E → Prop) (p : prop E) : Prop :=
  match p with
  | On _ e => P e
  | OnText f => ∀ txt, P (f txt)
  | _ => True
  end.

Fixpoint node_events (P : E → Prop) (n : node E) : Prop :=
  match n with
  | Txt _ => True
  | El _ ps cs =>
      (is_disabled ps = false → Forall (prop_event P) ps) ∧
      (fix all (l : list (node E)) : Prop :=
         match l with [] => True | n :: l => node_events P n ∧ all l end) cs
  end.

Definition every (P : E → Prop) : list (node E) → Prop :=
  fix all (l : list (node E)) : Prop :=
    match l with [] => True | n :: l => node_events P n ∧ all l end.

Definition all_texts (ns : list (node E)) : list jstr := concat (map texts ns).
Definition all_clicks (ns : list (node E)) : list E := concat (map clicks ns).
Definition all_inputs (ns : list (node E)) : list (jstr → E) := concat (map inputs ns).

Lemma every_nil P : every P [].
Proof. exact I. Qed.

Lemma every_cons P n ns : every P (n :: ns) ↔ node_events P n ∧ every P ns.
Proof. exact (iff_refl _). Qed.

Lemma every_app P a b : every P (a ++ b) ↔ every P a ∧ every P b.
Proof. induction a; simpl; tauto. Qed.

Lemma every_show P c ns : every P (show c ns) ↔ (c = true → every P ns).
Proof. destruct c; simpl; split; try done; auto. Qed.

Lemma every_bind {A} P (f : A → list (node E)) l :
  (∀ x, x ∈ l → every P (f x)) → every P (l ≫= f).
Proof.
  induction l as [|x l IH]; intros Hf; [exact I|]. rewrite bind_cons, every_app.
  split; [apply Hf; by left|]. apply IH. intros y Hy. apply Hf. by right.
Qed.

Lemma every_fmap {A} P (f : A → node E) l :
  (∀ x, x ∈ l → node_events P (f x)) → every P (f <$> l).
Proof.
  induction l as [|x l IH]; intros Hf; [exact I|]. rewrite fmap_cons, every_cons.
  split; [apply Hf; by left|]. apply IH. intros y Hy. apply Hf. by right.
Qed.

Lemma node_events_El P tag ps cs :
  node_events P (El tag ps cs) ↔
  (is_disabled ps = false → Forall (prop_event P) ps) ∧ every P cs.
Proof. exact (iff_refl _). Qed.

Lemma prop_event_impl (P Q : E → Prop) p : (∀ e, P e → Q e) → prop_event P p → prop_event Q p.
Proof. intros HPQ. destruct p; simpl; auto. Qed.

Lemma every_impl (P Q : E → Prop) ns : (∀ e, P e → Q e) → every P ns → every Q ns.
Proof.
  intros HPQ. assert (∀ n, node_events P n → node_events Q n) as Hn.
  { fix IH 1. intros [s|tag ps cs]; [done|]. rewrite !node_events_El. intros [Hps Hcs]. split.
    - intros Hd. eapply Forall_impl; [by apply Hps|]. intros p. by apply prop_event_impl.
    - clear Hps. revert cs Hcs. fix IHl 1. intros [|n cs]; [done|]. rewrite !every_cons.
      intros [H1 H2]. split; [by apply IH|by apply IHl]. }
  induction ns as [|n ns IH]; [done|]. rewrite !every_cons. intros [? ?]. auto.
Qed.

Lemma every_True ns : every (λ _, True) ns.
Proof.
  assert (∀ n, node_events (λ _, True) n) as Hn.
  { fix IH 1. intros [s|tag ps cs]; [done|]. apply node_events_El. split.
    - intros _. apply Forall_forall. by intros [] _.
    - revert cs. fix IHl 1. intros [|n cs]; [done|]. apply every_cons.
      split; [by apply IH|by apply IHl]. }
  induction ns as [|n ns IH]; [done|]. by apply every_cons.
Qed.

Lemma own_clicks_Forall P ps b :
  (is_disabled ps = false → Forall (prop_event P) ps) → Forall P (own_clicks ps b).
Proof.
  unfold own_clicks. destruct (is_disabled ps); [constructor|]. intros H. specialize (H eq_refl).
  induction H as [|p ps Hp Hps IH]; [constructor|]. simpl.
  destruct p; try exact IH. destruct (str_eqb event _ && negb b); [exact IH|]. by constructor.
Qed.

Lemma node_events_sound P n :
  node_events P n →
  Forall P (clicks n) ∧ Forall (λ f, ∀ txt, P (f txt)) (inputs n).
Proof.
  revert n. fix IH 1. intros [s|tag ps cs]; [split; constructor|].
  rewrite node_events_El. intros [Hps Hcs]. cbn [clicks inputs]. rewrite !Forall_app.
  assert (Forall P (concat (map clicks cs)) ∧
          Forall (λ f, ∀ txt, P (f txt)) (concat (map inputs cs))) as [Hc Hi].
  { clear Hps. revert cs Hcs. fix IHl 1. intros [|n cs] Hcs; [split; constructor|].
    destruct Hcs as [Hn Hcs]. simpl. rewrite !Forall_app.
    destruct (IH n Hn), (IHl cs Hcs). tauto. }
  split_and!; [by apply own_clicks_Forall|done| |done].
  destruct (is_disabled ps); [constructor|]. specialize (Hps eq_refl). clear -Hps.
  induction Hps as [|p ps Hp Hps IHp]; [constructor|]. simpl. destruct p; try done. by constructor.
Qed.

Lemma every_sound P ns :
  every P ns →
  Forall P (all_clicks ns) ∧ Forall (λ f, ∀ txt, P (f txt)) (all_inputs ns).
Proof.
  unfold all_clicks, all_inputs. induction ns as [|n ns IH]; [split; constructor|].
  intros [Hn Hns]. simpl. rewrite !Forall_app.
  destruct (node_events_sound P n Hn), (IH Hns). tauto.
Qed.
End Trees.
#[global] Arguments every : simpl never.
#[global] Arguments node_events : simpl never.

Lemma enabled_flag {E} b (ps : list (prop E)) :
  is_disabled (Flag §"disabled" b :: ps) = false → b = false.
Proof. unfold is_disabled. cbn [existsb]. rewrite str_eqb_refl. by destruct b. Qed.

(** Walk a view, leaving the events to check. *)
Ltac events_step :=
  lazymatch goal with
  | |- every _ [] => exact I
  | |- every _ (_ :: _) => apply every_cons; split
  | |- every _ (_ ++ _) => apply every_app; split
  | |- every _ (show _ _) => apply every_show; intros ?
  | |- every _ (_ ≫= _) => apply every_bind; intros ? ?
  | |- every _ (_ <$> _) => apply every_fmap; intros ? ?
  | |- every _ (match ?c with _ => _ end) => destruct c eqn:?
  | |- node_events _ (Txt _) => exact I
  | |- node_events _ (El _ _ _) => apply node_events_El; split; [intros ?|]
  | |- node_events _ (match ?c with _ => _ end) => destruct c eqn:?
  | |- Forall (prop_event _) [] => constructor
  | |- Forall (prop_event _) (match ?c with _ => _ end) => destruct c eqn:?
  | |- Forall (prop_event _) (_ :: _) => apply Forall_cons; split
  | |- prop_event _ (Prop_ _ _) => exact I
  | |- prop_event _ (Flag _ _) => exact I
  | |- prop_event _ (On _ _) => cbn [prop_event]
  | |- prop_event _ (OnText _) => cbn [prop_event]; intros ?
  end.
Ltac events := repeat events_step.

(** ** Components as transition systems *)

(** What a component does besides rendering and requests: [router.push] and
    [router.replace], [window.location.href = ...], [alert], the clipboard,
    and calls of a function its parent passed. *)
Inductive Out :=
| Push (href : jstr)
| Assign (href : jstr)
| Alert (msg : jstr)
| Clipboard (s : jstr)
| Callback (name : jstr) (args : list jstr).

(** The result of a handler: the new state, the operations it started, the
    outward actions. *)
Record Outcome (S Op : Type) := { new : S; started : list Op; outs : list Out }.
#[global] Arguments new {S Op} _.
#[global] Arguments started {S Op} _.
#[global] Arguments outs {S Op} _.
#[global] Arguments Build_Outcome {S Op} _ _ _.

Definition settled {S Op} (s : S) : Outcome S Op := Build_Outcome s [] [].

Record Component := {
  St : Type;
  Ev : Type;
  Op : Type;
  mount : Outcome St Op;
  view : St → list (node Ev);
  on : Ev → St → Outcome St Op;
  request : Op → Request;
  resume : Op → Reply → St → Outcome St Op;
}.

Inductive Label :=
| Click (i : nat)
| Input (i : nat) (s : jstr)
| Settle (i : nat) (r : Reply).

Section System.
Context (C : Component).

Record Sys := {
  st : St C;
  pending : list (Op C);
  requests : list Request;
  outputs : list Out;
}.

(** Apply an outcome after removing the settled operation, if any. *)
Definition commit (s : Sys) (rest : list (Op C)) (o : Outcome (St C) (Op C)) : Sys :=
  {| st := new o;
     pending := rest ++ started o;
     requests := requests s ++ (request C <$> started o);
     outputs := outputs s ++ outs o |}.

Definition start : Sys :=
  {| st := new (mount C); pending := started (mount C);
     requests := request C <$> started (mount C); outputs := outs (mount C) |}.

Definition step (s : Sys) (l : Label) : option Sys :=
  match l with
  | Click i =>
      e ← all_clicks (view C (st s)) !! i;
      Some (commit s (pending s) (on C e (st s)))
  | Input i txt =>
      f ← all_inputs (view C (st s)) !! i;
      Some (commit s (pending s) (on C (f txt) (st s)))
  | Settle i r =>
      op ← pending s !! i;
      Some (commit s (delete i (pending s)) (resume C op r (st s)))
  end.

Definition reached (s : Sys) : Prop := reachable step start s.

(** The state after a sequence of labels that are all possible. *)
Definition feasible (ls : list Label) : bool :=
  match run step start ls with Some _ => true | None => false end.

Definition final (ls : list Label) : Sys := default start (run step start ls).

Lemma final_reached ls : feasible ls = true → reached (final ls).
Proof.
  unfold feasible, final. destruct (run step start ls) as [s|] eqn:E; [|done].
  intros _. by apply run_reachable in E.
Qed.

Lemma final_step ls l :
  feasible (ls ++ [l]) = true → step (final ls) l = Some (final (ls ++ [l])).
Proof.
  unfold feasible, final. rewrite run_app. destruct (run step start ls) as [s|]; [|done]. simpl.
  by destruct (step s l).
Qed.

(** An event the rendered tree offers. *)
Definition offered (e : Ev C) (s : St C) : Prop :=
  e ∈ all_clicks (view C s) ∨ ∃ f txt, f ∈ all_inputs (view C s) ∧ e = f txt.

(** What holds of the events of a tree holds of the offered ones. *)
Lemma offered_forall (P : Ev C → Prop) s e :
  Forall P (all_clicks (view C s)) → Forall (λ f, ∀ txt, P (f txt)) (all_inputs (view C s)) →
  offered e s → P e.
Proof.
  rewrite !Forall_forall. intros Hc Hi [He|(f & txt & Hf & ->)]; [by apply Hc|by apply Hi].
Qed.

Lemma offered_every (P : Ev C → Prop) s e : every P (view C s) → offered e s → P e.
Proof. intros [Hc Hi]%every_sound. by apply offered_forall. Qed.

(** Rule induction: an invariant is checked on mounting, on every offered
    event and on every reply to an operation in flight. *)
Lemma component_invariant (P : Sys → Prop) :
  P start →
  (∀ s e, reached s → P s → offered e (st s) → P (commit s (pending s) (on C e (st s)))) →
  (∀ s i op r, reached s → P s → pending s !! i = Some op →
     P (commit s (delete i (pending s)) (resume C op r (st s)))) →
  ∀ s, reached s → P s.
Proof.
  intros H0 Hon Hres. cut (∀ s, reached s → reached s ∧ P s); [naive_solver|].
  apply reachable_invariant; [split; [constructor|done]|].
  intros s l s' [Hr Hs] Hstep. split; [by eapply reachable_step|].
  destruct l as [i|i txt|i r]; simpl in Hstep; apply bind_Some in Hstep as (x & Hx & [= <-]).
  - apply Hon; [done..|]. left. by eapply list_elem_of_lookup_2.
  - apply Hon; [done..|]. right. exists x, txt. split; [|done]. by eapply list_elem_of_lookup_2.
  - by eapply Hres.
Qed.

(** Operations in flight were requested. *)
Lemma pending_requested s op : reached s → op ∈ pending s → request C op ∈ requests s.
Proof.
  intros Hr. revert op. pattern s. revert s Hr. apply component_invariant.
  - simpl. intros op Hop. by apply list_elem_of_fmap_2.
  - intros s e _ Hs _ op. simpl. rewrite !elem_of_app. intros [Hop|Hop]; [left; by apply Hs|right].
    by apply list_elem_of_fmap_2.
  - intros s i op r _ Hs Hi op'. simpl. rewrite !elem_of_app. intros [Hop|Hop]; [left|right].
    + apply Hs. eapply elem_of_submseteq; [exact Hop|]. apply sublist_submseteq, sublist_delete.
    + by apply list_elem_of_fmap_2.
Qed.

(** What holds of every operation that is ever started. *)
Lemma started_invariant (P : Op C → Prop) :
  Forall P (started (mount C)) →
  (∀ s e, reached s → offered e (st s) → Forall P (started (on C e (st s)))) →
  (∀ s op r, reached s → op ∈ pending s → Forall P (started (resume C op r (st s)))) →
  ∀ s, reached s → Forall P (pending s) ∧ ∀ r, r ∈ requests s → ∃ op, P op ∧ r = request C op.
Proof.
  intros H0 Hon Hres.
  assert (∀ ops r, Forall P ops → r ∈ request C <$> ops → ∃ op, P op ∧ r = request C op) as Hreq.
  { intros ops r Hops (op & -> & Hop)%list_elem_of_fmap. rewrite Forall_forall in Hops. eauto. }
  apply component_invariant; simpl.
  - split; [done|]. intros r. by apply Hreq.
  - intros s e Hr [Hp Hs] Ho. specialize (Hon s e Hr Ho). split; [by apply Forall_app|].
    intros r. rewrite elem_of_app. intros [Hin|Hin]; eauto.
  - intros s i op r Hr [Hp Hs] Hi. apply list_elem_of_lookup_2 in Hi as Hin.
    specialize (Hres s op r Hr Hin). split; [apply Forall_app; split; [by apply Forall_delete|done]|].
    intros r'. rewrite elem_of_app. intros [?|?]; eauto.
Qed.

(** An invariant of the component's own state. *)
Lemma state_invariant (P : St C → Prop) :
  P (new (mount C)) →
  (∀ e s, P s → offered e s → P (new (on C e s))) →
  (∀ op r s, P s → P (new (resume C op r s))) →
  ∀ s, reached s → P (st s).
Proof.
  intros H0 Hon Hres. apply component_invariant; simpl; [done| |].
  - intros s e _ Hs Ho. by apply Hon.
  - intros s i op r _ Hs _. by apply Hres.
Qed.

(** ** One request of a kind at a time

    Components disable controls while a request is in flight.  [kind] selects
    operations, [busy] is the flag, and the handlers and replies keep the two
    in step; [P] is what else is known of the states. *)

Definition one_flight (kind : Op C → bool) (busy : St C → bool) (s : Sys) : Prop :=
  if busy (st s) then ∃ op, filter (λ op, kind op = true) (pending s) = [op]
  else filter (λ op, kind op = true) (pending s) = [].

Lemma one_flight_idle kind busy s :
  one_flight kind busy s → busy (st s) = false → filter (λ op, kind op = true) (pending s) = [].
Proof. unfold one_flight. intros H Hb. by rewrite Hb in H. Qed.

Lemma filter_delete_miss (f : Op C → bool) (l : list (Op C)) i op :
  l !! i = Some op → f op = false →
  filter (λ op, f op = true) (delete i l) = filter (λ op, f op = true) l.
Proof.
  intros Hi Hf. apply list_elem_of_split_length in Hi as (l1 & l2 & -> & ->).
  rewrite delete_middle, !filter_app, filter_cons_False; [done|congruence].
Qed.

Lemma filter_delete_hit (f : Op C → bool) (l : list (Op C)) i op x :
  l !! i = Some op → f op = true → filter (λ op, f op = true) l = [x] →
  filter (λ op, f op = true) (delete i l) = [].
Proof.
  intros Hi Hf. apply list_elem_of_split_length in Hi as (l1 & l2 & -> & ->).
  rewrite delete_middle, !filter_app, filter_cons_True by done. intros E.
  apply (f_equal length) in E. rewrite length_app in E. simpl in E.
  rewrite (nil_length_inv (filter _ l1)), (nil_length_inv (filter _ l2)); [done|lia..].
Qed.

Lemma one_flight_invariant (kind : Op C → bool) (busy : St C → bool) (P : St C → Prop) :
  let starts o := filter (λ op, kind op = true) (started o) in
  (∀ s, reached s → P (st s)) →
  (busy (new (mount C)) = false ∧ starts (mount C) = []) →
  (∀ e s, P s → offered e s → busy s = true →
     starts (on C e s) = [] ∧ busy (new (on C e s)) = true) →
  (∀ e s, P s → offered e s → busy s = false →
     starts (on C e s) = [] ∧ busy (new (on C e s)) = false ∨
     (∃ op, starts (on C e s) = [op]) ∧ busy (new (on C e s)) = true) →
  (∀ op r s, kind op = true → busy s = true →
     starts (resume C op r s) = [] ∧ busy (new (resume C op r s)) = false ∨
     (∃ op', starts (resume C op r s) = [op']) ∧ busy (new (resume C op r s)) = true) →
  (∀ op r s, kind op = false →
     starts (resume C op r s) = [] ∧ busy (new (resume C op r s)) = busy s) →
  ∀ s, reached s → one_flight kind busy s.
Proof.
  intros starts HP [Hm Hs0] Hbusy Hidle Hown Hother. apply component_invariant; unfold one_flight.
  - simpl. rewrite Hm. exact Hs0.
  - intros s e Hr Hs Ho. apply HP in Hr. cbn [commit pending st]. rewrite filter_app.
    fold (starts (on C e (st s))). destruct (busy (st s)) eqn:Eb.
    + destruct (Hbusy e (st s) Hr Ho Eb) as [-> ->]. by rewrite app_nil_r.
    + rewrite Hs. destruct (Hidle e (st s) Hr Ho Eb) as [[-> ->]|[[op ->] ->]]; simpl; eauto.
  - intros s i op r Hr Hs Hi. cbn [commit pending st]. rewrite filter_app.
    fold (starts (resume C op r (st s))). destruct (kind op) eqn:Ek.
    + destruct (busy (st s)) eqn:Eb.
      * destruct Hs as [x Hs]. rewrite (filter_delete_hit kind _ _ _ _ Hi Ek Hs).
        destruct (Hown op r (st s) Ek Eb) as [[-> ->]|[[op' ->] ->]]; simpl; eauto.
      * exfalso. apply list_elem_of_lookup_2 in Hi.
        assert (op ∈ filter (λ op, kind op = true) (pending s)) as Hin by (by apply list_elem_of_filter).
        rewrite Hs in Hin. by apply elem_of_nil in Hin.
    + destruct (Hother op r (st s) Ek) as [-> ->]. rewrite app_nil_r.
      by rewrite (filter_delete_miss kind _ _ op).
Qed.

(** All operations are of the kind. *)
Definition single_flight (busy : St C → bool) (s : Sys) : Prop :=
  if busy (st s) then ∃ op, pending s = [op] else pending s = [].

Lemma one_flight_all busy s : one_flight (λ _, true) busy s → single_flight busy s.
Proof.
  unfold one_flight, single_flight.
  assert (filter (λ _ : Op C, true = true) (pending s) = pending s) as ->; [|done].
  induction (pending s) as [|op l IH]; [done|]. rewrite filter_cons_True by done. by f_equal.
Qed.
End System.
#[global] Arguments st {C} _.
#[global] Arguments pending {C} _.
#[global] Arguments requests {C} _.
#[global] Arguments outputs {C} _.
