(* ===== verification/Stack.v ===== *)
(** * Browser, gateway, web server and backend together

    A component of the site runs in the browser ([Component]); its requests
    go through the gateway to the web server or the backend ([Site]); the web
    server asks the backend and keeps the session in the cookies.  In [Stack]
    the three moves of a request are separate: it is sent by the component,
    it is processed by the server at some later moment, its answer arrives
    (or is lost, processed or not) at a moment later still, in any order.
    Processing is one move: the handler of a request runs without another one
    between its steps. *)
From S2P Require Export Component Site.
Import Site.

Section Stack.
Context (C : Component) {W : Type} `{!Server W} (env : Env) (w0 : W).

(** [answers] goes along [pending]: the answer on its way, if there is one. *)
Record Stack := { client : Sys C; world : W; answers : list (option Response) }.

(** A request on the server side: to the web server, or straight to the
    backend; the gateway answers for an upstream it cannot reach. *)
Definition arrive (q : Request) (w : W) : Response * W :=
  match gateway (url q) with
  | Frontend => serve env q w
  | VpnBackend =>
      match fetch q w with
      | (Ok r, w') => (over_wire r, w')
      | (Throw _, w') => (html 502, w')
      end
  end.

Inductive Move :=
| UserClick (i : nat)
| UserInput (i : nat) (s : jstr)
| Process (i : nat)
| Deliver (i : nat)
| Lose (i : nat) (msg : jstr).

(** A step of the component: an answer that was used is gone, the operations
    that were started have none. *)
Definition kept {A} (l : Label) (xs : list A) : list A :=
  match l with Settle i _ => delete i xs | _ => xs end.

Definition unanswered (rest : list (option Response)) (c : Sys C) : list (option Response) :=
  rest ++ replicate (length (pending c) - length rest) None.

Definition client_move (s : Stack) (l : Label) : option Stack :=
  c ← step C (client s) l;
  Some {| client := c; world := world s; answers := unanswered (kept l (answers s)) c |}.

Definition move (s : Stack) (m : Move) : option Stack :=
  match m with
  | UserClick i => client_move s (Click i)
  | UserInput i txt => client_move s (Input i txt)
  | Process i =>
      op ← pending (client s) !! i;
      match answers s !! i with
      | Some None =>
          let '(r, w) := arrive (request C op) (world s) in
          Some {| client := client s; world := w; answers := <[i := Some r]> (answers s) |}
      | _ => None
      end
  | Deliver i =>
      match answers s !! i with
      | Some (Some r) => client_move s (Settle i (Arrived r))
      | _ => None
      end
  | Lose i msg => client_move s (Settle i (NetworkError msg))
  end.

Definition opened : Stack :=
  {| client := start C; world := w0; answers := unanswered [] (start C) |}.

Definition running (s : Stack) : Prop := reachable move opened s.

(** The state after a sequence of moves that are all possible. *)
Definition possible (ms : list Move) : bool :=
  match run move opened ms with Some _ => true | None => false end.

Definition outcome (ms : list Move) : Stack := default opened (run move opened ms).

Lemma outcome_running ms : possible ms = true → running (outcome ms).
Proof.
  unfold possible, outcome. destruct (run move opened ms) as [s|] eqn:E; [|done].
  intros _. by apply run_reachable in E.
Qed.

(** ** Rule induction *)

Definition aligned (s : Stack) : Prop := length (answers s) = length (pending (client s)).

Lemma length_kept {A B} l (xs : list A) (ys : list B) :
  length xs = length ys → length (kept l xs) = length (kept l ys).
Proof.
  intros E. destruct l as [i|i txt|i r]; [done..|]. simpl.
  by rewrite !delete_take_drop, !length_app, !length_take, !length_drop, E.
Qed.

(** What a step of the component does to its operations and requests. *)
Lemma step_started c l c' :
  step C c l = Some c' →
  ∃ ops, pending c' = kept l (pending c) ++ ops ∧ requests c' = requests c ++ (request C <$> ops).
Proof.
  destruct l as [i|i txt|i r]; simpl; intros (x & _ & [= <-])%bind_Some; by eexists.
Qed.

(** A reply that arrives is the answer on its way. *)
Definition genuine (s : Stack) (l : Label) : Prop :=
  match l with
  | Settle i (Arrived r) => answers s !! i = Some (Some r)
  | _ => True
  end.

(** Every move is a step of the component or the processing of an operation
    that has no answer yet. *)
Lemma stack_invariant (P : Stack → Prop) :
  P opened →
  (∀ s l c ops, running s → P s → aligned s → genuine s l → step C (client s) l = Some c →
     pending c = kept l (pending (client s)) ++ ops →
     requests c = requests (client s) ++ (request C <$> ops) →
     P {| client := c; world := world s;
          answers := kept l (answers s) ++ replicate (length ops) None |}) →
  (∀ s i op, running s → P s → aligned s → pending (client s) !! i = Some op →
     answers s !! i = Some None →
     P {| client := client s; world := (arrive (request C op) (world s)).2;
          answers := <[i := Some (arrive (request C op) (world s)).1]> (answers s) |}) →
  ∀ s, running s → P s.
Proof.
  intros H0 Hstep Hproc. cut (∀ s, running s → running s ∧ aligned s ∧ P s); [naive_solver|].
  apply reachable_invariant.
  { split; [constructor|]. split; [|done]. unfold aligned, opened, unanswered. simpl.
    rewrite length_replicate. lia. }
  intros s m s' (Hr & Ha & HP) Hm. split; [by eapply reachable_step|].
  assert (∀ l, genuine s l → client_move s l = Some s' → aligned s' ∧ P s') as Hcl.
  { intros l Hg (c & Hc & [= <-])%bind_Some. destruct (step_started _ _ _ Hc) as (ops & Ep & Eq).
    assert (unanswered (kept l (answers s)) c
            = kept l (answers s) ++ replicate (length ops) None) as Eu.
    { unfold unanswered. rewrite Ep, length_app, (length_kept l _ _ Ha). do 2 f_equal. lia. }
    split; [|rewrite Eu; by apply Hstep].
    unfold aligned. cbn [client answers].
    by rewrite Eu, Ep, !length_app, length_replicate, (length_kept l _ _ Ha). }
  destruct m as [i|i txt|i|i|i msg]; simpl in Hm;
    [exact (Hcl (Click i) I Hm)|exact (Hcl (Input i txt) I Hm)| | |
     exact (Hcl (Settle i (NetworkError msg)) I Hm)].
  - apply bind_Some in Hm as (op & Hop & Hm).
    destruct (answers s !! i) as [[r|]|] eqn:Ei; [done| |done].
    specialize (Hproc s i op Hr HP Ha Hop Ei).
    destruct (arrive (request C op) (world s)) as [r w] eqn:Er. injection Hm as <-.
    split; [|exact Hproc]. unfold aligned. cbn [client answers]. by rewrite length_insert.
  - destruct (answers s !! i) as [[r|]|] eqn:Ei; [|done..]. exact (Hcl (Settle i (Arrived r)) Ei Hm).
Qed.

(** The component runs as it does on its own: its theorems hold in the
    stack. *)
Lemma running_reached s : running s → reached C (client s).
Proof.
  revert s. apply stack_invariant; [constructor| |done].
  intros s l c ops _ Hs _ _ Hc _ _. by eapply reachable_step.
Qed.

(** What is known of the server's answers is known of the replies the
    component gets. *)
Section Replies.
Context (Rel : Op C → Response → Prop).
Context (arrive_rel : ∀ op w, Rel op (arrive (request C op) w).1).

Definition answer_ok (op : Op C) (a : option Response) : Prop :=
  match a with Some r => Rel op r | None => True end.

Lemma Forall2_fresh ops : Forall2 answer_ok ops (replicate (length ops) None).
Proof. induction ops; simpl; by constructor. Qed.

Lemma running_replies (P : Sys C → Prop) :
  P (start C) →
  (∀ c e, reached C c → P c → offered C e (st c) → P (commit C c (pending c) (on C e (st c)))) →
  (∀ c i op r, reached C c → P c → pending c !! i = Some op →
     (∀ res, r = Arrived res → Rel op res) →
     P (commit C c (delete i (pending c)) (resume C op r (st c)))) →
  ∀ s, running s → P (client s).
Proof.
  intros H0 Hon Hres. cut (∀ s, running s → Forall2 answer_ok (pending (client s)) (answers s) ∧ P (client s)).
  { naive_solver. }
  apply stack_invariant.
  - split; [|done]. cbn [opened client answers]. unfold unanswered. cbn [length app].
    rewrite Nat.sub_0_r. apply Forall2_fresh.
  - intros s l c ops Hr [Ha HP] _ Hg Hc Ep _. apply running_reached in Hr. cbn [client answers]. split.
    + rewrite Ep. apply Forall2_app; [|apply Forall2_fresh].
      destruct l as [i|i txt|i r]; [done..|]. by apply Forall2_delete.
    + destruct l as [i|i txt|i r]; simpl in Hc; apply bind_Some in Hc as (x & Hx & [= <-]).
      * apply Hon; [done..|]. left. by eapply list_elem_of_lookup_2.
      * apply Hon; [done..|]. right. exists x, txt. split; [by eapply list_elem_of_lookup_2|done].
      * apply Hres; [done..|]. intros res ->. simpl in Hg.
        by apply (Forall2_lookup_lr _ _ _ _ _ _ Ha Hx Hg).
  - intros s i op _ [Ha HP] _ Hop Hi. split; [|done]. cbn [client answers].
    rewrite <-(list_insert_id _ _ _ Hop) at 1. apply Forall2_insert; [done|]. apply arrive_rel.
Qed.
End Replies.

(** ** The backend hears only what the page asks *)

Context `{!ServerLaws W}.

(** A request at the backend that a request of the page accounts for. *)
Definition caused (q b : Request) : Prop :=
  match gateway (url q) with
  | Frontend => ∃ e, resolve (segments (url q)) = Some e ∧ accounted env e q b
  | VpnBackend => b = q
  end.

Lemma arrive_sends q w :
  ∃ rs, sent (arrive q w).2 = sent w ++ rs ∧ Forall (caused q) rs.
Proof.
  unfold arrive, caused. destruct (gateway (url q)); [|apply serve_sends].
  exists [q]. pose proof (fetch_sent q w) as E.
  split; [|by apply Forall_singleton]. by destruct (fetch q w) as [[r|e] w'].
Qed.

Lemma running_sends s :
  running s →
  ∃ rs, sent (world s) = sent w0 ++ rs ∧
    Forall (λ b, ∃ q, q ∈ requests (client s) ∧ caused q b) rs.
Proof.
  revert s. apply stack_invariant.
  - exists []. by rewrite app_nil_r.
  - intros s l c ops _ (rs & E & Hrs) _ _ _ _ Er. exists rs. split; [done|].
    eapply Forall_impl; [exact Hrs|]. intros b (q & Hq & Hb). exists q. split; [|done].
    cbn [client]. rewrite Er. apply elem_of_app. by left.
  - intros s i op Hr (rs & E & Hrs) _ Hi _.
    destruct (arrive_sends (request C op) (world s)) as (rs' & E' & Hrs').
    exists (rs ++ rs'). cbn [world client]. rewrite E', E, app_assoc. split; [done|].
    apply Forall_app. split; [done|]. eapply Forall_impl; [exact Hrs'|].
    intros b Hb. exists (request C op). split; [|done].
    apply (pending_requested C); [by apply running_reached|by eapply list_elem_of_lookup_2].
Qed.

(** ** The session in a running page *)

Context `{!Writable W, !TokenBackend W env}.

Lemma arrive_keeps q w : whole w → whole (arrive q w).2.
Proof.
  intros Hw. unfold arrive. destruct (gateway (url q)); [|by apply serve_keeps].
  destruct Hw as [s Hs]. exists s. destruct (fetch q w) as [[r|e] w'] eqn:E;
    by eapply holds_fetch.
Qed.

Lemma running_whole s : running s → whole w0 → whole (world s).
Proof.
  intros Hr Hw. revert s Hr. apply stack_invariant; [done|done|].
  intros s i op _ Hs _ _ _. by apply arrive_keeps.
Qed.
End Stack.

(** ** Payments are created at most once

    A payment request to the backend counts unless the backend refuses it
    with 401: without an answer it may have been carried out. *)

Section Payments.
Context (backend : Backend) (env : Env).

#[local] Instance payments_server : Server ServerWorld := route_server backend.
#[local] Instance payments_laws : ServerLaws ServerWorld := route_laws backend.

Definition create_url : jstr := backendBaseURL env ++ §"/api/v1/payments/create".

(** The request [r] after the requests [pre]. *)
Definition charge (pre : list Request) (r : Request) : nat :=
  if str_eqb (url r) create_url then
    match backend pre r with
    | Ok a => if status a =? 401 then 0 else 1
    | Throw _ => 1
    end
  else 0.

Fixpoint charges (pre l : list Request) : nat :=
  match l with
  | [] => 0
  | r :: l => charge pre r + charges (pre ++ [r]) l
  end.

Lemma charges_app pre a b : charges pre (a ++ b) = (charges pre a + charges (pre ++ a) b)%nat.
Proof.
  revert pre. induction a as [|r a IH]; intros pre; simpl; [by rewrite app_nil_r|].
  rewrite IH, <-app_assoc. simpl. lia.
Qed.

Lemma charge_le pre r : (charge pre r ≤ 1)%nat.
Proof. unfold charge. repeat case_match; lia. Qed.

Lemma charges_other pre l : Forall (λ r, url r ≠ create_url) l → charges pre l = 0%nat.
Proof.
  intros Hl. revert pre. induction Hl as [|r l Hr _ IH]; intros pre; [done|]. simpl. rewrite IH.
  unfold charge, str_eqb. by rewrite bool_decide_eq_false_2.
Qed.

(** At most [n] payments between two worlds. *)
Definition charged (n : nat) (w w' : ServerWorld) : Prop :=
  ∃ rs, log w' = log w ++ rs ∧ (charges (log w) rs ≤ n)%nat.

Lemma charged_trans n m w1 w2 w3 : charged n w1 w2 → charged m w2 w3 → charged (n + m) w1 w3.
Proof.
  intros (r1 & E1 & H1) (r2 & E2 & H2). exists (r1 ++ r2). rewrite charges_app, <-E1, E2, E1.
  split; [by rewrite app_assoc|]. rewrite <-E1. lia.
Qed.

Lemma charged_same n w w' : log w' = log w → charged n w w'.
Proof. intros E. exists []. rewrite app_nil_r. split; [done|simpl; lia]. Qed.

Lemma charged_other w w' : only_sends (λ r, url r ≠ create_url) w w' → charged 0 w w'.
Proof. intros (rs & E & Hrs). exists rs. split; [exact E|]. by rewrite charges_other. Qed.

Lemma charged_fetch r w : charged 1 w (fetch r w).2.
Proof.
  exists [r]. split; [done|]. simpl. pose proof (charge_le (log w) r). lia.
Qed.

(** The last unit of an address tells the payments apart. *)
Lemma url_tail a b (p q : jstr) : last p ≠ last q → p ≠ [] → q ≠ [] → a ++ p ≠ b ++ q.
Proof.
  intros Hl Hp Hq E. apply (f_equal last) in E. rewrite !last_app in E.
  destruct (last p) eqn:Ep; [|by apply last_None in Ep]. destruct (last q) eqn:Eq; [|by apply last_None in Eq].
  congruence.
Qed.

Lemma backend_url_ne path init :
  path ≠ §"/api/v1/payments/create" → url (backend_request env path init) ≠ create_url.
Proof. intros Hp E. apply Hp. by apply (inj (app (backendBaseURL env))) in E. Qed.

Lemma refresh_url_ne rt : url (refresh_request env rt) ≠ create_url.
Proof. apply backend_url_ne. js_neq. Qed.

Lemma refresh_charged w : charged 0 w (refreshAccessToken env w).2.
Proof.
  apply charged_other. refine (refresh_only env (λ r, url r ≠ create_url) _ w).
  apply refresh_url_ne.
Qed.

(** A call in the user's name counts once: it is repeated only after 401. *)
Lemma authorized_charged path mk w :
  charged 1 w (authorizedFetch env (λ t, backendFetch env path (mk t)) w).2.
Proof.
  assert (∀ d w, charged 1 w ((refreshed ← refreshAccessToken env;
    if negb (truthy refreshed) then mret d else backendFetch env path (mk refreshed)) w).2) as Hre.
  { clear w. intros d w. rewrite bind_run. pose proof (refresh_charged w) as Hr.
    destruct (refreshAccessToken env w) as [[t|e] w1]; cbn [snd] in Hr.
    - apply (charged_trans 0 1 w w1); [done|].
      destruct (truthy t); [apply charged_fetch|by apply charged_same].
    - apply (charged_trans 0 1 w w1); [done|by apply charged_same]. }
  unfold authorizedFetch, currentAccessToken, gets. rewrite bind_run.
  destruct (truthy (cookie_get accessCookieName w)); cbn [negb]; [|apply Hre].
  rewrite bind_run. set (r := backend_request env path (mk (cookie_get accessCookieName w))).
  change (backendFetch env path (mk (cookie_get accessCookieName w)) w)
    with (backend (log w) r, {| log := log w ++ [r]; jar := jar w |}).
  destruct (backend (log w) r) as [a|e] eqn:Eb; [|apply (charged_fetch r w)].
  destruct (status a =? 401) eqn:E4; cbn [negb]; [|apply (charged_fetch r w)].
  apply (charged_trans 0 1 w {| log := log w ++ [r]; jar := jar w |}); [|apply Hre].
  exists [r]. split; [done|]. simpl. unfold charge. rewrite Eb, E4. by case_match.
Qed.
(** No other endpoint sends a payment: the paths differ at the name of the
    resource, or at its verb. *)
Definition other_path (path : jstr) : bool :=
  bool_decide (path !! 8%nat ≠ Some 112) || bool_decide (path !! 17%nat ≠ Some 99).

Lemma other_path_ne path : other_path path = true → path ≠ §"/api/v1/payments/create".
Proof. intros H ->. vm_compute in H. discriminate. Qed.

Lemma other_path_app a b :
  (8 <? length a)%nat && bool_decide (a !! 8%nat ≠ Some 112) = true → other_path (a ++ b) = true.
Proof.
  intros [Hl%Nat.ltb_lt Hn]%andb_true_iff. unfold other_path. apply orb_true_iff. left.
  by rewrite lookup_app_l.
Qed.

(** The paths of the entries of the table. *)
Lemma plain_path p path init o :
  (path, init) ∈ from_option (λ v, [plain_post p v]) [] o → path = p.
Proof. destruct o as [v|]; [by intros [= -> _]%list_elem_of_singleton|by intros ?%elem_of_nil]. Qed.

Lemma authorized_path p verb hs b path init :
  (path, init) = authorized p verb hs b → path = p.
Proof. by intros [= -> _]. Qed.

Lemma with_body_intent p verb hs path init o :
  (path, init) ∈ from_option (λ v, [authorized p verb hs (Some v)]) [] o →
  ∃ v, o = Some v ∧ path = p ∧
       init = λ token, {| init_method := Some verb; init_headers := hs token;
                          init_body := Some (stringify v) |}.
Proof.
  destruct o as [v|]; [intros [= -> ->]%list_elem_of_singleton|by intros ?%elem_of_nil].
  by exists v.
Qed.

Lemma with_body_path p verb hs path init o :
  (path, init) ∈ from_option (λ v, [authorized p verb hs (Some v)]) [] o → path = p.
Proof. by intros (v & _ & -> & _)%with_body_intent. Qed.

Lemma pair_path (p path : jstr) (init init' : jval → RequestInit) :
  (path, init) = (p, init') → path = p.
Proof. by intros [= -> _]. Qed.

Lemma intents_path e q path init :
  e ≠ PaymentsCreate → (path, init) ∈ intents e q → other_path path = true.
Proof.
  intros He Hin. destruct e; try done; cbn [intents] in Hin.
  all: try destruct (encodeURIComponent code).
  all: rewrite ?elem_of_cons, ?elem_of_nil in Hin.
  all: repeat match type of Hin with _ ∨ _ => destruct Hin as [Hin|Hin] end.
  all: first [contradiction | apply plain_path in Hin | apply authorized_path in Hin
             |apply with_body_path in Hin | apply pair_path in Hin]; subst path.
  all: lazymatch goal with
       | |- other_path (_ ++ _) = true => apply other_path_app
       | |- _ => idtac
       end; vm_compute; reflexivity.
Qed.

Lemma accounted_other e q b : e ≠ PaymentsCreate → accounted env e q b → url b ≠ create_url.
Proof.
  intros He [[rt ->]|[(path & init & t & Hi & ->)|[-> [base ->]]]].
  - apply refresh_url_ne.
  - by apply backend_url_ne, other_path_ne, (intents_path e q path init).
  - apply url_tail; [vm_compute; discriminate|done|done].
Qed.
(** A request of the browser that can create a payment. *)
Definition pays (q : Request) : bool :=
  bool_decide (resolve (segments (url q)) = Some PaymentsCreate) || str_eqb (url q) create_url.

Definition most (q : Request) : nat := if pays q then 1 else 0.

Lemma serve_charged q w : charged (most q) w (serve env q w).2.
Proof.
  unfold most, pays. case_bool_decide as He; cbn [orb].
  - unfold serve, handler_of. rewrite He. cbn [mbind option_bind exports]. rewrite find_first_cons.
    cbn [fst]. destruct (str_eqb §"POST" (method q)); [|by apply charged_same].
    cbn [fmap option_fmap option_map snd]. unfold payments_create_POST. rewrite bind_run. unfold of_res.
    destruct (in_json (incoming q)) as [v|e]; [|by apply charged_same].
    unfold relay_authorized. rewrite bind_run.
    match goal with |- context [authorizedFetch env (λ t, backendFetch env ?p (@?mk t)) w] =>
      pose proof (authorized_charged p mk w) as Hc end. cbv beta in Hc.
    destruct (authorizedFetch env _ w) as [[r|e] w1]; [|exact Hc].
    pose proof (relay_only (W:=ServerWorld) (λ r, url r ≠ create_url) r w1) as Hr. cbn [snd] in Hc.
    apply charged_other, (charged_trans 1 0 w w1) in Hr; [|exact Hc].
    by destruct (relay r w1) as [[r'|e] w2].
  - destruct (serve_sends env q w) as (rs & E & Hrs). exists rs. split; [exact E|].
    rewrite charges_other; [lia|]. eapply Forall_impl; [exact Hrs|].
    intros b (e & Ee & Hb). apply (accounted_other e q b); [congruence|done].
Qed.

Lemma arrive_charged q w : charged (most q) w (arrive env q w).2.
Proof.
  unfold arrive. destruct (gateway (url q)); [|apply serve_charged].
  assert (charged (most q) w (fetch q w).2) as Hf.
  { exists [q]. split; [done|]. simpl. unfold most, pays.
    destruct (str_eqb (url q) create_url) eqn:E.
    - rewrite orb_true_r. pose proof (charge_le (log w) q). lia.
    - unfold charge. rewrite E. lia. }
  by destruct (fetch q w) as [[r|e] w'].
Qed.

(** *** Counting along a run *)

Context (C : Component) (w0 : ServerWorld).

Fixpoint waiting (ops : list (Op C)) (answers : list (option Response)) : nat :=
  match ops, answers with
  | op :: ops, a :: answers =>
      (match a with None => most (request C op) | Some _ => 0 end + waiting ops answers)%nat
  | _, _ => 0
  end.

Definition orders (qs : list Request) : nat := sum_list_with most qs.

Lemma waiting_app a b xs ys :
  length a = length xs → waiting (a ++ b) (xs ++ ys) = (waiting a xs + waiting b ys)%nat.
Proof.
  revert xs. induction a as [|op a IH]; intros [|x xs] E; simplify_eq/=; [done|].
  rewrite IH by done. lia.
Qed.

Lemma waiting_fresh ops : waiting ops (replicate (length ops) None) = orders (request C <$> ops).
Proof. induction ops as [|op ops IH]; [done|]. simpl. by rewrite IH. Qed.

Lemma waiting_kept l ops xs : (waiting (kept l ops) (kept l xs) ≤ waiting ops xs)%nat.
Proof.
  destruct l as [i|i txt|i r]; [done..|]. simpl. revert i xs.
  induction ops as [|op ops IH]; intros i xs; [by destruct i; simpl; lia|].
  destruct xs as [|x xs]; [by destruct i, ops; simpl; lia|].
  destruct i as [|i]; simpl; [lia|]. specialize (IH i xs). lia.
Qed.

Lemma waiting_insert ops xs i op r :
  ops !! i = Some op → xs !! i = Some None →
  (waiting ops (<[i := Some r]> xs) + most (request C op) = waiting ops xs)%nat.
Proof.
  revert ops xs. induction i as [|i IH]; intros [|o ops] [|x xs] Ho Hx; simplify_eq/=; [lia|].
  specialize (IH ops xs Ho Hx). lia.
Qed.

Lemma orders_app a b : orders (a ++ b) = (orders a + orders b)%nat.
Proof. apply sum_list_with_app. Qed.

(** What was charged and what may still be is at most what was ordered. *)
Lemma running_charges s :
  running C env w0 s →
  (charges [] (log (world C s)) + waiting (pending (client C s)) (answers C s)
   ≤ charges [] (log w0) + orders (requests (client C s)))%nat.
Proof.
  revert s. apply stack_invariant.
  - cbn [opened client world answers start pending requests]. unfold unanswered. cbn [length start pending].
    rewrite Nat.sub_0_r. cbn [app]. rewrite waiting_fresh. lia.
  - intros s l c ops _ IH Ha _ _ Ep Er. cbn [client world answers]. rewrite Ep, Er, orders_app.
    rewrite waiting_app by (symmetry; by apply length_kept). rewrite waiting_fresh.
    pose proof (waiting_kept l (pending (client C s)) (answers C s)). lia.
  - intros s i op _ IH _ Hop Hi. cbn [client world answers].
    pose proof (waiting_insert _ _ i op (arrive env (request C op) (world C s)).1 Hop Hi).
    destruct (arrive_charged (request C op) (world C s)) as (rs & E & Hrs).
    rewrite E, charges_app. cbn [app]. lia.
Qed.
End Payments.
