(* ===== verification/AuthForm.v ===== *)
(** * The sign-in form: [web/components/AuthForm.tsx]

    Three modes (sign in, register with an emailed code, reset a password)
    over one form.  The component is an instance of [Component]; [initialPlan]
    is the [plan] parameter of the page's address. *)
From S2P Require Export Component.

(** [web/components/Brand.tsx] *)
Definition Brand {E} (href : jstr) : node E :=
  El §"a" [Prop_ §"href" href; Prop_ §"aria-label" §"FBLink VPN"]
    [El §"span" [] [Txt §"FBLink "; El §"span" [] [Txt §"VPN"]]].

(** The panel of [web/components/ui/travel-connect-signin.tsx] around its
    children, without the animated map. *)
Definition TravelConnectSignIn {E} (children : list (node E)) : node E :=
  El §"section" []
    (El §"aside" [Prop_ §"aria-label" §"FBLink VPN"]
       [El §"h2" [] [Txt §"FBLink VPN"];
        El §"p" [] [Txt §"Один кабинет для оплаты, продления и скачивания приложений."];
        El §"span" [] [Txt §"Приложения рядом"];
        El §"span" [] [Txt §"HttpOnly cookies"];
        El §"span" [] [Txt §"Email-код"]]
     :: children).

Module AuthForm.

Inductive Mode := login | register | reset.

#[export] Instance Mode_eq_dec : EqDecision Mode.
Proof. solve_decision. Defined.

Record CopyText := { title : jstr; subtitle : jstr; cta : jstr }.

Definition COPY (m : Mode) : CopyText :=
  match m with
  | login =>
      {| title := §"С возвращением";
         subtitle := §"Войдите, чтобы продлить подписку или скачать приложение.";
         cta := §"Войти" |}
  | register =>
      {| title := §"Создание аккаунта";
         subtitle := §"Email станет вашим логином на всех устройствах. Пароль от 8 символов.";
         cta := §"Создать аккаунт" |}
  | reset =>
      {| title := §"Восстановление пароля";
         subtitle := §"Введите email — пришлем код для сброса пароля.";
         cta := §"Отправить код" |}
  end.

Record State := {
  mode : Mode;
  email : jstr;
  password : jstr;
  code : jstr;
  message : jstr;
  error : jstr;
  isCodeSent : bool;
  isPasswordVisible : bool;
  loading : bool;
}.

Definition initial : State :=
  {| mode := login; email := []; password := []; code := []; message := []; error := [];
     isCodeSent := false; isPasswordVisible := false; loading := false |}.

#[export] Instance State_eta : Eta State := λ s,
  {| mode := mode s; email := email s; password := password s; code := code s;
     message := message s; error := error s; isCodeSent := isCodeSent s;
     isPasswordVisible := isPasswordVisible s; loading := loading s |}.

(** ** Requests *)

(** The five branches of [onSubmit], with the values the closure captured. *)
Inductive Submission :=
| Login (email password : jstr)
| Register (email password : jstr)
| Verify (email code : jstr)
| Forgot (email : jstr)
| Reset (email code password : jstr).

Definition post (path : jstr) (body : jval) : Request :=
  {| method := §"POST"; url := path;
     headers := [(§"Content-Type", §"application/json")]; body := Some (stringify body) |}.

Definition submission_request (op : Submission) : Request :=
  match op with
  | Login e p => post §"/api/auth/login" (JObj [(§"email", JStr e); (§"password", JStr p)])
  | Register e p => post §"/api/auth/register" (JObj [(§"email", JStr e); (§"password", JStr p)])
  | Verify e c => post §"/api/auth/verify" (JObj [(§"email", JStr e); (§"code", JStr c)])
  | Forgot e => post §"/api/auth/forgot" (JObj [(§"email", JStr e)])
  | Reset e c p => post §"/api/auth/reset"
      (JObj [(§"email", JStr e); (§"code", JStr c); (§"new_password", JStr p)])
  end.

(** [postJSON], from the reply on; the thrown [Error]'s message on failure. *)
Definition postJSON (reply : Reply) : res jval :=
  match reply with
  | NetworkError msg => Throw (ErrorExn msg)
  | Arrived response =>
      let data := match resp_body response with JsonBody v => v | RawBody _ => JObj [] end in
      if ok response then Ok data
      else if nullish data then Throw (ErrorExn §"Cannot read properties of null")
      else Throw (ErrorExn (to_text (coalesce (get data §"error")
             (coalesce (get data §"message") (JStr §"Не удалось выполнить запрос")))))
  end.

(** ** Handlers *)

Definition submission (s : State) : Submission :=
  match mode s, isCodeSent s with
  | login, _ => Login (email s) (password s)
  | register, false => Register (email s) (password s)
  | register, true => Verify (email s) (code s)
  | reset, false => Forgot (email s)
  | reset, true => Reset (email s) (code s) (password s)
  end.

Definition onSubmit (s : State) : Outcome State Submission :=
  Build_Outcome (s <| error := [] |> <| message := [] |> <| loading := true |>) [submission s] [].

Definition dashboard_href (initialPlan : jstr) : jstr :=
  if str_truthy initialPlan then §"/dashboard?plan=" ++ initialPlan else §"/dashboard".

(** The rest of [onSubmit] after the [await]. *)
Definition afterSubmit (initialPlan : jstr) (op : Submission) (reply : Reply) (s : State)
    : Outcome State Submission :=
  match postJSON reply with
  | Throw e => settled (s <| error := error_message e §"Ошибка запроса" |> <| loading := false |>)
  | Ok _ =>
      match op with
      | Login _ _ | Verify _ _ =>
          Build_Outcome (s <| loading := false |>) [] [Push (dashboard_href initialPlan)]
      | Register _ _ =>
          settled (s <| isCodeSent := true |>
                     <| message := §"Код подтверждения отправлен на email." |>
                     <| loading := false |>)
      | Forgot _ =>
          settled (s <| isCodeSent := true |>
                     <| message := §"Если email зарегистрирован, код уже отправлен." |>
                     <| loading := false |>)
      | Reset _ _ _ =>
          settled (s <| mode := login |> <| isCodeSent := false |>
                     <| message := §"Пароль обновлен. Войдите с новым паролем." |>
                     <| loading := false |>)
      end
  end.

Definition switchMode (nextMode : Mode) (s : State) : State :=
  s <| mode := nextMode |> <| isCodeSent := false |> <| message := [] |> <| error := [] |>
    <| code := [] |>.

Inductive Event :=
| Submit
| SwitchMode (nextMode : Mode)
| TogglePassword
| TypeEmail (v : jstr)
| TypePassword (v : jstr)
| TypeCode (v : jstr).

Definition handle (e : Event) (s : State) : Outcome State Submission :=
  match e with
  | Submit => onSubmit s
  | SwitchMode m => settled (switchMode m s)
  | TogglePassword => settled (s <| isPasswordVisible := negb (isPasswordVisible s) |>)
  | TypeEmail v => settled (s <| email := v |>)
  | TypePassword v => settled (s <| password := v |>)
  | TypeCode v => settled (s <| code := v |>)
  end.

(** ** The rendered form *)

Definition showPassword (s : State) : bool :=
  bool_decide (mode s = login) || (bool_decide (mode s = register) && negb (isCodeSent s))
  || (bool_decide (mode s = reset) && isCodeSent s).

Definition showCode (s : State) : bool := isCodeSent s && negb (bool_decide (mode s = login)).

Definition buttonLabel (s : State) : jstr :=
  if loading s then §"Подождите..." else if showCode s then §"Подтвердить" else cta (COPY (mode s)).

Definition link_button (m : Mode) (label : jstr) : node Event :=
  El §"button" [On §"click" (SwitchMode m); Prop_ §"type" §"button"] [Txt label].

Definition password_field (s : State) : node Event :=
  El §"div" []
    ([El §"label" [Prop_ §"htmlFor" §"auth-password"]
        [Txt (if bool_decide (mode s = reset) then §"Новый пароль" else §"Пароль")];
      El §"input" [Prop_ §"id" §"auth-password";
                   Prop_ §"type" (if isPasswordVisible s then §"text" else §"password");
                   Prop_ §"value" (password s); OnText TypePassword;
                   Prop_ §"placeholder" §"от 8 символов";
                   Prop_ §"autoComplete"
                     (if bool_decide (mode s = login) then §"current-password" else §"new-password");
                   Prop_ §"minLength" §"8"; Flag §"required" true] [];
      El §"button" [Prop_ §"aria-label"
                      (if isPasswordVisible s then §"Скрыть пароль" else §"Показать пароль");
                    On §"click" TogglePassword; Prop_ §"type" §"button"] []]
     ++ show (bool_decide (mode s = login)) [El §"div" [] [link_button reset §"Забыли пароль?"]]).

Definition code_field (s : State) : node Event :=
  El §"label" []
    [El §"span" [] [Txt §"Код из email"];
     El §"input" [Prop_ §"value" (code s); OnText TypeCode; Prop_ §"inputMode" §"numeric";
                  Prop_ §"pattern" §"[0-9]*"; Prop_ §"placeholder" §"6-значный код";
                  Prop_ §"autoComplete" §"one-time-code"; Flag §"required" true] []].

Definition form (s : State) : node Event :=
  El §"form" [On §"submit" Submit]
    ([El §"label" []
        [El §"span" [] [Txt §"Email"];
         El §"input" [Prop_ §"type" §"email"; Prop_ §"value" (email s); OnText TypeEmail;
                      Prop_ §"placeholder" §"you@example.com"; Prop_ §"autoComplete" §"email";
                      Flag §"required" true] []]]
     ++ show (showPassword s) [password_field s]
     ++ show (showCode s) [code_field s]
     ++ show (str_truthy (message s)) [El §"div" [] [Txt (message s)]]
     ++ show (str_truthy (error s)) [El §"div" [] [Txt (error s)]]
     ++ [El §"button" [Flag §"disabled" (loading s); Prop_ §"type" §"submit"]
           [Txt (buttonLabel s)]]).

Definition switch_links (s : State) : node Event :=
  El §"div" []
    (show (bool_decide (mode s = login))
       [El §"p" [] [Txt §"Нет аккаунта? "; link_button register §"Создать"]]
     ++ show (bool_decide (mode s = register))
       [El §"p" [] [Txt §"Уже есть аккаунт? "; link_button login §"Войти"]]
     ++ show (bool_decide (mode s = reset))
       [El §"p" [] [link_button login §"Назад ко входу"]]).

Definition render (s : State) : list (node Event) :=
  [El §"main" []
    [TravelConnectSignIn
      [El §"div" []
        [Brand §"/";
         El §"span" [] [Txt §"Шифрование AmneziaWG · Без логов"];
         El §"h1" [] [Txt (title (COPY (mode s)))];
         El §"p" [] [Txt (subtitle (COPY (mode s)))];
         form s;
         switch_links s;
         El §"p" [] [Txt §"Продолжая, вы соглашаетесь с условиями подписки."]]]]].

Definition component (initialPlan : jstr) : Component := {|
  St := State; Ev := Event; Op := Submission;
  mount := settled initial;
  view := render;
  on := handle;
  request := submission_request;
  resume := afterSubmit initialPlan;
|}.

(** ** Properties *)

Section Properties.
Context (initialPlan : jstr).

(** The submit button is disabled while a request is in flight, so the form
    cannot be submitted then. *)
Lemma submit_offered s : offered (component initialPlan) Submit s → loading s = false.
Proof.
  destruct s as [m em pw cd msg err sent vis ld]. cbn [loading].
  destruct ld; [|done]. intros Ho. exfalso. revert Ho.
  cut (∀ e, offered (component initialPlan) e (Build_State m em pw cd msg err sent vis true) →
            e ≠ Submit); [by intros H Ho; apply (H Submit)|].
  intros e. apply (offered_forall (component initialPlan) (λ e, e ≠ Submit));
    destruct m, sent, vis, msg, err; vm_compute; repeat constructor; discriminate.
Qed.

Lemma handle_started e s :
  started (handle e s) = [] ∧ loading (new (handle e s)) = loading s ∨
  e = Submit ∧ started (handle e s) = [submission s] ∧ loading (new (handle e s)) = true.
Proof. destruct e; simpl; auto. Qed.

Lemma afterSubmit_done op r s :
  started (afterSubmit initialPlan op r s) = [] ∧
  loading (new (afterSubmit initialPlan op r s)) = false.
Proof. unfold afterSubmit. destruct (postJSON r), op; done. Qed.

(** however the user clicks and however replies arrive, the form has at
    most one request in flight, exactly while the button says to wait; so a
    registration or a reset is never submitted twice at once. *)
Theorem authform_single_flight s :
  reached (component initialPlan) s → single_flight (component initialPlan) loading s.
Proof.
  intros Hr. apply one_flight_all. revert s Hr.
  apply (one_flight_invariant (component initialPlan) (λ _, true) loading (λ _, True)); simpl.
  - done.
  - done.
  - intros e s0 _ Ho Hb. destruct (handle_started e s0) as [[H1 H2]|[-> _]].
    + by rewrite H1, H2.
    + apply submit_offered in Ho. congruence.
  - intros e s0 _ _ Hb. destruct (handle_started e s0) as [[H1 H2]|(-> & H1 & H2)]; [left|right].
    + by rewrite H1, H2.
    + rewrite H1. eauto.
  - intros op r s0 _ _. destruct (afterSubmit_done op r s0) as [-> ->]. by left.
  - done.
Qed.

(** The submissions whose success signs the user in, and replies with a
    success status. *)
Definition signs_in (op : Submission) : bool :=
  match op with Login _ _ | Verify _ _ => true | _ => false end.

Definition accepted (r : Reply) : bool :=
  match r with Arrived response => ok response | NetworkError _ => false end.

(** the form leaves for the dashboard exactly on a success answer to a
    sign-in or to a verification code; any other answer to a submission ends
    in the form, with an error when the submission failed. *)
Theorem authform_enters op r s :
  outs (afterSubmit initialPlan op r s) =
    (if signs_in op && accepted r then [Push (dashboard_href initialPlan)] else []) ∧
  (accepted r = true → error (new (afterSubmit initialPlan op r s)) = error s) ∧
  (accepted r = false →
     ∃ msg, postJSON r = Throw (ErrorExn msg) ∧
            new (afterSubmit initialPlan op r s) = s <| error := msg |> <| loading := false |>).
Proof.
  unfold afterSubmit, postJSON, accepted. destruct r as [resp|msg]; [destruct (ok resp)|].
  - by destruct op.
  - rewrite andb_false_r. destruct (nullish _); split_and!; try done; intros _; eexists; split; reflexivity.
  - rewrite andb_false_r. split_and!; try done. intros _; eexists; split; reflexivity.
Qed.
End Properties.

Lemma authform_single_flight_witness :
  single_flight (component []) loading (final (component []) [Click 3; Click 0]).
Proof. apply authform_single_flight, final_reached. vm_compute. reflexivity. Defined.

(** Registering, then going back to sign in and to the password reset before
    the reply to the registration arrives. *)
Definition stale_run : list Label :=
  [Click 3; Click 0; Click 1; Click 1; Settle 0 (Arrived (json_response (JObj []) 200))].

(** a reply that arrives after the mode was switched is applied to the
    new mode: registering, going back and asking to reset the password while
    the registration is in flight leaves the form asking for the reset code
    although no code was requested. *)
Theorem authform_stale_reply :
  ∃ s, reached (component []) s ∧ mode (st s) = reset ∧ isCodeSent (st s) = true ∧
       message (st s) = §"Код подтверждения отправлен на email." ∧
       Forall (λ r, url r ≠ §"/api/auth/forgot") (requests s).
Proof.
  exists (final (component []) stale_run). split; [apply final_reached; vm_compute; reflexivity|].
  split_and!; [vm_compute; reflexivity..|]. vm_compute. repeat constructor; discriminate.
Qed.
End AuthForm.
