(* ===== verification/DotMap.v ===== *)
(** * The animated map of the sign-in page: [DotMap] of
    [web/components/ui/travel-connect-signin.tsx]

    A canvas with dots on a grid and four routes that are drawn over and over.
    The component watches the size of its parent; each new size starts a new
    loop of frames.  Coordinates and times are rational numbers, without the
    rounding of floating point; the sine is an argument.  The canvas and its
    parent exist and the canvas has a drawing context. *)
From Stdlib Require Import QArith Qround Lqa.
From S2P Require Export Prelude.
Open Scope Z_scope.

Module DotMap.

(** ** Geometry *)

Record RoutePoint := { rx : Q; ry : Q; delay : Q }.
Record Route := { start : RoutePoint; finish : RoutePoint }.

Definition routes : list Route :=
  [{| start := {| rx := 16 # 100; ry := 34 # 100; delay := 0 |};
      finish := {| rx := 38 # 100; ry := 2 # 10; delay := 12 # 10 |} |};
   {| start := {| rx := 38 # 100; ry := 2 # 10; delay := 12 # 10 |};
      finish := {| rx := 58 # 100; ry := 36 # 100; delay := 24 # 10 |} |};
   {| start := {| rx := 18 # 100; ry := 72 # 100; delay := 7 # 10 |};
      finish := {| rx := 48 # 100; ry := 54 # 100; delay := 2 |} |};
   {| start := {| rx := 7 # 10; ry := 24 # 100; delay := 4 # 10 |};
      finish := {| rx := 52 # 100; ry := 7 # 10; delay := 28 # 10 |} |}].

Record Dimensions := { width : Z; height : Z }.
Record Dot := { x : Z; y : Z; opacity : Q }.

Definition gap : Z := 12.

(** The values of a loop counter that starts at [i] and grows by [gap]; the
    limit is fuel enough, see [grid_spec]. *)
Fixpoint counter (fuel : nat) (i limit : Z) : list Z :=
  match fuel with
  | O => []
  | S fuel => if i <? limit then i :: counter fuel (i + gap) limit else []
  end.
Definition grid (limit : Z) : list Z := counter (Z.to_nat limit) 0 limit.

Definition within (lo v hi : Q) : bool := negb (Qle_bool v lo) && negb (Qle_bool hi v).

Definition isInMapShape (nx ny : Q) : bool :=
  (within (6 # 100) nx (28 # 100) && within (12 # 100) ny (44 # 100)) ||
  (within (16 # 100) nx (28 # 100) && within (42 # 100) ny (82 # 100)) ||
  (within (32 # 100) nx (48 # 100) && within (16 # 100) ny (38 # 100)) ||
  (within (38 # 100) nx (54 # 100) && within (36 # 100) ny (68 # 100)) ||
  (within (48 # 100) nx (82 # 100) && within (12 # 100) ny (52 # 100)) ||
  (within (68 # 100) nx (86 # 100) && within (62 # 100) ny (82 # 100)).

(** ** Drawing *)

Inductive Fill := Gold (opacity : Q) | Solid | Bright.

(** What a frame paints, by its calls of [fill] and [stroke]. *)
Inductive Paint :=
| Clear (w h : Z)
| Disc (cx cy : Q) (radius : Z) (fill : Fill)
| Line (x1 y1 x2 y2 : Q).

Section Sine.
Context (sin : Q → Q).

Definition hash2d (x y : Z) : Q :=
  let value := (sin (inject_Z x * (129898 # 10000) + inject_Z y * (78233 # 1000))
                * (437585453 # 10000))%Q in
  (value - inject_Z (Qfloor value))%Q.

Definition dot_at (d : Dimensions) (x y : Z) : list Dot :=
  let nx := (inject_Z x / inject_Z (width d))%Q in
  let ny := (inject_Z y / inject_Z (height d))%Q in
  if isInMapShape nx ny && negb (Qle_bool (hash2d x y) (26 # 100))
  then [{| x := x; y := y; opacity := (12 # 100) + hash2d y x * (34 # 100) |}] else [].

Definition dots (d : Dimensions) : list Dot :=
  if (width d =? 0) || (height d =? 0) then []
  else x ← grid (width d); y ← grid (height d); dot_at d x y.

Definition point (d : Dimensions) (p : RoutePoint) : Q * Q :=
  (rx p * inject_Z (width d), ry p * inject_Z (height d))%Q.

Definition draw_route (d : Dimensions) (currentTime : Q) (route : Route) : list Paint :=
  let elapsed := (currentTime - delay (start route))%Q in
  if Qle_bool elapsed 0 then []
  else
    let progress := if Qle_bool (elapsed / 3) 1 then (elapsed / 3)%Q else 1%Q in
    let '(sx, sy) := point d (start route) in
    let '(ex, ey) := point d (finish route) in
    let px := (sx + (ex - sx) * progress)%Q in
    let py := (sy + (ey - sy) * progress)%Q in
    [Line sx sy px py; Disc sx sy 3 Solid; Disc px py 6 (Gold (22 # 100)); Disc px py 3 Bright]
    ++ (if Qeq_bool progress 1 then [Disc ex ey 3 Solid] else []).

Definition paint (d : Dimensions) (currentTime : Q) : list Paint :=
  Clear (width d) (height d)
  :: ((λ dot, Disc (inject_Z (x dot)) (inject_Z (y dot)) 1 (Gold (opacity dot))) <$> dots d)
  ++ (route ← routes; draw_route d currentTime route).

(** ** The component

    The second effect's local variables outlive it in the callbacks it has
    handed out, so every run of the effect has its own. *)

Record Locals := { l_dimensions : Dimensions; animationFrameId : nat; startTime : Z }.

Record World := {
  observing : bool;
  dimensions : Dimensions;
  (** the canvas, which is resized at once, and whether a render is due *)
  canvas : Dimensions;
  due : bool;
  effects : list Locals;
  (** the effect whose cleanup is registered *)
  current : option nat;
  requested : nat;
  frames : gmap nat nat;
  painted : list (Dimensions * list Paint);
}.
#[global] Instance Locals_eta : Eta Locals := λ l,
  Build_Locals (l_dimensions l) (animationFrameId l) (startTime l).
#[global] Instance World_eta : Eta World := λ w, Build_World (observing w) (dimensions w) (canvas w)
  (due w) (effects w) (current w) (requested w) (frames w) (painted w).

(** One call of [draw] by the effect [n]; [Date.now()] is read before and after. *)
Definition draw (n : nat) (now later : Z) (w : World) : World :=
  match effects w !! n with
  | None => w
  | Some l =>
      let currentTime := (inject_Z (now - startTime l) / 1000)%Q in
      let startTime' := if Qle_bool currentTime 12 then startTime l else later in
      let id := S (requested w) in
      w <| painted := painted w ++ [(l_dimensions l, paint (l_dimensions l) currentTime)] |>
        <| effects := <[n := l <| startTime := startTime' |> <| animationFrameId := id |>]> (effects w) |>
        <| requested := id |>
        <| frames := <[id := n]> (frames w) |>
  end.

Definition cancel (w : World) : World :=
  match current w with
  | None => w
  | Some n =>
      w <| frames := match effects w !! n with
                     | Some l => delete (animationFrameId l) (frames w)
                     | None => frames w
                     end |>
        <| current := None |>
  end.

Definition draw_effect (began now later : Z) (w : World) : World :=
  let d := dimensions w in
  if (width d =? 0) || (height d =? 0) then w
  else
    let n := length (effects w) in
    let l := {| l_dimensions := d; animationFrameId := 0; startTime := began |} in
    (draw n now later (w <| effects := effects w ++ [l] |>)) <| current := Some n |>.

Inductive Event :=
| Mount
| Resize (contentWidth contentHeight : Q)
| Commit (began now later : Z)
| Frame (id : nat) (now later : Z)
| Unmount.

Definition step (w : World) (e : Event) : option World :=
  match e with
  | Mount => if observing w then None else Some (w <| observing := true |>)
  | Resize cw ch =>
      if observing w then
        let next := {| width := Z.max 1 (Qfloor cw); height := Z.max 1 (Qfloor ch) |} in
        Some (w <| dimensions := next |> <| due := true |> <| canvas := next |>)
      else None
  | Commit began now later =>
      if due w && observing w then Some (draw_effect began now later ((cancel w) <| due := false |>)) else None
  | Frame id now later =>
      n ← frames w !! id;
      Some (draw n now later (w <| frames := delete id (frames w) |>))
  | Unmount =>
      if observing w then Some ((cancel w) <| observing := false |> <| due := false |>) else None
  end.

Definition initial : World := {|
  observing := false; dimensions := {| width := 0; height := 0 |};
  canvas := {| width := 300; height := 150 |}; due := false; effects := []; current := None;
  requested := 0; frames := ∅; painted := [];
|}.

(** ** Painting stays on the canvas *)

Definition on_canvas (d : Dimensions) (px py : Q) : Prop :=
  (0 <= px <= inject_Z (width d))%Q ∧ (0 <= py <= inject_Z (height d))%Q.

Definition fill_ok (f : Fill) : Prop :=
  match f with Gold o => (12 # 100 <= o < 46 # 100)%Q | _ => True end.

Definition inside (d : Dimensions) (p : Paint) : Prop :=
  match p with
  | Clear w h => w = width d ∧ h = height d
  | Disc cx cy _ f => on_canvas d cx cy ∧ fill_ok f
  | Line x1 y1 x2 y2 => on_canvas d x1 y1 ∧ on_canvas d x2 y2
  end.

Definition positive (d : Dimensions) : Prop := 0 < width d ∧ 0 < height d.

Lemma counter_spec fuel i limit z :
  limit - i ≤ Z.of_nat fuel →
  z ∈ counter fuel i limit ↔ ∃ k, 0 ≤ k ∧ z = i + gap * k ∧ z < limit.
Proof.
  revert i. unfold gap. induction fuel as [|fuel IH]; intros i Hf; cbn [counter].
  - rewrite elem_of_nil. split; [done|]. intros (k & ? & -> & ?). lia.
  - destruct (Z.ltb_spec i limit).
    + rewrite elem_of_cons, IH by (unfold gap; lia). unfold gap. split.
      * intros [->|(k & ? & -> & ?)]; [exists 0|exists (k + 1)]; lia.
      * intros (k & ? & -> & ?). destruct (decide (k = 0)) as [->|]; [left; lia|right].
        exists (k - 1). lia.
    + rewrite elem_of_nil. split; [done|]. intros (k & ? & -> & ?). lia.
Qed.

(** The loops end and visit the multiples of [gap] below the limit. *)
Lemma grid_spec limit z : 0 ≤ limit → z ∈ grid limit ↔ ∃ k, 0 ≤ k ∧ z = gap * k ∧ z < limit.
Proof. intros H. unfold grid. rewrite counter_spec by lia. done. Qed.

Lemma hash2d_range a b : (0 <= hash2d a b < 1)%Q.
Proof.
  unfold hash2d. set (v := (_ * _)%Q). pose proof (Qfloor_le v). pose proof (Qlt_floor v) as H2.
  rewrite inject_Z_plus in H2. change (inject_Z 1) with 1%Q in H2. lra.
Qed.

Lemma dots_inside d dot :
  dot ∈ dots d → 0 ≤ width d → 0 ≤ height d →
  on_canvas d (inject_Z (x dot)) (inject_Z (y dot)) ∧ (12 # 100 <= opacity dot < 46 # 100)%Q.
Proof.
  intros Hin Hw Hh. unfold dots in Hin. case_match; [by apply elem_of_nil in Hin|].
  apply list_elem_of_bind in Hin as (a & Hin & Ha).
  apply list_elem_of_bind in Hin as (b & Hin & Hb).
  apply grid_spec in Ha as (k & ? & -> & ?), Hb as (k' & ? & -> & ?); [|done..].
  unfold dot_at in Hin. case_match; [|by apply elem_of_nil in Hin].
  apply list_elem_of_singleton in Hin as ->. cbn. unfold on_canvas.
  rewrite <-!(Zle_Qle _ _), <-!(Zle_Qle 0). pose proof (hash2d_range (gap * k') (gap * k)).
  unfold gap in *. split; [lia|lra].
Qed.

(** A point between two points of the canvas. *)
Lemma between (a b p m : Q) : (0 <= a <= m → 0 <= b <= m → 0 <= p <= 1 → 0 <= a + (b - a) * p <= m)%Q.
Proof. intros. nra. Qed.

Lemma point_inside d p :
  positive d → (0 <= rx p <= 1 → 0 <= ry p <= 1 → on_canvas d (point d p).1 (point d p).2)%Q.
Proof.
  intros [Hw Hh] Hx Hy. rewrite (Zlt_Qlt 0) in Hw, Hh. change (inject_Z 0) with 0%Q in *.
  unfold on_canvas, point. cbn [fst snd]. nra.
Qed.

Lemma route_inside d t r :
  positive d → r ∈ routes → Forall (inside d) (draw_route d t r).
Proof.
  intros Hd Hr.
  assert (0 <= rx (start r) <= 1 ∧ 0 <= ry (start r) <= 1 ∧ 0 <= rx (finish r) <= 1 ∧ 0 <= ry (finish r) <= 1)%Q
    as (H1 & H2 & H3 & H4).
  { revert r Hr. apply Forall_forall. repeat constructor; cbn; lra. }
  pose proof (point_inside d (start r) Hd H1 H2) as Hs.
  pose proof (point_inside d (finish r) Hd H3 H4) as He.
  unfold draw_route. destruct (Qle_bool _ 0) eqn:E0; [constructor|].
  set (progress := if Qle_bool _ 1 then _ else _).
  assert (0 <= progress <= 1)%Q as Hp.
  { assert (¬ (t - delay (start r) <= 0)%Q) as Hn by (by rewrite <-Qle_bool_iff, E0).
    unfold progress. destruct (Qle_bool _ 1) eqn:E1; [|lra]. apply Qle_bool_iff in E1.
    split; [|done]. apply Qle_shift_div_l; lra. }
  destruct (point d (start r)) as [sx sy], (point d (finish r)) as [ex ey]. cbn [fst snd] in *.
  assert (on_canvas d (sx + (ex - sx) * progress) (sy + (ey - sy) * progress)) as Hm.
  { destruct Hs, He. split; by apply between. }
  assert (fill_ok (Gold (22 # 100))) as Hf by (cbn; lra).
  apply Forall_app. split; [repeat apply Forall_cons_2; try apply Forall_nil_2; done|].
  destruct (Qeq_bool _ _); [|by apply Forall_nil_2]. by apply Forall_singleton.
Qed.

Lemma paint_inside d t : positive d → Forall (inside d) (paint d t).
Proof.
  intros Hd. unfold paint. constructor; [done|]. apply Forall_app. split.
  - apply Forall_fmap, Forall_forall. intros dot Hin. destruct Hd. cbn. apply dots_inside; [done|lia..].
  - apply Forall_forall. intros p (r & Hp & Hr)%list_elem_of_bind.
    revert p Hp. by apply Forall_forall, route_inside.
Qed.

(** ** Frames *)

Definition steady (w : World) : Prop :=
  (due w = true → positive (dimensions w)) ∧
  Forall (λ l, positive (l_dimensions l)) (effects w) ∧
  Forall (λ p, positive p.1 ∧ Forall (inside p.1) p.2) (painted w) ∧
  match current w with
  | Some n => observing w = true ∧ ∃ l, effects w !! n = Some l ∧ frames w = {[animationFrameId l := n]}
  | None => frames w = ∅
  end.

Lemma draw_steady n l now later w :
  effects w !! n = Some l → frames w = ∅ → observing w = true →
  (due w = true → positive (dimensions w)) →
  Forall (λ l, positive (l_dimensions l)) (effects w) →
  Forall (λ p, positive p.1 ∧ Forall (inside p.1) p.2) (painted w) →
  steady ((draw n now later w) <| current := Some n |>).
Proof.
  intros Hl Hf Ho Hd He Hp. unfold draw. rewrite Hl.
  assert (positive (l_dimensions l)) as Hpos by (by eapply (Forall_lookup_1 _ _ _ _ He Hl)).
  split; [done|]. split; [|split]; cbn.
  - by apply Forall_insert.
  - apply Forall_app. split; [done|]. apply Forall_singleton. split; [done|]. by apply paint_inside.
  - split; [done|]. eexists. split; [apply list_lookup_insert_eq; by eapply lookup_lt_Some|].
    by rewrite Hf, insert_empty.
Qed.

Lemma cancel_frames w : steady w → frames (cancel w) = ∅.
Proof.
  intros (_ & _ & _ & H). unfold cancel. destruct (current w) as [n|] eqn:E; [|done].
  destruct H as (_ & l & Hl & Hf). cbn. rewrite Hl, Hf. apply delete_singleton_eq.
Qed.

Lemma cancel_keeps w :
  current (cancel w) = None ∧ observing (cancel w) = observing w ∧ dimensions (cancel w) = dimensions w ∧
  effects (cancel w) = effects w ∧ painted (cancel w) = painted w ∧ due (cancel w) = due w.
Proof. unfold cancel. by destruct (current w) eqn:E. Qed.

Lemma draw_effect_steady began now later w :
  steady w → due w = true → observing w = true →
  steady (draw_effect began now later ((cancel w) <| due := false |>)).
Proof.
  intros Hs Hu Ho. pose proof (cancel_frames w Hs) as Hc.
  destruct (cancel_keeps w) as (Kc & Ko & Kd & Ke & Kp & Ku).
  destruct Hs as (Hd & He & Hp & _). specialize (Hd Hu) as [Hw Hh].
  unfold draw_effect. cbv zeta.
  change (dimensions ((cancel w) <| due := false |>)) with (dimensions (cancel w)). rewrite Kd.
  rewrite (proj2 (Z.eqb_neq (width _) 0)), (proj2 (Z.eqb_neq (height _) 0)) by lia. cbn [orb].
  eapply draw_steady; cbn.
  - rewrite lookup_app_r, Nat.sub_diag by lia. reflexivity.
  - done.
  - by rewrite Ko.
  - done.
  - rewrite Ke. apply Forall_app. split; [done|]. by apply Forall_singleton.
  - by rewrite Kp.
Qed.

Lemma steady_step w e w' : steady w → step w e = Some w' → steady w'.
Proof.
  intros Hs. pose proof (cancel_frames w Hs) as Hc.
  destruct (cancel_keeps w) as (Kc & Ko & Kd & Ke & Kp & Ku).
  destruct (id Hs) as (Hd & He & Hp & Hf). destruct e as [|cw ch|began now later|id now later|]; unfold step.
  - destruct (observing w) eqn:Ho; [done|]. intros [= <-]. split; [done|]. split; [done|]. split; [done|].
    cbn. destruct (current w); [|done]. by destruct Hf as [? _].
  - destruct (observing w) eqn:Ho; [|done]. intros [= <-].
    split; [intros _; split; cbn; lia|]. split; [done|]. split; [done|]. cbn. by rewrite Ho.
  - destruct (due w) eqn:Hu; [|done]. destruct (observing w) eqn:Ho; [|done].
    intros Hw'%(inj Some). subst w'. cbn [andb]. by apply draw_effect_steady.
  - intros (n & Hi & Hw'%(inj Some))%bind_Some. subst w'.
    destruct (current w) as [m|] eqn:Em; [|by rewrite Hf in Hi].
    destruct Hf as (Ho & l & Hl & Hf). rewrite Hf in Hi. apply lookup_singleton_Some in Hi as [<- <-].
    replace (draw _ _ _ _) with ((draw m now later (w <| frames := delete (animationFrameId l) (frames w) |>))
      <| current := Some m |>).
    + eapply draw_steady; [exact Hl|cbn; rewrite Hf; apply delete_singleton_eq|done..].
    + unfold draw. cbn. rewrite Hl. cbn. by rewrite Em.
  - destruct (observing w) eqn:Ho; [|done]. intros [= <-]. split; [done|]. cbn. by rewrite Ke, Kp, Kc.
Qed.

(** the map has at most one frame on order and it is the one its cleanup
    cancels; once the component is gone it has none.  Whatever the sizes, the
    times and the sine, everything it paints lies on the canvas of the size it
    paints for, and the dots are neither opaque nor invisible. *)
Theorem dotmap_frames w :
  reachable step initial w →
  (∀ id n, frames w !! id = Some n →
     current w = Some n ∧ ∃ l, effects w !! n = Some l ∧ animationFrameId l = id) ∧
  (observing w = false → frames w = ∅) ∧
  Forall (λ p, Forall (inside p.1) p.2) (painted w).
Proof.
  intros Hr. assert (steady w) as (_ & _ & Hp & Hf).
  { revert w Hr. apply reachable_invariant; [by repeat constructor|]. intros w e w'. apply steady_step. }
  split; [|split].
  - intros id n Hi. destruct (current w) as [m|]; [|by rewrite Hf in Hi].
    destruct Hf as (_ & l & Hl & Hf). rewrite Hf in Hi. apply lookup_singleton_Some in Hi as [<- <-]. eauto.
  - intros Ho. destruct (current w); [|done]. destruct Hf as [Ho' _]. congruence.
  - eapply Forall_impl; [exact Hp|]. by intros p [_ H].
Qed.
End Sine.

(** A small map: two sizes, a frame of the first and two of the second. *)
Abbreviation flat := (λ _ : Q, 1 # 3).
Definition sample_events : list Event :=
  [Mount; Resize (245 # 10) 36; Commit 0 0 1; Frame 1 16 17; Resize 48 (603 # 10);
   Frame 2 33 33; Commit 40 40 41; Frame 4 15000 15001; Unmount].
Definition sample : World := default initial (run (step flat) initial sample_events).

Lemma dotmap_frames_witness : length (painted sample) = 5%nat ∧ frames sample = ∅.
Proof.
  split; [vm_compute; reflexivity|].
  apply (dotmap_frames flat sample);
    [apply (run_reachable _ _ sample_events); vm_compute; reflexivity|vm_compute; reflexivity].
Defined.
End DotMap.
