(* ===== verification/JsNumber.v ===== *)
(** * Numbers

    JavaScript numbers are binary64.  The program's amounts, counts and
    instants are integers below 2^53, where sums, differences and products by
    small constants are exact, and [Math.round(a / b)], [Math.ceil(a / b)]
    and [Math.floor(a / b)] with a small constant [b] equal the exact
    operation: rounding is monotone, the breakpoints are representable, and a
    quotient that is not a breakpoint is at least [1 / (2 b)] away from one.
    Where two roundings compose, the operations are evaluated in the
    standard's [SpecFloat]. *)
From Stdlib Require Import ZArith SpecFloat.
From S2P Require Export JsString.

Definition f64 (n : Z) : spec_float := binary_normalize 53 1024 n 0 false.
Definition f64_div (x y : spec_float) : spec_float := SFdiv 53 1024 x y.
Definition f64_mul (x y : spec_float) : spec_float := SFmul 53 1024 x y.

(** [Math.round] of a finite number: the nearest integer, ties upwards. *)
Definition f64_round (x : spec_float) : Z :=
  match x with
  | S754_finite sg m e =>
      let v := if sg then Z.neg m else Z.pos m in
      if 0 <=? e then v * 2 ^ e else (2 * v + 2 ^ (- e)) / 2 ^ (1 - e)
  | _ => 0
  end.

(** [Math.round(a / b)], [Math.ceil(a / b)], [Math.floor(a / b)] *)
Definition round_div (a b : Z) : Z := (2 * a + b) / (2 * b).
Definition ceil_div (a b : Z) : Z := - (- a / b).

(** Two roundings: 87 of 600 is 14.5% exactly, and is shown as 14. *)
Example percent_double_rounding :
  f64_round (f64_mul (f64_div (f64 87) (f64 600)) (f64 100)) = 14 ∧ round_div (87 * 100) 600 = 15.
Proof. vm_compute. by split. Qed.

Lemma round_div_near a b : 0 < b → 2 * Z.abs (b * round_div a b - a) ≤ b.
Proof.
  intros Hb. unfold round_div.
  pose proof (Z.div_mod (2 * a + b) (2 * b) ltac:(lia)).
  pose proof (Z.mod_pos_bound (2 * a + b) (2 * b) ltac:(lia)). nia.
Qed.

Lemma ceil_div_spec a b n : 0 < b → ceil_div a b ≤ n ↔ a ≤ b * n.
Proof.
  intros Hb. unfold ceil_div.
  pose proof (Z.div_mod (- a) b ltac:(lia)). pose proof (Z.mod_pos_bound (- a) b ltac:(lia)). nia.
Qed.
