(* ===== verification/AdminText.v ===== *)
(** * Texts and measures of the admin panel

    The pure helpers of [web/components/admin/AdminPanel.tsx]: redaction of
    secrets in messages, the image digest pattern, the fleet health index,
    relative times and durations, the seed of the configuration form.  A
    regular expression of the sources is the function that matches it at the
    head of a string; the theorems give its meaning as a language. *)
From S2P Require Export AdminLib JsNumber.

(** ** [s.replace(/.../g, ...)]

    [m s] matches at the head of [s]: the replacement and the number of units
    matched, at least one.  [replace_from m k s] first drops the [k] units
    that a match has consumed. *)
Fixpoint replace_from (m : jstr → option (jstr * nat)) (skip : nat) (s : jstr) : jstr :=
  match s with
  | [] => []
  | c :: s' =>
      match skip with
      | S k => replace_from m k s'
      | O =>
          match m s with
          | Some (out, n) => out ++ replace_from m (n - 1) s'
          | None => c :: replace_from m 0 s'
          end
      end
  end.

Definition replace_all (m : jstr → option (jstr * nat)) (s : jstr) : jstr := replace_from m 0 s.

(** The number of leading units in a class: a greedy [[...]*]. *)
Fixpoint run_length (p : Z → bool) (s : jstr) : nat :=
  match s with
  | [] => O
  | c :: s' => if p c then S (run_length p s') else O
  end.

Definition is_alnum (c : Z) : bool :=
  ((48 <=? c) && (c <=? 57)) || ((65 <=? c) && (c <=? 90)) || ((97 <=? c) && (c <=? 122)).
Definition is_hex (c : Z) : bool :=
  ((48 <=? c) && (c <=? 57)) || ((65 <=? c) && (c <=? 70)) || ((97 <=? c) && (c <=? 102)).

(** A word of a pattern with the flag [i]; the words of the sources are ASCII. *)
Definition word_at (w s : jstr) : bool := starts_with w (lower_unit <$> take (length w) s).

(** ** Redaction *)

(** [password|secret|token|private[_ -]?key|ssh[_ -]?password] *)
Definition secret_words : list jstr :=
  [§"password"; §"secret"; §"token";
   §"private_key"; §"private key"; §"private-key"; §"privatekey";
   §"ssh_password"; §"ssh password"; §"ssh-password"; §"sshpassword"].

Definition secret_at (s : jstr) : option nat := length <$> find_first (λ w, word_at w s) secret_words.

Definition equals_sign (c : Z) : bool := c =? 61.

(** Neither a comma, white space nor a quote. *)
Definition value_unit (c : Z) : bool :=
  negb ((c =? 44) || is_space c || (c =? 34) || (c =? 39)).

Definition redacted : jstr := §"=[redacted]".

Definition secret_match (s : jstr) : option (jstr * nat) :=
  n ← secret_at s;
  let rest := drop n s in
  let eq := match rest with c :: _ => if equals_sign c then 1%nat else O | [] => O end in
  Some (take n s ++ redacted, (n + eq + run_length value_unit (drop eq rest))%nat).

(** [[A-Za-z0-9._~+/-]] *)
Definition token_unit (c : Z) : bool :=
  is_alnum c || (c =? 46) || (c =? 95) || (c =? 126) || (c =? 43) || (c =? 47) || (c =? 45).

(** [(Bearer\s+)[A-Za-z0-9._~+/-]+=*]: the length of the group, of the match. *)
Definition bearer_at (s : jstr) : option (nat * nat) :=
  if word_at §"bearer" s then
    let spaces := run_length is_space (drop 6 s) in
    let rest := drop (6 + spaces) s in
    let tok := run_length token_unit rest in
    if (spaces =? 0)%nat || (tok =? 0)%nat then None
    else Some ((6 + spaces)%nat, (6 + spaces + tok + run_length equals_sign (drop tok rest))%nat)
  else None.

Definition bearer_match (s : jstr) : option (jstr * nat) :=
  p ← bearer_at s; Some (take p.1 s ++ §"[redacted]", p.2).

Definition redactAdminSecrets (value : jstr) : jstr :=
  replace_all bearer_match (replace_all secret_match value).

Definition safeAdminText (value : option jstr) (fallback : jstr) : jstr :=
  match value with
  | Some v => if str_truthy v then redactAdminSecrets v else fallback
  | None => fallback
  end.

(** Every error that reaches the panel is an [Error]; [raw] is its message. *)
Definition safeAdminErrorMessage (raw : jstr) : jstr := redactAdminSecrets raw.

(** ** The image digest *)

(** [[a-zA-Z0-9._:/-]] *)
Definition repo_unit (c : Z) : bool :=
  is_alnum c || (c =? 46) || (c =? 95) || (c =? 58) || (c =? 47) || (c =? 45).

(** [/^[a-zA-Z0-9][a-zA-Z0-9._:/-]+@sha256:[a-fA-F0-9]{64}$/]: the class of the
    name does not contain the at sign, so the greedy run is the only match. *)
Definition immutableDigestPattern (s : jstr) : bool :=
  match s with
  | [] => false
  | c :: rest =>
      let n := run_length repo_unit rest in
      let digest := drop n rest in
      is_alnum c && negb (n =? 0)%nat && starts_with §"@sha256:" digest &&
      (length (drop 8 digest) =? 64)%nat && forallb is_hex (drop 8 digest)
  end.

(** ** Measures *)

Definition count {A} (f : A → bool) (l : list A) : Z := Z.of_nat (length (filter (λ x, f x = true) l)).

Definition stale (s : AdminServer) : bool := opt_true (agent_heartbeat_stale s).
Definition docker_missing (s : AdminServer) : bool :=
  bool_decide (agent_mode s = Some §"agent") && bool_decide (agent_docker_available s = Some false).
Definition is_open (n : AdminNotification) : bool := bool_decide (n_status n = st_open).

Definition computeFleetHealth (ss : list AdminServer) (ns : list AdminNotification) : Z :=
  if (length ss =? 0)%nat then 0 else
  let stalePenalty := count stale ss * 22 in
  let inactivePenalty := count (λ s, negb (active s)) ss * 12 in
  let dockerPenalty := count docker_missing ss * 14 in
  let incidentPenalty := count is_open ns * 8 in
  Z.max 0 (Z.min 100 (100 - stalePenalty - inactivePenalty - dockerPenalty - incidentPenalty)).

(** [MiniMeter] and [UtilizationBars]: [Math.round] of an integer is itself. *)
Definition meter (value : Z) : Z := Z.max 0 (Z.min 100 value).

(** ** Times *)

Section Times.
Context `{JsHost}.

Definition formatRelative (value : option jstr) (now : option Z) : jstr :=
  if negb (opt_str_truthy value) then §"never" else
  match date_parse (default [] value) with
  | None => §"—"
  | Some timestamp =>
      match now with
      | None => locale_datetime timestamp
      | Some now =>
          let seconds := Z.max 0 (round_div (now - timestamp) 1000) in
          if seconds <? 60 then num_str seconds ++ §"s назад" else
          let minutes := round_div seconds 60 in
          if minutes <? 60 then num_str minutes ++ §"м назад" else
          let hours := round_div minutes 60 in
          if hours <? 24 then num_str hours ++ §"ч назад" else
          locale_datetime timestamp
      end
  end.
End Times.

Definition formatDuration (seconds : Z) : jstr :=
  if seconds <=? 0 then §"0s" else
  let days := seconds / 86400 in
  let hours := (seconds mod 86400) / 3600 in
  let minutes := (seconds mod 3600) / 60 in
  if 0 <? days then num_str days ++ §"д " ++ num_str hours ++ §"ч" else
  if 0 <? hours then num_str hours ++ §"ч " ++ num_str minutes ++ §"м" else
  num_str minutes ++ §"м".

(** ** The seed of the configuration form *)

Definition seedAWGConfig (server : AdminServer) : jstr :=
  match config_summary server ≫= awg with
  | None => []
  | Some a =>
      join [10]
        [§"[Interface]";
         §"ListenPort = " ++ num_str (default 51820 (listen_port a));
         §"Jc = " ++ default [] (jc a);
         §"Jmin = " ++ default [] (jmin a);
         §"Jmax = " ++ default [] (jmax a);
         §"S1 = " ++ default [] (s1 a);
         §"S2 = " ++ default [] (s2 a);
         §"S3 = " ++ default [] (s3 a);
         §"S4 = " ++ default [] (s4 a);
         §"H1 = " ++ default [] (h1 a);
         §"H2 = " ++ default [] (h2 a);
         §"H3 = " ++ default [] (h3 a);
         §"H4 = " ++ default [] (h4 a)]
  end.

Example redact_test :
  redactAdminSecrets §"ssh-PASSWORD=hunter2, Bearer  abc.def== failed for token=1" =
  §"ssh-PASSWORD=[redacted], Bearer  [redacted] failed for token=[redacted]".
Proof. vm_compute. reflexivity. Qed.

(** ** What [replace_all] leaves *)

Lemma replace_from_drop m k s : replace_from m k s = replace_all m (drop k s).
Proof. revert k. induction s as [|c s IH]; intros [|k]; try done. simpl. apply IH. Qed.

Section ReplaceAll.
Context (m : jstr → option (jstr * nat)).

Lemma replace_all_match s out n :
  m s = Some (out, S n) → s ≠ [] → replace_all m s = out ++ replace_all m (drop (S n) s).
Proof.
  destruct s as [|c s]; [done|]. intros E _. unfold replace_all at 1. cbn [replace_from].
  rewrite E, replace_from_drop. simpl. by rewrite Nat.sub_0_r.
Qed.

Lemma replace_all_miss c s : m (c :: s) = None → replace_all m (c :: s) = c :: replace_all m s.
Proof. intros E. unfold replace_all at 1. cbn [replace_from]. by rewrite E. Qed.

(** A match consumes at least one unit of a non-empty string. *)
Definition proper_match : Prop := ∀ s out n, m s = Some (out, n) → s ≠ [] ∧ (0 < n)%nat.
Context (Hm : proper_match).

Lemma replace_all_ind (P : jstr → jstr → Prop) :
  P [] [] →
  (∀ c s, m (c :: s) = None → P s (replace_all m s) → P (c :: s) (c :: replace_all m s)) →
  (∀ s out n, m s = Some (out, n) → P (drop n s) (replace_all m (drop n s)) →
     P s (out ++ replace_all m (drop n s))) →
  ∀ s, P s (replace_all m s).
Proof.
  intros H0 Hmiss Hhit s.
  remember (length s) as k eqn:Ek. revert s Ek. induction (lt_wf k) as [k _ IH]. intros s ->.
  destruct s as [|c s]; [done|]. destruct (m (c :: s)) as [[out n]|] eqn:E.
  - destruct (Hm _ _ _ E) as [Hs Hn]. destruct n as [|n]; [lia|].
    rewrite (replace_all_match _ _ _ E Hs). apply (Hhit _ _ _ E). eapply IH; [|done].
    rewrite length_drop. simpl. lia.
  - rewrite (replace_all_miss _ _ E). apply Hmiss; [done|]. eapply IH; [|done]. simpl. lia.
Qed.

(** When every replacement keeps a prefix of the match and then writes [z],
    the output up to the first [z] is the input. *)
Lemma replace_all_upto z :
  (∀ s out n, m s = Some (out, n) → ∃ k tl, out = take k s ++ z :: tl) →
  ∀ s k, z ∉ take k (replace_all m s) → take k (replace_all m s) = take k s.
Proof.
  intros Hz s. apply (replace_all_ind (λ s o, ∀ k, z ∉ take k o → take k o = take k s)); clear s.
  - done.
  - intros c s _ IH [|k]; [done|]. simpl. rewrite not_elem_of_cons. intros [_ Hk]. by rewrite IH.
  - intros s out n E _ k Hk. destruct (Hz _ _ _ E) as (j & tl & ->).
    rewrite <-app_assoc in *. simpl in *. destruct (decide (k ≤ length (take j s))%nat) as [Hle|Hgt].
    + rewrite take_app_le, take_take by done. f_equal. rewrite length_take in Hle. lia.
    + destruct Hk. rewrite take_app, elem_of_app. right.
      destruct (k - length (take j s))%nat eqn:E'; [lia|]. simpl. by left.
Qed.

(** What holds at every copied position and inside every replacement holds at
    every position of the output. *)
Lemma replace_all_suffix (Q P : jstr → Prop) :
  P [] →
  (∀ s k, Q s → Q (drop k s)) →
  (∀ c s, Q (c :: s) → m (c :: s) = None → P (c :: replace_all m s)) →
  (∀ s out n i, Q s → m s = Some (out, n) → (i < length out)%nat →
     P (drop i out ++ replace_all m (drop n s))) →
  ∀ s a b, Q s → replace_all m s = a ++ b → P b.
Proof.
  intros P0 Qd Pmiss Phit s.
  apply (replace_all_ind (λ s o, ∀ a b, Q s → o = a ++ b → P b)); clear s.
  - intros a b _ E. symmetry in E. apply app_nil in E as [_ ->]. done.
  - intros c s E IH [|x a] b Hq Eo; simplify_eq/=.
    + by apply Pmiss.
    + eapply IH; [|done]. exact (Qd _ 1%nat Hq).
  - intros s out n E IH a b Hq Eo. destruct (decide (length a < length out)%nat) as [Hlt|Hge].
    + assert (b = drop (length a) out ++ replace_all m (drop n s)) as ->.
      { rewrite <-drop_app_le, Eo, drop_app_length by lia. done. }
      by apply Phit.
    + eapply (IH (drop (length out) a)); [by apply Qd|].
      rewrite <-drop_app_le, <-Eo, drop_app_length by lia. done.
Qed.
End ReplaceAll.

(** ** Redaction leaves no assigned secret *)

Lemma starts_with_all w s : (length s ≤ length w)%nat → starts_with w s = true ↔ s = w.
Proof.
  intros Hl. rewrite starts_with_spec. split; [|by intros ->].
  intros [r ->]. rewrite length_app in Hl. destruct r; simpl in *; [by rewrite app_nil_r|lia].
Qed.

Lemma word_at_spec w s : word_at w s = true ↔ lower_unit <$> take (length w) s = w.
Proof. unfold word_at. apply starts_with_all. rewrite length_fmap, length_take. lia. Qed.

Lemma word_at_length w s : word_at w s = true → (length w ≤ length s)%nat.
Proof.
  rewrite word_at_spec. intros E. apply (f_equal length) in E.
  rewrite length_fmap, length_take in E. lia.
Qed.

Lemma secret_at_Some s n :
  secret_at s = Some n → ∃ w, w ∈ secret_words ∧ n = length w ∧ word_at w s = true.
Proof.
  unfold secret_at. rewrite fmap_Some. intros (w & Hw & ->). apply find_first_Some in Hw as [??]. eauto.
Qed.

Lemma secret_at_None s : secret_at s = None ↔ ∀ w, w ∈ secret_words → word_at w s = false.
Proof. unfold secret_at. rewrite fmap_None. apply find_first_None. Qed.

(** What a word matches holds no unit that the word does not, up to case. *)
Lemma word_at_free z w s : lower_unit z = z → z ∉ w → word_at w s = true → z ∉ take (length w) s.
Proof.
  intros Hz Hw E%word_at_spec Hin. apply Hw. rewrite <-E, <-Hz. by apply list_elem_of_fmap_2.
Qed.

Lemma secret_words_free w :
  w ∈ secret_words → (61 ∉ w) ∧ (91 ∉ w) ∧ (98 ∉ w) ∧ (0 < length w)%nat.
Proof.
  assert (forallb (λ w, forallb (λ c, negb ((c =? 61) || (c =? 91) || (c =? 98))) w
                        && (0 <? length w)%nat) secret_words = true) as H by (vm_compute; reflexivity).
  rewrite forallb_forall in H. intros Hw%list_elem_of_In. apply H in Hw.
  apply andb_true_iff in Hw as [Hc Hl]. apply Nat.ltb_lt in Hl. rewrite forallb_forall in Hc.
  split_and!; [..|done]; intros Hin%list_elem_of_In; apply Hc in Hin; done.
Qed.

(** A word inside of a word, from its position on, is the rest of it. *)
Lemma secret_words_nested w w' i :
  w ∈ secret_words → w' ∈ secret_words → w' `prefix_of` drop i w → length w = (i + length w')%nat.
Proof.
  assert (forallb (λ w, forallb (λ w', forallb (λ i,
            negb (starts_with w' (drop i w)) || (length w =? i + length w')%nat)
          (seq 0 13)) secret_words) secret_words = true) as H by (vm_compute; reflexivity).
  assert (forallb (λ w, (length w <=? 12)%nat) secret_words = true) as Hl by (vm_compute; reflexivity).
  intros Hw Hw' Hp. rewrite forallb_forall in H, Hl. pose proof Hw as Hin. apply list_elem_of_In in Hin.
  specialize (Hl _ Hin). apply Nat.leb_le in Hl. specialize (H _ Hin). rewrite forallb_forall in H.
  apply list_elem_of_In in Hw' as Hin'. specialize (H _ Hin'). rewrite forallb_forall in H.
  destruct (decide (i < 13)%nat) as [Hi|Hi].
  - assert (In i (seq 0 13)) as Hs by (apply in_seq; lia). specialize (H _ Hs).
    apply orb_true_iff in H as [H|H]; [|by apply Nat.eqb_eq in H].
    apply starts_with_spec in Hp. by rewrite Hp in H.
  - rewrite drop_ge in Hp by lia. apply prefix_nil_inv in Hp. subst.
    destruct (secret_words_free [] Hw') as (_ & _ & _ & ?). simpl in *. lia.
Qed.

Lemma redacted_unsecret j r : (j < 11)%nat → secret_at (drop j redacted ++ r) = None.
Proof. intros Hj. do 11 (destruct j as [|j]; [vm_compute; reflexivity|]). lia. Qed.

Lemma secret_match_Some s out n :
  secret_match s = Some (out, n) →
  ∃ w, w ∈ secret_words ∧ word_at w s = true ∧ out = take (length w) s ++ redacted ∧
       (length w ≤ n)%nat.
Proof.
  unfold secret_match. rewrite bind_Some. intros (k & Hk & [= <- <-]).
  apply secret_at_Some in Hk as (w & Hw & -> & Hat). exists w. split_and!; done || lia.
Qed.

Lemma secret_match_None s : secret_match s = None → secret_at s = None.
Proof. unfold secret_match. by destruct (secret_at s). Qed.

Lemma secret_match_proper : proper_match secret_match.
Proof.
  intros s out n (w & Hw & Hat & _ & Hn)%secret_match_Some.
  destruct (secret_words_free w Hw) as (_ & _ & _ & Hl). apply word_at_length in Hat.
  split; [|lia]. intros ->. simpl in *. lia.
Qed.

(** [guarded b]: a secret word at the head of [b] is followed by its mark. *)
Definition guarded (b : jstr) : Prop :=
  ∀ w, w ∈ secret_words → word_at w b = true → redacted `prefix_of` drop (length w) b.

Lemma unmatched_guarded b : secret_at b = None → guarded b.
Proof. rewrite secret_at_None. intros H w Hw Hat. by rewrite H in Hat. Qed.

(** A word found in the output before the first [z] is in the input. *)
Lemma word_at_upto m z s w :
  proper_match m → (∀ s out n, m s = Some (out, n) → ∃ k tl, out = take k s ++ z :: tl) →
  lower_unit z = z → z ∉ w → word_at w (replace_all m s) = true → word_at w s = true.
Proof.
  intros Hm Hz Hl Hw Hat. pose proof (word_at_free z w _ Hl Hw Hat) as Hfree.
  apply (replace_all_upto m Hm z Hz) in Hfree. rewrite word_at_spec in *. congruence.
Qed.

Lemma secret_match_upto s out n :
  secret_match s = Some (out, n) → ∃ k tl, out = take k s ++ 61 :: tl.
Proof. intros (w & _ & _ & -> & _)%secret_match_Some. eexists _, §"[redacted]". reflexivity. Qed.

Lemma guarded_inside s w i r :
  w ∈ secret_words → word_at w s = true → (i < length w)%nat →
  guarded (drop i (take (length w) s) ++ redacted ++ r).
Proof.
  intros Hw Hat Hi w' Hw' Hat'.
  set (u := drop i (take (length w) s)) in *.
  assert (length u = length w - i)%nat as Hu.
  { unfold u. rewrite length_drop, length_take. apply word_at_length in Hat. lia. }
  destruct (decide (length w' ≤ length u)%nat) as [Hle|Hgt].
  - apply word_at_spec in Hat'. rewrite take_app_le in Hat' by done.
    assert (length w = i + length w')%nat as E.
    { apply secret_words_nested; [done..|]. apply word_at_spec in Hat. rewrite <-Hat, <-fmap_drop.
      fold u. exists (lower_unit <$> drop (length w') u).
      rewrite <-Hat' at 1. by rewrite <-fmap_app, take_drop. }
    rewrite drop_app_ge by lia. replace (length w' - length u)%nat with 0%nat by lia. by exists r.
  - exfalso. destruct (secret_words_free w' Hw') as (H61 & _).
    apply (word_at_free 61 _ _ eq_refl H61 Hat'). rewrite take_app, elem_of_app. right.
    destruct (length w' - length u)%nat eqn:E; [lia|]. by left.
Qed.

Lemma secret_pass_guarded s a b : replace_all secret_match s = a ++ b → guarded b.
Proof.
  apply (replace_all_suffix secret_match secret_match_proper (λ _, True)); [by apply unmatched_guarded|done| | |done].
  - intros c s' _ E%secret_match_None w Hw Hat. exfalso.
    rewrite <-replace_all_miss in Hat by (unfold secret_match; by rewrite E).
    destruct (secret_words_free w Hw) as (H61 & _).
    apply (word_at_upto secret_match 61) in Hat;
      [|apply secret_match_proper|apply secret_match_upto|done..].
    rewrite secret_at_None in E. by rewrite E in Hat.
  - intros s' out n i _ (w & Hw & Hat & -> & _)%secret_match_Some Hi.
    assert (length (take (length w) s') = length w) as Hl.
    { rewrite length_take. apply word_at_length in Hat. lia. }
    destruct (decide (i < length w)%nat).
    + rewrite drop_app_le, <-app_assoc by lia. by apply guarded_inside.
    + rewrite drop_app_ge by lia. apply unmatched_guarded, redacted_unsecret.
      rewrite length_app in Hi. change (length redacted) with 11%nat in Hi. lia.
Qed.

(** *** The second pass *)

Lemma run_length_le p s : (run_length p s ≤ length s)%nat.
Proof. induction s as [|c s IH]; simpl; [done|]. destruct (p c); lia. Qed.

Lemma run_length_take p s : Forall (λ c, p c = true) (take (run_length p s) s).
Proof.
  induction s as [|c s IH]; simpl; [constructor|]. destruct (p c) eqn:E; [by constructor|constructor].
Qed.

(** A run depends only on the units up to the one that ends it. *)
Lemma run_length_app p u s :
  Forall (λ c, p c = true) u → run_length p (u ++ s) = (length u + run_length p s)%nat.
Proof. induction 1 as [|c u Hc Hu IH]; [done|]. simpl. by rewrite Hc, IH. Qed.

Lemma bearer_at_Some s p :
  bearer_at s = Some p →
  word_at §"bearer" s = true ∧ (6 < p.1 ≤ length s)%nat ∧ (p.1 < p.2)%nat ∧
  Forall (λ c, is_space c = true) (drop 6 (take p.1 s)) ∧
  ∃ c r, drop p.1 s = c :: r ∧ token_unit c = true.
Proof.
  unfold bearer_at. destruct (word_at §"bearer" s) eqn:Hw; [|done].
  set (sp := run_length is_space (drop 6 s)). set (tk := run_length token_unit (drop (6 + sp) s)).
  destruct (sp =? 0)%nat eqn:E1; [done|]. destruct (tk =? 0)%nat eqn:E2; [done|]. intros [= <-].
  apply Nat.eqb_neq in E1, E2. cbn [fst snd orb].
  pose proof (run_length_le is_space (drop 6 s)) as Hl. rewrite length_drop in Hl. fold sp in Hl.
  split_and!; [done|lia| |lia| |].
  - apply word_at_length in Hw. change (length §"bearer") with 6%nat in Hw. lia.
  - change (Forall (λ c, is_space c = true) (drop 6 (take (6 + sp) s))).
    rewrite <-take_drop_commute. apply run_length_take.
  - change (∃ c r, drop (6 + sp) s = c :: r ∧ token_unit c = true).
    destruct (drop (6 + sp) s) as [|c r] eqn:E; [done|]. exists c, r. split; [done|].
    unfold tk in E2. simpl in E2. by destruct (token_unit c).
Qed.

Lemma token_not_space c : token_unit c = true → is_space c = false.
Proof. unfold token_unit, is_alnum, is_space. lia. Qed.

(** A bearer token in front of units that end a run is found. *)
Lemma bearer_at_intro s k c r :
  word_at §"bearer" s = true → (6 < k ≤ length s)%nat →
  Forall (λ c, is_space c = true) (drop 6 (take k s)) → drop k s = c :: r →
  token_unit c = true → bearer_at s ≠ None.
Proof.
  intros Hw Hk Hsp Ed Hc. unfold bearer_at. rewrite Hw.
  assert (run_length is_space (drop 6 s) = (k - 6)%nat) as ->.
  { rewrite <-(take_drop k s), drop_app_le by (rewrite length_take; lia).
    rewrite run_length_app by done. rewrite length_drop, length_take, Ed. simpl.
    assert (is_space c = false) as ->; [|lia].
    by apply token_not_space. }
  replace (6 + (k - 6))%nat with k by lia. rewrite Ed. simpl. rewrite Hc.
  destruct (k - 6 =? 0)%nat eqn:E; [apply Nat.eqb_eq in E; lia|]. done.
Qed.

Lemma bearer_match_proper : proper_match bearer_match.
Proof.
  intros s out n. unfold bearer_match. rewrite bind_Some. intros (p & Hp & [= <- <-]).
  apply bearer_at_Some in Hp as (_ & ? & ? & _). split; [|lia]. intros ->. simpl in *. lia.
Qed.

Lemma bearer_match_upto s out n :
  bearer_match s = Some (out, n) → ∃ k tl, out = take k s ++ 91 :: tl.
Proof.
  unfold bearer_match. rewrite bind_Some. intros (p & _ & [= <- <-]).
  eexists _, §"redacted]". reflexivity.
Qed.

Lemma bearer_match_None s : bearer_match s = None ↔ bearer_at s = None.
Proof. unfold bearer_match. by destruct (bearer_at s). Qed.

(** Units at which neither pattern can start. *)
Definition inert (c : Z) : bool := negb (existsb (λ x, lower_unit c =? x) [98; 112; 115; 116]).

Lemma secret_words_head w : w ∈ secret_words → default 0 (head w) ∈ [112; 115; 116].
Proof. revert w. apply Forall_forall, (bool_decide_unpack _). vm_compute. exact I. Qed.

Lemma inert_unmatched c s : inert c = true → bearer_at (c :: s) = None ∧ secret_at (c :: s) = None.
Proof.
  intros Hc. assert (lower_unit c ≠ 98 ∧ lower_unit c ≠ 112 ∧ lower_unit c ≠ 115 ∧ lower_unit c ≠ 116)
    as (H1 & H2 & H3 & H4) by (unfold inert in Hc; cbn [existsb] in Hc; lia).
  assert (∀ d w, lower_unit c ≠ d → word_at (d :: w) (c :: s) = false) as Hno.
  { intros d w Hd. apply not_true_is_false. rewrite word_at_spec. simpl. by intros [= ??]. }
  split.
  - unfold bearer_at. change §"bearer" with (98 :: §"earer"). by rewrite Hno.
  - apply secret_at_None. intros w Hw%secret_words_head.
    destruct w as [|d w]; simpl in Hw; [set_solver|]. apply Hno. intros E. rewrite E in *. set_solver.
Qed.

Lemma inert_keeps u s :
  Forall (λ c, lower_unit c ≠ 98) u → replace_all bearer_match (u ++ s) = u ++ replace_all bearer_match s.
Proof.
  induction 1 as [|c u Hc Hu IH]; [done|]. cbn [app]. rewrite replace_all_miss, IH; [done|].
  apply bearer_match_None. unfold bearer_at.
  assert (word_at §"bearer" (c :: u ++ s) = false) as ->; [|done].
  apply not_true_is_false. rewrite word_at_spec. simpl. by intros [= ??].
Qed.

Lemma redacted_unbearer j r : (j < 11)%nat → bearer_at (drop j redacted ++ r) = None.
Proof. intros Hj. do 11 (destruct j as [|j]; [vm_compute; reflexivity|]). lia. Qed.

Lemma bearer_group s k :
  word_at §"bearer" s = true → (6 < k ≤ length s)%nat →
  Forall (λ c, is_space c = true) (drop 6 (take k s)) →
  ∃ b u, take k s = b :: u ∧ Forall (λ c, inert c = true) u.
Proof.
  intros Hw Hk Hsp. apply word_at_spec in Hw. change (length §"bearer") with 6%nat in Hw.
  destruct s as [|b [|c1 [|c2 [|c3 [|c4 [|c5 s]]]]]]; try done.
  destruct k as [|[|[|[|[|[|k]]]]]]; try lia. simpl in *. eexists _, _. split; [done|].
  assert (∀ c x, lower_unit c = x → inert x = true → lower_unit x = x → inert c = true) as Hi.
  { intros c x <- Hx Hl. unfold inert in *. by rewrite Hl in Hx. }
  injection Hw as _ H1 H2 H3 H4 H5.
  repeat (apply Forall_cons; split; [by eapply Hi|]).
  eapply Forall_impl; [exact Hsp|]. intros c Hc. unfold is_space in Hc. unfold inert, lower_unit.
  destruct ((65 <=? c) && (c <=? 90)) eqn:E; cbn [existsb]; lia.
Qed.

Lemma second_pass_guarded c t :
  guarded (c :: t) → bearer_match (c :: t) = None → guarded (c :: replace_all bearer_match t).
Proof.
  intros Hg Em w Hw Hat. rewrite <-replace_all_miss in * by done.
  destruct (secret_words_free w Hw) as (_ & H91 & H98 & _).
  apply (word_at_upto bearer_match 91) in Hat;
    [|apply bearer_match_proper|apply bearer_match_upto|done..].
  destruct (Hg w Hw Hat) as [r Hr]. apply word_at_length in Hat as Hl.
  rewrite <-(take_drop (length w) (c :: t)), Hr.
  rewrite !inert_keeps.
  - rewrite drop_app_ge by (rewrite length_take; lia).
    replace (length w - length (take (length w) (c :: t)))%nat with 0%nat
      by (rewrite length_take; lia). by eexists.
  - apply (bool_decide_unpack _). vm_compute. exact I.
  - apply Forall_forall. intros x Hx Ex. apply H98. apply word_at_spec in Hat. rewrite <-Hat, <-Ex.
    by apply list_elem_of_fmap_2.
Qed.

Lemma second_pass_bearer c t :
  bearer_match (c :: t) = None → bearer_at (c :: replace_all bearer_match t) = None.
Proof.
  intros Em. rewrite <-replace_all_miss by done. revert Em. generalize (c :: t) as s. intros s Em.
  apply eq_None_ne_Some_2. intros p Hp. apply bearer_at_Some in Hp as (Hw & Hk & _ & Hsp & x & r & Ed & Hx).
  set (o := replace_all bearer_match s) in *. set (k := p.1) in *.
  assert (take (S k) o = take k o ++ [x]) as Et.
  { rewrite <-(take_drop k o) at 1. rewrite Ed, take_app_ge by (rewrite length_take; lia).
    rewrite length_take, Nat.min_l by lia. by replace (S k - k)%nat with 1%nat by lia. }
  assert (91 ∉ take (S k) o) as Hfree.
  { rewrite Et, <-(take_drop 6 (take k o)), take_take, Nat.min_l by lia.
    rewrite !elem_of_app, list_elem_of_singleton. intros [[H|H]|H].
    - revert H. by apply (word_at_free 91 §"bearer"); [|apply (bool_decide_unpack _); vm_compute|].
    - rewrite Forall_forall in Hsp. by specialize (Hsp _ H).
    - by subst x. }
  apply (replace_all_upto _ bearer_match_proper _ bearer_match_upto) in Hfree as Eq. fold o in Eq.
  assert (∀ j, (j ≤ S k)%nat → take j o = take j s) as Ej.
  { intros j Hj. apply (f_equal (take j)) in Eq. by rewrite !take_take, Nat.min_l in Eq. }
  assert (S k ≤ length s)%nat as Hls.
  { apply (f_equal length) in Eq. rewrite Et, length_app, !length_take in Eq. change (length [x]) with 1%nat in Eq. lia. }
  apply bearer_match_None in Em. revert Em. apply (bearer_at_intro s k x (drop (S k) s)); [|lia| | |done].
  - apply word_at_spec. apply word_at_spec in Hw. by rewrite <-Ej by (simpl; lia).
  - by rewrite <-Ej by lia.
  - rewrite <-(take_drop (S k) s) at 1. rewrite <-Eq, Et, <-app_assoc, drop_app_ge by (rewrite length_take; lia).
    replace (k - length (take k o))%nat with 0%nat by (rewrite length_take; lia). done.
Qed.

Lemma second_pass_inside t out n i r :
  bearer_match t = Some (out, n) → (i < length out)%nat →
  guarded (drop i out ++ r) ∧ bearer_at (drop i out ++ r) = None.
Proof.
  unfold bearer_match. rewrite bind_Some. intros (p & Hp & [= <- <-]) Hi.
  apply bearer_at_Some in Hp as (Hw & Hk & _ & Hsp & _).
  destruct (bearer_group t p.1 Hw Hk Hsp) as (b & u & Et & Hu). destruct i as [|i].
  - rewrite drop_0, <-app_assoc. split.
    + apply unmatched_guarded, secret_at_None. intros w Hin. apply not_true_is_false.
      rewrite word_at_spec. rewrite Et. intros E. apply secret_words_head in Hin.
      destruct w as [|d w]; simpl in *; [set_solver|]. injection E as Ed _.
      apply word_at_spec in Hw. destruct t as [|b' t]; [done|]. destruct p.1; [lia|]. simpl in *.
      injection Hw as Hb _. injection Et as -> _. rewrite Hb in Ed. subst d. set_solver.
    + unfold bearer_at.
      rewrite drop_app_le by (rewrite length_take; lia). rewrite run_length_app by done.
      change (run_length is_space (§"[redacted]" ++ r)) with 0%nat.
      rewrite drop_app_ge by (rewrite length_drop, !length_take; lia).
      rewrite length_drop, length_take, Nat.min_l, Nat.add_0_r by lia.
      replace (6 + (p.1 - 6) - p.1)%nat with 0%nat by lia.
      change (run_length token_unit (drop 0 (§"[redacted]" ++ r))) with 0%nat.
      change (0 =? 0)%nat with true. rewrite orb_true_r. case (word_at _ (_ ++ _)); reflexivity.
  - rewrite Et in *. simpl in *. destruct (decide (i < length u)%nat) as [Hlt|Hge].
    + rewrite drop_app_le, <-app_assoc by lia. destruct (drop i u) as [|c l] eqn:Ed.
      { apply (f_equal length) in Ed. rewrite length_drop in Ed. simpl in Ed. lia. }
      apply (Forall_drop _ i) in Hu. rewrite Ed in Hu. apply Forall_cons in Hu as [Hc _].
      destruct (inert_unmatched c (l ++ §"[redacted]" ++ r) Hc) as [??].
      split; [by apply unmatched_guarded|done].
    + rewrite drop_app_ge by lia.
      change (drop (i - length u) §"[redacted]") with (drop (S (i - length u)) redacted).
      rewrite length_app in Hi. change (length §"[redacted]") with 10%nat in Hi.
      split; [apply unmatched_guarded, redacted_unsecret; lia|apply redacted_unbearer; lia].
Qed.


Definition sample_message : jstr := §"agent: Bearer abc, token=xyz".


(** Text in which neither pattern matches is shown as it is. *)
Lemma replace_all_id m s : (∀ a b, s = a ++ b → m b = None) → replace_all m s = s.
Proof.
  induction s as [|c s IH]; intros Hm; [done|]. rewrite replace_all_miss by exact (Hm [] _ eq_refl).
  f_equal. apply IH. intros a b ->. by apply (Hm (c :: a)).
Qed.

(** a secret that a space separates from its word is not redacted: a
    message of the form [password: value] is shown with the value. *)
Theorem redact_leaks w :
  (∀ a b, w = a ++ b → secret_at b = None ∧ bearer_at b = None) →
  redactAdminSecrets (§"password: " ++ w) = §"password=[redacted] " ++ w.
Proof.
  intros Hw. unfold redactAdminSecrets.
  assert (replace_all secret_match (§"password: " ++ w) = §"password=[redacted] " ++ w) as ->.
  { rewrite (replace_all_match secret_match _ §"password=[redacted]" 8); [|reflexivity|done].
    change (drop 9 (§"password: " ++ w)) with (32 :: w). rewrite replace_all_miss.
    - rewrite replace_all_id; [reflexivity|]. intros a b E. apply Hw in E as [E _].
      unfold secret_match. by rewrite E.
    - unfold secret_match. by rewrite (proj2 (inert_unmatched 32 w eq_refl)). }
  rewrite inert_keeps by (apply (bool_decide_unpack _); vm_compute; exact I).
  rewrite replace_all_id; [done|]. intros a b E. apply Hw in E as [_ E]. by apply bearer_match_None.
Qed.

Lemma redact_leaks_witness :
  redactAdminSecrets §"password: hunter2" = §"password=[redacted] hunter2".
Proof.
  apply (redact_leaks §"hunter2"). intros a b E.
  destruct (decide (length a ≤ 7)%nat) as [Hl|Hl].
  - assert (b = drop (length a) §"hunter2") as ->.
    { rewrite E. by rewrite drop_app_length. }
    revert Hl. generalize (length a) as i. intros i Hi.
    do 8 (destruct i as [|i]; [split; vm_compute; reflexivity|]). lia.
  - apply (f_equal length) in E. rewrite length_app in E. change (length §"hunter2") with 7%nat in E. lia.
Defined.

(** ** The digest pattern as a language *)

(** the pattern accepts exactly a repository name of at least two units
    followed by [@sha256:] and 64 hexadecimal digits, and nothing else: a tag
    without a digest is never accepted. *)
Theorem immutableDigestPattern_spec s :
  immutableDigestPattern s = true ↔
  ∃ c name hex, s = c :: name ++ §"@sha256:" ++ hex ∧ is_alnum c = true ∧
    name ≠ [] ∧ Forall (λ c, repo_unit c = true) name ∧
    length hex = 64%nat ∧ Forall (λ c, is_hex c = true) hex.
Proof.
  destruct s as [|c rest]; [split; [done|intros (?&?&?&?&_); done]|].
  unfold immutableDigestPattern. cbv zeta.
  rewrite !andb_true_iff, Nat.eqb_eq, negb_true_iff, Nat.eqb_neq. split.
  - intros ((((Hc & Hn) & Hs) & Hl) & Hh). apply starts_with_spec in Hs as [hex Ehex].
    exists c, (take (run_length repo_unit rest) rest), hex.
    rewrite Ehex in Hl, Hh. change (drop 8 (§"@sha256:" ++ hex)) with hex in *.
    split_and!; [by rewrite <-Ehex, take_drop|done| |apply run_length_take|done|].
    + intros E. apply (f_equal length) in E. rewrite length_take in E.
      pose proof (run_length_le repo_unit rest). simpl in E. lia.
    + apply Forall_forall. intros x Hx. rewrite forallb_forall in Hh. by apply Hh, list_elem_of_In.
  - intros (c' & name & hex & [= <- ->] & Hc & Hn & Hname & Hl & Hh).
    rewrite run_length_app by done.
    change (run_length repo_unit (§"@sha256:" ++ hex)) with 0%nat. rewrite Nat.add_0_r, drop_app_length.
    change (drop 8 (§"@sha256:" ++ hex)) with hex.
    split_and!; [done| | |done|].
    + intros E. by apply nil_length_inv in E.
    + apply starts_with_spec. by exists hex.
    + apply forallb_forall. intros x Hx%list_elem_of_In. rewrite Forall_forall in Hh. auto.
Qed.

(** ** The health index *)

Lemma count_nonneg {A} (f : A → bool) l : 0 ≤ count f l.
Proof. unfold count. lia. Qed.

Lemma count_zero {A} (f : A → bool) l : count f l = 0 ↔ ∀ x, x ∈ l → f x = false.
Proof.
  unfold count. rewrite <-find_first_None. unfold find_first.
  destruct (filter _ l); simpl; [done|]. split; [lia|done].
Qed.

(** the fleet health index is a percentage; it is 100 exactly for a
    non-empty fleet in which every server is active, with a fresh heartbeat
    and without a missing Docker, and no incident is open; a further incident
    never raises it. *)
Theorem fleetHealth_spec ss ns :
  0 ≤ computeFleetHealth ss ns ≤ 100 ∧
  (computeFleetHealth ss ns = 100 ↔
     ss ≠ [] ∧ (∀ s, s ∈ ss → stale s = false ∧ active s = true ∧ docker_missing s = false) ∧
     (∀ n, n ∈ ns → n_status n ≠ st_open)) ∧
  (∀ n, computeFleetHealth ss (n :: ns) ≤ computeFleetHealth ss ns).
Proof.
  unfold computeFleetHealth. destruct ss as [|s0 ss]; [by split_and!; [done..|naive_solver|]|].
  cbn [length Nat.eqb]. set (fleet := s0 :: ss).
  pose proof (count_nonneg stale fleet). pose proof (count_nonneg (λ s, negb (active s)) fleet).
  pose proof (count_nonneg docker_missing fleet). pose proof (count_nonneg is_open ns).
  split_and!; [lia|lia| |].
  - split.
    + intros E. assert (count stale fleet = 0 ∧ count (λ s, negb (active s)) fleet = 0 ∧
        count docker_missing fleet = 0 ∧ count is_open ns = 0) as (E1 & E2 & E3 & E4) by lia.
      rewrite count_zero in E1, E2, E3. rewrite count_zero in E4. split_and!; [done| |].
      * intros s Hs. split_and!; [by apply E1|by apply negb_false_iff, E2|by apply E3].
      * intros n Hn Ho. apply E4 in Hn. unfold is_open in Hn. by rewrite bool_decide_eq_false in Hn.
    + intros (_ & Hs & Hn).
      rewrite (proj2 (count_zero stale fleet)), (proj2 (count_zero (λ s, negb (active s)) fleet)),
        (proj2 (count_zero docker_missing fleet)), (proj2 (count_zero is_open ns)); [done|..].
      * intros n Ho. unfold is_open. apply bool_decide_eq_false. by apply Hn.
      * intros s Hin. by apply Hs.
      * intros s Hin. apply negb_false_iff. by apply Hs.
      * intros s Hin. by apply Hs.
  - intros n. assert (count is_open ns ≤ count is_open (n :: ns)); [|lia].
    unfold count. rewrite filter_cons. case_decide; simpl; lia.
Qed.
