(* ===== verification/AdminWire.v ===== *)
(** * Replies of the admin API at their declared types

    The panel casts the JSON of its requests ([as AdminOverview] and the
    like).  A decoder reads a value at the type the cast declares; [None] is a
    value of another type, on which the panel's rendering is not defined.
    [patch_server] is the spread [{ ...server, ...data.server }]. *)
From S2P Require Export AdminText SiteConfig.

Definition as_bool (v : jval) : option bool := match v with JBool b => Some b | _ => None end.

(** [f?: T | null] *)
Definition opt {A} (read : jval → option A) (v : jval) : option (option A) :=
  if nullish v then Some None else Some <$> read v.

Definition severity_of (s : jstr) : option AdminSeverity :=
  if str_eqb s §"info" then Some sev_info
  else if str_eqb s §"warning" then Some sev_warning
  else if str_eqb s §"critical" then Some sev_critical else None.

Definition status_of (s : jstr) : option AdminNotificationStatus :=
  if str_eqb s §"open" then Some st_open
  else if str_eqb s §"resolved" then Some st_resolved else None.

Definition decode_notification_server (v : jval) : option NotificationServer :=
  i ← as_num (get v §"id");
  n ← as_str (get v §"name");
  r ← opt as_str (get v §"region");
  e ← opt as_str (get v §"endpoint");
  c ← opt as_str (get v §"country_code");
  Some {| ns_id := i; ns_name := n; ns_region := r; ns_endpoint := e; ns_country_code := c |}.

Definition decode_notification (v : jval) : option AdminNotification :=
  i ← as_num (get v §"id");
  fp ← opt as_str (get v §"fingerprint");
  sev ← as_str (get v §"severity") ≫= severity_of;
  sts ← as_str (get v §"status") ≫= status_of;
  title ← as_str (get v §"title");
  msg ← as_str (get v §"message");
  sid ← opt as_num (get v §"server_id");
  srv ← opt decode_notification_server (get v §"server");
  meta ← opt as_str (get v §"metadata_json");
  seen ← as_str (get v §"last_seen_at");
  ack ← opt as_str (get v §"acknowledged_at");
  ackby ← opt as_num (get v §"acknowledged_by_id");
  muted ← opt as_str (get v §"muted_until");
  res ← opt as_str (get v §"resolved_at");
  created ← as_str (get v §"created_at");
  Some {| n_id := i; fingerprint := fp; severity := sev; n_status := sts; n_title := title;
          n_message := msg; n_server_id := sid; n_server := srv; metadata_json := meta;
          last_seen_at := seen; acknowledged_at := ack; acknowledged_by_id := ackby;
          muted_until := muted; resolved_at := res; n_created_at := created |}.

Definition decode_list {A} (read : jval → option A) (v : jval) : option (list A) :=
  as_arr v ≫= mapM read.

(** [data.notifications ?? []] *)
Definition decode_notifications (v : jval) : option (list AdminNotification) :=
  if nullish v then Some [] else decode_list decode_notification v.

Definition decode_awg (v : jval) : option AwgSummary :=
  lp ← opt as_num (get v §"listen_port");
  i ← opt as_str (get v §"interface");
  c ← opt as_str (get v §"container");
  jc' ← opt as_str (get v §"jc");
  jmin' ← opt as_str (get v §"jmin");
  jmax' ← opt as_str (get v §"jmax");
  s1' ← opt as_str (get v §"s1");
  s2' ← opt as_str (get v §"s2");
  s3' ← opt as_str (get v §"s3");
  s4' ← opt as_str (get v §"s4");
  h1' ← opt as_str (get v §"h1");
  h2' ← opt as_str (get v §"h2");
  h3' ← opt as_str (get v §"h3");
  h4' ← opt as_str (get v §"h4");
  Some {| listen_port := lp; interface := i; container := c; jc := jc'; jmin := jmin';
          jmax := jmax'; s1 := s1'; s2 := s2'; s3 := s3'; s4 := s4'; h1 := h1'; h2 := h2';
          h3 := h3'; h4 := h4' |}.

Definition decode_xray (v : jval) : option XraySummary :=
  a ← opt as_str (get v §"address");
  p ← opt as_num (get v §"port");
  sn ← opt as_str (get v §"server_name");
  pk ← opt as_str (get v §"public_key");
  si ← opt as_str (get v §"short_id");
  n ← opt as_str (get v §"network");
  se ← opt as_str (get v §"security");
  g ← opt as_str (get v §"grpc_service_name");
  c ← opt as_str (get v §"container_name");
  Some {| address := a; port := p; server_name := sn; public_key := pk; short_id := si;
          network := n; security := se; grpc_service_name := g; container_name := c |}.

Definition decode_summary (v : jval) : option ConfigSummary :=
  a ← opt decode_awg (get v §"awg");
  x ← opt decode_xray (get v §"xray");
  Some {| awg := a; xray := x |}.

(** ** Servers *)

(** A field of the spread: that of [v] when [v] has it, else the old one. *)
Definition over {A} (read : jval → option A) (v : jval) (k : jstr) (old : A) : option A :=
  if obj_has (own_fields v) k then read (get v k) else Some old.

Definition patch_server (s : AdminServer) (v : jval) : option AdminServer :=
  let str k old := over (opt as_str) v k old in
  let num k old := over (opt as_num) v k old in
  let flag k old := over (opt as_bool) v k old in
  i ← over as_num v §"id" (s_id s);
  nm ← over as_str v §"name" (s_name s);
  ho ← str §"host" (host s);
  ep ← str §"endpoint" (endpoint s);
  rg ← str §"region" (region s);
  cc ← str §"country_code" (country_code s);
  ac ← over as_bool v §"active" (active s);
  vi ← flag §"is_vip_only" (is_vip_only s);
  mp ← num §"max_peers" (max_peers s);
  ak ← num §"active_keys" (active_keys s);
  aa ← num §"active_awg" (active_awg s);
  av ← num §"active_vless" (active_vless s);
  ut ← num §"utilization" (utilization s);
  am ← str §"agent_mode" (agent_mode s);
  an ← str §"agent_node_id" (agent_node_id s);
  hb ← str §"agent_last_heartbeat_at" (agent_last_heartbeat_at s);
  hs ← flag §"agent_heartbeat_stale" (agent_heartbeat_stale s);
  da ← flag §"agent_docker_available" (agent_docker_available s);
  up ← num §"agent_uptime_seconds" (agent_uptime_seconds s);
  lh ← str §"agent_last_health_status" (agent_last_health_status s);
  ve ← str §"agent_last_version" (agent_last_version s);
  co ← str §"agent_last_commit" (agent_last_commit s);
  ad ← str §"agent_active_digest" (agent_active_digest s);
  pd ← str §"agent_previous_digest" (agent_previous_digest s);
  us ← str §"agent_last_update_status" (agent_last_update_status s);
  ue ← str §"agent_last_update_error" (agent_last_update_error s);
  sh ← str §"agent_last_snapshot_hash" (agent_last_snapshot_hash s);
  sa ← str §"agent_last_snapshot_at" (agent_last_snapshot_at s);
  ss ← str §"agent_last_snapshot_status" (agent_last_snapshot_status s);
  bs ← str §"agent_bootstrap_status" (agent_bootstrap_status s);
  be ← str §"agent_bootstrap_error" (agent_bootstrap_error s);
  ba ← str §"agent_bootstrap_at" (agent_bootstrap_at s);
  pe ← flag §"pihole_enabled" (pihole_enabled s);
  pa ← str §"pihole_last_sync_at" (pihole_last_sync_at s);
  px ← str §"pihole_last_sync_error" (pihole_last_sync_error s);
  cs ← over (opt decode_summary) v §"config_summary" (config_summary s);
  Some {| s_id := i; s_name := nm; host := ho; endpoint := ep; region := rg; country_code := cc;
          active := ac; is_vip_only := vi; max_peers := mp; active_keys := ak; active_awg := aa;
          active_vless := av; utilization := ut; agent_mode := am; agent_node_id := an;
          agent_last_heartbeat_at := hb; agent_heartbeat_stale := hs; agent_docker_available := da;
          agent_uptime_seconds := up; agent_last_health_status := lh; agent_last_version := ve;
          agent_last_commit := co; agent_active_digest := ad; agent_previous_digest := pd;
          agent_last_update_status := us; agent_last_update_error := ue;
          agent_last_snapshot_hash := sh; agent_last_snapshot_at := sa;
          agent_last_snapshot_status := ss; agent_bootstrap_status := bs;
          agent_bootstrap_error := be; agent_bootstrap_at := ba; pihole_enabled := pe;
          pihole_last_sync_at := pa; pihole_last_sync_error := px; config_summary := cs |}.

Definition blank_server : AdminServer :=
  {| s_id := 0; s_name := []; host := None; endpoint := None; region := None;
     country_code := None; active := false; is_vip_only := None; max_peers := None;
     active_keys := None; active_awg := None; active_vless := None; utilization := None;
     agent_mode := None; agent_node_id := None; agent_last_heartbeat_at := None;
     agent_heartbeat_stale := None; agent_docker_available := None;
     agent_uptime_seconds := None; agent_last_health_status := None; agent_last_version := None;
     agent_last_commit := None; agent_active_digest := None; agent_previous_digest := None;
     agent_last_update_status := None; agent_last_update_error := None;
     agent_last_snapshot_hash := None; agent_last_snapshot_at := None;
     agent_last_snapshot_status := None; agent_bootstrap_status := None;
     agent_bootstrap_error := None; agent_bootstrap_at := None; pihole_enabled := None;
     pihole_last_sync_at := None; pihole_last_sync_error := None; config_summary := None |}.

Definition decode_server (v : jval) : option AdminServer :=
  if forallb (obj_has (own_fields v)) [§"id"; §"name"; §"active"]
  then patch_server blank_server v else None.

(** ** Overview, statistics, audit *)

Definition decode_kpis (v : jval) : option Kpis :=
  tu ← as_num (get v §"total_users");
  asub ← as_num (get v §"active_subscriptions");
  ak ← as_num (get v §"active_vpn_keys");
  ts ← as_num (get v §"total_servers");
  acts ← as_num (get v §"active_servers");
  oi ← as_num (get v §"open_incidents");
  mr ← as_num (get v §"monthly_revenue");
  Some {| total_users := tu; active_subscriptions := asub; active_vpn_keys := ak;
          total_servers := ts; active_servers := acts; open_incidents := oi; monthly_revenue := mr |}.

Definition decode_overview (v : jval) : option AdminOverview :=
  k ← decode_kpis (get v §"kpis");
  ns ← decode_list decode_notification (get v §"notifications");
  ss ← decode_list decode_server (get v §"servers");
  Some {| kpis := k; notifications := ns; servers := ss |}.

Record Point := { p_label : jstr; p_value : Z }.
Record AdminStats := {
  users_series : option (list Point);
  revenue_series : option (list Point);
}.

Definition decode_point (v : jval) : option Point :=
  l ← as_str (get v §"label");
  n ← as_num (get v §"value");
  Some {| p_label := l; p_value := n |}.

Definition decode_stats (v : jval) : option AdminStats :=
  if nullish v then None else
  u ← opt (decode_list decode_point) (get v §"users_series");
  r ← opt (decode_list decode_point) (get v §"revenue_series");
  Some {| users_series := u; revenue_series := r |}.

Definition decode_audit_log (v : jval) : option AdminAuditLog :=
  i ← as_num (get v §"id");
  actor ← opt as_num (get v §"actor_user_id");
  act ← as_str (get v §"action");
  en ← as_str (get v §"entity");
  ei ← as_str (get v §"entity_id");
  rs ← as_str (get v §"result");
  ms ← as_str (get v §"message");
  adr ← as_str (get v §"ip");
  cr ← as_str (get v §"created_at");
  Some {| a_id := i; actor_user_id := actor; a_action := act; entity := en; entity_id := ei;
          a_result := rs; a_message := ms; ip := adr; a_created_at := cr |}.

(** ** The spread is a refresh *)

(** A health reply that carries no field leaves the server as it is. *)
Lemma patch_server_nil s v : own_fields v = [] → patch_server s v = Some s.
Proof.
  intros Hv. unfold patch_server. assert (∀ {A} (r : jval → option A) k x, over r v k x = Some x) as H.
  { intros A r k x. unfold over. by rewrite Hv. }
  rewrite !H. simpl. by destruct s.
Qed.
