(* ===== verification/AdminPanel.v ===== *)
(** * The admin panel: [web/components/admin/AdminPanel.tsx]

    The panel's state, its commands and background refreshes, and the page
    with its sub-components ([web/components/admin/Charts.tsx] included).

    - An asynchronous function that awaits several requests is a chain of
      operations in flight; what its closure captured (the selected server, the
      busy marker) travels with them.
    - Effects run after the state changes of a step, in two renders: the
      second one has the updates that effects of the first one made.
      [revision] counts the updates of the servers and the filters, whose
      identity the effect on the visible servers depends on.
    - Timers and the passage of time are offered by a [window] element; the
      event stream is an operation that waits for the next event. *)
From S2P Require Export AdminWire Component.

Module AdminPanel.

(** ** State *)

Inductive AdminSection := overview_ | servers_ | incidents | users | payments | agent | settings.
Inductive DrawerTab := Health | Agent | Snapshot | Config | Actions | Audit.
Inductive ModalKind := update_ | rollback | toggle.

#[export] Instance AdminSection_eq_dec : EqDecision AdminSection.
Proof. solve_decision. Defined.
#[export] Instance DrawerTab_eq_dec : EqDecision DrawerTab.
Proof. solve_decision. Defined.
#[export] Instance ModalKind_eq_dec : EqDecision ModalKind.
Proof. solve_decision. Defined.

Record AdminActionModal := { m_kind : ModalKind; m_server : AdminServer }.

(** The local state of [ConfigImportPanel]. *)
Record ImportForm := {
  awgConfig : jstr;
  xrayConfig : jstr;
  xrayPublicKey : jstr;
  xrayShortID : jstr;
  xrayClientID : jstr;
}.

Record State := {
  overview : AdminOverview;
  notes : list AdminNotification;
  activeSection : AdminSection;
  filters : ServerFilters;
  selectedServerID : option Z;
  drawerTab : DrawerTab;
  stats : AdminStats;
  auditLogs : list AdminAuditLog;
  busyAction : option jstr;
  toast : jstr;
  actionModal : option AdminActionModal;
  pendingDigest : jstr;
  modalError : jstr;
  relativeNow : option Z;
  form : ImportForm;
  revision : nat;
  (** [Date.now()] *)
  clock : Z;
  (** a value of an undeclared type reached the page *)
  crashed : bool;
}.

#[export] Instance State_eta : Eta State := λ s,
  {| overview := overview s; notes := notes s; activeSection := activeSection s;
     filters := filters s; selectedServerID := selectedServerID s; drawerTab := drawerTab s;
     stats := stats s; auditLogs := auditLogs s; busyAction := busyAction s; toast := toast s;
     actionModal := actionModal s; pendingDigest := pendingDigest s; modalError := modalError s;
     relativeNow := relativeNow s; form := form s; revision := revision s; clock := clock s;
     crashed := crashed s |}.

#[export] Instance ImportForm_eta : Eta ImportForm := λ f,
  {| awgConfig := awgConfig f; xrayConfig := xrayConfig f; xrayPublicKey := xrayPublicKey f;
     xrayShortID := xrayShortID f; xrayClientID := xrayClientID f |}.

#[export] Instance ServerFilters_eta : Eta ServerFilters := λ f,
  {| query := query f; f_status := f_status f; f_region := f_region f; vipOnly := vipOnly f |}.

#[export] Instance AdminOverview_eta : Eta AdminOverview := λ o,
  {| kpis := kpis o; notifications := notifications o; servers := servers o |}.

(** ** Operations in flight *)

(** What remains of a command after its own request: [refreshOverview], then
    [refreshAudit] of the server selected at the click, then the end.  A
    command of the modal closes it, as its closure saw the busy marker. *)
Record Rest := { captured : option Z; closing : option (option jstr) }.

Inductive Operation :=
| Overview (rest : option Rest)
| Stats
| AuditOf (serverID : Z) (rest : option Rest)
| Post (url_ : jstr) (payload : option jval) (get_ : bool) (rest : Rest)
| HealthOf (serverID : Z)
| Events.

Definition json_headers : list header := [(§"Content-Type", §"application/json")].
Definition read_request (u : jstr) : Request :=
  {| method := §"GET"; url := u; headers := []; body := None |}.

Definition server_url (id : Z) (tail : jstr) : jstr := §"/api/admin/servers/" ++ num_str id ++ tail.
Definition notification_url (id : Z) (tail : jstr) : jstr :=
  §"/api/admin/notifications/" ++ num_str id ++ tail.

Definition operation_request (op : Operation) : Request :=
  match op with
  | Overview _ => read_request §"/api/admin/overview"
  | Stats => read_request §"/api/admin/stats?days=7"
  | AuditOf i _ => read_request (§"/api/admin/audit?entity=vpn_server&entity_id=" ++ num_str i)
  | Post u payload get_ _ =>
      {| method := if get_ then §"GET" else §"POST"; url := u; headers := json_headers;
         body := if get_ then None
                 else Some (match payload with Some v => stringify v | None => §"{}" end) |}
  | HealthOf i => read_request (server_url i §"/health")
  | Events => read_request §"/api/admin/events"
  end.

(** ** Derived values *)

Section Panel.
Context `{JsHost}.

Definition visibleServers (s : State) : list AdminServer :=
  applyServerFilters (servers (overview s)) (filters s).

Definition selectedServer (s : State) : option AdminServer :=
  match find_first (λ x, bool_decide (Some (s_id x) = selectedServerID s)) (servers (overview s)) with
  | Some x => Some x
  | None => head (visibleServers s)
  end.

Definition criticalBanner (s : State) : bool :=
  hasUnacknowledgedCriticalIncident (clock s) (notes s).
Definition openNotifications (s : State) : list AdminNotification :=
  filter (λ n, is_open n = true) (notes s).
Definition staleServers (s : State) : list AdminServer :=
  filter (λ x, stale x = true) (servers (overview s)).
Definition dockerUnavailable (s : State) : list AdminServer :=
  filter (λ x, docker_missing x = true) (servers (overview s)).
Definition fleetHealth (s : State) : Z :=
  computeFleetHealth (servers (overview s)) (openNotifications s).

Definition named_regions (ss : list AdminServer) : list jstr :=
  filter (λ r, str_truthy r = true) ((λ x, default [] (region x)) <$> ss).
Definition regions (s : State) : list jstr :=
  js_sort str_compare (nub (named_regions (servers (overview s)))).

(** ** Effects *)

Definition seeded (server : AdminServer) : ImportForm :=
  let x := config_summary server ≫= xray in
  {| awgConfig := seedAWGConfig server; xrayConfig := [];
     xrayPublicKey := default [] (x ≫= public_key); xrayShortID := default [] (x ≫= short_id);
     xrayClientID := [] |}.

(** The server whose configuration form is mounted. *)
Definition import_key (s : State) : option Z :=
  if bool_decide (drawerTab s = Config) then s_id <$> selectedServer s else None.

(** Mounting the form, or showing another server in it, seeds it. *)
Definition reseed (before after : State) : State :=
  match selectedServer after with
  | Some x =>
      if bool_decide (is_Some (import_key after)) && bool_decide (import_key before ≠ import_key after)
      then after <| form := seeded x |> else after
  | None => after
  end.

Definition reselect (before after : State) : State :=
  if (revision before =? revision after)%nat then after
  else after <| selectedServerID := preserveSelectedServer (selectedServerID after) (visibleServers after) |>.

Definition retab (before after : State) : State :=
  if bool_decide (activeSection before = activeSection after) then after
  else match activeSection after with
       | agent => after <| drawerTab := Agent |>
       | settings => after <| drawerTab := Config |>
       | servers_ => after <| drawerTab := Health |>
       | _ => after
       end.

Definition reaudit (before after : State) : list Operation :=
  let changed := negb (bool_decide (drawerTab before = drawerTab after)) ||
                 negb (bool_decide (s_id <$> selectedServer before = s_id <$> selectedServer after)) in
  match selectedServer after with
  | Some x => if changed && bool_decide (drawerTab after = Audit) then [AuditOf (s_id x) None] else []
  | None => []
  end.

(** The two renders after a step. *)
Definition effects (before : State) (o : Outcome State Operation) : Outcome State Operation :=
  let first := reseed before (new o) in
  let second := reseed first (retab before (reselect before first)) in
  Build_Outcome second (started o ++ reaudit before first ++ reaudit first second) (outs o).

(** ** Handlers *)

Definition setOverview (o : AdminOverview) (s : State) : State :=
  s <| overview := o |> <| revision := S (revision s) |>.
Definition setFilters (f : ServerFilters) (s : State) : State :=
  s <| filters := f |> <| revision := S (revision s) |>.

Definition postAction (label u : jstr) (payload : option jval) (get_ : bool)
    (closing : option (option jstr)) (s : State) : Outcome State Operation :=
  Build_Outcome (s <| busyAction := Some label |>)
    [Post u payload get_ {| captured := s_id <$> selectedServer s; closing := closing |}] [].

Definition refreshServerHealth (id : Z) (s : State) : Outcome State Operation :=
  Build_Outcome (s <| busyAction := Some (§"health-" ++ num_str id) |>) [HealthOf id] [].

Definition ackNotification (id : Z) : State → Outcome State Operation :=
  postAction (§"ack-" ++ num_str id) (notification_url id §"/ack") None false None.
Definition muteNotification (id : Z) : State → Outcome State Operation :=
  postAction (§"mute-" ++ num_str id) (notification_url id §"/mute")
    (Some (JObj [(§"minutes", JNum 30)])) false None.

Definition openActionModal (m : AdminActionModal) (s : State) : State :=
  s <| actionModal := Some m |> <| pendingDigest := [] |> <| modalError := [] |>.

(** [busy] is the marker of the closure that runs. *)
Definition closeActionModal (busy : option jstr) (s : State) : State :=
  if from_option (starts_with §"modal-") false busy then s
  else s <| actionModal := None |> <| pendingDigest := [] |> <| modalError := [] |>.

Definition modal_label (k : ModalKind) (id : Z) : jstr :=
  §"modal-" ++ match k with update_ => §"update" | rollback => §"rollback" | toggle => §"toggle" end
    ++ §"-" ++ num_str id.

Definition update_body (digest : jstr) : jval := JObj [(§"image_digest", JStr digest)].

Definition submitActionModal (s : State) : Outcome State Operation :=
  match actionModal s with
  | None => settled s
  | Some m =>
      let i := s_id (m_server m) in
      let label := modal_label (m_kind m) i in
      match m_kind m with
      | update_ =>
          let digest := trim (pendingDigest s) in
          if negb (immutableDigestPattern digest) then
            settled (s <| modalError :=
              §"Use an immutable image digest in the form repo/name@sha256:<64 hex chars>." |>)
          else postAction label (server_url i §"/agent/update") (Some (update_body digest)) false
                 (Some (busyAction s)) s
      | rollback =>
          postAction label (server_url i §"/agent/rollback") None false (Some (busyAction s)) s
      | toggle =>
          postAction label (server_url i §"/toggle") None false (Some (busyAction s)) s
      end
  end.

Definition import_body (f : ImportForm) : jval :=
  JObj [(§"awg_config", JStr (awgConfig f)); (§"xray_config_json", JStr (xrayConfig f));
        (§"xray_public_key", JStr (xrayPublicKey f)); (§"xray_short_id", JStr (xrayShortID f));
        (§"xray_client_id", JStr (xrayClientID f))].

Inductive Event :=
| DismissToast
| SelectSection (x : AdminSection)
| SelectServer (id : Z)
| TypeQuery (v : jstr)
| PickStatus (f : StatusFilter)
| PickRegion (r : jstr)
| PickVip (f : VipFilter)
| RefreshOverview
| RefreshHealth (id : Z)
| ImportSnapshot (id : Z)
| AgentStatus (id : Z)
| BannerAck
| Ack (id : Z)
| Mute (id : Z)
| SetTab (t : DrawerTab)
| OpenModal (m : AdminActionModal)
| CloseModal
| TypeDigest (v : jstr)
| SubmitModal
| EditForm (f : ImportForm)
| ImportConfigs (id : Z)
| Poll
| ClockTick
| Wait (instant : jstr).

Definition handler (e : Event) (s : State) : Outcome State Operation :=
  match e with
  | DismissToast => settled (s <| toast := [] |>)
  | SelectSection x => settled (s <| activeSection := x |>)
  | SelectServer i => settled (s <| selectedServerID := Some i |>)
  | TypeQuery v => settled (setFilters ((filters s) <| query := v |>) s)
  | PickStatus f => settled (setFilters ((filters s) <| f_status := f |>) s)
  | PickRegion r => settled (setFilters ((filters s) <| f_region := r |>) s)
  | PickVip f => settled (setFilters ((filters s) <| vipOnly := f |>) s)
  | RefreshOverview => Build_Outcome s [Overview None] []
  | RefreshHealth i => refreshServerHealth i s
  | ImportSnapshot i =>
      postAction (§"snapshot-" ++ num_str i) (server_url i §"/agent/snapshot") None false None s
  | AgentStatus i =>
      postAction (§"status-" ++ num_str i) (server_url i §"/agent/status") None true None s
  | BannerAck => match notes s with n :: _ => ackNotification (n_id n) s | [] => settled s end
  | Ack i => ackNotification i s
  | Mute i => muteNotification i s
  | SetTab t => settled (s <| drawerTab := t |>)
  | OpenModal m => settled (openActionModal m s)
  | CloseModal => settled (closeActionModal (busyAction s) s)
  | TypeDigest v => settled (s <| pendingDigest := v |> <| modalError := [] |>)
  | SubmitModal => submitActionModal s
  | EditForm f => settled (s <| form := f |>)
  | ImportConfigs i =>
      postAction (§"config-import-" ++ num_str i) (server_url i §"/configs/import")
        (Some (import_body (form s))) false None s
  | Poll => Build_Outcome s [Overview None; Stats] []
  | ClockTick => settled (s <| relativeNow := Some (clock s) |>)
  | Wait t => settled (match date_parse t with Some n => s <| clock := n |> | None => s end)
  end.

Definition handle (e : Event) (s : State) : Outcome State Operation := effects s (handler e s).

(** ** Replies *)

Definition say (msg : jstr) (s : State) : State := s <| toast := safeAdminErrorMessage msg |>.

(** [finally { setBusyAction(null) }], and closing the modal after a success. *)
Definition finish (closing : option (option jstr)) (s : State) : State :=
  let s := s <| busyAction := None |> in
  match closing with Some busy => closeActionModal busy s | None => s end.

Definition afterOverview (rest : option Rest) (s : State) : Outcome State Operation :=
  match rest with
  | None => settled s
  | Some r =>
      match captured r with
      | Some i => Build_Outcome s [AuditOf i (Some r)] []
      | None => settled (finish (closing r) s)
      end
  end.

(** The body of [refreshOverview]; its errors end in a toast. *)
Definition refreshed (reply : Reply) (s : State) : State :=
  match reply with
  | NetworkError m => say m s
  | Arrived res =>
      if negb (ok res) then say §"Overview недоступен" s else
      match resp_body res with
      | RawBody _ => say §"Unexpected token in JSON" s
      | JsonBody data =>
          match decode_overview data with
          | Some o => (setOverview o s) <| notes := notifications o |>
          | None => s <| crashed := true |>
          end
      end
  end.

Definition refreshedStats (reply : Reply) (s : State) : State :=
  match reply with
  | NetworkError _ => s <| stats := {| users_series := None; revenue_series := None |} |>
  | Arrived res =>
      if ok res then
        match resp_body res with
        | RawBody _ => s <| stats := {| users_series := None; revenue_series := None |} |>
        | JsonBody data =>
            match decode_stats data with
            | Some x => s <| stats := x |>
            | None => s <| crashed := true |>
            end
        end
      else s
  end.

Definition refreshedAudit (reply : Reply) (s : State) : State :=
  match reply with
  | NetworkError _ => s <| auditLogs := [] |>
  | Arrived res =>
      if ok res then
        match resp_body res with
        | RawBody _ => s <| auditLogs := [] |>
        | JsonBody data =>
            if nullish data then s <| auditLogs := [] |>
            else if nullish (get data §"audit_logs") then s <| auditLogs := [] |>
            else match decode_list decode_audit_log (get data §"audit_logs") with
                 | Some l => s <| auditLogs := l |>
                 | None => s <| crashed := true |>
                 end
        end
      else s
  end.

(** The message of the error that a failed command throws. *)
Definition command_error (res : Response) : jstr :=
  match resp_body res with
  | RawBody _ => §"Команда не выполнена"
  | JsonBody data =>
      if nullish data then §"Cannot read properties of null (reading 'error')"
      else if nullish (get data §"error") then §"Команда не выполнена"
      else to_text (get data §"error")
  end.

Definition posted (rest : Rest) (reply : Reply) (s : State) : Outcome State Operation :=
  match reply with
  | NetworkError m => settled ((say m s) <| busyAction := None |>)
  | Arrived res =>
      if ok res then
        Build_Outcome (s <| toast := §"Команда выполнена" |>) [Overview (Some rest)] []
      else settled ((say (command_error res) s) <| busyAction := None |>)
  end.

Definition patch_servers (id : Z) (v : jval) (ss : list AdminServer) : option (list AdminServer) :=
  mapM (λ x, if s_id x =? id then patch_server x v else Some x) ss.

Definition healthy (id : Z) (reply : Reply) (s : State) : State :=
  let s' :=
    match reply with
    | NetworkError m => say m s
    | Arrived res =>
        if negb (ok res) then say §"Health недоступен" s else
        match resp_body res with
        | RawBody _ => say §"Unexpected token in JSON" s
        | JsonBody data =>
            if nullish data then s <| crashed := true |> else
            match patch_servers id (get data §"server") (servers (overview s)),
                  decode_notifications (get data §"notifications") with
            | Some ss, Some ns =>
                (setOverview ((overview s) <| servers := ss |>) s)
                  <| notes := mergeNotificationEvent (notes s) ns |>
            | _, _ => s <| crashed := true |>
            end
        end
    end in
  s' <| busyAction := None |>.

(** The listener of the event stream; an error closes the stream. *)
Definition notified (reply : Reply) (s : State) : Outcome State Operation :=
  match reply with
  | NetworkError _ => settled s
  | Arrived res =>
      let s' :=
        match resp_body res with
        | RawBody _ => s <| toast := §"Не удалось обработать поток событий" |>
        | JsonBody data =>
            if nullish data then s <| crashed := true |> else
            match decode_notifications (get data §"notifications") with
            | None => s <| crashed := true |>
            | Some ns =>
                let s1 := if hasUnacknowledgedCriticalIncident (clock s) ns
                          then s <| toast := §"Новый критический инцидент" |> else s in
                s1 <| notes := mergeNotificationEvent (notes s) ns |>
            end
        end in
      Build_Outcome s' [Events] []
  end.

Definition replied (op : Operation) (reply : Reply) (s : State) : Outcome State Operation :=
  match op with
  | Overview rest => afterOverview rest (refreshed reply s)
  | Stats => settled (refreshedStats reply s)
  | AuditOf _ rest =>
      let s := refreshedAudit reply s in
      settled (match rest with Some r => finish (closing r) s | None => s end)
  | Post _ _ _ rest => posted rest reply s
  | HealthOf i => settled (healthy i reply s)
  | Events => notified reply s
  end.

Definition resumes (op : Operation) (reply : Reply) (s : State) : Outcome State Operation :=
  effects s (replied op reply s).

(** ** Rendering *)

Definition nat_str (n : nat) : jstr := num_str (Z.of_nat n).
Definition text_or (o : option jstr) (d : jstr) : jstr := str_or (default [] o) d.
Definition busy_with (s : State) (label : jstr) : bool := bool_decide (busyAction s = Some label).

(** *** Small components *)

Definition PanelHeader (title text : jstr) : node Event :=
  El §"div" [] [El §"h2" [] [Txt title]; El §"p" [] [Txt text]].

(** [onClick] turns the card into a button. *)
Definition StatusCard (label value detail : jstr) (onClick : option Event) : node Event :=
  El match onClick with Some _ => §"button" | None => §"div" end
    match onClick with Some e => [Prop_ §"type" §"button"; On §"click" e] | None => [] end
    [El §"div" [] [Txt label]; El §"div" [] [Txt value]; El §"div" [] [Txt detail]].

Definition FilterSelect (label value : jstr) (options : list (jstr * jstr * Event)) : node Event :=
  El §"label" []
    [El §"span" [] [Txt label];
     El §"select" (Prop_ §"value" value :: ((λ o, On §"change" o.2) <$> options))
       ((λ o, El §"option" [Prop_ §"value" o.1.1] [Txt o.1.2]) <$> options)].

Definition MiniMeter (value : Z) : node Event :=
  let normalized := meter value in
  El §"div" []
    [El §"span" [Prop_ §"width" (num_str normalized ++ §"%")] [];
     El §"span" [] [Txt (num_str normalized ++ §"%")]].

Definition StatusBadge (x : AdminServer) : node Event :=
  El §"span" [] [Txt (if stale x then §"Stale" else if active x then §"Online" else §"Off")].

Definition IconButton (label : jstr) (e : Event) (disabled : bool) : node Event :=
  El §"button" [Flag §"disabled" disabled; Prop_ §"aria-label" label; On §"click" e] [].

Definition Kpi (label value hint : jstr) : node Event :=
  El §"div" [] [El §"div" [] [Txt label]; El §"div" [] [Txt value]; El §"div" [] [Txt hint]].

Definition InfoRow (label value : jstr) : node Event :=
  El §"div" [] [El §"dt" [] [Txt label]; El §"dd" [Prop_ §"title" value] [Txt value]].

Definition ActionGroup (title : jstr) (children : list (node Event)) : node Event :=
  El §"div" [] [El §"div" [] [Txt title]; El §"div" [] children].

Definition ConfigInput (label value : jstr) (change : jstr → Event) : node Event :=
  El §"label" []
    [El §"span" [] [Txt label]; El §"input" [Prop_ §"value" value; OnText change] []].

(** *** Charts: the caption, the largest value and the last labels; the
    coordinates of the drawing are left out. *)

Definition series_max (points : list Point) : Z := foldr Z.max 1 (p_value <$> points).

Definition SparkAreaChart (title : jstr) (points : list Point) : node Event :=
  El §"figure" []
    [El §"figcaption" [] [El §"span" [] [Txt title];
                          El §"span" [] [Txt (locale_number (series_max points) ++ §" max")]];
     El §"div" []
       ((λ p, El §"span" [] [Txt (p_label p ++ §": " ++ locale_number (p_value p))])
          <$> drop (length points - 4) points)].

Definition UtilizationBars (items : list AdminServer) : node Event :=
  El §"div" []
    [El §"h3" [] [Txt §"Нагрузка VPS"]; El §"span" [] [Txt §"utilization"];
     El §"div" []
       ((λ x, let value := meter (default 0 (utilization x)) in
              El §"div" [] [El §"span" [] [Txt (s_name x)];
                            El §"span" [Prop_ §"width" (num_str value ++ §"%")] [];
                            El §"span" [] [Txt (num_str value ++ §"%")]])
          <$> take 6 items)].

(** *** The section in focus *)

Definition userPoints (s : State) : list Point :=
  match users_series (stats s) with
  | Some (p :: ps) => p :: ps
  | _ => [{| p_label := §"сейчас"; p_value := total_users (kpis (overview s)) |}]
  end.

Definition revenuePoints (s : State) : list Point :=
  match revenue_series (stats s) with
  | Some (p :: ps) => p :: ps
  | _ => [{| p_label := §"месяц"; p_value := monthly_revenue (kpis (overview s)) |}]
  end.

Definition severity_str (x : AdminSeverity) : jstr :=
  match x with sev_info => §"info" | sev_warning => §"warning" | sev_critical => §"critical" end.
Definition status_str (x : AdminNotificationStatus) : jstr :=
  match x with st_open => §"open" | st_resolved => §"resolved" end.
Definition origin (n : AdminNotification) : jstr := from_option ns_name §"Fleet" (n_server n).

(** [notification.server_id && onSelectServer(notification.server_id)] *)
Definition incident_click (n : AdminNotification) : list (prop Event) :=
  match n_server_id n with
  | Some i => if i =? 0 then [] else [On §"click" (SelectServer i)]
  | None => []
  end.

Definition incidents_focus (s : State) : node Event :=
  El §"div" []
    [PanelHeader §"Инциденты и уведомления"
       §"Открытые алерты, stale heartbeat и быстрый переход к проблемной VPS.";
     El §"div" []
       ([El §"div" [] [Txt §"Очередь реакции"]]
        ++ ((λ n, El §"button" (Prop_ §"type" §"button" :: incident_click n)
                    [El §"span" [] [Txt (n_title n)];
                     El §"span" [] [Txt (origin n ++ §" · " ++ status_str (n_status n))];
                     El §"span" [] [Txt (severity_str (severity n))]]) <$> take 5 (notes s))
        ++ show (length (notes s) =? 0)%nat [El §"div" [] [Txt §"Инцидентов нет."]])].

Definition users_focus (s : State) : node Event :=
  let ss := servers (overview s) in
  El §"div" []
    [StatusCard §"Аудитория" (num_str (from_option p_value 0 (last (userPoints s))))
       §"Регистрации за выбранный период" None;
     StatusCard §"Активные ключи" (num_str (foldl (λ sum x, sum + default 0 (active_keys x)) 0 ss))
       §"Распределены по VPS" None;
     PanelHeader §"Срез по регионам"
       (nat_str (length (nub (named_regions ss)))
          ++ §" регионов, VIP-only маршрутизация видна в таблице ниже.")].

Definition payments_focus (s : State) : node Event :=
  El §"div" []
    [SparkAreaChart §"Выручка по дням" (revenuePoints s);
     SparkAreaChart §"Рост пользователей" (userPoints s);
     PanelHeader §"Финансовый контроль"
       §"Платежные риски выводятся рядом с инцидентами, чтобы не терять связь между выручкой и доступностью сети."].

Definition agent_focus (s : State) : node Event :=
  let ss := servers (overview s) in
  El §"div" []
    [StatusCard §"Heartbeat stale" (nat_str (length (staleServers s))) §"Требуют проверки агента" None;
     StatusCard §"Docker unavailable" (nat_str (length (dockerUnavailable s)))
       §"Agent не видит Docker" None;
     StatusCard §"Digest tracked" (num_str (count (λ x, opt_str_truthy (agent_active_digest x)) ss))
       §"Immutable update ready" None;
     StatusCard §"Snapshot status"
       (num_str (count (λ x, opt_str_truthy (agent_last_snapshot_hash x)) ss))
       §"Есть актуальный hash" None].

Definition health_button (s : State) (x : AdminServer) (label : jstr) : node Event :=
  El §"button" [Flag §"disabled" (busy_with s (§"health-" ++ num_str (s_id x)));
                On §"click" (RefreshHealth (s_id x))] [Txt label].

Definition settings_focus (s : State) : node Event :=
  El §"div" []
    [PanelHeader §"Настройки конфигов"
       match selectedServer s with
       | Some x => §"Выбран сервер " ++ s_name x
                     ++ §". В правой панели открыт таб Config для импорта AWG/Xray."
       | None => §"Выберите VPS в таблице, чтобы импортировать AWG/Xray."
       end;
     El §"div" []
       ([El §"div" [] [Txt §"Health before config"];
         El §"div" [] [Txt §"Перед импортом проверьте heartbeat и snapshot."]]
        ++ match selectedServer s with
           | Some x => [health_button s x §"Health"; MiniMeter (default 0 (utilization x))]
           | None => [MiniMeter 0]
           end)].

Definition overview_focus (s : State) : node Event :=
  El §"div" []
    [El §"div" []
       [El §"div" [] [Txt §"Fleet health"]; El §"div" [] [Txt (num_str (fleetHealth s) ++ §"%")];
        El §"p" [] [Txt §"Сводный индекс по heartbeat, Docker, активности VPS и открытым инцидентам."];
        MiniMeter (fleetHealth s)];
     StatusCard §"Инциденты" (nat_str (length (openNotifications s))) §"Открытые уведомления"
       (Some (SelectSection incidents));
     StatusCard §"VPS под контролем" (nat_str (length (servers (overview s))))
       (nat_str (length (staleServers s)) ++ §" stale heartbeat") (Some (SelectSection servers_))].

Definition SectionFocus (s : State) : node Event :=
  match activeSection s with
  | incidents => incidents_focus s
  | users => users_focus s
  | payments => payments_focus s
  | agent => agent_focus s
  | settings => settings_focus s
  | _ => overview_focus s
  end.

(** *** Inbox and drawer *)

Definition NotificationInbox (s : State) : node Event :=
  El §"section" []
    ([El §"h2" [] [Txt §"Уведомления"];
      El §"span" [] [Txt (nat_str (length (openNotifications s)) ++ §" open")]]
     ++ show (length (notes s) =? 0)%nat [El §"p" [] [Txt §"Инцидентов нет."]]
     ++ ((λ n, El §"article" []
                 [El §"div" [] [Txt (n_title n)];
                  El §"div" [] [Txt (origin n ++ §" · "
                                     ++ formatRelative (Some (n_created_at n)) (relativeNow s))];
                  El §"span" [] [Txt (severity_str (severity n))];
                  El §"p" [] [Txt (safeAdminText (Some (n_message n)) [])];
                  El §"button" [On §"click" (Ack (n_id n))] [Txt §"Принять"];
                  El §"button" [On §"click" (Mute (n_id n))] [Txt §"Mute 30м"]]) <$> notes s)).

Definition HealthSignalGrid (x : AdminServer) : node Event :=
  let signals :=
    [(§"Heartbeat", if stale x then §"stale" else §"fresh");
     (§"Docker", if opt_true (agent_docker_available x) then §"available" else §"missing");
     (§"Agent", str_or (default [] (agent_last_health_status x)) (text_or (agent_mode x) §"manual"));
     (§"Pi-hole", if opt_str_truthy (pihole_last_sync_error x) then §"error"
                  else if opt_true (pihole_enabled x) then §"enabled" else §"off")] in
  El §"div" []
    ((λ signal, El §"div" [] [El §"div" [] [Txt signal.1]; El §"div" [] [Txt signal.2]]) <$> signals).

Definition health_tab (s : State) (x : AdminServer) : node Event :=
  El §"div" []
    [HealthSignalGrid x;
     InfoRow §"Heartbeat" (formatRelative (agent_last_heartbeat_at x) (relativeNow s));
     InfoRow §"Docker" (if opt_true (agent_docker_available x) then §"available" else §"unavailable");
     InfoRow §"Uptime" (formatDuration (default 0 (agent_uptime_seconds x)));
     InfoRow §"Pi-hole"
       (if opt_str_truthy (pihole_last_sync_error x) then safeAdminText (pihole_last_sync_error x) §"—"
        else if opt_true (pihole_enabled x) then §"enabled" else §"disabled");
     health_button s x §"Refresh health"].

Definition agent_tab (x : AdminServer) : node Event :=
  El §"dl" []
    [InfoRow §"Version" (text_or (agent_last_version x) §"—");
     InfoRow §"Commit" (text_or (agent_last_commit x) §"—");
     InfoRow §"Active digest" (text_or (agent_active_digest x) §"—");
     InfoRow §"Previous digest" (text_or (agent_previous_digest x) §"—");
     InfoRow §"Update"
       (if opt_str_truthy (agent_last_update_error x) then safeAdminText (agent_last_update_error x) §"—"
        else text_or (agent_last_update_status x) §"—")].

Definition snapshot_tab (s : State) (x : AdminServer) : node Event :=
  El §"dl" []
    [InfoRow §"Hash" (text_or (agent_last_snapshot_hash x) §"—");
     InfoRow §"Snapshot at" (formatRelative (agent_last_snapshot_at x) (relativeNow s));
     InfoRow §"Status" (text_or (agent_last_snapshot_status x) §"—");
     El §"button" [Flag §"disabled" (busy_with s (§"snapshot-" ++ num_str (s_id x)));
                   On §"click" (ImportSnapshot (s_id x))] [Txt §"Import snapshot"]].

Definition ConfigImportPanel (s : State) (x : AdminServer) : node Event :=
  let f := form s in
  let busy := busy_with s (§"config-import-" ++ num_str (s_id x)) in
  El §"div" []
    [El §"div" [] [Txt §"Импорт сохраняет шаблон в базе и не пишет напрямую в файлы VPS. Для применения на ноде используйте snapshot/agent действия отдельно."];
     El §"span" [] [Txt §"AWG config"];
     El §"textarea" [Prop_ §"value" (awgConfig f); OnText (λ v, EditForm (f <| awgConfig := v |>))] [];
     El §"span" [] [Txt §"Xray server.json"];
     El §"textarea" [Prop_ §"value" (xrayConfig f); OnText (λ v, EditForm (f <| xrayConfig := v |>))] [];
     ConfigInput §"Reality public key" (xrayPublicKey f) (λ v, EditForm (f <| xrayPublicKey := v |>));
     ConfigInput §"Short ID" (xrayShortID f) (λ v, EditForm (f <| xrayShortID := v |>));
     ConfigInput §"Template client ID" (xrayClientID f) (λ v, EditForm (f <| xrayClientID := v |>));
     El §"button"
       [Flag §"disabled" (busy || (negb (str_truthy (trim (awgConfig f)))
                                   && negb (str_truthy (trim (xrayConfig f)))));
        On §"click" (ImportConfigs (s_id x))]
       [Txt (if busy then §"Импорт..." else §"Импортировать конфиги")]].

Definition actions_tab (s : State) (x : AdminServer) : node Event :=
  El §"div" []
    [ActionGroup §"Safe checks"
       [El §"button" [Flag §"disabled" (busy_with s (§"status-" ++ num_str (s_id x)));
                      On §"click" (AgentStatus (s_id x))] [Txt §"Agent status"];
        health_button s x §"Refresh health"];
     ActionGroup §"Maintenance"
       [El §"button" [On §"click" (OpenModal {| m_kind := update_; m_server := x |})]
          [Txt §"Update by digest"];
        El §"button" [On §"click" (OpenModal {| m_kind := rollback; m_server := x |})]
          [Txt §"Rollback"]];
     ActionGroup §"Destructive"
       [El §"button" [On §"click" (OpenModal {| m_kind := toggle; m_server := x |})]
          [Txt (if active x then §"Disable server" else §"Enable server")]]].

Definition audit_tab (s : State) : node Event :=
  El §"div" []
    (show (length (auditLogs s) =? 0)%nat [El §"p" [] [Txt §"Событий пока нет."]]
     ++ ((λ l, El §"div" []
                 [El §"div" [] [Txt (a_action l ++ §" · " ++ a_result l)];
                  El §"div" [] [Txt (formatRelative (Some (a_created_at l)) (relativeNow s) ++ §" "
                     ++ if str_truthy (a_message l)
                        then §"· " ++ safeAdminText (Some (a_message l)) [] else [])]])
           <$> auditLogs s)).

Definition drawerTabs : list (DrawerTab * jstr) :=
  [(Health, §"Health"); (Agent, §"Agent"); (Snapshot, §"Snapshot"); (Config, §"Config");
   (Actions, §"Actions"); (Audit, §"Audit")].

Definition ServerDrawer (s : State) (x : AdminServer) : node Event :=
  El §"section" []
    [El §"h2" [] [Txt (s_name x)];
     El §"p" [] [Txt (text_or (endpoint x) (default [] (host x)))];
     StatusBadge x;
     El §"div" [] ((λ t, El §"button" [On §"click" (SetTab t.1)] [Txt t.2]) <$> drawerTabs);
     match drawerTab s with
     | Health => health_tab s x
     | Agent => agent_tab x
     | Snapshot => snapshot_tab s x
     | Config => ConfigImportPanel s x
     | Actions => actions_tab s x
     | Audit => audit_tab s
     end].

(** *** The modal *)

Definition modal_title (k : ModalKind) : jstr :=
  match k with
  | update_ => §"Update agent image"
  | rollback => §"Rollback agent image"
  | toggle => §"Toggle server active state"
  end.

Definition modal_description (k : ModalKind) : jstr :=
  match k with
  | update_ => §"Only immutable image digests are accepted. The backend will send the command through the existing signed agent API."
  | rollback => §"This rolls the agent back to the previous recorded digest. Current user VPN access is not changed directly."
  | toggle => §"This changes whether the server is eligible for users. Existing direct SSH or Docker access is never exposed to the UI."
  end.

Definition submit_label (m : AdminActionModal) : jstr :=
  match m_kind m with
  | update_ => §"Update by digest"
  | rollback => §"Rollback"
  | toggle => if active (m_server m) then §"Disable server" else §"Enable server"
  end.

Definition digestValid (m : AdminActionModal) (digest : jstr) : bool :=
  negb (bool_decide (m_kind m = update_)) || immutableDigestPattern (trim digest).

Definition modal_busy (s : State) (m : AdminActionModal) : bool :=
  busy_with s (modal_label (m_kind m) (s_id (m_server m))).

Definition ActionModal (s : State) : list (node Event) :=
  match actionModal s with
  | None => []
  | Some m =>
      let busy := modal_busy s m in
      [El §"div" [Prop_ §"role" §"dialog"]
         ([El §"h2" [] [Txt (modal_title (m_kind m))];
           El §"p" [] [Txt (s_name (m_server m) ++ §" · " ++ modal_description (m_kind m))];
           El §"button" [Prop_ §"aria-label" §"Close action modal"; On §"click" CloseModal] [];
           if bool_decide (m_kind m = update_) then
             El §"label" []
               ([El §"span" [] [Txt §"Immutable image digest"];
                 El §"input" [Prop_ §"value" (pendingDigest s); OnText TypeDigest] []]
                ++ show (negb (digestValid m (pendingDigest s)))
                     [El §"span" [] [Txt §"Use an immutable image@sha256 digest. Mutable tags like :latest are blocked."]])
           else El §"div" []
                  [Txt (§"Confirm this controlled action for " ++ s_name (m_server m) ++ §".")]]
          ++ show (str_truthy (modalError s)) [El §"div" [] [Txt (modalError s)]]
          ++ [El §"button" [Flag §"disabled" busy; On §"click" CloseModal] [Txt §"Cancel"];
              El §"button" [Flag §"disabled" (busy || negb (digestValid m (pendingDigest s)));
                            On §"click" SubmitModal]
                [Txt (if busy then §"Working..." else submit_label m)]])]
  end.

(** *** The page *)

Definition navItems : list (AdminSection * jstr * jstr) :=
  [(overview_, §"Обзор", §"Состояние продукта"); (servers_, §"VPS", §"Флот и действия");
   (incidents, §"Инциденты", §"SLA и алерты"); (users, §"Пользователи", §"Аудитория и ключи");
   (payments, §"Платежи", §"Выручка и риски"); (agent, §"Агент", §"Digest, Docker, snapshot");
   (settings, §"Настройки", §"AWG/Xray и аудит")].

Definition toast_view (s : State) : list (node Event) :=
  show (str_truthy (toast s))
    [El §"div" [Prop_ §"role" §"status"]
       [Txt (toast s);
        El §"button" [Prop_ §"aria-label" §"Закрыть уведомление"; On §"click" DismissToast] []]].

Definition sidebar : node Event :=
  El §"aside" []
    [El §"div" [] [Txt §"FBLink VPN"]; El §"div" [] [Txt §"Admin cockpit"];
     El §"nav" []
       ((λ i, El §"button" [Prop_ §"type" §"button"; On §"click" (SelectSection i.1.1)]
                [El §"span" [] [Txt i.1.2]; El §"span" [] [Txt i.2]]) <$> navItems)].

Definition topbar (adminEmail : jstr) (s : State) : node Event :=
  El §"header" []
    [El §"input" [Prop_ §"value" (query (filters s)); OnText TypeQuery;
                  Prop_ §"placeholder" §"Поиск VPS, endpoint, регион"] [];
     El §"select" [Prop_ §"aria-label" §"Окружение"] [El §"option" [] [Txt §"Production"]];
     El §"button" [Prop_ §"aria-label" §"Уведомления"]
       (show (negb (length (notes s) =? 0)%nat)
          [El §"span" [] [Txt (nat_str (length (notes s)))]]);
     El §"span" [] [Txt adminEmail]].

Definition banner (s : State) : list (node Event) :=
  show (criticalBanner s)
    [El §"div" [Prop_ §"role" §"alert"]
       [El §"div" [] [Txt §"1 VPS недоступен или heartbeat устарел"];
        El §"div" [] [Txt §"Проверьте agent status, последний snapshot и сетевую доступность."];
        El §"button" [On §"click" BannerAck] [Txt §"Принять"]]].

Definition kpi_row (s : State) : node Event :=
  let k := kpis (overview s) in
  El §"div" []
    [Kpi §"Uptime fleet" (num_str (active_servers k) ++ §"/" ++ num_str (total_servers k))
       §"активные VPS";
     Kpi §"VPS" (num_str (total_servers k)) (num_str (open_incidents k) ++ §" инцидентов");
     Kpi §"Пользователи" (locale_number (total_users k))
       (num_str (active_subscriptions k) ++ §" активных");
     Kpi §"Ключи" (locale_number (active_vpn_keys k)) §"AWG + VLESS";
     Kpi §"MRR" (locale_number (monthly_revenue k) ++ §" ₽") §"текущий месяц"].

Definition status_name (f : StatusFilter) : jstr :=
  match f with
  | status_all => §"all" | status_active => §"active"
  | status_inactive => §"inactive" | status_stale => §"stale"
  end.
Definition vip_name (f : VipFilter) : jstr :=
  match f with vip_all => §"all" | vip_vip => §"vip" | vip_standard => §"standard" end.

Definition filter_row (s : State) : node Event :=
  let opt_status f l := (status_name f, l, PickStatus f) in
  let opt_vip f l := (vip_name f, l, PickVip f) in
  El §"div" []
    [FilterSelect §"Статус" (status_name (f_status (filters s)))
       [opt_status status_all §"Все"; opt_status status_active §"Активные";
        opt_status status_inactive §"Отключены"; opt_status status_stale §"Stale"];
     FilterSelect §"Регион" (f_region (filters s))
       (([], §"Все регионы", PickRegion []) :: ((λ r, (r, r, PickRegion r)) <$> regions s));
     FilterSelect §"VIP" (vip_name (vipOnly (filters s)))
       [opt_vip vip_all §"Все"; opt_vip vip_vip §"VIP"; opt_vip vip_standard §"Standard"];
     El §"button" [On §"click" RefreshOverview] [Txt §"Обновить"]].

Definition server_row (s : State) (x : AdminServer) : node Event :=
  let i := s_id x in
  El §"tr" []
    [El §"button" [On §"click" (SelectServer i)]
       [El §"span" [] [Txt (s_name x)];
        El §"span" [] [Txt (text_or (region x) §"—" ++ §" · "
                            ++ text_or (endpoint x) (default [] (host x)))]];
     El §"td" [] [Txt (text_or (agent_mode x) §"manual")];
     El §"td" [] [Txt (num_str (default 0 (active_awg x)) ++ §" AWG / "
                       ++ num_str (default 0 (active_vless x)) ++ §" VLESS")];
     MiniMeter (default 0 (utilization x));
     El §"td" [] [Txt (formatRelative (agent_last_heartbeat_at x) (relativeNow s))];
     StatusBadge x;
     IconButton §"Health" (RefreshHealth i) (busy_with s (§"health-" ++ num_str i));
     IconButton §"Snapshot" (ImportSnapshot i) (busy_with s (§"snapshot-" ++ num_str i));
     IconButton §"Details" (SelectServer i) false].

Definition server_table (s : State) : node Event :=
  El §"div" []
    [El §"h1" [] [Txt §"VPS health"];
     El §"p" [] [Txt §"Agent-first контроль, heartbeat, нагрузка, протоколы и быстрые действия."];
     filter_row s;
     El §"table" []
       [El §"tr" [] ((λ h, El §"th" [] [Txt h]) <$>
          [§"Сервер"; §"Agent"; §"Клиенты"; §"Нагрузка"; §"Heartbeat"; §"Статус"; §"Действия"]);
        El §"tbody" [] (server_row s <$> visibleServers s)]].

(** The timers of the panel, and the passage of time between renders. *)
Definition window : node Event :=
  El §"window" [On §"interval" Poll; On §"interval" ClockTick; OnText Wait] [].

Definition render (adminEmail : jstr) (s : State) : list (node Event) :=
  if crashed s then [] else
  toast_view s
  ++ [sidebar;
      El §"main" []
        [topbar adminEmail s;
         El §"section" []
           (banner s
            ++ [kpi_row s; SectionFocus s; server_table s;
                SparkAreaChart §"Новые пользователи" (userPoints s);
                SparkAreaChart §"Выручка" (revenuePoints s);
                UtilizationBars (servers (overview s))]);
         El §"aside" []
           (NotificationInbox s
            :: match selectedServer s with Some x => [ServerDrawer s x] | None => [] end)]]
  ++ ActionModal s
  ++ [window].

(** ** The component *)

Definition all_filters : ServerFilters :=
  {| query := []; f_status := status_all; f_region := []; vipOnly := vip_all |}.

Definition blank_form : ImportForm :=
  {| awgConfig := []; xrayConfig := []; xrayPublicKey := []; xrayShortID := []; xrayClientID := [] |}.

(** The first render, and what its effects set: the clock and the selection. *)
Definition initial (initialOverview : AdminOverview) (now : Z) : State :=
  let first := s_id <$> head (servers initialOverview) in
  {| overview := initialOverview; notes := notifications initialOverview;
     activeSection := overview_; filters := all_filters;
     selectedServerID :=
       preserveSelectedServer first (applyServerFilters (servers initialOverview) all_filters);
     drawerTab := Health; stats := {| users_series := None; revenue_series := None |};
     auditLogs := []; busyAction := None; toast := []; actionModal := None; pendingDigest := [];
     modalError := []; relativeNow := Some now; form := blank_form; revision := 0; clock := now;
     crashed := false |}.

Definition component (adminEmail : jstr) (initialOverview : AdminOverview) (now : Z) : Component := {|
  St := State; Ev := Event; Op := Operation;
  mount := Build_Outcome (initial initialOverview now) [Stats; Events] [];
  view := render adminEmail;
  on := handle;
  request := operation_request;
  resume := resumes;
|}.

(** ** Effects only read the audit log and never touch the busy marker *)

Lemma reaudit_only before after op : op ∈ reaudit before after → ∃ i, op = AuditOf i None.
Proof. unfold reaudit. repeat case_match; set_solver. Qed.

Lemma effects_started s o op :
  op ∈ started (effects s o) → op ∈ started o ∨ ∃ i, op = AuditOf i None.
Proof.
  unfold effects. cbn [started]. rewrite !elem_of_app.
  intros [?|[?%reaudit_only|?%reaudit_only]]; auto.
Qed.

Lemma effects_keeps s o op : op ∈ started o → op ∈ started (effects s o).
Proof. intros. unfold effects. cbn [started]. rewrite !elem_of_app. by left. Qed.

Lemma effects_busy s o : busyAction (new (effects s o)) = busyAction (new o).
Proof.
  assert (∀ a b, busyAction (reseed a b) = busyAction b) as Hs.
  { intros a b. unfold reseed. by repeat case_match. }
  unfold effects. cbn [new]. rewrite Hs. unfold retab, reselect.
  repeat case_match; simpl; apply Hs.
Qed.

(** ** The marker of a running command *)

Definition is_command (op : Operation) : bool :=
  match op with
  | Overview rest | AuditOf _ rest => bool_decide (is_Some rest)
  | Post _ _ _ _ | HealthOf _ => true
  | Stats | Events => false
  end.

(** A step keeps the marker, or leaves a command in flight, or clears it. *)
Definition tracks (s : State) (o : Outcome State Operation) : Prop :=
  busyAction (new o) = busyAction s ∨ busyAction (new o) = None ∨
  ∃ op, op ∈ started o ∧ is_command op = true.

Lemma postAction_tracks l u p g c s : tracks s (postAction l u p g c s).
Proof. right. right. eexists. split; [by left|done]. Qed.

Lemma closeActionModal_busy b s : busyAction (closeActionModal b s) = busyAction s.
Proof. unfold closeActionModal. by case_match. Qed.

Lemma finish_busy c s : busyAction (finish c s) = None.
Proof. unfold finish. destruct c; [apply closeActionModal_busy|done]. Qed.

Lemma handler_tracks e s : tracks s (handler e s).
Proof.
  destruct e; simpl; try apply postAction_tracks; try (by left).
  - right. right. eexists. split; [by left|done].
  - destruct (notes s); [by left|]. apply postAction_tracks.
  - left. apply closeActionModal_busy.
  - unfold submitActionModal. repeat case_match; try apply postAction_tracks; by left.
  - left. simpl. by case_match.
Qed.

(** The end of a command clears the marker or hands over to its next request. *)
Lemma replied_command op r s :
  is_command op = true →
  busyAction (new (replied op r s)) = None ∨
  ∃ op', op' ∈ started (replied op r s) ∧ is_command op' = true.
Proof.
  destruct op as [rest| |i rest|u p g rest|i|]; simpl; try done; intros Hk.
  - apply bool_decide_eq_true in Hk as [x ->]. simpl. destruct (captured x); [|left; apply finish_busy].
    right. eexists. split; [by left|]. by apply bool_decide_eq_true.
  - apply bool_decide_eq_true in Hk as [x ->]. left. apply finish_busy.
  - unfold posted. destruct r as [res|]; [|by left]. destruct (ok res); [|by left].
    right. eexists. split; [by left|]. by apply bool_decide_eq_true.
  - by left.
Qed.

(** Background refreshes leave the marker alone. *)
Lemma replied_background op r s :
  is_command op = false → busyAction (new (replied op r s)) = busyAction s.
Proof.
  destruct op as [[x|]| |i [x|]|u p g rest|i|]; simpl; try done; intros _.
  - unfold refreshed. by repeat case_match.
  - unfold refreshedStats. by repeat case_match.
  - unfold refreshedAudit. by repeat case_match.
  - unfold notified. by repeat (case_match; simpl).
Qed.

Section Invariants.
Context (adminEmail : jstr) (initialOverview : AdminOverview) (now : Z).
Let panel := component adminEmail initialOverview now.

(** C22: the panel is marked busy only while one of its commands is in flight,
    so a marker never outlives the commands: once every request has been
    answered, no control is disabled for being busy. *)
Theorem admin_busy_inflight s :
  reached panel s → busyAction (st s) ≠ None →
  ∃ op, op ∈ pending s ∧ is_command op = true.
Proof.
  revert s. apply (component_invariant panel
    (λ s, busyAction (st s) ≠ None → ∃ op, op ∈ pending s ∧ is_command op = true)).
  - done.
  - intros s e _ Hs _. cbn [commit st pending on panel component]. unfold handle.
    rewrite effects_busy. intros Hb. destruct (handler_tracks e (st s)) as [E|[E|(op & Hin & Hk)]].
    + rewrite E in Hb. destruct (Hs Hb) as (op & Hin & Hk). exists op. split; [by apply elem_of_app; left|done].
    + by rewrite E in Hb.
    + exists op. split; [by apply elem_of_app; right; apply effects_keeps|done].
  - intros s i op r _ Hs Hi. cbn [commit st pending resume panel component]. unfold resumes.
    rewrite effects_busy. intros Hb. destruct (is_command op) eqn:Hk.
    + destruct (replied_command op r (st s) Hk) as [E|(op' & Hin & Hk')]; [by rewrite E in Hb|].
      exists op'. split; [by apply elem_of_app; right; apply effects_keeps|done].
    + rewrite replied_background in Hb by done. destruct (Hs Hb) as (op' & Hin & Hk').
      exists op'. split; [|done]. apply elem_of_app. left.
      assert (op' ∈ filter (λ op : Op panel, is_command op = true) (delete i (pending s))) as Hf.
      { rewrite (filter_delete_miss panel is_command _ _ _ Hi Hk). by apply list_elem_of_filter. }
      by apply list_elem_of_filter in Hf as [_ ?].
Qed.

(** *** Updates carry an immutable digest *)

Definition update_url (i : Z) : jstr := server_url i §"/agent/update".

(** The last four units of two equal texts that end in known tails. *)
Lemma tails_agree (x y a b : jstr) :
  x ++ a = y ++ b → (4 ≤ length a)%nat → (4 ≤ length b)%nat →
  drop (length a - 4) a = drop (length b - 4) b.
Proof.
  intros E Ha Hb.
  assert (∀ u v : jstr, (4 ≤ length v)%nat → drop (length (u ++ v) - 4) (u ++ v) = drop (length v - 4) v)
    as Hd.
  { intros u v Hv. rewrite length_app, drop_app_ge by lia. f_equal. lia. }
  by rewrite <-(Hd x a), <-(Hd y b), E.
Qed.

Lemma server_url_update i j tail :
  (4 ≤ length tail)%nat → drop (length tail - 4) tail ≠ §"date" → server_url i tail ≠ update_url j.
Proof.
  unfold update_url, server_url. rewrite !app_assoc. intros Hl Hne E.
  apply tails_agree in E; [|done|by vm_compute; lia]. by rewrite E in Hne.
Qed.

Lemma notification_url_update i j tail :
  (4 ≤ length tail)%nat → drop (length tail - 4) tail ≠ §"date" → notification_url i tail ≠ update_url j.
Proof.
  unfold update_url, server_url, notification_url. rewrite !app_assoc. intros Hl Hne E.
  apply tails_agree in E; [|done|by vm_compute; lia]. by rewrite E in Hne.
Qed.

(** What the panel may send to the update route. *)
Definition digest_checked (r : Request) : Prop :=
  ∀ i, url r = update_url i →
  ∃ d, immutableDigestPattern d = true ∧ method r = §"POST" ∧ body r = Some (stringify (update_body d)).

Lemma read_digest_checked u : (∀ i, u ≠ update_url i) → digest_checked (read_request u).
Proof. intros Hu i E. by destruct (Hu i). Qed.

Lemma background_digest_checked op :
  match op with Post _ _ _ _ => False | _ => True end → digest_checked (operation_request op).
Proof.
  assert (∀ k u i, u !! k ≠ §"/api/admin/servers/" !! k → (k < 19)%nat → u ≠ update_url i) as Hk.
  { intros k u i Hne Hlt ->. apply Hne. unfold update_url, server_url.
    by rewrite lookup_app_l by (vm_compute; lia). }
  destruct op; [..|done| |]; intros _; apply read_digest_checked; intros j.
  - by apply (Hk 11%nat); [vm_compute|lia].
  - by apply (Hk 12%nat); [vm_compute|lia].
  - apply (Hk 11%nat); [|lia]. rewrite lookup_app_l by (vm_compute; lia). by vm_compute.
  - by apply server_url_update; [vm_compute; lia|vm_compute].
  - by apply (Hk 11%nat); [vm_compute|lia].
Qed.

Lemma post_digest_checked l u p g c s :
  (∀ i, u ≠ update_url i) →
  Forall (λ op, digest_checked (operation_request op)) (started (postAction l u p g c s)).
Proof. intros Hu. constructor; [|constructor]. intros i E. by destruct (Hu i). Qed.

Lemma submit_digest_checked s :
  Forall (λ op, digest_checked (operation_request op)) (started (submitActionModal s)).
Proof.
  unfold submitActionModal. destruct (actionModal s) as [m|]; [|constructor].
  destruct (m_kind m).
  - destruct (immutableDigestPattern (trim (pendingDigest s))) eqn:E; [|constructor].
    constructor; [|constructor]. intros i _. eauto.
  - apply post_digest_checked. intros i. by apply server_url_update; [vm_compute; lia|vm_compute].
  - apply post_digest_checked. intros i. by apply server_url_update; [vm_compute; lia|vm_compute].
Qed.

Lemma handler_digest_checked e s :
  Forall (λ op, digest_checked (operation_request op)) (started (handler e s)).
Proof.
  assert (∀ i j tail, (4 ≤ length tail)%nat ∧ drop (length tail - 4) tail ≠ §"date" →
    notification_url i tail ≠ update_url j ∧ server_url i tail ≠ update_url j) as Hu.
  { intros i j tail [??]. split; [by apply notification_url_update|by apply server_url_update]. }
  assert (∀ tail, (4 <=? length tail)%nat && negb (str_eqb (drop (length tail - 4) tail) §"date") = true →
    (4 ≤ length tail)%nat ∧ drop (length tail - 4) tail ≠ §"date") as Ht.
  { intros tail [Hl%Nat.leb_le Hn%negb_true_iff]%andb_true_iff. split; [done|].
    by apply bool_decide_eq_false in Hn. }
  destruct e; cbn [handler]; try apply submit_digest_checked.
  all: try (apply post_digest_checked; intros j;
            first [refine (proj2 (Hu _ _ _ (Ht _ _))) | refine (proj1 (Hu _ _ _ (Ht _ _)))];
            vm_compute; reflexivity).
  all: try (cbn [started settled]; repeat (apply Forall_cons; split); by try apply background_digest_checked).
  destruct (notes s); [constructor|].
  apply post_digest_checked. intros j. refine (proj1 (Hu _ _ _ (Ht _ _))). vm_compute. reflexivity.
Qed.

Lemma replied_digest_checked op r s :
  Forall (λ op, digest_checked (operation_request op)) (started (replied op r s)).
Proof.
  destruct op; simpl; try constructor.
  - unfold afterOverview. destruct rest as [x|]; [|constructor]. destruct (captured x); repeat constructor.
    by apply background_digest_checked.
  - unfold posted. destruct r as [res|]; [|constructor]. destruct (ok res); repeat constructor.
    by apply background_digest_checked.
  - unfold notified. destruct r; repeat constructor. by apply background_digest_checked.
Qed.

Lemma effects_digest_checked s o :
  Forall (λ op, digest_checked (operation_request op)) (started o) →
  Forall (λ op, digest_checked (operation_request op)) (started (effects s o)).
Proof.
  rewrite !Forall_forall. intros Ho op [Hin|[i ->]]%effects_started; [by apply Ho|].
  by apply background_digest_checked.
Qed.

(** C14: every request the panel ever sends to the update route of a server is
    a POST whose body is an image digest that the immutable digest pattern
    accepts: no sequence of clicks, inputs, timers, stream events and replies
    sends a mutable tag. *)
Theorem admin_update_digest s r i :
  reached panel s → r ∈ requests s → url r = update_url i →
  ∃ d, immutableDigestPattern d = true ∧ method r = §"POST" ∧ body r = Some (stringify (update_body d)).
Proof.
  intros Hr Hin Hu.
  destruct (started_invariant panel (λ op, digest_checked (operation_request op))) with s
    as [_ Hreq]; [| | |done|].
  - repeat constructor; by apply background_digest_checked.
  - intros s' e _ _. apply effects_digest_checked, handler_digest_checked.
  - intros s' op reply _ _. apply effects_digest_checked, replied_digest_checked.
  - destruct (Hreq r Hin) as (op & Hop & ->). exact (Hop i Hu).
Qed.
End Invariants.
End Panel.

(** ** A concrete panel *)

Definition sample_overview : AdminOverview :=
  {| kpis := {| total_users := 0; active_subscriptions := 0; active_vpn_keys := 0;
                total_servers := 2; active_servers := 2; open_incidents := 2; monthly_revenue := 0 |};
     notifications :=
       [sample_notification 7 sev_info §"Snapshot imported" §"2026-05-30T12:00:00Z" None None;
        sample_notification 8 sev_critical §"VPS down" §"2026-05-30T11:00:00Z" None None];
     servers := two_servers |}.

Definition sample : Component := @component plain_host §"admin@example.com" sample_overview 0.

Definition good_digest : jstr :=
  §"registry.example/agent@sha256:" ++ replicate 64 97.

Definition update_run : list Label :=
  [Click 37; Click 41; Input 1 (§" " ++ good_digest); Click 46].

Lemma admin_busy_inflight_witness :
  busyAction (st (final sample update_run)) ≠ None ∧
  ∃ op, op ∈ pending (final sample update_run) ∧ is_command op = true.
Proof.
  assert (busyAction (st (final sample update_run)) ≠ None) as Hb by (vm_compute; discriminate).
  split; [exact Hb|].
  apply (admin_busy_inflight (H := plain_host) §"admin@example.com" sample_overview 0); [|exact Hb].
  apply final_reached. vm_compute. reflexivity.
Defined.

Definition update_request : Request :=
  default (read_request []) (last (requests (final sample update_run))).

Lemma admin_update_digest_witness :
  url update_request = update_url 1 ∧
  ∃ d, immutableDigestPattern d = true ∧ method update_request = §"POST" ∧
       body update_request = Some (stringify (update_body d)).
Proof.
  assert (url update_request = update_url 1) as Hu by (vm_compute; reflexivity).
  split; [exact Hu|].
  apply (admin_update_digest (H := plain_host) §"admin@example.com" sample_overview 0
           (final sample update_run) update_request 1).
  - apply final_reached. vm_compute. reflexivity.
  - apply list_elem_of_lookup_2 with 2%nat. vm_compute. reflexivity.
  - exact Hu.
Defined.

(** *** Two commands share one marker *)

Definition health_reply : Reply := Arrived (json_response (JObj []) 200).

(** Health of the first server, the toggle modal, submit; the health reply
    arrives; submit again. *)
Definition toggle_run : list Label :=
  [Click 37; Click 22; Click 41; Click 44; Settle 2 health_reply; Click 46].

Definition is_toggle (i : Z) (op : Operation) : bool :=
  match op with Post u _ _ _ => str_eqb u (server_url i §"/toggle") | _ => false end.

(** the guard against a double submit of the modal can be lifted by
    another command: the marker that disables the button is a single slot that
    every command clears when it ends.  There is a run in which a health
    refresh that was started before the submit is answered after it, and the
    same server is toggled a second time while the first toggle is in flight. *)
Theorem toggle_twice :
  feasible sample toggle_run = true ∧
  length (filter (λ op, is_toggle 1 op = true) (pending (final sample toggle_run))) = 2%nat.
Proof. split; vm_compute; reflexivity. Qed.

(** *** The button of the banner *)

(** the button of the incident banner acknowledges the first notification
    of the inbox, not the incident the banner is about: with an informational
    notification on top of a critical one, pressing it acknowledges the
    informational one, and the banner stays. *)
Theorem banner_acks_first :
  feasible sample [Click 7] = true ∧
  (∃ top incident rest, notes (st (final sample [])) = top :: incident :: rest ∧
     severity top = sev_info ∧ @unacknowledged plain_host 0 incident = true ∧
     last (requests (final sample [Click 7])) =
       Some {| method := §"POST"; url := notification_url (n_id top) §"/ack";
               headers := json_headers; body := Some §"{}" |} ∧
     n_id top ≠ n_id incident) ∧
  @criticalBanner plain_host (st (final sample [Click 7])) = true.
Proof.
  split; [vm_compute; reflexivity|]. split; [|vm_compute; reflexivity].
  eexists _, _, _. split; [vm_compute; reflexivity|]. split_and!; vm_compute; done.
Qed.
End AdminPanel.
