(* ===== verification/Charts.v ===== *)
(** * The geometry of the admin panel's charts: [web/components/admin/Charts.tsx]

    [AdminPanel] models the texts of the charts; here are the coordinates, as
    rational numbers, without the rounding of floating point. *)
From Stdlib Require Import QArith Lqa.
From S2P Require Export AdminPanel.
Open Scope Z_scope.

Module Charts.
Import AdminPanel.

Definition width : Z := 360.
Definition height : Z := 120.

Definition step (points : list Point) : Q :=
  if (1 <? length points)%nat
  then (inject_Z width / inject_Z (Z.of_nat (length points) - 1))%Q
  else inject_Z width.

Definition place (points : list Point) (index : nat) (point : Point) : Q * Q :=
  ((inject_Z (Z.of_nat index) * step points)%Q,
   (inject_Z height - inject_Z (p_value point) / inject_Z (series_max points) * inject_Z (height - 18) - 8)%Q).

Definition line (points : list Point) : list (Q * Q) := imap (place points) points.

(** The filled area: the line between two corners of the picture. *)
Definition area (points : list Point) : list (Q * Q) :=
  (0, inject_Z height)%Q :: line points ++ [(inject_Z width, inject_Z height)].

Lemma series_max_le points p : p ∈ points → p_value p ≤ series_max points.
Proof.
  unfold series_max. induction points as [|q points IH]; [by intros ?%elem_of_nil|].
  rewrite elem_of_cons. cbn. intros [->|Hp%IH]; lia.
Qed.

Lemma series_max_pos points : 1 ≤ series_max points.
Proof. unfold series_max. induction (p_value <$> points); cbn; lia. Qed.

(** The abscissas run from 0 to the width of the picture. *)
Lemma abscissa points index :
  (index < length points)%nat → (0 <= inject_Z (Z.of_nat index) * step points <= inject_Z width)%Q.
Proof.
  intros Hi. unfold step. destruct (Nat.ltb_spec 1 (length points)) as [Hl|Hl].
  - set (n := Z.of_nat (length points) - 1).
    assert (0 < inject_Z n)%Q as Hn by (rewrite <-(Zlt_Qlt 0); unfold n; lia).
    assert (0 <= inject_Z (Z.of_nat index) <= inject_Z n)%Q as Hin
      by (unfold n; rewrite <-(Zle_Qle 0), <-Zle_Qle; lia).
    set (q := (inject_Z width / inject_Z n)%Q).
    assert (inject_Z n * q == inject_Z width)%Q as Hq by (apply Qmult_div_r; lra).
    assert (0 <= q)%Q as H0 by (apply Qle_shift_div_l; [done|]; rewrite Qmult_0_l; done).
    split; nra.
  - replace index with 0%nat by lia.
    change (inject_Z (Z.of_nat 0)) with 0%Q. change (inject_Z width) with 360%Q. lra.
Qed.

(** the chart of any series of counts lies inside the picture, every point
    at its place in the order of the series, the line between 8 units from the
    bottom, for zero, and 10 from the top, for the largest. *)
Theorem chart_inside points :
  Forall (λ p, 0 ≤ p_value p) points →
  Forall (λ c, (0 <= c.1 <= inject_Z width)%Q ∧ (10 <= c.2 <= 112)%Q) (line points) ∧
  Forall (λ c, (0 <= c.1 <= inject_Z width)%Q ∧ (0 <= c.2 <= inject_Z height)%Q) (area points).
Proof.
  intros Hv. assert (Forall (λ c, (0 <= c.1 <= inject_Z width)%Q ∧ (10 <= c.2 <= 112)%Q) (line points)) as Hl.
  { apply Forall_forall. intros c (i & p & -> & Hp)%elem_of_lookup_imap. cbn [place fst snd].
    split; [apply abscissa; by eapply lookup_lt_Some|].
    pose proof (series_max_pos points) as Hm. pose proof (series_max_le points p) as Hle.
    assert (p ∈ points) as Hin by (by eapply list_elem_of_lookup_2). specialize (Hle Hin).
    rewrite Forall_forall in Hv. specialize (Hv p Hin).
    set (q := (inject_Z (p_value p) / inject_Z (series_max points))%Q).
    assert (0 < inject_Z (series_max points))%Q as Hpos by (rewrite <-(Zlt_Qlt 0); lia).
    assert (0 <= q)%Q by (apply Qle_shift_div_l; [done|]; rewrite Qmult_0_l, <-(Zle_Qle 0); lia).
    assert (q <= 1)%Q by (apply Qle_shift_div_r; [done|]; rewrite Qmult_1_l, <-Zle_Qle; lia).
    change (inject_Z height) with 120%Q. change (inject_Z (height - 18)) with 102%Q. lra. }
  split; [exact Hl|]. unfold area.
  change (inject_Z width) with 360%Q in *. change (inject_Z height) with 120%Q.
  constructor; [cbn [fst snd]; lra|].
  apply Forall_app. split.
  - eapply Forall_impl; [exact Hl|]. intros c [Hx Hy]. lra.
  - apply Forall_singleton. cbn [fst snd]. lra.
Qed.

Lemma chart_inside_witness :
  length (area [{| p_label := §"1"; p_value := 0 |}; {| p_label := §"2"; p_value := 7 |}]) = 4%nat ∧
  Forall (λ c, (0 <= c.1 <= inject_Z width)%Q ∧ (10 <= c.2 <= 112)%Q)
    (line [{| p_label := §"1"; p_value := 0 |}; {| p_label := §"2"; p_value := 7 |}]).
Proof.
  split; [reflexivity|].
  apply (chart_inside [{| p_label := §"1"; p_value := 0 |}; {| p_label := §"2"; p_value := 7 |}]).
  apply Forall_cons_2; [cbn; lia|]. apply Forall_singleton. cbn. lia.
Defined.
End Charts.
