(* ===== verification/Pricing.v ===== *)
(** * Choosing and paying for a plan

    [web/components/ui/ruixen-pricing-04.tsx] with its promo-code field
    [web/components/PromoCodeInput.tsx], and the plan chooser
    [web/components/PlanChooser.tsx]. *)
From S2P Require Export JsNumber Encoding SiteConfig Component.

(** ** Helpers of the pricing table *)

Inductive BillingPeriod := monthly | quarterly.

#[export] Instance BillingPeriod_eq_dec : EqDecision BillingPeriod.
Proof. solve_decision. Defined.

Record CurrentSubscription := { sub_plan : jstr; sub_status : jstr }.

Inductive ChooserMode := mode_link | mode_payment.

#[export] Instance ChooserMode_eq_dec : EqDecision ChooserMode.
Proof. solve_decision. Defined.

Definition has_period (planId : option PlanId) (plan : Plan) : bool :=
  existsb (λ period, bool_decide (Some (id period) = planId)) (periods plan).

Definition findPlan (plans : list Plan) (planId : option PlanId) : option Plan :=
  find_first (has_period planId) plans.

Definition billingPeriodForPlan (plan : option Plan) (planId : option PlanId) : BillingPeriod :=
  match planId, plan with
  | Some i, Some plan =>
      if bool_decide (id <$> (periods plan !! 1%nat) = Some i) then quarterly else monthly
  | _, _ => monthly
  end.

Definition planCodeOf (periodId : jstr) : option PlanCode :=
  if str_eqb periodId §"basic" || str_eqb periodId §"basic_3m" then Some premium
  else if str_eqb periodId §"vip" || str_eqb periodId §"vip_3m" then Some vip_code
  else None.

Record Savings := { percent : Z; absolute : Z; monthly_equivalent : Z }.

Definition quarterlySavings (plan : Plan) : option Savings :=
  match periods plan !! 0%nat, periods plan !! 1%nat with
  | Some m, Some q =>
      let baseline := amount m * 3 in
      let absolute := Z.max 0 (baseline - amount q) in
      if absolute <=? 0 then None else
      Some {| percent := f64_round (f64_mul (f64_div (f64 absolute) (f64 baseline)) (f64 100));
              absolute := absolute;
              monthly_equivalent := round_div (amount q) 3 |}
  | _, _ => None
  end.

Definition maxQuarterlyDiscountPercent (plans : list Plan) : Z :=
  foldl (λ max plan,
    match quarterlySavings plan with
    | Some s => if max <? percent s then percent s else max
    | None => max
    end) 0 plans.

Record ButtonState := { btn_label : jstr; btn_disabled : bool; btn_reason : option jstr }.

Definition resolveButtonState (period : PlanId) (plan : Plan) (loadingPlan : option PlanId)
    (mode : ChooserMode) (currentSubscription : option CurrentSubscription) : ButtonState :=
  if bool_decide (loadingPlan = Some period)
  then {| btn_label := §"Создаем платеж..."; btn_disabled := true; btn_reason := None |} else
  let defaultLabel := match mode with mode_payment => §"Выбрать" | mode_link => §"Продолжить" end in
  let busy := negb (bool_decide (loadingPlan = None)) in
  let activeSub := match currentSubscription with
                   | Some sub => if str_eqb (sub_status sub) §"active" then Some sub else None
                   | None => None
                   end in
  match activeSub with
  | None => {| btn_label := defaultLabel; btn_disabled := busy; btn_reason := None |}
  | Some activeSub =>
      match planCodeOf (sub_plan activeSub) with
      | None => {| btn_label := defaultLabel; btn_disabled := busy; btn_reason := None |}
      | Some currentCode =>
          if str_eqb (sub_plan activeSub) (plan_id_str period)
          then {| btn_label := §"Текущий тариф"; btn_disabled := true; btn_reason := Some §"current" |}
          else if bool_decide (code plan = currentCode)
          then {| btn_label := §"Продлить"; btn_disabled := busy; btn_reason := None |}
          else match currentCode, code plan with
               | vip_code, premium =>
                   {| btn_label := §"VIP подключен"; btn_disabled := true; btn_reason := Some §"downgrade" |}
               | premium, vip_code =>
                   {| btn_label := §"Перейти на VIP"; btn_disabled := busy; btn_reason := None |}
               | _, _ => {| btn_label := defaultLabel; btn_disabled := busy; btn_reason := None |}
               end
      end
  end.

(** a plan's button is enabled exactly when no payment is being created
    and the active subscription, if any, neither is this very period nor is a
    VIP one while the plan is Premium. *)
Theorem resolveButtonState_enabled period plan loadingPlan mode cs :
  btn_disabled (resolveButtonState period plan loadingPlan mode cs) = false ↔
  loadingPlan = None ∧
  ∀ sub, cs = Some sub → sub_status sub = §"active" →
    sub_plan sub ≠ plan_id_str period ∧
    ¬ (planCodeOf (sub_plan sub) = Some vip_code ∧ code plan = premium).
Proof.
  assert (∀ p, is_Some (planCodeOf (plan_id_str p))) as Hcode by (intros []; vm_compute; eauto).
  unfold resolveButtonState. case_bool_decide as Hl; [split; [done|intros [-> _]; done]|].
  assert (negb (bool_decide (loadingPlan = None)) = false ↔ loadingPlan = None) as Hbusy.
  { by rewrite negb_false_iff, bool_decide_eq_true. }
  destruct cs as [sub|]; [|simpl; rewrite Hbusy; naive_solver].
  destruct (str_eqb (sub_status sub) §"active") eqn:Ea.
  2: { simpl. rewrite Hbusy. apply bool_decide_eq_false in Ea. naive_solver. }
  apply str_eqb_eq in Ea. destruct (planCodeOf (sub_plan sub)) as [c|] eqn:Ec.
  2: { simpl. rewrite Hbusy. split; [|tauto]. intros ->. split; [done|]. intros sub' [= <-] _.
       split; [|intros []; congruence]. intros E. destruct (Hcode period) as [c Hc]. congruence. }
  destruct (str_eqb (sub_plan sub) (plan_id_str period)) eqn:Ep.
  { apply str_eqb_eq in Ep. simpl. split; [done|]. intros [_ H]. by destruct (H sub). }
  apply bool_decide_eq_false in Ep. destruct (decide (code plan = c)) as [Hc|Hc]; [rewrite bool_decide_true by done|rewrite bool_decide_false by done]; simpl.
  - rewrite Hbusy. split; [|tauto]. intros ->. split; [done|]. intros sub' [= <-] _.
    split; [done|]. intros []. congruence.
  - destruct c, (code plan); simpl; rewrite ?Hbusy; try done.
    + split; [|tauto]. intros ->. split; [done|]. intros sub' [= <-] _. naive_solver.
    + split; [done|]. intros [_ H]. destruct (H sub) as [_ []]; done.
Qed.

Lemma max_discount_go plans m :
  let r := foldl (λ max plan,
    match quarterlySavings plan with
    | Some s => if max <? percent s then percent s else max
    | None => max
    end) m plans in
  m ≤ r ∧
  (∀ plan s, plan ∈ plans → quarterlySavings plan = Some s → percent s ≤ r) ∧
  (r = m ∨ ∃ plan s, plan ∈ plans ∧ quarterlySavings plan = Some s ∧ r = percent s).
Proof.
  revert m. induction plans as [|p plans IH]; intros m; simpl; [set_solver by lia|].
  set (m' := match quarterlySavings p with
             | Some s => if m <? percent s then percent s else m | None => m end).
  destruct (IH m') as (H1 & H2 & H3).
  assert (m ≤ m' ∧ (∀ s, quarterlySavings p = Some s → percent s ≤ m') ∧
          (m' = m ∨ ∃ s, quarterlySavings p = Some s ∧ m' = percent s)) as (Hm & Hp & Hc).
  { unfold m'. destruct (quarterlySavings p) as [s|]; [|naive_solver lia].
    destruct (Z.ltb_spec m (percent s)); naive_solver lia. }
  split_and!.
  - lia.
  - intros plan s [->|Hin]%elem_of_cons Hs; [specialize (Hp s Hs); lia|by eapply H2].
  - destruct H3 as [->|(q & s & ? & ? & ?)]; [|right; exists q, s; set_solver].
    destruct Hc as [|(s & ? & ?)]; [by left|]. right. exists p, s. set_solver.
Qed.

(** the badge on the quarterly switch shows the largest percentage any
    listed plan saves, and 0 when none saves anything. *)
Theorem maxQuarterlyDiscount_spec plans :
  let r := maxQuarterlyDiscountPercent plans in
  (∀ plan s, plan ∈ plans → quarterlySavings plan = Some s → percent s ≤ r) ∧
  (r = 0 ∨ ∃ plan s, plan ∈ plans ∧ quarterlySavings plan = Some s ∧ r = percent s).
Proof. apply (max_discount_go plans 0). Qed.

Example default_discounts :
  option_map percent ∘ quarterlySavings <$> plans defaultSiteConfig = [Some 15; Some 15].
Proof. vm_compute. reflexivity. Qed.
