(* ===== verification/PromoCode.v ===== *)
(** * The promo-code field: [web/components/PromoCodeInput.tsx]

    The field's own state and handlers, for its parent to embed.  A handler
    gives the new state, possibly a preview request, and possibly the
    arguments of the parent's [onConfirm]. *)
From S2P Require Export Pricing.

Record PromoDetails := {
  discountPercent : jval;
  originalAmount : jval;
  finalAmount : jval;
  discountAmount : jval;
}.

Inductive PromoState :=
| idle
| loading
| success (d : PromoDetails)
| failed (message : jval).

Record Promo := {
  open : bool;
  input : jstr;
  promo : PromoState;
}.

#[export] Instance Promo_eta : Eta Promo := λ s,
  {| open := open s; input := input s; promo := promo s |}.

Definition isSuccess (s : Promo) : bool := match promo s with success _ => true | _ => false end.
Definition isError (s : Promo) : bool := match promo s with failed _ => true | _ => false end.
Definition isLoading (s : Promo) : bool := match promo s with loading => true | _ => false end.

(** A preview in flight: the plan of the field and the resolved code. *)
Record Preview := { previewPlan : jstr; resolved : jstr }.

(** The arguments of [onConfirm(code, details)]. *)
Definition Confirmation : Type := jstr * option PromoDetails.

Definition preview_request (p : Preview) : Request :=
  {| method := §"POST"; url := §"/api/payments/preview";
     headers := [(§"Content-Type", §"application/json")];
     body := Some (stringify (JObj [(§"plan", JStr (previewPlan p));
                                    (§"promo_code", JStr (resolved p))])) |}.

Section Handlers.
Context `{JsHost}.

(** [apply(code)] up to its [await]; [apply()] is on the input. *)
Definition apply (plan : jstr) (code : jstr) (s : Promo) : Promo * option Preview :=
  let r := to_upper (trim code) in
  if str_truthy r then (s <| promo := loading |>, Some {| previewPlan := plan; resolved := r |})
  else (s, None).

Definition promo_initial (initialCode : jstr) : Promo :=
  {| open := str_truthy initialCode; input := initialCode; promo := idle |}.

(** The first render with its auto-apply effect. *)
Definition promo_mount (plan initialCode : jstr) : Promo * option Preview :=
  if str_truthy initialCode then apply plan initialCode (promo_initial initialCode)
  else (promo_initial initialCode, None).

(** The effect on a change of [previewPlan]. *)
Definition promo_plan_changed (plan : jstr) (s : Promo) : Promo * option Preview :=
  if str_truthy (trim (input s)) && isSuccess s then apply plan (input s) s else (s, None).

(** The rest of [apply] when the reply arrives. *)
Definition promo_settle (p : Preview) (reply : Reply) (s : Promo) : Promo * Confirmation :=
  let failure msg := (s <| promo := failed msg |>, ([], None)) in
  let offline := failure (JStr §"Ошибка соединения") in
  match reply with
  | NetworkError _ => offline
  | Arrived res =>
      match resp_body res with
      | RawBody _ => offline
      | JsonBody data =>
          if nullish data then offline
          else if negb (ok res)
          then failure (coalesce (get data §"error") (JStr §"Промокод недействителен"))
          else if negb (truthy (get data §"promo_applied"))
          then failure (JStr §"Промокод не применён к этому тарифу")
          else
            let details :=
              {| discountPercent := get data §"discount_percent";
                 originalAmount := get data §"original_amount";
                 finalAmount := get data §"amount";
                 discountAmount := get data §"discount_amount" |} in
            (s <| promo := success details |>, (resolved p, Some details))
      end
  end.

Definition clear (s : Promo) : Promo * Confirmation :=
  (s <| input := [] |> <| promo := idle |>, ([], None)).

Inductive PromoEvent :=
| PromoOpen
| PromoType (v : jstr)
| PromoEnter
| PromoEscape
| PromoApply
| PromoClear.

(** State, request and confirmation of each event. *)
Definition promo_on (plan : jstr) (e : PromoEvent) (s : Promo)
    : Promo * option Preview * option Confirmation :=
  match e with
  | PromoOpen => (s <| open := true |>, None, None)
  | PromoType v =>
      let s' := s <| input := to_upper v |> in
      let s' := match promo s with idle => s' | _ => s' <| promo := idle |> end in
      (s', None, if isSuccess s then Some ([], None) else None)
  | PromoEnter | PromoApply => (apply plan (input s) s, None)
  | PromoEscape => let '(s', c) := clear s in (s' <| open := false |>, None, Some c)
  | PromoClear => let '(s', c) := clear s in (s', None, Some c)
  end.
End Handlers.

Definition promo_view (s : Promo) : node PromoEvent :=
  El §"div" []
    [if negb (open s) then
       El §"button" [On §"click" PromoOpen; Prop_ §"type" §"button"] [Txt §"Есть промокод?"]
     else
       El §"div" []
         ([El §"div" []
             [El §"input" [Prop_ §"autoComplete" §"off";
                           Flag §"disabled" (isLoading s || isSuccess s);
                           Prop_ §"id" §"promo-code-input"; Prop_ §"maxLength" §"32";
                           OnText PromoType; On §"keydown:Enter" PromoEnter;
                           On §"keydown:Escape" PromoEscape;
                           Prop_ §"placeholder" §"ПРОМОКОД"; Flag §"spellCheck" false;
                           Prop_ §"type" §"text"; Prop_ §"value" (input s)] [];
              if isSuccess s then
                El §"button" [On §"click" PromoClear; Prop_ §"type" §"button";
                              Prop_ §"title" §"Убрать промокод"] []
              else
                El §"button" [Flag §"disabled" (negb (str_truthy (trim (input s))) || isLoading s);
                              On §"click" PromoApply; Prop_ §"type" §"button"]
                  (if isLoading s then [] else [Txt §"Применить"])]]
          ++ match promo s with
             | success d =>
                 [El §"div" []
                    [El §"span" [] [Txt §"Скидка ";
                       El §"strong" [] [Txt (to_text (discountPercent d) ++ §"%")];
                       Txt §" успешно применена!"]]]
             | failed message => [El §"div" [] [El §"span" [] [Txt (to_text message)]]]
             | _ => []
             end)].
