(* ===== verification/PricingTable.v ===== *)
(** * The pricing table: [web/components/ui/ruixen-pricing-04.tsx]

    The component [Pricing04] with its plan cards and the promo-code field it
    mounts, keyed by the selected plan.  The field is remounted when the
    selected plan changes: requests of an unmounted field still call the
    table's [onConfirm] when they settle. *)
From S2P Require Export PromoCode.

Module Pricing04.

Record Props := {
  plans : list Plan;
  initialPlan : option PlanId;
  initialPromoCode : jstr;
  loadingPlan : option PlanId;
  mode : ChooserMode;
  currentSubscription : option CurrentSubscription;
}.

(** A mounted field: its mount number, its key, its state. *)
Record Field := { mount_no : nat; field_key : PlanId; field : Promo }.

Record State := {
  billingPeriod : BillingPeriod;
  selectedPlanId : option PlanId;
  promoCode : jstr;
  promoDetails : option PromoDetails;
  mounted : option Field;
  mounts : nat;
}.

#[export] Instance State_eta : Eta State := λ s,
  {| billingPeriod := billingPeriod s; selectedPlanId := selectedPlanId s;
     promoCode := promoCode s; promoDetails := promoDetails s; mounted := mounted s;
     mounts := mounts s |}.

(** A preview in flight, with the field that asked. *)
Record Op := { asker : nat; preview : Preview }.

Section Table.
Context `{JsHost} (props : Props).

Definition safePlans : list Plan := filter (λ plan, periods plan ≠ []) (plans props).

Definition selectedPeriodAndPlan (s : State) : option (Plan * PlanPeriod) :=
  match selectedPlanId s with
  | None => None
  | Some i =>
      (fix go (l : list Plan) : option (Plan * PlanPeriod) :=
         match l with
         | [] => None
         | plan :: l =>
             match find_first (λ p, bool_decide (id p = i)) (periods plan) with
             | Some period => Some (plan, period)
             | None => go l
             end
         end) safePlans
  end.

(** ** Mounting the field *)

(** The key of the field to be shown, if it is. *)
Definition wanted (s : State) : option PlanId :=
  match mode props, selectedPeriodAndPlan s with
  | mode_payment, Some _ => selectedPlanId s
  | _, _ => None
  end.

Definition sync (s : State) : Outcome State Op :=
  if bool_decide (field_key <$> mounted s = wanted s) then settled s else
  match wanted s with
  | None => settled (s <| mounted := None |>)
  | Some key =>
      let '(p, request) := promo_mount (plan_id_str key) (promoCode s) in
      let n := mounts s in
      Build_Outcome
        (s <| mounted := Some {| mount_no := n; field_key := key; field := p |} |>
           <| mounts := S n |>)
        (match request with Some r => [{| asker := n; preview := r |}] | None => [] end) []
  end.

Definition initial : State :=
  let first := head safePlans in
  let init := match findPlan safePlans (initialPlan props) with Some p => Some p | None => first end in
  {| billingPeriod := billingPeriodForPlan init (initialPlan props);
     selectedPlanId := initialPlan props;
     promoCode := initialPromoCode props;
     promoDetails := None;
     mounted := None;
     mounts := O |}.

(** ** Handlers *)

(** The table's [onConfirm]. *)
Definition onConfirm (c : Confirmation) (s : State) : State :=
  s <| promoCode := c.1 |> <| promoDetails := c.2 |>.

Definition handleSwitch (s : State) : State :=
  let nextPeriod := match billingPeriod s with monthly => quarterly | quarterly => monthly end in
  let s' := s <| billingPeriod := nextPeriod |> in
  match selectedPlanId s, selectedPeriodAndPlan s with
  | Some _, Some (currentPlan, _) =>
      let target := match nextPeriod with quarterly => 1%nat | monthly => O end in
      let targetPeriod := match periods currentPlan !! target with
                          | Some p => Some p
                          | None => periods currentPlan !! O
                          end in
      match targetPeriod with
      | Some p => s' <| selectedPlanId := Some (id p) |>
      | None => s'
      end
  | _, _ => s'
  end.

(** [onSelectPlanId] *)
Definition selectPlan (i : PlanId) (s : State) : State :=
  match mode props with
  | mode_payment => s <| selectedPlanId := Some i |>
  | mode_link => s
  end.

Inductive Event :=
| Switch
| SelectPlan (i : PlanId)
| Pay
| OnPromo (e : PromoEvent).

Definition on_promo (e : PromoEvent) (s : State) : Outcome State Op :=
  match mounted s with
  | None => settled s
  | Some f =>
      let '(p, request, confirmed) := promo_on (plan_id_str (field_key f)) e (field f) in
      let s := s <| mounted := Some {| mount_no := mount_no f; field_key := field_key f; field := p |} |> in
      let s := match confirmed with Some c => onConfirm c s | None => s end in
      Build_Outcome s
        (match request with Some r => [{| asker := mount_no f; preview := r |}] | None => [] end) []
  end.

Definition handle (e : Event) (s : State) : Outcome State Op :=
  match e with
  | Switch => sync (handleSwitch s)
  | SelectPlan i => sync (selectPlan i s)
  | Pay =>
      Build_Outcome s []
        (match selectedPlanId s with
         | Some i => [Callback §"onSelect" [plan_id_str i; promoCode s]]
         | None => []
         end)
  | OnPromo e => on_promo e s
  end.

(** A reply: the field that asked is updated if it is still mounted; the
    table is told in any case. *)
Definition settle (op : Op) (reply : Reply) (s : State) : Outcome State Op :=
  let dummy := {| open := false; input := []; promo := idle |} in
  match mounted s with
  | Some f =>
      if (mount_no f =? asker op)%nat then
        let '(p, c) := promo_settle (preview op) reply (field f) in
        settled (onConfirm c (s <| mounted :=
          Some {| mount_no := mount_no f; field_key := field_key f; field := p |} |>))
      else settled (onConfirm (promo_settle (preview op) reply dummy).2 s)
  | None => settled (onConfirm (promo_settle (preview op) reply dummy).2 s)
  end.

(** ** The rendered table *)

Definition map_promo (n : node PromoEvent) : node Event :=
  (fix go (n : node PromoEvent) : node Event :=
     match n with
     | Txt s => Txt s
     | El tag ps cs =>
         El tag (map (λ p, match p with
                           | Prop_ k v => Prop_ k v
                           | Flag k b => Flag k b
                           | On ev e => On ev (OnPromo e)
                           | OnText f => OnText (λ v, OnPromo (f v))
                           end) ps) (map go cs)
     end) n.

(** The third-party animated number, by its value. *)
Definition NumberFlow (value suffix : jstr) : node Event :=
  El §"number-flow" [Prop_ §"value" value; Prop_ §"suffix" suffix] [].

Definition PlanCard (s : State) (plan : Plan) : list (node Event) :=
  let period := match billingPeriod s with
                | quarterly => match periods plan !! 1%nat with
                               | Some p => Some p | None => periods plan !! O end
                | monthly => periods plan !! O
                end in
  match period with
  | None => []
  | Some period =>
      let buttonState := resolveButtonState (id period) plan (loadingPlan props) (mode props)
                           (currentSubscription props) in
      let isCurrent := bool_decide (btn_reason buttonState = Some §"current") in
      let isSelected := bool_decide (selectedPlanId s = Some (id period)) in
      let savings := match billingPeriod s with quarterly => quarterlySavings plan | monthly => None end in
      let payment := bool_decide (mode props = mode_payment) in
      [El §"div"
         (if negb (btn_disabled buttonState) && payment
          then [On §"click" (SelectPlan (id period))] else [])
         ([El §"h3" [] [Txt (title plan)]]
          ++ show isCurrent [El §"span" [Prop_ §"aria-label" §"Активная подписка"]
                               [Txt §"Активная подписка"]]
          ++ [El §"h4" [] [NumberFlow (num_str (amount period))
                (match billingPeriod s with monthly => §"/мес" | quarterly => §"/3 мес" end)]]
          ++ match savings with
             | Some sv => [El §"span" [] [Txt (§"≈ " ++ num_str (monthly_equivalent sv) ++ §" ₽/мес")]]
             | None => []
             end
          ++ [El §"p" [] [Txt (description plan)];
              (if payment then
                 El §"button" [Flag §"disabled" (btn_disabled buttonState);
                               On §"click" (SelectPlan (id period))]
                   [Txt (if isSelected then §"Выбран" else §"Выбрать")]
               else
                 El §"a" [Prop_ §"href" (§"/auth?plan=" ++ plan_id_str (id period))]
                   [Txt (btn_label buttonState)]);
              El §"span" []
                [Txt (match billingPeriod s, savings with
                      | monthly, _ => §"Оплата за 1 месяц"
                      | quarterly, Some sv =>
                          §"Оплата сразу за 3 месяца — −" ++ num_str (percent sv) ++ §"%"
                      | quarterly, None => §"Оплата сразу за 3 месяца"
                      end)];
              El §"span" [] [Txt §"Включено:"]]
          ++ ((λ feature, El §"div" [] [El §"span" [] [Txt feature]]) <$> features plan))]
  end.

(** [v > 0] on the amounts of a preview, which are numbers. *)
Definition positive_amount (v : jval) : bool :=
  match v with JNum n => 0 <? n | _ => false end.

(** The amounts under "Итого к оплате:". *)
Definition total_line (s : State) (period : PlanPeriod) : list (node Event) :=
  match promoDetails s with
  | Some d => [El §"span" [] [Txt (to_text (originalAmount d) ++ §" ₽")];
               NumberFlow (to_text (finalAmount d)) []]
  | None => [NumberFlow (num_str (amount period)) []]
  end.

Definition checkout (s : State) (plan : Plan) (period : PlanPeriod) : node Event :=
  El §"div" []
    ([El §"h3" [] [El §"span" [] [Txt §"Оформление заказа"]];
      El §"h4" [] [Txt (title plan)];
      El §"p" [] [Txt (§"Тарифный план • " ++ SiteConfig.label period)];
      El §"div" [] [Txt §"Базовая цена"];
      El §"div" [] [Txt (num_str (amount period) ++ §" ₽")]]
     ++ match mounted s with
        | Some f => [El §"div" [] [map_promo (promo_view (field f))]]
        | None => []
        end
     ++ match promoDetails s with
        | Some d =>
            show (positive_amount (discountAmount d))
              [El §"span" [] [Txt (§"Скидка по промокоду (" ++ to_text (discountPercent d) ++ §"%)")];
               El §"span" [] [Txt (§"-" ++ to_text (discountAmount d) ++ §" ₽")]]
        | None => []
        end
     ++ [El §"div" [] [Txt §"Итого к оплате:"];
         El §"div" [] (total_line s period);
         El §"button" [Flag §"disabled" (negb (bool_decide (loadingPlan props = None)));
                       On §"click" Pay]
           [Txt (if bool_decide (loadingPlan props = selectedPlanId s)
                 then §"Создаем платеж..." else §"Оплатить")]]).

Definition render (s : State) : list (node Event) :=
  match head safePlans with
  | None => []
  | Some _ =>
      let maxDiscount := maxQuarterlyDiscountPercent safePlans in
      [El §"div" []
         ([El §"h2" [] [Txt §"Выберите подписку"];
           El §"p" [] [Txt §"Premium для ежедневного VPN или VIP для приоритетной сети. Дальше останется только оплатить и скачать приложение."];
           El §"span" [] [Txt §"1 месяц"];
           El §"button" [Prop_ §"aria-label" §"Переключить срок подписки";
                         Flag §"aria-pressed" (bool_decide (billingPeriod s = quarterly));
                         On §"click" Switch; Prop_ §"type" §"button"] [];
           El §"span" []
             (Txt §"3 месяца"
              :: show (0 <? maxDiscount)
                   [El §"span" [] [Txt (§"−" ++ num_str maxDiscount ++ §"%")]])]
          ++ [El §"div" [] (safePlans ≫= PlanCard s)]
          ++ match mode props, selectedPeriodAndPlan s with
             | mode_payment, Some (plan, period) => [checkout s plan period]
             | _, _ => []
             end)]
  end.

Definition component : Component := {|
  St := State; Ev := Event; Component.Op := Op;
  mount := sync initial;
  view := render;
  on := handle;
  request op := preview_request (preview op);
  resume := settle;
|}.

(** ** Properties *)

Lemma selected_sound s plan period :
  selectedPeriodAndPlan s = Some (plan, period) →
  selectedPlanId s = Some (id period) ∧ plan ∈ plans props ∧ period ∈ periods plan.
Proof.
  unfold selectedPeriodAndPlan. destruct (selectedPlanId s) as [i|]; [|done].
  assert (∀ q, q ∈ safePlans → q ∈ plans props) as Hs.
  { intros q. unfold safePlans. rewrite list_elem_of_filter. tauto. }
  revert Hs. generalize safePlans as l. induction l as [|q l IH]; [done|]. intros Hs.
  destruct (find_first _ (periods q)) as [p|] eqn:E.
  - intros [= <- <-]. apply find_first_Some in E as [Hin Hp]. apply bool_decide_eq_true in Hp. subst i.
    split_and!; [done| |done]. apply Hs. by left.
  - apply IH. intros q' Hq'. apply Hs. by right.
Qed.

Lemma PlanCard_events P s plan : (∀ i, P (SelectPlan i)) → every P (PlanCard s plan).
Proof. intros HP. unfold PlanCard, NumberFlow. events; done. Qed.

Lemma map_promo_events P n : (∀ e, P (OnPromo e)) → node_events P (map_promo n).
Proof.
  intros HP. revert n. fix IH 1. intros [s|tag ps cs]; [exact I|].
  unfold map_promo. apply node_events_El. split.
  - intros _. clear IH. induction ps as [|p ps IHp]; [constructor|]. constructor; [|done].
    destruct p; simpl; done.
  - revert cs. fix IHl 1. intros [|c cs]; [exact I|]. apply every_cons.
    split; [apply IH|apply IHl].
Qed.

(** The order button is part of the checkout, which needs a known plan and
    period and no payment in progress. *)
Definition payable (s : State) : Prop :=
  loadingPlan props = None ∧ mode props = mode_payment ∧
  ∃ plan period, selectedPeriodAndPlan s = Some (plan, period).

Lemma pay_every s : every (λ e, e = Pay → payable s) (render s).
Proof.
  unfold render, checkout, total_line, NumberFlow. events; try done.
  - by apply PlanCard_events.
  - by apply map_promo_events.
  - intros _. apply enabled_flag, negb_false_iff, bool_decide_eq_true in H0.
    unfold payable. naive_solver.
Qed.

Lemma pay_offered s : offered component Pay s → payable s.
Proof.
  intros Ho. exact (offered_every component (λ e, e = Pay → payable s) s Pay (pay_every s) Ho eq_refl).
Qed.

(** Where a promo code of the table can come from. *)
Definition code_source (rs : list Request) (c : jstr) : Prop :=
  c = initialPromoCode props ∨ c = [] ∨
  ∃ plan, preview_request {| previewPlan := plan; resolved := c |} ∈ rs.

(** An order the table may place. *)
Definition order_ok (rs : list Request) (o : Out) : Prop :=
  loadingPlan props = None ∧
  ∃ plan period c, o = Callback §"onSelect" [plan_id_str (id period); c] ∧
    plan ∈ plans props ∧ period ∈ periods plan ∧ code_source rs c.

Lemma code_source_app rs rs' c : code_source rs c → code_source (rs ++ rs') c.
Proof. unfold code_source. set_solver. Qed.

Lemma order_ok_app rs rs' o : order_ok rs o → order_ok (rs ++ rs') o.
Proof. unfold order_ok. naive_solver eauto using code_source_app. Qed.

Lemma sync_promo s : promoCode (new (sync s)) = promoCode s ∧ outs (sync s) = [].
Proof.
  unfold sync. case_bool_decide; [done|]. destruct (wanted s); [|done].
  by destruct (promo_mount _ _).
Qed.

Lemma handleSwitch_promo s : promoCode (handleSwitch s) = promoCode s.
Proof. unfold handleSwitch. by repeat case_match. Qed.

Lemma handle_promo e s :
  (promoCode (new (handle e s)) = promoCode s ∨ promoCode (new (handle e s)) = []) ∧
  (e = Pay ∨ outs (handle e s) = []).
Proof.
  destruct e as [|i| |e]; cbn [handle].
  - destruct (sync_promo (handleSwitch s)) as [-> ->]. rewrite handleSwitch_promo. auto.
  - destruct (sync_promo (selectPlan i s)) as [-> ->]. unfold selectPlan. destruct (mode props); auto.
  - simpl. auto.
  - unfold on_promo. destruct (mounted s) as [f|]; [|simpl; auto].
    destruct e; simpl; try (destruct (apply _ _ _) as [? []]); simpl; auto.
    destruct (isSuccess (field f)); simpl; auto.
Qed.

Lemma settle_promo op r s :
  outs (settle op r s) = [] ∧
  (promoCode (new (settle op r s)) = [] ∨
   promoCode (new (settle op r s)) = resolved (preview op)).
Proof.
  assert (∀ p, (promo_settle (preview op) r p).2.1 = [] ∨
               (promo_settle (preview op) r p).2.1 = resolved (preview op)) as Hc.
  { intros p. unfold promo_settle. repeat case_match; simpl; auto. }
  unfold settle. destruct (mounted s) as [f|]; [|simpl; auto].
  destruct (mount_no f =? asker op)%nat; [|simpl; auto].
  specialize (Hc (field f)). destruct (promo_settle _ _ _) as [p c]. simpl in *. auto.
Qed.

(** every order the table places is for a period of a listed plan, while
    no other payment is being created, and its promo code is empty, the one
    of the address, or one that was sent to the backend for a preview. *)
Theorem orders_sound s :
  reached component s → Forall (order_ok (requests s)) (outputs s).
Proof.
  intros Hr. cut (Forall (order_ok (requests s)) (outputs s) ∧
    code_source (requests s) (promoCode (st s))); [tauto|].
  revert s Hr. apply component_invariant.
  - destruct (sync_promo initial) as [E1 E2]. split; simpl; [rewrite E2; constructor|by left].
  - intros s e Hr [Ho Hc] Hoff. cbn [commit outputs st requests].
    destruct (handle_promo e (st s) :
      (promoCode (new (on component e (st s))) = promoCode (st s) ∨
       promoCode (new (on component e (st s))) = []) ∧
      (e = Pay ∨ outs (on component e (st s)) = [])) as [Hp Hout]. split.
    + apply Forall_app. split; [eapply Forall_impl; [exact Ho|]; intros; by apply order_ok_app|].
      destruct Hout as [->| ->]; [|constructor].
      apply pay_offered in Hoff as (Hidle & _ & plan & period & Hsel).
      apply selected_sound in Hsel as (Hid & ? & ?). unfold outs, on. cbn. rewrite Hid.
      apply Forall_singleton. split; [exact Hidle|]. exists plan, period, (promoCode (st s)).
      split_and!; try done. by apply code_source_app.
    + destruct Hp as [-> | ->]; [by apply code_source_app|right; by left].
  - intros s i op r Hr [Ho Hc] Hi. cbn [commit outputs st requests].
    destruct (settle_promo op r (st s) :
      outs (resume component op r (st s)) = [] ∧
      (promoCode (new (resume component op r (st s))) = [] ∨
       promoCode (new (resume component op r (st s))) = resolved (preview op))) as [-> Hp]. rewrite app_nil_r. split.
    + eapply Forall_impl; [exact Ho|]. intros. by apply order_ok_app.
    + destruct Hp as [-> | ->]; [right; by left|]. do 2 right. exists (previewPlan (preview op)).
      apply elem_of_app. left. apply list_elem_of_lookup_2 in Hi.
      apply (pending_requested component s op Hr) in Hi. by destruct op as [? []].
Qed.
End Table.

(** ** A concrete table *)

Definition sample_props : Props :=
  {| plans := SiteConfig.plans defaultSiteConfig; initialPlan := None; initialPromoCode := [];
     loadingPlan := None; mode := mode_payment; currentSubscription := None |}.

#[local] Existing Instance plain_host.

(** Choose Premium, open the promo field, type a code, apply it, choose VIP
    before the reply, which then arrives. *)
Definition promo_reply : Reply := Arrived (json_response (JObj
  [(§"promo_applied", JBool true); (§"discount_percent", JNum 50); (§"original_amount", JNum 199);
   (§"amount", JNum 100); (§"discount_amount", JNum 99)]) 200).

Definition stale_run : list Label :=
  [Click 1; Click 5; Input 0 §"sale"; Click 7; Click 3; Settle 0 promo_reply].

Lemma orders_sound_witness :
  let s := final (component sample_props) [Click 1; Click 6] in
  outputs s = [Callback §"onSelect" [§"basic"; []]] ∧
  Forall (order_ok sample_props (requests s)) (outputs s).
Proof.
  split; [vm_compute; reflexivity|].
  apply orders_sound, final_reached. vm_compute. reflexivity.
Defined.

(** a promo preview that is answered after another plan was chosen is
    shown for the new plan: the table can settle on VIP with nothing in
    flight, its only preview having been asked for Premium, and show the
    Premium total as the amount to pay. *)
Theorem stale_total :
  ∃ s, reached (component sample_props) s ∧ pending s = [] ∧
       selectedPlanId (st s) = Some vip ∧
       requests s = [preview_request {| previewPlan := §"basic"; resolved := §"SALE" |}] ∧
       option_map finalAmount (promoDetails (st s)) = Some (JNum 100).
Proof.
  exists (final (component sample_props) stale_run).
  split; [apply final_reached; vm_compute; reflexivity|].
  split_and!; vm_compute; reflexivity.
Qed.
End Pricing04.
