(* ===== verification/PlanChooser.v ===== *)
(** * The plan chooser of the landing page: [web/components/PlanChooser.tsx] *)
From S2P Require Export Pricing.

Module PlanChooser.

Record Props := {
  plans : list Plan;
  initialPlan : option PlanId;
  loadingPlan : option PlanId;
  mode : ChooserMode;
}.

Record State := {
  planCode : PlanCode;
  periodId : PlanId;
  promoInput : jstr;
}.

#[export] Instance State_eta : Eta State := λ s,
  {| planCode := planCode s; periodId := periodId s; promoInput := promoInput s |}.

Inductive Event :=
| ChoosePlan (plan : Plan)
| ChoosePeriod (i : PlanId)
| TypePromo (v : jstr)
| Select (i : PlanId).

Section Chooser.
Context `{JsHost} (props : Props).

Definition safePlans : list Plan := filter (λ plan, periods plan ≠ []) (plans props).
Definition firstPlan : option Plan := head safePlans.

(** [a ?? b] *)
Definition orElse {A} (a b : option A) : option A :=
  match a with Some x => Some x | None => b end.

(** [safePlans.find((plan) => plan.code === planCode) ?? firstPlan] *)
Definition planFor (c : PlanCode) : option Plan :=
  orElse (find_first (λ plan, bool_decide (code plan = c)) safePlans) firstPlan.

Definition periodFor (plan : Plan) (i : option PlanId) : option PlanPeriod :=
  orElse (find_first (λ p, bool_decide (Some (id p) = i)) (periods plan)) (head (periods plan)).

Definition initial : State :=
  let init := orElse (findPlan (plans props) (initialPlan props)) firstPlan in
  let c := from_option code premium init in
  let initialPeriod := planFor c ≫= λ plan, periodFor plan (initialPlan props) in
  {| planCode := c; periodId := from_option id basic initialPeriod; promoInput := [] |}.

Definition currentPlan (s : State) : option Plan := planFor (planCode s).

Definition period (s : State) : option PlanPeriod :=
  planFor (planCode s) ≫= λ plan, periodFor plan (Some (periodId s)).

Definition handle (e : Event) (s : State) : Outcome State unit :=
  match e with
  | ChoosePlan plan =>
      settled (s <| planCode := code plan |>
                 <| periodId := from_option id basic (head (periods plan)) |>)
  | ChoosePeriod i => settled (s <| periodId := i |>)
  | TypePromo v => settled (s <| promoInput := to_upper v |>)
  | Select i => Build_Outcome s [] [Callback §"onSelect" [plan_id_str i]]
  end.

(** The link of the [link] mode; encoding the promo code can throw. *)
Definition checkout_href (p : PlanPeriod) (s : State) : res jstr :=
  let base := §"/auth?plan=" ++ plan_id_str (id p) in
  if str_truthy (trim (promoInput s)) then
    match encodeURIComponent (trim (promoInput s)) with
    | Ok e => Ok (base ++ §"&promo=" ++ e)
    | Throw e => Throw e
    end
  else Ok base.

Definition buttonText (p : PlanPeriod) : jstr :=
  if bool_decide (loadingPlan props = Some (id p)) then §"Создаем платеж..."
  else match mode props with mode_payment => §"Оплатить" | mode_link => §"Продолжить" end.

Definition plan_tabs (s : State) : node Event :=
  El §"div" [Prop_ §"role" §"tablist"; Prop_ §"aria-label" §"Тариф"]
    ((λ plan, El §"button" [Flag §"aria-selected" (bool_decide (code plan = planCode s));
                            On §"click" (ChoosePlan plan); Prop_ §"role" §"tab";
                            Prop_ §"type" §"button"]
                [El §"span" [] [Txt (title plan)]]) <$> safePlans).

Definition plan_copy (plan : Plan) : node Event :=
  El §"div" []
    [El §"h3" [] [Txt (title plan)];
     El §"p" [] [Txt (description plan)];
     El §"ul" [] ((λ feature, El §"li" [] [Txt feature]) <$> features plan)].

Definition period_picker (plan : Plan) : node Event :=
  El §"div" [Prop_ §"aria-label" §"Срок подписки"]
    ((λ item, El §"button" [On §"click" (ChoosePeriod (id item)); Prop_ §"type" §"button"]
                [El §"span" [] [Txt (SiteConfig.label item)];
                 El §"strong" [] [Txt (formatRub (amount item))]]) <$> periods plan).

Definition checkout (s : State) (p : PlanPeriod) (href : jstr) : node Event :=
  El §"div" []
    [El §"span" [] [Txt §"Итого"];
     El §"strong" [] [Txt (formatRub (amount p))];
     El §"input" [Prop_ §"maxLength" §"32"; OnText TypePromo;
                  Prop_ §"placeholder" §"Промокод (необязательно)"; Flag §"spellCheck" false;
                  Prop_ §"type" §"text"; Prop_ §"value" (promoInput s)] [];
     match mode props with
     | mode_payment =>
         El §"button" [Flag §"disabled" (negb (bool_decide (loadingPlan props = None)));
                       On §"click" (Select (id p)); Prop_ §"type" §"button"] [Txt (buttonText p)]
     | mode_link => El §"a" [Prop_ §"href" href] [Txt (buttonText p)]
     end].

(** A render that throws leaves nothing on the page. *)
Definition render (s : State) : list (node Event) :=
  match currentPlan s, period s with
  | Some plan, Some p =>
      match (match mode props with mode_link => checkout_href p s | mode_payment => Ok [] end) with
      | Throw _ => []
      | Ok href =>
          [El §"div" []
             [plan_tabs s;
              El §"div" [] [plan_copy plan; period_picker plan; checkout s p href]]]
      end
  | _, _ => []
  end.

Definition component : Component := {|
  St := State; Ev := Event; Op := unit;
  mount := settled initial;
  view := render;
  on := handle;
  request _ := {| method := []; url := []; headers := []; body := None |};
  resume _ _ s := settled s;
|}.

(** ** Properties *)

Lemma periodFor_sound plan i p : periodFor plan i = Some p → p ∈ periods plan.
Proof.
  unfold periodFor, orElse. destruct (find_first _ _) as [q|] eqn:E.
  - intros [= <-]. by apply find_first_Some in E as [? _].
  - intros Hp. by apply head_Some_elem_of in Hp.
Qed.

Lemma planFor_sound c plan : planFor c = Some plan → plan ∈ plans props.
Proof.
  assert (∀ q, q ∈ safePlans → q ∈ plans props) as Hs.
  { intros q. unfold safePlans. rewrite list_elem_of_filter. tauto. }
  unfold planFor, orElse. destruct (find_first _ _) as [q|] eqn:E.
  - intros [= <-]. apply Hs. by apply find_first_Some in E as [? _].
  - intros Hp. apply Hs. by apply head_Some_elem_of in Hp.
Qed.

(** A listed period of the plans of the page. *)
Definition listed (i : PlanId) : Prop :=
  ∃ plan p, plan ∈ plans props ∧ p ∈ periods plan ∧ id p = i.

Lemma select_offered i s : offered component (Select i) s → listed i.
Proof.
  intros Ho.
  refine (offered_every component (λ e, ∀ i, e = Select i → listed i) s (Select i) _ Ho i eq_refl).
  clear Ho i. cbn [view component].
  unfold render, plan_tabs, plan_copy, period_picker, checkout. events; try done.
  intros i [= <-]. unfold currentPlan, period in *. 
  match goal with H1 : planFor _ = Some ?plan, H2 : _ ≫= _ = Some ?p |- _ =>
    rewrite H1 in H2; exists plan, p; split_and!; [by eapply planFor_sound| |done];
    by eapply periodFor_sound end.
Qed.

(** the chooser only ever asks to pay for a listed period, whatever was
    clicked before. *)
Theorem chooser_selects_listed s :
  reached component s →
  Forall (λ o, ∃ i, o = Callback §"onSelect" [plan_id_str i] ∧ listed i) (outputs s).
Proof.
  revert s. apply component_invariant.
  - constructor.
  - intros s e _ Ho Hoff. cbn [commit outputs]. apply Forall_app. split; [done|].
    destruct e as [plan|i|v|i]; try constructor; [|constructor].
    exists i. split; [done|]. by eapply select_offered.
  - intros s i op r _ Ho Hi. cbn [commit outputs resume component]. simpl. by rewrite app_nil_r.
Qed.

(** the link to the sign-in page carries the chosen period and, when a
    promo code was typed, that code without surrounding blanks, in a form
    that decodes to it. *)
Theorem checkout_href_promo p s href :
  Forall is_unit (promoInput s) → checkout_href p s = Ok href →
  ∃ rest, href = §"/auth?plan=" ++ plan_id_str (id p) ++ rest ∧
    (trim (promoInput s) = [] → rest = []) ∧
    (trim (promoInput s) ≠ [] →
       ∃ e, rest = §"&promo=" ++ e ∧ utf8_decode (unescape e) = trim (promoInput s)).
Proof.
  intros Hu. unfold checkout_href.
  assert (Forall is_unit (trim (promoInput s))) as Ht.
  { apply Forall_forall. intros c Hc%trim_elem. by eapply Forall_forall. }
  destruct (trim (promoInput s)) as [|c w] eqn:Et; cbn [str_truthy].
  - intros Eh. replace href with (§"/auth?plan=" ++ plan_id_str (id p)) by congruence.
    exists []. by rewrite app_nil_r.
  - destruct (encodeURIComponent (c :: w)) as [e|] eqn:E; [|done]. intros Eh.
    replace href with ((§"/auth?plan=" ++ plan_id_str (id p)) ++ §"&promo=" ++ e) by congruence.
    exists (§"&promo=" ++ e). rewrite <-app_assoc. split_and!; [done..|]. intros _.
    exists e. split; [done|]. by apply (encodeURIComponent_decodes (c :: w) Ht).
Qed.
End Chooser.

#[local] Existing Instance plain_host.

Definition sample_props (m : ChooserMode) : Props :=
  {| plans := SiteConfig.plans defaultSiteConfig; initialPlan := Some vip_3m; loadingPlan := None;
     mode := m |}.

Lemma chooser_selects_listed_witness :
  let s := final (component (sample_props mode_payment)) [Click 0; Click 3; Click 4] in
  outputs s = [Callback §"onSelect" [§"basic_3m"]] ∧
  Forall (λ o, ∃ i, o = Callback §"onSelect" [plan_id_str i] ∧
                    listed (sample_props mode_payment) i) (outputs s).
Proof.
  split; [vm_compute; reflexivity|].
  apply chooser_selects_listed, final_reached. vm_compute. reflexivity.
Defined.

Lemma checkout_href_promo_witness :
  ∃ rest, §"/auth?plan=vip&promo=SALE%2050" = §"/auth?plan=" ++ §"vip" ++ rest.
Proof.
  destruct (checkout_href_promo
    {| id := vip; SiteConfig.label := []; duration_days := 30; amount := 399; currency := §"RUB" |}
    {| planCode := vip_code; periodId := vip; promoInput := §" SALE 50 " |}
    §"/auth?plan=vip&promo=SALE%2050") as (rest & E & _).
  - apply unitsb_spec. vm_compute. reflexivity.
  - vm_compute. reflexivity.
  - exists rest. exact E.
Defined.
End PlanChooser.
