(* ===== verification/Compose.v ===== *)
(** * A component inside another

    A parent that renders a child gives it properties computed from its own
    state and hears the child's calls of the functions it passed.  [nest]
    makes one component of the two: the child is mounted when the parent's
    state first shows it, is told of new properties after every change of the
    parent, and appears in the parent's tree in place of the element [slot];
    requests of both are in flight together. *)
From S2P Require Export Component.

(** A child of a parent with states [S] and events [E]. *)
Record Child (S E : Type) := {
  CSt : Type;
  CEv : Type;
  COp : Type;
  CProps : Type;
  slot : jstr;
  (** the properties, when the parent renders the child *)
  shown : S → option CProps;
  c_mount : CProps → Outcome CSt COp;
  c_update : CProps → CSt → Outcome CSt COp;
  c_view : CProps → CSt → list (node CEv);
  c_on : CProps → CEv → CSt → Outcome CSt COp;
  c_request : COp → Request;
  c_resume : CProps → COp → Reply → CSt → Outcome CSt COp;
  (** the parent's reaction to an outward action of the child *)
  hears : Out → option E;
}.
#[global] Arguments CSt {S E} _.
#[global] Arguments CEv {S E} _.
#[global] Arguments COp {S E} _.
#[global] Arguments CProps {S E} _.
#[global] Arguments slot {S E} _.
#[global] Arguments shown {S E} _ _.
#[global] Arguments c_mount {S E} _ _.
#[global] Arguments c_update {S E} _ _ _.
#[global] Arguments c_view {S E} _ _ _.
#[global] Arguments c_on {S E} _ _ _ _.
#[global] Arguments c_request {S E} _ _.
#[global] Arguments c_resume {S E} _ _ _ _ _.
#[global] Arguments hears {S E} _ _.

(** ** Trees with a slot *)

Section Trees.
Context {E F : Type} (tag : jstr).

Definition map_prop {A B} (f : A → B) (p : prop A) : prop B :=
  match p with
  | Prop_ k v => Prop_ k v
  | Flag k b => Flag k b
  | On ev e => On ev (f e)
  | OnText g => OnText (λ txt, f (g txt))
  end.

Fixpoint map_node {A B} (f : A → B) (n : node A) : node B :=
  match n with
  | Txt s => Txt s
  | El t ps cs => El t (map (map_prop f) ps) (map (map_node f) cs)
  end.

(** The parent's tree with the child's in its slot. *)
Fixpoint fill (kids : list (node (E + F))) (n : node E) : node (E + F) :=
  match n with
  | Txt s => Txt s
  | El t ps cs =>
      if str_eqb t tag then El t [] kids
      else El t (map (map_prop inl) ps) (map (fill kids) cs)
  end.

(** [every], except in the slot. *)
Fixpoint node_outside (P : E → Prop) (n : node E) : Prop :=
  match n with
  | Txt _ => True
  | El t ps cs =>
      t = tag ∨
      ((is_disabled ps = false → Forall (prop_event P) ps) ∧
       (fix all (l : list (node E)) : Prop :=
          match l with [] => True | n :: l => node_outside P n ∧ all l end) cs)
  end.

Definition outside (P : E → Prop) : list (node E) → Prop :=
  fix all (l : list (node E)) : Prop :=
    match l with [] => True | n :: l => node_outside P n ∧ all l end.

Lemma outside_cons P n ns : outside P (n :: ns) ↔ node_outside P n ∧ outside P ns.
Proof. exact (iff_refl _). Qed.

Lemma outside_app P a b : outside P (a ++ b) ↔ outside P a ∧ outside P b.
Proof. induction a; simpl; tauto. Qed.

Lemma outside_show P c ns : outside P (show c ns) ↔ (c = true → outside P ns).
Proof. destruct c; simpl; split; try done; auto. Qed.

Lemma outside_fmap {A} P (f : A → node E) l :
  (∀ x, x ∈ l → node_outside P (f x)) → outside P (f <$> l).
Proof.
  induction l as [|x l IH]; intros Hf; [exact I|]. rewrite fmap_cons, outside_cons.
  split; [apply Hf; by left|]. apply IH. intros y Hy. apply Hf. by right.
Qed.

Lemma node_outside_El P t ps cs :
  node_outside P (El t ps cs) ↔
  t = tag ∨ (is_disabled ps = false → Forall (prop_event P) ps) ∧ outside P cs.
Proof. exact (iff_refl _). Qed.

Lemma is_disabled_map {A B} (f : A → B) ps : is_disabled (map (map_prop f) ps) = is_disabled ps.
Proof. induction ps as [|[] ps IH]; [done|..]; unfold is_disabled in *; simpl; by rewrite IH. Qed.

Lemma map_prop_events {A B} (f : A → B) (P : B → Prop) ps :
  Forall (prop_event P) (map (map_prop f) ps) ↔ Forall (prop_event (λ e, P (f e))) ps.
Proof.
  induction ps as [|p ps IH]; [by split|]. simpl. rewrite !Forall_cons, IH. by destruct p.
Qed.

Lemma map_node_events {A B} (f : A → B) (P : B → Prop) ns :
  every (λ e, P (f e)) ns → every P (map (map_node f) ns).
Proof.
  assert (∀ n, node_events (λ e, P (f e)) n → node_events P (map_node f n)) as Hn.
  { fix IH 1. intros [s|t ps cs]; [done|]. cbn [map_node]. rewrite !node_events_El.
    intros [Hps Hcs]. rewrite is_disabled_map, map_prop_events. split; [done|].
    clear Hps. revert cs Hcs. fix IHl 1. intros [|n cs]; [done|]. cbn [map]. rewrite !every_cons.
    intros [H1 H2]. split; [by apply IH|by apply IHl]. }
  induction ns as [|n ns IH]; [done|]. simpl. rewrite !every_cons. intros [? ?].
  split; [by apply Hn|by apply IH].
Qed.

Lemma fill_events (P : E + F → Prop) kids ns :
  outside (λ e, P (inl e)) ns → every P kids → every P (map (fill kids) ns).
Proof.
  intros Ho Hk.
  assert (∀ n, node_outside (λ e, P (inl e)) n → node_events P (fill kids n)) as Hn.
  { fix IH 1. intros [s|t ps cs]; [done|]. cbn [fill]. rewrite node_outside_El.
    destruct (str_eqb t tag) eqn:Et; [intros _; rewrite node_events_El; by split|].
    intros [->|[Hps Hcs]]; [by rewrite str_eqb_refl in Et|]. rewrite node_events_El.
    rewrite is_disabled_map, map_prop_events. split; [done|].
    clear Hps Et. revert cs Hcs. fix IHl 1. intros [|n cs]; [done|]. cbn [map].
    rewrite outside_cons, every_cons. intros [H1 H2]. split; [by apply IH|by apply IHl]. }
  revert ns Ho. induction ns as [|n ns IH]; [done|]. simpl. rewrite every_cons.
  intros [? ?]. split; [by apply Hn|by apply IH].
Qed.
End Trees.
#[global] Arguments outside : simpl never.
#[global] Arguments node_outside : simpl never.

(** ** Attributes *)

Definition own_attrs {E} (k : jstr) (ps : list (prop E)) : list jstr :=
  omap (λ p, match p with Prop_ k' v => if str_eqb k' k then Some v else None | _ => None end) ps.

(** The values of an attribute in a tree. *)
Fixpoint attrs {E} (k : jstr) (n : node E) : list jstr :=
  match n with
  | Txt _ => []
  | El _ ps cs => own_attrs k ps ++ concat (map (attrs k) cs)
  end.

Definition all_attrs {E} (k : jstr) (ns : list (node E)) : list jstr := concat (map (attrs k) ns).

Lemma all_attrs_cons {E} k (n : node E) ns : all_attrs k (n :: ns) = attrs k n ++ all_attrs k ns.
Proof. done. Qed.

Lemma all_attrs_app {E} k (a b : list (node E)) : all_attrs k (a ++ b) = all_attrs k a ++ all_attrs k b.
Proof. unfold all_attrs. by rewrite map_app, concat_app. Qed.

Lemma attrs_El {E} k t (ps : list (prop E)) cs :
  attrs k (El t ps cs) = own_attrs k ps ++ all_attrs k cs.
Proof. done. Qed.

Lemma all_attrs_elem {E} k (ns : list (node E)) x :
  x ∈ all_attrs k ns ↔ ∃ n, n ∈ ns ∧ x ∈ attrs k n.
Proof.
  unfold all_attrs. induction ns as [|n ns IH]; simpl; [set_solver|].
  rewrite elem_of_app, IH. set_solver.
Qed.

Lemma Forall_attrs_bind {A E} k (P : jstr → Prop) (f : A → list (node E)) l :
  (∀ x, x ∈ l → Forall P (all_attrs k (f x))) → Forall P (all_attrs k (l ≫= f)).
Proof.
  induction l as [|x l IH]; intros Hf; [constructor|]. rewrite bind_cons, all_attrs_app.
  apply Forall_app. split; [apply Hf; by left|]. apply IH. intros y Hy. apply Hf. by right.
Qed.

Lemma Forall_attrs_fmap {A E} k (P : jstr → Prop) (f : A → node E) l :
  (∀ x, x ∈ l → Forall P (attrs k (f x))) → Forall P (all_attrs k (f <$> l)).
Proof.
  induction l as [|x l IH]; intros Hf; [constructor|]. rewrite fmap_cons, all_attrs_cons.
  apply Forall_app. split; [apply Hf; by left|]. apply IH. intros y Hy. apply Hf. by right.
Qed.

Lemma own_attrs_map {A B} (f : A → B) k ps : own_attrs k (map (map_prop f) ps) = own_attrs k ps.
Proof.
  unfold own_attrs. induction ps as [|p ps IH]; [done|].
  destruct p as [k' v| | |]; simpl; [|exact IH..]. destruct (str_eqb k' k); [by f_equal|exact IH].
Qed.

Lemma all_attrs_map_node {A B} (f : A → B) k ns : all_attrs k (map (map_node f) ns) = all_attrs k ns.
Proof.
  assert (∀ n : node A, attrs k (map_node f n) = attrs k n) as Hn.
  { fix IH 1. intros [s|t ps cs]; [done|]. cbn [map_node]. rewrite !attrs_El, own_attrs_map. f_equal.
    revert cs. fix IHl 1. intros [|n cs]; [done|]. cbn [map]. rewrite !all_attrs_cons. by rewrite IH, IHl. }
  induction ns as [|n ns IH]; [done|]. cbn [map]. by rewrite !all_attrs_cons, Hn, IH.
Qed.

(** Filling a slot adds the attributes of the child. *)
Lemma Forall_attrs_fill {E F} tag k (P : jstr → Prop) (kids : list (node (E + F))) ns :
  Forall P (all_attrs k ns) → Forall P (all_attrs k kids) →
  Forall P (all_attrs k (map (fill tag kids) ns)).
Proof.
  intros Hns Hk.
  assert (∀ n : node E, Forall P (attrs k n) → Forall P (attrs k (fill tag kids n))) as Hn.
  { fix IH 1. intros [s|t ps cs]; [done|]. cbn [fill]. rewrite attrs_El, Forall_app. intros [Hp Hc].
    destruct (str_eqb t tag); [done|]. rewrite attrs_El, own_attrs_map. apply Forall_app. split; [done|].
    clear Hp. revert cs Hc. fix IHl 1. intros [|n cs]; [done|]. cbn [map].
    rewrite !all_attrs_cons, !Forall_app. intros [H1 H2]. split; [by apply IH|by apply IHl]. }
  induction ns as [|n ns IH]; [done|]. cbn [map]. rewrite all_attrs_cons in Hns.
  apply Forall_app in Hns as [H1 H2]. rewrite all_attrs_cons. apply Forall_app.
  split; [by apply Hn|by apply IH].
Qed.

Lemma own_attrs_skip {E} (P : jstr → Prop) k (p : prop E) ps :
  match p with Prop_ _ _ => False | _ => True end →
  Forall P (own_attrs k ps) → Forall P (own_attrs k (p :: ps)).
Proof. by destruct p. Qed.

(** Walk a view, leaving the attributes to check. *)
Ltac attrs_step :=
  lazymatch goal with
  | |- Forall _ (all_attrs _ []) => constructor
  | |- Forall _ (all_attrs _ (_ :: _)) => rewrite all_attrs_cons; apply Forall_app; split
  | |- Forall _ (all_attrs _ (_ ++ _)) => rewrite all_attrs_app; apply Forall_app; split
  | |- Forall _ (all_attrs _ (show ?c _)) => destruct c eqn:?; cbn [show]
  | |- Forall _ (all_attrs _ (_ ≫= _)) => apply Forall_attrs_bind; intros ? ?
  | |- Forall _ (all_attrs _ (_ <$> _)) => apply Forall_attrs_fmap; intros ? ?
  | |- Forall _ (all_attrs _ (match ?c with _ => _ end)) => destruct c eqn:?
  | |- Forall _ (attrs _ (Txt _)) => constructor
  | |- Forall _ (attrs _ (El _ _ _)) => rewrite attrs_El; apply Forall_app; split
  | |- Forall _ (attrs _ (match ?c with _ => _ end)) => destruct c eqn:?
  | |- Forall _ (own_attrs _ []) => constructor
  | |- Forall _ (own_attrs _ (Flag _ _ :: _)) => apply own_attrs_skip; [exact I|]
  | |- Forall _ (own_attrs _ (On _ _ :: _)) => apply own_attrs_skip; [exact I|]
  | |- Forall _ (own_attrs _ (OnText _ :: _)) => apply own_attrs_skip; [exact I|]
  | |- Forall _ (own_attrs _ (match ?c with _ => _ end)) => destruct c eqn:?
  end.

(** Walk a view with a slot. *)
Ltac outside_step :=
  lazymatch goal with
  | |- outside _ _ [] => exact I
  | |- outside _ _ (_ :: _) => apply outside_cons; split
  | |- outside _ _ (_ ++ _) => apply outside_app; split
  | |- outside _ _ (show _ _) => apply outside_show; intros ?
  | |- outside _ _ (_ <$> _) => apply outside_fmap; intros ? ?
  | |- outside _ _ (match ?c with _ => _ end) => destruct c eqn:?
  | |- node_outside _ _ (Txt _) => exact I
  | |- node_outside _ _ (El _ _ _) =>
      apply node_outside_El; first [left; reflexivity | right; split; [intros ?|]]
  | |- node_outside _ _ (match ?c with _ => _ end) => destruct c eqn:?
  | |- _ => events_step
  end.
Ltac outsides := repeat outside_step.

(** ** The composition *)

Section Nest.
Context (P : Component) (C : Child (St P) (Ev P)).

Definition NSt : Type := St P * option (CSt C).
Definition NEv : Type := Ev P + CEv C.
Definition NOp : Type := Op P + COp C.

(** Bring the child in line with the parent's state. *)
Definition adopt (s : St P) (c : option (CSt C)) : Outcome NSt NOp :=
  match shown C s, c with
  | None, _ => settled (s, None)
  | Some p, None =>
      let o := c_mount C p in Build_Outcome (s, Some (new o)) (inr <$> started o) (outs o)
  | Some p, Some c =>
      let o := c_update C p c in Build_Outcome (s, Some (new o)) (inr <$> started o) (outs o)
  end.

(** A step of the parent, then the child's. *)
Definition parent_step (o : Outcome (St P) (Op P)) (c : option (CSt C)) : Outcome NSt NOp :=
  let o' := adopt (new o) c in
  Build_Outcome (new o') ((inl <$> started o) ++ started o') (outs o ++ outs o').

(** The parent hears the outward actions of the child; others go on. *)
Fixpoint hear (os : list Out) (s : St P) : Outcome (St P) (Op P) :=
  match os with
  | [] => settled s
  | o :: os =>
      match hears C o with
      | Some e =>
          let o1 := on P e s in
          let o2 := hear os (new o1) in
          Build_Outcome (new o2) (started o1 ++ started o2) (outs o1 ++ outs o2)
      | None =>
          let o2 := hear os s in
          Build_Outcome (new o2) (started o2) (o :: outs o2)
      end
  end.

Definition child_step (s : St P) (o : Outcome (CSt C) (COp C)) : Outcome NSt NOp :=
  let o' := parent_step (hear (outs o) s) (Some (new o)) in
  Build_Outcome (new o') ((inr <$> started o) ++ started o') (outs o').

Definition nest_view (x : NSt) : list (node NEv) :=
  let kids := match shown C x.1, x.2 with
              | Some p, Some c => map (map_node inr) (c_view C p c)
              | _, _ => []
              end in
  map (fill (slot C) kids) (view P x.1).

Definition nest_on (e : NEv) (x : NSt) : Outcome NSt NOp :=
  match e, shown C x.1, x.2 with
  | inl e, _, c => parent_step (on P e x.1) c
  | inr e, Some p, Some c => child_step x.1 (c_on C p e c)
  | inr _, _, _ => settled x
  end.

(** A reply to a child that is gone is dropped. *)
Definition nest_resume (op : NOp) (r : Reply) (x : NSt) : Outcome NSt NOp :=
  match op, shown C x.1, x.2 with
  | inl op, _, c => parent_step (resume P op r x.1) c
  | inr op, Some p, Some c => child_step x.1 (c_resume C p op r c)
  | inr _, _, _ => settled x
  end.

Definition nest : Component := {|
  St := NSt; Ev := NEv; Op := NOp;
  mount := parent_step (mount P) None;
  view := nest_view;
  on := nest_on;
  request op := match op with inl op => request P op | inr op => c_request C op end;
  resume := nest_resume;
|}.

(** The child acts when it is shown; otherwise nothing happens. *)
Lemma nest_on_child e x :
  (∃ p c, shown C x.1 = Some p ∧ x.2 = Some c ∧
     nest_on (inr e) x = child_step x.1 (c_on C p e c)) ∨
  nest_on (inr e) x = settled x.
Proof.
  unfold nest_on. destruct (shown C x.1) as [p|] eqn:Ep; [|by right].
  destruct x.2 as [c|] eqn:Ec; [|by right]. left. by exists p, c.
Qed.

Lemma nest_resume_child op r x :
  (∃ p c, shown C x.1 = Some p ∧ x.2 = Some c ∧
     nest_resume (inr op) r x = child_step x.1 (c_resume C p op r c)) ∨
  nest_resume (inr op) r x = settled x.
Proof.
  unfold nest_resume. destruct (shown C x.1) as [p|] eqn:Ep; [|by right].
  destruct x.2 as [c|] eqn:Ec; [|by right]. left. by exists p, c.
Qed.

(** What a tree offers: the parent's events outside of the slot and, while
    the child is shown, the child's events. *)
Lemma nest_offered (Q : NEv → Prop) x e :
  outside (slot C) (λ e, Q (inl e)) (view P x.1) →
  (∀ p c, shown C x.1 = Some p → x.2 = Some c → every (λ e, Q (inr e)) (c_view C p c)) →
  offered nest e x → Q e.
Proof.
  intros Ho Hc. apply (offered_every nest Q). cbn [view nest]. unfold nest_view.
  apply fill_events; [exact Ho|]. destruct (shown C x.1) as [p|] eqn:Ep; [|exact I].
  destruct x.2 as [c|] eqn:Ec; [|exact I]. apply map_node_events. by apply Hc.
Qed.

(** *** What the two parts ever start *)

Section Started.
Context (QP : Op P → Prop) (QC : COp C → Prop).

Definition op_ok (op : NOp) : Prop := match op with inl op => QP op | inr op => QC op end.

Context (P_mount : Forall QP (started (mount P)))
        (P_on : ∀ e s, Forall QP (started (on P e s)))
        (P_resume : ∀ op r s, Forall QP (started (resume P op r s)))
        (C_mount : ∀ p, Forall QC (started (c_mount C p)))
        (C_update : ∀ p c, Forall QC (started (c_update C p c)))
        (C_on : ∀ p e c, Forall QC (started (c_on C p e c)))
        (C_resume : ∀ p op r c, Forall QC (started (c_resume C p op r c))).

Lemma op_ok_inl ops : Forall QP ops → Forall op_ok (inl <$> ops).
Proof. intros H. by apply Forall_fmap. Qed.

Lemma op_ok_inr ops : Forall QC ops → Forall op_ok (inr <$> ops).
Proof. intros H. by apply Forall_fmap. Qed.

Lemma adopt_ok s c : Forall op_ok (started (adopt s c)).
Proof.
  unfold adopt. destruct (shown C s); [destruct c|constructor]; by apply op_ok_inr.
Qed.

Lemma parent_step_ok o c : Forall QP (started o) → Forall op_ok (started (parent_step o c)).
Proof. intros Ho. apply Forall_app. split; [by apply op_ok_inl|apply adopt_ok]. Qed.

Lemma hear_ok os s : Forall QP (started (hear os s)).
Proof.
  revert s. induction os as [|o os IH]; intros s; [constructor|]. simpl.
  destruct (hears C o); simpl; [|done]. by apply Forall_app.
Qed.

Lemma child_step_ok s o : Forall QC (started o) → Forall op_ok (started (child_step s o)).
Proof.
  intros Ho. apply Forall_app. split; [by apply op_ok_inr|]. apply parent_step_ok, hear_ok.
Qed.

(** Every request of the composition is one of the parent or of the child. *)
Lemma nest_requests s q :
  reached nest s → q ∈ requests s →
  (∃ op, QP op ∧ q = request P op) ∨ (∃ op, QC op ∧ q = c_request C op).
Proof.
  intros Hr Hq. destruct (started_invariant nest op_ok) with s as [_ Hreq]; [| | |done|].
  - by apply parent_step_ok.
  - intros s' e _ _. cbn [on nest]. unfold nest_on. destruct e as [e|e]; [by apply parent_step_ok|].
    repeat (case_match; [|constructor]). by apply child_step_ok.
  - intros s' op r _ _. cbn [resume nest]. unfold nest_resume. destruct op as [op|op]; [by apply parent_step_ok|].
    repeat (case_match; [|constructor]). by apply child_step_ok.
  - destruct (Hreq q Hq) as ([op|op] & Hop & ->); [left|right]; by exists op.
Qed.
End Started.
End Nest.
