(* ===== verification/Landing.v ===== *)
(** * The public pages: [web/app/page.tsx], [web/app/policy/page.tsx],
    [web/components/Faq.tsx] and [Topbar.tsx]

    The landing page is rendered on the server from the configuration and has
    two client components in it, the pricing table and the questions; it is
    their composition ([Compose]).  Icons, class names, animation and the
    shader behind the title are left out, as in the other views. *)
From S2P Require Export Compose PricingTable AuthForm Site.
Import Site.

Module Landing.

(** ** Questions and answers *)

Record FaqItem := { question : jstr; answer : jstr }.

Definition ITEMS : list FaqItem :=
    [{| question := §"Хранит ли FBLink VPN логи?"; answer := §"Нет. Мы не пишем журналы посещенных ресурсов, IP-адресов и трафика. Хранится только email и статус подписки." |};
     {| question := §"На скольких устройствах можно использовать одну подписку?"; answer := §"Без лимита. Используйте один email и пароль на любом количестве устройств — Android, Windows, macOS, Linux и iPhone." |};
     {| question := §"Чем VIP отличается от Premium?"; answer := §"VIP добавляет приоритетные серверы, Xray Reality для регионов с глубокой DPI, AdBlock DNS и более высокую скорость на пиковой нагрузке." |};
     {| question := §"Что делать, если подключение медленное?"; answer := §"В приложении переключите сервер на другую локацию вручную — попробуйте ближайшую к вам страну. Если проблема осталась — напишите в поддержку, поможем подобрать сервер." |};
     {| question := §"С каких карт можно оплатить?"; answer := §"Всех российских банковских карт. Оплата идёт через YooKassa, подписка активируется сразу после платежа." |};
     {| question := §"Подойдет ли VPN для стриминга и игр?"; answer := §"Да. Серверы оптимизированы под низкий пинг и стабильность 4K/UHD-стриминга. Для онлайн-игр выбирайте ближайшую локацию." |}].

(** The state is [open], the index of the open item. *)
Definition Faq_item (open : option nat) (index : nat) (item : FaqItem) : node nat :=
  let isOpen := bool_decide (open = Some index) in
  El §"div" []
    (El §"button" [Flag §"aria-expanded" isOpen; Prop_ §"type" §"button"; On §"click" index]
       [El §"span" [] [Txt (question item)]]
     :: show isOpen [El §"div" [] [El §"p" [] [Txt (answer item)]]]).

Definition Faq_view (open : option nat) : list (node nat) :=
  [El §"div" [] (imap (Faq_item open) ITEMS)].

Definition Faq_on (index : nat) (open : option nat) : option nat :=
  if bool_decide (open = Some index) then None else Some index.

Definition Faq : Component := {|
  St := option nat; Ev := nat; Op := Empty_set;
  mount := settled (Some 0%nat);
  view := Faq_view;
  on index open := settled (Faq_on index open);
  request op := match op with end;
  resume _ _ s := settled s;
|}.

(** Every question can be clicked.  A click shows the answer to that question
    and no other, or none when it was showing. *)
Lemma faq_click k open :
  all_clicks (Faq_view open) = seq 0 (length ITEMS) ∧
  all_texts (Faq_view (Faq_on k open)) =
    concat (imap (λ i item, question item ::
      (if bool_decide (i = k ∧ open ≠ Some k) then [answer item] else [])) ITEMS).
Proof.
  unfold all_clicks, all_texts, Faq_view. cbn [map concat]. rewrite !app_nil_r.
  assert (∀ b item, concat (map texts (show b [El (E:=nat) §"div" [] [El §"p" [] [Txt (answer item)]]])) =
    if b then [answer item] else []) as Hb by (by intros []).
  assert (∀ o i item, texts (Faq_item o i item) =
    question item :: (if bool_decide (o = Some i) then [answer item] else [])) as Ht.
  { intros o i item. cbn [Faq_item texts map concat app]. f_equal. apply Hb. }
  split.
  { assert (∀ i item, clicks (Faq_item open i item) = [i]) as Hc.
    { intros i item. unfold Faq_item. by destruct (bool_decide _). }
    change (concat (map clicks (imap (Faq_item open) ITEMS)) = seq 0 (length ITEMS)).
    unfold ITEMS. cbn [imap map]. unfold compose. by rewrite !Hc. }
  cbn [texts]. generalize ITEMS as items. intros items. f_equal.
  apply list_eq. intros i. rewrite list_lookup_fmap, !list_lookup_imap.
  destruct (items !! i) as [item|]; [|done]. cbn [fmap option_fmap option_map]. f_equal.
  rewrite Ht. f_equal. unfold Faq_on. repeat case_bool_decide; naive_solver.
Qed.

(** ** The head of the page *)

Definition NAV_LINKS : list (jstr * jstr) :=
  [(§"#features", §"Возможности"); (§"#plans", §"Тарифы"); (§"#faq", §"FAQ")].

Section Views.
Context {E : Type}.

Definition link (href : jstr) (children : list (node E)) : node E :=
  El §"a" [Prop_ §"href" href] children.

Definition Topbar : node E :=
  El §"header" []
    [El §"div" []
       [Brand §"/";
        El §"nav" [Prop_ §"aria-label" §"Главная навигация"]
          ((λ l : jstr * jstr, link l.1 [Txt l.2]) <$> NAV_LINKS);
        El §"div" [] [link §"/auth" [Txt §"Войти"]; link §"/dashboard" [Txt §"Скачать"]]]].

(** ** The landing page *)

Definition METRICS : list (jstr * jstr) :=
  [(§"5", §"быстрых серверов"); (§"0", §"логов и трекеров"); (§"1 Гбит/с", §"пропускная способность канала"); (§"∞", §"устройств на одной подписке")].

Record Feature := { feature_title : jstr; badge : jstr; description : jstr }.

Definition FEATURES : list Feature :=
    [{| feature_title := §"Без логов"; badge := §"Privacy"; description := §"Не пишем журналы трафика и DNS-запросов. У нас просто нечего отдать по запросу — только email и факт подписки." |};
     {| feature_title := §"Быстрое подключение"; badge := §"Performance"; description := §"AmneziaWG и Xray Reality. Средний пинг 42 мс по СНГ и Европе." |};
     {| feature_title := §"Ручной выбор сервера"; badge := §"Global"; description := §"Пять локаций в разных регионах. Выберите свой в приложении — подключение в один тап." |};
     {| feature_title := §"AmneziaWG + Xray"; badge := §"Tech"; description := §"Современные протоколы с DPI-устойчивостью. Reality поверх TLS, маскировка под Google/Cloudflare." |};
     {| feature_title := §"Kill Switch"; badge := §"Safety"; description := §"Если туннель упал — никаких утечек. Firewall блокирует трафик до восстановления соединения." |};
     {| feature_title := §"Split Tunneling"; badge := §"Control"; description := §"Выбирайте, какие приложения и сайты идут через VPN, а какие напрямую." |}].

(** [platforms]: the label and the address of each download. *)
Definition platforms (d : Downloads) : list (jstr * jstr) :=
  [(§"Android", android d); (§"TV", androidtv d); (§"Windows", windows d); (§"macOS", macos d);
   (§"Linux", linux d); (§"iPhone", happ d)].

Definition support_links (config : SiteConfig) : list (node E) :=
  (λ c, link (href c) [El §"span" [] [Txt (ch_label c)]]) <$> supportChannels config.

Definition mailto (config : SiteConfig) : jstr := §"mailto:" ++ email (support config).

Definition hero (config : SiteConfig) : node E :=
  El §"section" []
    [El §"div" []
       [El §"span" [] [Txt §" AmneziaWG · Xray Reality · No logs"];
        El §"h1" [] [Txt §"Приватный интернет "; El §"span" [] [Txt §"за минуту."]];
        El §"p" [] [Txt §"FBLink VPN — премиальный сервис без логов. Скачайте приложение, выберите подписку и подключайтесь одним тапом на Android, Windows, macOS, Linux и iPhone."];
        El §"div" [] [link §"#plans" [Txt §"Выбрать подписку "]; link §"#platforms" [Txt §" Скачать приложение"]];
        El §"div" [] [El §"span" [] [Txt §" Без логов"]; El §"span" [] [Txt §"Безлимит устройств"];
                      El §"span" [] [Txt §"Оплата по РФ"]];
        El §"div" [] (El §"span" [] [Txt §" Поддержка"] :: support_links config)];
     El §"div" []
       [El §"div" []
          [El §"div" [] [El §"span" [] [Txt §"FBLink VPN"]; El §"strong" [] [Txt §"Защита включена"]];
           El §"div" [] [El §"span" [] [Txt §"Сервер"]; El §"strong" [] [Txt §"FBLink · NL"];
                         El §"span" [] [Txt §"Пинг"]; El §"strong" [] [Txt §"42 ms"]]];
        El §"div" [] ((λ p : jstr * jstr, link p.2 [El §"span" [] [Txt p.1]])
                        <$> take 5 (platforms (downloads config)))]].

Definition metric_strip : node E :=
  El §"section" [Prop_ §"aria-label" §"Ключевые показатели"]
    ((λ m : jstr * jstr, El §"div" [] [El §"strong" [] [Txt m.1]; El §"span" [] [Txt m.2]]) <$> METRICS).

(** A section with an anchor: its eyebrow, its title, the rest of its head and
    its body. *)
Definition section (anchor eyebrow : jstr) (title head body : list (node E)) : node E :=
  El §"section" [Prop_ §"id" anchor]
    (El §"div" [] (El §"span" [] [Txt eyebrow] :: El §"h2" [] title :: head) :: body).

Definition features_section : node E :=
  section §"features" §"Возможности" [Txt §"Премиум-функции по цене кофе"] [El §"p" [] [Txt §"Современные протоколы, защита от утечек и продуманный кабинет. Без баннеров, рекламы и сбора телеметрии."]]
    [El §"div" [] ((λ f, El §"article" []
       [El §"div" [] [El §"span" [] [Txt (badge f)]; El §"h3" [] [Txt (feature_title f)];
                      El §"p" [] [Txt (description f)]]]) <$> FEATURES)].

(** The pricing table goes into its slot. *)
Definition plans_section : node E :=
  section §"plans" §"Подписка"
    [Txt §"Один тариф — один тап. "; El §"span" [] [Txt §"Без скрытых платежей."]]
    [El §"p" [] [Txt §"Два тарифа и два срока. Выбираете план, срок, оплачиваете — и сразу пользуетесь. Все условия показаны до оплаты."]]
    [El §"Pricing04" [] []].

Definition platform_tile (p : jstr * jstr) : node E :=
  link p.2 [El §"strong" [] [Txt p.1];
            El §"span" [] [Txt (if str_eqb p.1 §"iPhone" then §"Добавить в Happ" else §"Скачать")]].

Definition platforms_section (config : SiteConfig) : node E :=
  section §"platforms" §"Платформы" [Txt §"Все ваши устройства — одной подпиской"] []
    [El §"div" [] (platform_tile <$> platforms (downloads config))].

(** So do the questions. *)
Definition faq_section : node E :=
  section §"faq" §"FAQ" [Txt §"Частые вопросы"] [El §"p" [] [Txt §"Если не нашли ответ — напишите нам в Telegram или на почту, отвечаем в течение часа."]] [El §"Faq" [] []].

Definition cta_section (config : SiteConfig) : node E :=
  El §"section" []
    [El §"div" []
       [El §"h2" [] [Txt §"Готовы начать? "; El §"span" [] [Txt §"Без рекламы, без трекеров, без логов."]];
        El §"p" [] [Txt §"Создайте аккаунт за 30 секунд, выберите тариф и скачайте приложение на любых устройствах — одна подписка без лимитов."];
        El §"div" [] [link §"/auth" [Txt §"Создать аккаунт "]; link (mailto config) [Txt §" Задать вопрос"]]]].

Definition footer (config : SiteConfig) (year : Z) : node E :=
  El §"footer" []
    [El §"div" []
       [El §"div" [] [El §"strong" [] [Txt §"FBLink VPN"]; El §"p" [] [Txt §"Премиальный VPN без логов. Россия и СНГ."]];
        El §"div" []
          ([link §"#features" [Txt §"Возможности"]; link §"#plans" [Txt §"Тарифы"]; link §"#faq" [Txt §"FAQ"];
            link §"/legal/terms.pdf" [Txt §"Пользовательское соглашение"];
            link (mailto config) [Txt (§" " ++ email (support config))]]
           ++ ((λ c, link (href c) [Txt (§" " ++ ch_label c)]) <$> supportChannels config)
           ++ [link §"/policy" [Txt §"Политика"]]);
        El §"span" [] [Txt (§"© " ++ num_str year ++ §" FBLink VPN")]]].

Definition home_view (config : SiteConfig) (year : Z) : list (node E) :=
  [El §"main" []
     [Topbar; hero config; metric_strip; features_section; plans_section;
      platforms_section config; faq_section; cta_section config; footer config year]].

(** ** The policy *)

Definition policy_view (config : SiteConfig) : list (node E) :=
  [El §"main" []
     [El §"section" []
        [Brand §"/";
         El §"div" []
           [El §"span" [] [Txt §" Legal"];
            El §"h1" [] [Txt §"Политика конфиденциальности FBLink VPN"];
            El §"p" [] [Txt §"Мы обрабатываем только данные, необходимые для аккаунта, оплаты, поддержки и работы VPN-сервиса. Трафик, DNS-запросы и содержимое соединений не логируются."];
            El §"div" []
              [El §"article" [] [El §"h2" [] [Txt §"Какие данные используются"]; El §"p" [] [Txt §"Email аккаунта, статус подписки, сведения об оплате от платежного провайдера, технические данные приложения и сообщения, которые пользователь сам отправляет в поддержку."]];
               El §"article" [] [El §"h2" [] [Txt §"Зачем это нужно"]; El §"p" [] [Txt §"Чтобы создать аккаунт, выдать доступ, восстановить подписку, отправить чек, обработать обращение и защитить сервис от злоупотреблений."]];
               El §"article" []
                 [El §"h2" [] [Txt §"Поддержка"];
                  El §"p" [] [Txt §"Основная почта техподдержки: ";
                              link (mailto config) [Txt (email (support config))]; Txt §"."];
                  El §"div" [] (support_links config
                                ++ [link (mailto config) [El §"span" [] [Txt §"Email"]]])];
               El §"article" [] [El §"h2" [] [Txt §"Запросы пользователя"]; El §"p" [] [Txt §"По вопросам доступа, удаления или уточнения данных напишите на почту поддержки. В обращении можно указать support tag из приложения."]]]]]]].
End Views.

(** ** The page with its components *)

Section Page.
Context `{JsHost} (config : SiteConfig) (year : Z).

(** [HomePage] itself has no state and no handlers. *)
Definition HomePage : Component := {|
  St := unit; Ev := Empty_set; Op := Empty_set;
  mount := settled tt;
  view _ := home_view config year;
  on e _ := match e with end;
  request op := match op with end;
  resume op _ _ := match op with end;
|}.

(** [<Pricing04 plans={config.plans} />]: without a mode the table links to
    the sign-in page. *)
Definition table_props : Pricing04.Props :=
  {| Pricing04.plans := plans config; Pricing04.initialPlan := None;
     Pricing04.initialPromoCode := []; Pricing04.loadingPlan := None;
     Pricing04.mode := mode_link; Pricing04.currentSubscription := None |}.

Definition pricing_child : Child (St HomePage) (Ev HomePage) := {|
  CSt := Pricing04.State; CEv := Pricing04.Event; COp := Pricing04.Op; CProps := Pricing04.Props;
  slot := §"Pricing04";
  shown _ := Some table_props;
  c_mount p := Pricing04.sync p (Pricing04.initial p);
  c_update := Pricing04.sync;
  c_view := Pricing04.render;
  c_on := Pricing04.handle;
  c_request op := preview_request (Pricing04.preview op);
  c_resume _ := Pricing04.settle;
  hears _ := None;
|}.

Definition with_table : Component := nest HomePage pricing_child.

Definition faq_child : Child (St with_table) (Ev with_table) := {|
  CSt := option nat; CEv := nat; COp := Empty_set; CProps := unit;
  slot := §"Faq";
  shown _ := Some tt;
  c_mount _ := mount Faq;
  c_update _ c := settled c;
  c_view _ := view Faq;
  c_on _ := on Faq;
  c_request op := match op with end;
  c_resume _ op _ c := settled c;
  hears _ := None;
|}.

Definition landing : Component := nest with_table faq_child.

(** ** Links *)

(** The pages under [web/app] and the files under [web/public]. *)
Definition app_pages : list jstr :=
  [§"/"; §"/auth"; §"/dashboard"; §"/dashboard/vip"; §"/policy"; §"/privacy"; §"/admin"].
Definition public_files : list jstr := [§"/brand-icon.png"; §"/legal/terms.pdf"].

(** An address of the site that the gateway sends to the web server. *)
Definition site_page (h : jstr) : bool :=
  existsb (str_eqb (path_of h)) (app_pages ++ public_files) && bool_decide (gateway h = Frontend).

(** The links that come from the configuration. *)
Definition config_links : list jstr :=
  (platforms (downloads config)).*2 ++ (href <$> supportChannels config) ++ [mailto config].

(** A link leads to a place of the page, to a page of the site, or where the
    configuration says. *)
Definition leads (ids : list jstr) (h : jstr) : Prop :=
  (∃ a, h = §"#" ++ a ∧ a ∈ ids) ∨ site_page h = true ∨ h ∈ config_links.

Definition anchors : list jstr := [§"features"; §"plans"; §"platforms"; §"faq"].

Lemma leads_more ids ids' h : (∀ a, a ∈ ids → a ∈ ids') → leads ids h → leads ids' h.
Proof. intros Hs [(a & -> & Ha)|H']; [left; eauto|by right]. Qed.

Lemma attrs_link {E} P h (cs : list (node E)) :
  P h → Forall P (all_attrs §"href" cs) → Forall P (attrs §"href" (link h cs)).
Proof. intros Hh Hcs. by constructor. Qed.

Lemma leads_anchor ids a : a ∈ ids → leads ids (§"#" ++ a).
Proof. intros Ha. left. by exists a. Qed.

Lemma leads_page ids h : site_page h = true → leads ids h.
Proof. by right; left. Qed.

Lemma own_href {E} P h (ps : list (prop E)) :
  P h → Forall P (own_attrs §"href" ps) → Forall P (own_attrs §"href" (Prop_ §"href" h :: ps)).
Proof. intros Hh Hps. by constructor. Qed.

Lemma own_other {E} P k v (ps : list (prop E)) :
  str_eqb k §"href" = false →
  Forall P (own_attrs §"href" ps) → Forall P (own_attrs §"href" (Prop_ k v :: ps)).
Proof. unfold own_attrs. cbn [omap list_omap]. by intros ->. Qed.

(** Walk a view; what is left are the links. *)
Ltac links := repeat first
  [ attrs_step
  | lazymatch goal with
    | |- Forall _ (attrs _ (link _ _)) => apply attrs_link
    | |- Forall _ (own_attrs _ (Prop_ §"href" _ :: _)) => apply own_href
    | |- Forall _ (own_attrs _ (Prop_ _ _ :: _)) => apply own_other; [vm_compute; reflexivity|]
    end ].

Ltac fixed_link :=
  lazymatch goal with
  | |- leads _ §"#features" => apply (leads_anchor _ §"features")
  | |- leads _ §"#plans" => apply (leads_anchor _ §"plans")
  | |- leads _ §"#platforms" => apply (leads_anchor _ §"platforms")
  | |- leads _ §"#faq" => apply (leads_anchor _ §"faq")
  | |- leads _ _ => apply leads_page; vm_compute; reflexivity
  end.

Section Static.
Context {E : Type}.
Abbreviation fine ns := (Forall (leads anchors) (all_attrs (E:=E) §"href" ns)).

Lemma anchor_elem a : existsb (str_eqb a) anchors = true → a ∈ anchors.
Proof. intros (b & Hb & E')%existsb_exists. apply str_eqb_eq in E' as ->. by apply list_elem_of_In. Qed.

Ltac fixed_links := links; try fixed_link; try (apply anchor_elem; vm_compute; reflexivity).

Lemma Topbar_links : Forall (leads anchors) (attrs (E:=E) §"href" Topbar).
Proof.
  unfold Topbar, Brand, NAV_LINKS. rewrite !fmap_cons, fmap_nil. cbn [fst snd]. fixed_links.
Qed.

Lemma platform_leads ids p : p ∈ platforms (downloads config) → leads ids p.2.
Proof. intros Hp. right. right. apply elem_of_app. left. by apply list_elem_of_fmap_2. Qed.

Lemma support_leads ids c : c ∈ supportChannels config → leads ids (href c).
Proof.
  intros Hc. right. right. apply elem_of_app. right. apply elem_of_app. left.
  by apply list_elem_of_fmap_2.
Qed.

Lemma mailto_leads ids : leads ids (mailto config).
Proof. right. right. apply elem_of_app. right. apply elem_of_app. right. by apply list_elem_of_singleton. Qed.

Ltac page_links :=
  fixed_links;
  try lazymatch goal with
  | |- leads _ (mailto _) => apply mailto_leads
  | |- leads _ (href _) => by apply support_leads
  | H : _ ∈ take _ _ |- leads _ (snd _) =>
      apply platform_leads; eapply elem_of_submseteq; [exact H|]; apply sublist_submseteq, sublist_take
  | |- leads _ (snd _) => by apply platform_leads
  end.

Lemma home_links : fine (home_view config year).
Proof.
  unfold home_view. links; [apply Topbar_links|..].
  - unfold hero, support_links. page_links.
  - unfold metric_strip. page_links.
  - unfold features_section, section. page_links.
  - unfold plans_section, section. page_links.
  - unfold platforms_section, section, platform_tile. page_links.
  - unfold faq_section, section. page_links.
  - unfold cta_section. page_links.
  - unfold footer. page_links.
Qed.

Lemma policy_links : Forall (leads []) (all_attrs (E:=E) §"href" (policy_view config)).
Proof. unfold policy_view, Brand, support_links. page_links. Qed.

End Static.

Lemma table_links x : Forall (leads anchors) (all_attrs §"href" (Pricing04.render table_props x)).
Proof.
  unfold Pricing04.render. destruct (head _); [|constructor].
  cbn [Pricing04.mode table_props]. unfold Pricing04.PlanCard, Pricing04.NumberFlow. cbn [Pricing04.mode table_props].
  links. apply leads_page. by destruct (id _).
Qed.

Lemma faq_links open : Forall (leads anchors) (all_attrs §"href" (Faq_view open)).
Proof.
  unfold Faq_view. links. rewrite Forall_forall. intros h (n & Hn & Hh)%all_attrs_elem.
  apply elem_of_lookup_imap in Hn as (i & item & -> & _). revert h Hh. apply Forall_forall.
  unfold Faq_item. links.
Qed.

(** The sections are still there when the components are in their slots. *)
Definition has_section {E} (a : jstr) (ns : list (node E)) : Prop :=
  ∃ cs cs', ns = [El §"main" [] cs] ∧ El §"section" [Prop_ §"id" a] cs' ∈ cs.

Lemma section_id {E} a (ns : list (node E)) : has_section a ns → a ∈ all_attrs §"id" ns.
Proof.
  intros (cs & cs' & -> & Hin). apply all_attrs_elem. exists (El §"main" [] cs).
  split; [by apply list_elem_of_singleton|]. rewrite attrs_El. apply elem_of_app. right.
  apply all_attrs_elem. eexists. split; [exact Hin|]. rewrite attrs_El. apply elem_of_app. left.
  by apply list_elem_of_singleton.
Qed.

Lemma fill_section {E F} tag (kids : list (node (E + F))) a ns :
  str_eqb §"main" tag = false → str_eqb §"section" tag = false →
  has_section a ns → has_section a (map (fill tag kids) ns).
Proof.
  intros Hm Hs (cs & cs' & -> & Hin). cbn [map fill]. rewrite Hm.
  eexists _, _. split; [reflexivity|]. apply list_elem_of_In, in_map_iff.
  exists (El §"section" [Prop_ §"id" a] cs'). split; [|by apply list_elem_of_In].
  cbn [fill]. rewrite Hs. reflexivity.
Qed.

Lemma home_sections {E} a : a ∈ anchors → has_section (E:=E) a (home_view config year).
Proof.
  unfold anchors. rewrite !elem_of_cons, elem_of_nil.
  intros [->|[->|[->|[->|[]]]]]; eexists _, _; (split; [reflexivity|]).
  - apply (list_elem_of_lookup_2 _ 3). reflexivity.
  - apply (list_elem_of_lookup_2 _ 4). reflexivity.
  - apply (list_elem_of_lookup_2 _ 5). reflexivity.
  - apply (list_elem_of_lookup_2 _ 6). reflexivity.
Qed.

Lemma landing_view x :
  view (landing) x = map (fill §"Faq" (match x.2 with Some open => map (map_node inr) (Faq_view open)
                                        | None => [] end)) (view with_table x.1).
Proof. reflexivity. Qed.

Lemma table_view x :
  view with_table x = map (fill §"Pricing04" (match x.2 with
    | Some c => map (map_node inr) (Pricing04.render table_props c) | None => [] end))
    (home_view config year).
Proof. reflexivity. Qed.

(** C24: no dead links.  In every state of the landing page, whatever the
    configuration, every link leads to a section of the page that exists, to
    a page or file of the site that the gateway sends to the web server, or to
    an address of the configuration; the links of the policy page too. *)
Theorem landing_links x :
  Forall (leads (all_attrs §"id" (view landing x))) (all_attrs §"href" (view landing x)) ∧
  Forall (leads []) (all_attrs §"href" (policy_view (E:=Empty_set) config)).
Proof.
  split; [|apply policy_links].
  assert (Forall (leads anchors) (all_attrs §"href" (view landing x))) as Hl.
  { rewrite landing_view. apply Forall_attrs_fill.
    - rewrite table_view. apply Forall_attrs_fill; [apply home_links|].
      destruct (x.1).2; [|constructor]. rewrite all_attrs_map_node. apply table_links.
    - destruct x.2; [|constructor]. rewrite all_attrs_map_node. apply faq_links. }
  eapply Forall_impl; [exact Hl|]. intros h. apply leads_more. intros a Ha.
  apply section_id. rewrite landing_view. apply fill_section; [vm_compute; reflexivity..|].
  rewrite table_view. apply fill_section; [vm_compute; reflexivity..|]. by apply home_sections.
Qed.
End Page.
End Landing.
