(* ===== verification/Dithering.v ===== *)
(** * The animated background: [web/components/ui/dithering-shader.tsx] and
    [wave-1.tsx]

    A React component that draws with WebGL.  The part that can go wrong is the
    life of what it allocates: shaders, a program and a buffer of the graphics
    driver, and the frame it asks the browser for.  The driver is a source of
    answers, one for each call that may fail.  Of the fragment shader the
    threshold tables, the choice of the dithering and the mixing of the two
    colours are modelled here, over rational numbers; the shapes, which are
    transcendental functions of the position and the time, are an argument, and
    the subject of [Shapes]. *)
From Stdlib Require Import QArith Qround Lqa.
From S2P Require Export Encoding.
Open Scope Z_scope.

#[global] Instance Q_eq_dec : EqDecision Q.
Proof. solve_decision. Defined.

Module Dithering.

(** ** Properties of the component *)

Inductive DitheringShape := simplex | warp | dots | wave | ripple | swirl | sphere.
Inductive DitheringType := random | t2x2 | t4x4 | t8x8.

#[global] Instance DitheringShape_eq : EqDecision DitheringShape.
Proof. solve_decision. Defined.
#[global] Instance DitheringType_eq : EqDecision DitheringType.
Proof. solve_decision. Defined.

Definition DitheringShapes (s : DitheringShape) : Z :=
  match s with
  | simplex => 1 | warp => 2 | dots => 3 | wave => 4 | ripple => 5 | swirl => 6 | sphere => 7
  end.

Definition DitheringTypes (t : DitheringType) : Z :=
  match t with random => 1 | t2x2 => 2 | t4x4 => 3 | t8x8 => 4 end.

Record DitheringShaderProps := {
  width : Z;
  height : Z;
  colorBack : jstr;
  colorFront : jstr;
  shape : DitheringShape;
  type : DitheringType;
  pxSize : Z;
  speed : Q;
}.
#[global] Instance DitheringShaderProps_eq : EqDecision DitheringShaderProps.
Proof. solve_decision. Defined.
#[global] Instance DitheringShaderProps_eta : Eta DitheringShaderProps := λ p,
  Build_DitheringShaderProps (width p) (height p) (colorBack p) (colorFront p) (shape p) (type p)
    (pxSize p) (speed p).

(** [wave-1.tsx]; the landing page gives the same properties. *)
Definition wave_1 : DitheringShaderProps := {|
  width := 1200; height := 720; colorBack := §"#070707"; colorFront := §"#EAB308";
  shape := wave; type := t8x8; pxSize := 4; speed := 34 # 100;
|}.

(** ** Colours *)

Definition rgba : Type := Q * Q * Q * Q.

(** [^#?([a-f\d]{2})([a-f\d]{2})([a-f\d]{2})$], ignoring case *)
Definition hex_groups (hex : jstr) : option (Z * Z * Z) :=
  let s := match hex with c :: s => if c =? 35 then s else hex | [] => hex end in
  '(r, s) ← hex_pair s; '(g, s) ← hex_pair s; '(b, s) ← hex_pair s;
  match s with [] => Some (r, g, b) | _ => None end.

Definition hexToRgba (hex : jstr) : rgba :=
  match hex_groups hex with
  | Some (r, g, b) => (r # 255, g # 255, b # 255, 1%Q)
  | None => (0%Q, 0%Q, 0%Q, 1%Q)
  end.

(** ** The fragment shader *)

Definition bayer2x2 : list Z := [0; 2; 3; 1].
Definition bayer4x4 : list Z :=
  [ 0;  8;  2; 10;
   12;  4; 14;  6;
    3; 11;  1;  9;
   15;  7; 13;  5].
Definition bayer8x8 : list Z :=
  [ 0; 32;  8; 40;  2; 34; 10; 42;
   48; 16; 56; 24; 50; 18; 58; 26;
   12; 44;  4; 36; 14; 46;  6; 38;
   60; 28; 52; 20; 62; 30; 54; 22;
    3; 35; 11; 43;  1; 33;  9; 41;
   51; 19; 59; 27; 49; 17; 57; 25;
   15; 47;  7; 39; 13; 45;  5; 37;
   63; 31; 55; 23; 61; 29; 53; 21].

(** GLSL's [mod] and [step] *)
Definition glsl_mod (x y : Q) : Q := (x - y * inject_Z (Qfloor (x / y)))%Q.
Definition glsl_step (edge x : Q) : Q := if Qle_bool edge x then 1%Q else 0%Q.

(** Reading a table outside its bounds has no value. *)
Definition getBayerValue (uv : Q * Q) (size : Z) : option Q :=
  let pos_x := Qfloor (glsl_mod uv.1 (inject_Z size)) in
  let pos_y := Qfloor (glsl_mod uv.2 (inject_Z size)) in
  let index := pos_y * size + pos_x in
  let entry (table : list Z) (n : positive) : option Q :=
    if index <? 0 then None else (λ v, v # n) <$> table !! Z.to_nat index in
  if size =? 2 then entry bayer2x2 4%positive
  else if size =? 4 then entry bayer4x4 16%positive
  else if size =? 8 then entry bayer8x8 64%positive
  else Some 0%Q.

(** [main] from the choice of the dithering on, for a value [shape] of the shape. *)
Definition fragColor (hash21 : Q * Q → Q) (u_type : Q) (u_colorFront u_colorBack : rgba)
    (shape : Q) (dithering_uv ditheringNoise_uv : Q * Q) : option rgba :=
  dithering ← (let type := Qfloor u_type in
    if type =? 1 then Some (glsl_step (hash21 ditheringNoise_uv) shape)
    else if type =? 2 then getBayerValue dithering_uv 2
    else if type =? 3 then getBayerValue dithering_uv 4
    else getBayerValue dithering_uv 8);
  let res := glsl_step (1 # 2) (shape + (dithering - (1 # 2)))%Q in
  let '(fr, fg, fb, fgOpacity) := u_colorFront in
  let '(br, bg, bb, bgOpacity) := u_colorBack in
  let opacity := (fgOpacity * res)%Q in
  let over (f b : Q) : Q := (f * fgOpacity * res + b * bgOpacity * (1 - opacity))%Q in
  Some (over fr br, over fg bg, over fb bb, (opacity + bgOpacity * (1 - opacity))%Q).

(** ** The driver and the browser

    [answer n] says whether the [n]-th fallible call succeeds.  A set holds the
    handles the code has created and not yet deleted; [errors] counts the calls
    that name a handle that is not there, which the driver rejects.  [frames]
    are the requested frames, with the properties their callback closes over. *)

Record Draw := { uniforms : list (jstr * list Q); vertices : Z }.

Record World := {
  calls : nat;
  made : nat;
  shaders : gset nat;
  programs : gset nat;
  buffers : gset nat;
  errors : nat;
  requested : nat;
  frames : gmap nat DitheringShaderProps;
  drawn : list Draw;
  animationRef : option nat;
  programRef : option nat;
  glRef : bool;
  startTimeRef : Z;
  (** the properties of the last effect that ran, and its cleanup *)
  deps : option DitheringShaderProps;
  cleanup : option (option nat);
}.
#[global] Instance World_eta : Eta World := λ w, Build_World (calls w) (made w) (shaders w)
  (programs w) (buffers w) (errors w) (requested w) (frames w) (drawn w) (animationRef w)
  (programRef w) (glRef w) (startTimeRef w) (deps w) (cleanup w).

Section Driver.
(** [context]: the browser has WebGL 2; [located u]: the linked program has the
    uniform [u]. *)
Context (context : bool) (answer : nat → bool) (located : jstr → bool).

Definition ask (w : World) : bool * World := (answer (calls w), w <| calls := S (calls w) |>).

(** The calls that create: a handle never used before, or null. *)
Definition create (w : World) : option nat * World :=
  let '(ok, w) := ask w in
  if ok then (Some (made w), w <| made := S (made w) |>) else (None, w).

Definition gl_createShader (w : World) : option nat * World :=
  let '(r, w) := create w in
  (r, match r with Some x => w <| shaders := {[x]} ∪ shaders w |> | None => w end).

Definition gl_createProgram (w : World) : option nat * World :=
  let '(r, w) := create w in
  (r, match r with Some x => w <| programs := {[x]} ∪ programs w |> | None => w end).

Definition gl_createBuffer (w : World) : option nat * World :=
  let '(r, w) := create w in
  (r, match r with Some x => w <| buffers := {[x]} ∪ buffers w |> | None => w end).

Definition gl_deleteShader (x : nat) (w : World) : World := w <| shaders := shaders w ∖ {[x]} |>.
Definition gl_deleteProgram (x : nat) (w : World) : World := w <| programs := programs w ∖ {[x]} |>.
Definition gl_deleteBuffer (x : nat) (w : World) : World := w <| buffers := buffers w ∖ {[x]} |>.

(** A call that names a handle. *)
Definition needs (b : bool) (w : World) : World :=
  if b then w else w <| errors := S (errors w) |>.

Definition gl_attachShader (p x : nat) (w : World) : World :=
  needs (bool_decide (p ∈ programs w) && bool_decide (x ∈ shaders w)) w.
Definition gl_useProgram (p : nat) (w : World) : World := needs (bool_decide (p ∈ programs w)) w.

(** A frame's handle is a positive number. *)
Definition requestAnimationFrame (p : DitheringShaderProps) (w : World) : nat * World :=
  let i := S (requested w) in
  (i, w <| requested := i |> <| frames := <[i:=p]> (frames w) |>).
Definition cancelAnimationFrame (i : nat) (w : World) : World :=
  w <| frames := delete i (frames w) |>.

(** ** Operations *)

Definition createShader (w : World) : option nat * World :=
  match gl_createShader w with
  | (None, w) => (None, w)
  | (Some shader, w) =>
      let '(compiled, w) := ask w in
      if compiled then (Some shader, w) else (None, gl_deleteShader shader w)
  end.

Definition createProgram (w : World) : option nat * World :=
  let '(vertexShader, w) := createShader w in
  let '(fragmentShader, w) := createShader w in
  match vertexShader, fragmentShader with
  | Some v, Some f =>
      match gl_createProgram w with
      | (None, w) => (None, w)
      | (Some program, w) =>
          let w := gl_attachShader program v w in
          let w := gl_attachShader program f w in
          let '(linked, w) := ask w in
          if linked then (Some program, w) else (None, gl_deleteProgram program w)
      end
  | _, _ => (None, w)
  end.

Definition channels (c : rgba) : list Q := let '(r, g, b, a) := c in [r; g; b; a].

(** What [render] sets before it draws; a uniform without a location is skipped. *)
Definition set_uniforms (p : DitheringShaderProps) (currentTime : Q) : list (jstr * list Q) :=
  filter (λ u, located u.1 = true)
    [(§"u_time", [currentTime]);
     (§"u_resolution", [inject_Z (width p); inject_Z (height p)]);
     (§"u_colorBack", channels (hexToRgba (colorBack p)));
     (§"u_colorFront", channels (hexToRgba (colorFront p)));
     (§"u_shape", [inject_Z (DitheringShapes (shape p))]);
     (§"u_type", [inject_Z (DitheringTypes (type p))]);
     (§"u_pxSize", [inject_Z (pxSize p)])].

Definition render (p : DitheringShaderProps) (now : Z) (w : World) : World :=
  let currentTime := (inject_Z (now - startTimeRef w) * (1 # 1000) * speed p)%Q in
  match glRef w, programRef w with
  | true, Some shaderProgram =>
      let w := gl_useProgram shaderProgram w in
      let w := w <| drawn := drawn w ++ [{| uniforms := set_uniforms p currentTime; vertices := 6 |}] |> in
      if Qeq_bool (speed p) 0 then w
      else let '(i, w) := requestAnimationFrame p w in w <| animationRef := Some i |>
  | _, _ => w
  end.

(** The effect: its early returns leave no cleanup. *)
Definition effect (p : DitheringShaderProps) (now : Z) (w : World) : World :=
  let w := w <| deps := Some p |> <| cleanup := None |> in
  if context then
    let w := w <| glRef := true |> in
    match createProgram w with
    | (None, w) => w
    | (Some program, w) =>
        let w := w <| programRef := Some program |> in
        let '(positionBuffer, w) := gl_createBuffer w in
        let w := render p now w in
        w <| cleanup := Some positionBuffer |>
    end
  else w.

Definition run_cleanup (w : World) : World :=
  match cleanup w with
  | None => w
  | Some positionBuffer =>
      let w := match animationRef w with Some i => cancelAnimationFrame i w | None => w end in
      let w := match glRef w, programRef w with
               | true, Some p => gl_deleteProgram p w
               | _, _ => w
               end in
      let w := match positionBuffer with Some b => gl_deleteBuffer b w | None => w end in
      w <| cleanup := None |>
  end.

(** What happens to the component: React renders it with properties, the effect
    running when they changed; a requested frame is due; it is removed, after
    which strict mode may run its effect again with the same references. *)
Inductive Event :=
| Commit (p : DitheringShaderProps)
| Frame (i : nat)
| Unmount.

Definition step (w : World) (e : Event * Z) : option World :=
  let now := e.2 in
  match e.1 with
  | Commit p =>
      Some (if bool_decide (deps w = Some p) then w else effect p now (run_cleanup w))
  | Frame i =>
      p ← frames w !! i;
      Some (render p now (w <| frames := delete i (frames w) |>))
  | Unmount => Some ((run_cleanup w) <| deps := None |>)
  end.

Definition mounted (now : Z) : World := {|
  calls := 0; made := 0; shaders := ∅; programs := ∅; buffers := ∅; errors := 0;
  requested := 0; frames := ∅; drawn := []; animationRef := None; programRef := None;
  glRef := false; startTimeRef := now; deps := None; cleanup := None;
|}.

(** ** What lives *)

(** While an effect with a cleanup is the last that ran: its program, its
    buffer and, unless the picture stands still, one frame with its
    properties.  Otherwise nothing. *)
Definition alive (w : World) : Prop :=
  errors w = 0%nat ∧
  match cleanup w with
  | Some positionBuffer =>
      ∃ p program, deps w = Some p ∧ glRef w = true ∧ programRef w = Some program ∧
        programs w = {[program]} ∧
        buffers w = match positionBuffer with Some b => {[b]} | None => ∅ end ∧
        if Qeq_bool (speed p) 0 then frames w = ∅
        else ∃ i, animationRef w = Some i ∧ frames w = {[i := p]}
  | None => programs w = ∅ ∧ buffers w = ∅ ∧ frames w = ∅
  end.

Lemma createShader_spec w r w' :
  createShader w = (r, w') →
  ∃ c m ss, w' = w <| calls := c |> <| made := m |> <| shaders := ss |> ∧
    ∀ x, r = Some x → x ∈ ss ∧ shaders w ⊆ ss.
Proof.
  unfold createShader, gl_createShader, create, ask, gl_deleteShader. cbn.
  destruct (answer (calls w)); cbn; [destruct (answer (S (calls w)))|]; intros [= <- <-];
    destruct w; cbn; eexists _, _, _; (split; [reflexivity|]); intros x [= ->]; set_solver.
Qed.

(** A program is made of shaders that exist; when it is not made, no program is
    left behind. *)
Lemma createProgram_spec w r w' :
  programs w = ∅ → createProgram w = (r, w') →
  ∃ c m ss, w' = w <| calls := c |> <| made := m |> <| shaders := ss |>
                   <| programs := match r with Some x => {[x]} | None => ∅ end |>.
Proof.
  intros Hp. unfold createProgram.
  destruct (createShader w) as [v w1] eqn:E1. destruct (createShader w1) as [f w2] eqn:E2.
  apply createShader_spec in E1 as (c1 & m1 & s1 & -> & H1).
  apply createShader_spec in E2 as (c2 & m2 & s2 & -> & H2).
  destruct w as [????????????? ??]; cbn in *; subst.
  destruct v as [v|]; [destruct f as [f|]|]; [|intros [= <- <-]; eexists _, _, _; reflexivity..].
  specialize (H1 v eq_refl) as [Hv _]. specialize (H2 f eq_refl) as [Hf Hs].
  assert (v ∈ s2) as Hv' by set_solver. clear Hv Hs.
  unfold gl_createProgram, create, ask, gl_attachShader, needs, gl_deleteProgram. cbn.
  destruct (answer c2); [|intros [= <- <-]; cbn; eexists _, _, _; reflexivity].
  cbn. rewrite union_empty_r_L, (bool_decide_true (m2 ∈ {[m2]})), (bool_decide_true (v ∈ s2)) by set_solver.
  cbn. rewrite (bool_decide_true (m2 ∈ {[m2]})), (bool_decide_true (f ∈ s2)) by set_solver.
  cbn. destruct (answer (S c2)); intros [= <- <-]; cbn; eexists _, _, _; [reflexivity|].
  by rewrite difference_diag_L.
Qed.

Lemma alive_cleanup w : alive w → alive (run_cleanup w).
Proof.
  intros [He H]. unfold run_cleanup. destruct (cleanup w) as [buf|] eqn:Ec; [|by split; [|rewrite Ec]].
  destruct H as (p & prog & Hd & Hg & Hr & Hp & Hb & Hf). split.
  - destruct (animationRef w), buf; cbn; rewrite ?Hg, ?Hr; done.
  - assert (frames (match animationRef w with
                    | Some i => cancelAnimationFrame i w | None => w end) = ∅) as Hc.
    { destruct (Qeq_bool (speed p) 0).
      - destruct (animationRef w); cbn; rewrite Hf; [apply delete_empty|done].
      - destruct Hf as (i & -> & Hf). cbn. rewrite Hf. apply delete_singleton_eq. }
    destruct (animationRef w), buf; cbn in *; rewrite ?Hg, ?Hr; cbn; rewrite ?Hp, ?Hb, ?Hc;
      rewrite ?difference_diag_L; done.
Qed.

Lemma cleanup_done w : cleanup (run_cleanup w) = None.
Proof. unfold run_cleanup. destruct (cleanup w) as [[]|] eqn:E; done. Qed.

Lemma render_spec p now w program :
  glRef w = true → programRef w = Some program → programs w = {[program]} → frames w = ∅ →
  ∃ d r f a, render p now w = w <| drawn := d |> <| requested := r |> <| frames := f |>
                                <| animationRef := a |> ∧
    if Qeq_bool (speed p) 0 then f = ∅ else ∃ i, a = Some i ∧ f = {[i := p]}.
Proof.
  intros Hg Hr Hp Hf. unfold render. rewrite Hg, Hr. unfold gl_useProgram, needs.
  rewrite Hp, (bool_decide_true (program ∈ {[program]})) by set_solver.
  destruct w; cbn in *; subst. destruct (Qeq_bool _ _); cbn; eexists _, _, _, _; (split; [reflexivity|]); [done|].
  eexists. split; [done|]. by rewrite insert_empty.
Qed.

Lemma alive_effect p now w : alive w → cleanup w = None → alive (effect p now w).
Proof.
  intros [He H] Hc. rewrite Hc in H. destruct H as (Hp & Hb & Hf). unfold effect.
  destruct context; [|by split].
  destruct (createProgram _) as [r w1] eqn:E. apply createProgram_spec in E as (c & m & ss & ->); [|done].
  destruct r as [program|]; [|by split].
  destruct (gl_createBuffer _) as [b w2] eqn:Eb.
  assert (∃ c m, w2 = w <| deps := Some p |> <| cleanup := None |> <| glRef := true |>
    <| calls := c |> <| made := m |> <| shaders := ss |> <| programs := {[program]} |>
    <| programRef := Some program |> <| buffers := match b with Some b => {[b]} | None => ∅ end |>)
    as (c' & m' & ->).
  { revert Eb. unfold gl_createBuffer, create, ask. destruct w; cbn in *; subst. destruct (answer c); intros [= <- <-].
    - eexists _, _. cbn. by rewrite union_empty_r_L.
    - eexists _, _. reflexivity. }
  destruct (render_spec p now (w <| deps := Some p |> <| cleanup := None |> <| glRef := true |>
    <| calls := c' |> <| made := m' |> <| shaders := ss |> <| programs := {[program]} |>
    <| programRef := Some program |> <| buffers := match b with Some b => {[b]} | None => ∅ end |>)
    program) as (d & q & f & a & -> & Hr); [done..|].
  split; [done|]. exists p, program. destruct w; cbn in *. done.
Qed.

Lemma alive_frame i p now w :
  alive w → frames w !! i = Some p → alive (render p now (w <| frames := delete i (frames w) |>)).
Proof.
  intros [He H] Hi. destruct (cleanup w) as [buf|] eqn:Ec in H; [|destruct H as (_ & _ & H); by rewrite H in Hi].
  destruct H as (p' & program & Hd & Hg & Hr & Hp & Hb & Hf).
  destruct (Qeq_bool (speed p') 0) eqn:Es; [by rewrite Hf in Hi|].
  destruct Hf as (j & Ha & Hf). rewrite Hf in Hi. apply lookup_singleton_Some in Hi as [-> ->].
  destruct (render_spec p now (w <| frames := delete i (frames w) |>) program)
    as (d & q & f & a & -> & Hr'); [done..|cbn; rewrite Hf; apply delete_singleton_eq|].
  split; [done|]. cbn. rewrite Ec. exists p, program. done.
Qed.

Lemma alive_step w e w' : alive w → step w e = Some w' → alive w'.
Proof.
  intros H. destruct e as [[p|i|] now]; unfold step; cbn [fst snd].
  - intros [= <-]. case_bool_decide; [done|].
    apply alive_effect; [by apply alive_cleanup|apply cleanup_done].
  - intros (p & Hi & [= <-])%bind_Some. by apply alive_frame.
  - intros [= <-]. pose proof (alive_cleanup w H) as [He H']. rewrite cleanup_done in H'.
    split; [done|]. cbn. rewrite cleanup_done. done.
Qed.

(** C25: whatever the driver answers and whichever properties the background is
    given, no call names a program or shader that was deleted, there are at
    most one program and one buffer, the only frame asked for is the one the
    component can cancel and it draws with the current properties, a moving
    picture has one, and when the component is gone nothing of these is left. *)
Theorem dithering_lifecycle now w :
  reachable step (mounted now) w →
  errors w = 0%nat ∧ (size (programs w) ≤ 1)%nat ∧ (size (buffers w) ≤ 1)%nat ∧
  (∀ i p, frames w !! i = Some p → deps w = Some p ∧ animationRef w = Some i) ∧
  (∀ p b, cleanup w = Some b → deps w = Some p → (speed p == 0)%Q ∨ ∃ i, frames w = {[i := p]}) ∧
  (deps w = None → programs w = ∅ ∧ buffers w = ∅ ∧ frames w = ∅).
Proof.
  intros Hr. assert (alive w) as [He H].
  { revert w Hr. apply reachable_invariant; [done|]. intros w e w'. apply alive_step. }
  split; [done|]. destruct (cleanup w) as [buf|].
  - destruct H as (p & program & Hd & _ & _ & -> & -> & Hf). rewrite size_singleton, Hd.
    split; [done|]. split; [destruct buf; [rewrite size_singleton|rewrite size_empty]; lia|].
    split; [|split; [|done]].
    + intros i q Hi. destruct (Qeq_bool (speed p) 0); [by rewrite Hf in Hi|].
      destruct Hf as (j & -> & Hf). rewrite Hf in Hi. by apply lookup_singleton_Some in Hi as [-> ->].
    + intros q b _ [= <-]. destruct (Qeq_bool (speed p) 0) eqn:Es; [left; by apply Qeq_bool_iff|right].
      destruct Hf as (j & _ & Hf). by exists j.
  - destruct H as (-> & -> & ->). rewrite !size_empty. split; [lia|]. split; [lia|].
    split; [|split]; [|done|done]. intros i p. by rewrite lookup_empty.
Qed.
End Driver.

(** ** Shaders stay *)

Section Leak.
Context (located : jstr → bool).
Abbreviation always := (λ _ : nat, true).


Lemma needs_keeps b w : made (needs b w) = made w ∧ shaders (needs b w) = shaders w.
Proof. by destruct b. Qed.

Lemma render_keeps p now w :
  made (render located p now w) = made w ∧ shaders (render located p now w) = shaders w.
Proof.
  unfold render. destruct (glRef w); [|done]. destruct (programRef w) as [q|]; [|done].
  unfold gl_useProgram. destruct (needs_keeps (bool_decide (q ∈ programs w)) w) as [<- <-].
  by destruct (Qeq_bool _ _).
Qed.

Lemma ask_always w : ∃ w',
  ask always w = (true, w') ∧ made w' = made w ∧ shaders w' = shaders w.
Proof. by eexists. Qed.

Lemma createShader_always w : ∃ w',
  createShader always w = (Some (made w), w') ∧
  made w' = S (made w) ∧ shaders w' = {[made w]} ∪ shaders w.
Proof. by eexists. Qed.

Lemma gl_createProgram_always w : ∃ w',
  gl_createProgram always w = (Some (made w), w') ∧ made w' = S (made w) ∧ shaders w' = shaders w.
Proof. by eexists. Qed.

Lemma gl_createBuffer_always w : ∃ w',
  gl_createBuffer always w = (Some (made w), w') ∧ made w' = S (made w) ∧ shaders w' = shaders w.
Proof. by eexists. Qed.

Lemma createProgram_always w : ∃ program w',
  createProgram always w = (Some program, w') ∧
  made w' = (3 + made w)%nat ∧ shaders w' = {[S (made w)]} ∪ ({[made w]} ∪ shaders w).
Proof.
  unfold createProgram. destruct (createShader_always w) as (w1 & -> & Hm1 & Hs1).
  destruct (createShader_always w1) as (w2 & -> & Hm2 & Hs2).
  destruct (gl_createProgram_always w2) as (w3 & -> & Hm3 & Hs3). cbv zeta.
  match goal with |- context [ask _ ?w] => destruct (ask_always w) as (w4 & -> & Hm4 & Hs4) end.
  unfold gl_attachShader in Hm4, Hs4. rewrite !(proj1 (needs_keeps _ _)) in Hm4.
  rewrite !(proj2 (needs_keeps _ _)) in Hs4.
  eexists _, w4. split; [reflexivity|]. split; [lia|]. by rewrite Hs4, Hs3, Hs2, Hs1, Hm1.
Qed.

Lemma effect_shaders p now w :
  let w' := effect true always located p now w in
  made w' = (4 + made w)%nat ∧ shaders w' = {[S (made w)]} ∪ ({[made w]} ∪ shaders w).
Proof.
  cbv zeta. unfold effect.
  destruct (createProgram_always (w <| deps := Some p |> <| cleanup := None |> <| glRef := true |>))
    as (q & w1 & -> & Hm & Hs).
  destruct (gl_createBuffer_always (w1 <| programRef := Some q |>)) as (w2 & -> & Hm2 & Hs2).
  destruct (render_keeps p now w2) as [Hm3 Hs3].
  split; cbn; [rewrite Hm3, Hm2|rewrite Hs3, Hs2]; cbn; [by rewrite Hm|by rewrite Hs].
Qed.

Lemma cleanup_shaders w : made (run_cleanup w) = made w ∧ shaders (run_cleanup w) = shaders w.
Proof.
  unfold run_cleanup. destruct (cleanup w) as [b|]; [|done].
  split; destruct (animationRef w), b; cbn; by destruct (glRef w), (programRef w).
Qed.

(** when every call of the driver succeeds, half of the handles ever
    created are shaders, and all of them are still there: the shaders of a
    program are never deleted, not even when the program is. *)
Theorem shaders_stay now w :
  reachable (step true always located) (mounted now) w → made w = (2 * size (shaders w))%nat.
Proof.
  intros Hr.
  assert (made w = (2 * size (shaders w))%nat ∧ ∀ x, x ∈ shaders w → (x < made w)%nat) as [H _]; [|done].
  revert w Hr. apply reachable_invariant; [done|]. intros w [e t] w' [Hm Hx]. unfold step. cbn [fst snd].
  destruct e as [p|i|].
  - intros Hw%(inj Some). subst w'. case_bool_decide; [done|].
    destruct (effect_shaders p t (run_cleanup w)) as [-> ->].
    destruct (cleanup_shaders w) as [-> ->]. split.
    + rewrite !size_union, !size_singleton; [lia|..].
      * intros x Hi%elem_of_singleton Hs%Hx. lia.
      * intros x Hi%elem_of_singleton [Hs%elem_of_singleton|Hs%Hx]%elem_of_union; lia.
    + intros x [Hi%elem_of_singleton|[Hi%elem_of_singleton|Hi%Hx]%elem_of_union]%elem_of_union; lia.
  - intros (p & _ & Hw%(inj Some))%bind_Some. subst w'.
    destruct (render_keeps p t (w <| frames := delete i (frames w) |>)) as [-> ->]. done.
  - intros Hw%(inj Some). subst w'. cbn. destruct (cleanup_shaders w) as [-> ->]. done.
Qed.
End Leak.

(** ** Tone *)

Lemma inject_lt (x y : Z) : (inject_Z x < inject_Z y)%Q → x < y.
Proof. by rewrite <-Zlt_Qlt. Qed.

Lemma floor_unique (q : Q) (z : Z) : (inject_Z z <= q)%Q → (q < inject_Z (z + 1))%Q → Qfloor q = z.
Proof.
  intros H1 H2. pose proof (Qfloor_le q) as H3. pose proof (Qlt_floor q) as H4.
  assert (inject_Z z < inject_Z (Qfloor q + 1))%Q as H5%inject_lt by lra.
  assert (inject_Z (Qfloor q) < inject_Z (z + 1))%Q as H6%inject_lt by lra. lia.
Qed.

Lemma le_floor (z : Z) (q : Q) : (inject_Z z <= q)%Q ↔ z ≤ Qfloor q.
Proof.
  pose proof (Qfloor_le q) as H3. pose proof (Qlt_floor q) as H4. split; intros H.
  - assert (inject_Z z < inject_Z (Qfloor q + 1))%Q as H5%inject_lt by lra. lia.
  - rewrite Zle_Qle in H. lra.
Qed.

(** The cell of a position: the integer parts modulo the size of the table. *)
Lemma floor_glsl_mod x n : 0 < n → Qfloor (glsl_mod x (inject_Z n)) = Qfloor x mod n.
Proof.
  intros Hn. unfold glsl_mod. set (k := Qfloor (x / inject_Z n)).
  assert (0 < inject_Z n)%Q as Hn' by (by rewrite (Zlt_Qlt 0) in Hn).
  assert (inject_Z (n * k) <= x)%Q as H1.
  { rewrite inject_Z_mult, Qmult_comm.
    assert (inject_Z k <= x / inject_Z n)%Q as H by apply Qfloor_le.
    apply (Qmult_le_r _ _ (inject_Z n)) in H; [|done].
    rewrite (Qmult_comm (x / _)), Qmult_div_r in H; [done|lra]. }
  assert (x < inject_Z (n * k + n))%Q as H2.
  { assert (x / inject_Z n < inject_Z (k + 1))%Q as H by apply Qlt_floor.
    apply (Qmult_lt_r _ _ (inject_Z n)) in H; [|done].
    rewrite (Qmult_comm (x / _)), Qmult_div_r in H; [|lra].
    rewrite <-inject_Z_mult in H. by replace (n * k + n) with ((k + 1) * n) by lia. }
  assert (Qfloor (x - inject_Z n * inject_Z k) = Qfloor x - n * k) as ->.
  { pose proof (Qfloor_le x). pose proof (Qlt_floor x). rewrite <-inject_Z_mult.
    apply floor_unique.
    - unfold Z.sub. rewrite inject_Z_plus, inject_Z_opp. lra.
    - replace (Qfloor x - n * k + 1) with ((Qfloor x + 1) + - (n * k)) by lia.
      rewrite inject_Z_plus, inject_Z_opp. lra. }
  apply le_floor in H1. pose proof (Qfloor_le x) as H3.
  assert (inject_Z (Qfloor x) < inject_Z (n * k + n))%Q as H4%inject_lt by lra.
  rewrite (Z.mod_unique (Qfloor x) n k (Qfloor x - n * k)); lia.
Qed.

(** The tables hold every threshold once, and each is built from the one
    before it in the usual way. *)
Definition double (n : nat) (t : list Z) : list Z :=
  y ← seq 0 (2 * n); x ← seq 0 (2 * n);
  [4 * nth ((y mod n) * n + x mod n) t 0 + nth ((y / n) * 2 + x / n) bayer2x2 0].

Lemma bayer_doubles :
  double 1 [0] = bayer2x2 ∧ double 2 bayer2x2 = bayer4x4 ∧ double 4 bayer4x4 = bayer8x8.
Proof. vm_compute. done. Qed.

(** The entries a square of cells reads, from the cell [(X, Y)] on. *)
Definition cells (n : nat) : list (nat * nat) := y ← seq 0 n; x ← seq 0 n; [(x, y)].
Definition tile (n : nat) (t : list Z) (X Y : Z) : list Z :=
  (λ c, nth (Z.to_nat ((Y + Z.of_nat c.2) mod Z.of_nat n * Z.of_nat n
                       + (X + Z.of_nat c.1) mod Z.of_nat n)) t 0) <$> cells n.

Definition thresholds (n : nat) : list Z := seqZ 0 (Z.of_nat (n * n)).

Definition tile_check (n : nat) (t : list Z) : bool :=
  forallb (λ X, forallb (λ Y,
    bool_decide (merge_sort (≤) (tile n t (Z.of_nat X) (Z.of_nat Y)) = thresholds n))
    (seq 0 n)) (seq 0 n).

Lemma tiles_check : tile_check 2 bayer2x2 && tile_check 4 bayer4x4 && tile_check 8 bayer8x8 = true.
Proof. vm_compute. reflexivity. Qed.

Lemma tile_mod n t X Y : (0 < n)%nat →
  tile n t X Y = tile n t (X mod Z.of_nat n) (Y mod Z.of_nat n).
Proof.
  intros Hn. unfold tile. apply list_fmap_ext. intros _ c _.
  by rewrite !Zplus_mod_idemp_l.
Qed.

Lemma tile_permutation n t X Y :
  (0 < n)%nat → tile_check n t = true → tile n t X Y ≡ₚ thresholds n.
Proof.
  intros Hn Hc. rewrite tile_mod by done.
  pose proof (Z.mod_pos_bound X (Z.of_nat n)) as HX. pose proof (Z.mod_pos_bound Y (Z.of_nat n)) as HY.
  unfold tile_check in Hc. rewrite forallb_forall in Hc.
  specialize (Hc (Z.to_nat (X mod Z.of_nat n))). rewrite forallb_forall in Hc.
  specialize (Hc ltac:(apply in_seq; lia) (Z.to_nat (Y mod Z.of_nat n)) ltac:(apply in_seq; lia)).
  apply bool_decide_eq_true in Hc. rewrite !Z2Nat.id in Hc by lia. rewrite <-Hc.
  symmetry. apply merge_sort_Permutation.
Qed.

Lemma count_from N F :
  0 ≤ F ≤ N → length (filter (λ k, N - F ≤ k) (seqZ 0 N)) = Z.to_nat F.
Proof.
  intros HF. replace (seqZ 0 N) with (seqZ 0 (N - F) ++ seqZ (0 + (N - F)) F)
    by (rewrite <-seqZ_app by lia; f_equal; lia).
  rewrite filter_app, length_app, filter_none, filter_all, length_seqZ; [done|..];
    apply Forall_seqZ; lia.
Qed.

(** The number of cells of a square that get the front colour. *)
Lemma count_lit n t (s : Q) X Y :
  (0 < n)%nat → tile_check n t = true → (0 <= s <= 1)%Q →
  Z.of_nat (length (filter (λ v, Qle_bool (inject_Z (Z.of_nat (n * n)))
    (inject_Z (Z.of_nat (n * n)) * s + inject_Z v) = true) (tile n t X Y)))
  = Qfloor (inject_Z (Z.of_nat (n * n)) * s).
Proof.
  intros Hn Hc [H0 H1]. set (N := Z.of_nat (n * n)).
  assert (0 <= inject_Z N)%Q as HN by (rewrite <-(Zle_Qle 0); lia).
  set (F := Qfloor (inject_Z N * s)).
  assert (0 ≤ F) as HF0 by (apply le_floor, Qmult_le_0_compat; done).
  assert (F ≤ N) as HF1.
  { pose proof (Qfloor_le (inject_Z N * s)). assert (inject_Z F <= inject_Z N)%Q by (subst F; nra).
    by rewrite Zle_Qle. }
  rewrite (tile_permutation n t X Y) by done. unfold thresholds. fold N.
  rewrite (list_filter_iff _ (λ k, N - F ≤ k)); [rewrite count_from; lia|].
  intros k. rewrite Qle_bool_iff. enough ((inject_Z N <= inject_Z N * s + inject_Z k)%Q ↔ N - k ≤ F) as -> by lia.
  unfold F. rewrite <-le_floor. unfold Z.sub. rewrite inject_Z_plus, inject_Z_opp. split; lra.
Qed.

(** ** The picture *)

(** Two colours with the same channels. *)
Definition same_colour (c d : rgba) : Prop := Forall2 Qeq (channels c) (channels d).

Lemma hexToRgba_opaque hex : ∃ r g b, hexToRgba hex = (r, g, b, 1%Q).
Proof. unfold hexToRgba. destruct (hex_groups hex) as [[[r g] b]|]; by eexists _, _, _. Qed.

(** Over opaque colours the shader writes one of the two. *)
Lemma fragColor_opaque hash ty fr fg fb br bg bb s uv noise d :
  (if Qfloor ty =? 1 then Some (glsl_step (hash noise) s)
   else if Qfloor ty =? 2 then getBayerValue uv 2
   else if Qfloor ty =? 3 then getBayerValue uv 4 else getBayerValue uv 8) = Some d →
  ∃ c, fragColor hash ty (fr, fg, fb, 1%Q) (br, bg, bb, 1%Q) s uv noise = Some c ∧
    same_colour c (if Qle_bool 1 (s + d) then (fr, fg, fb, 1%Q) else (br, bg, bb, 1%Q)).
Proof.
  intros Hd. unfold fragColor. rewrite Hd. eexists. split; [reflexivity|]. unfold glsl_step.
  replace (Qle_bool (1 # 2) (s + (d - (1 # 2)))) with (Qle_bool 1 (s + d)).
  - destruct (Qle_bool 1 (s + d)); repeat constructor; lra.
  - apply eq_true_iff_eq. rewrite !Qle_bool_iff. lra.
Qed.

Lemma getBayerValue_entry n t d x y :
  (n, t, d) ∈ [(2, bayer2x2, 4%positive); (4, bayer4x4, 16%positive); (8, bayer8x8, 64%positive)] →
  getBayerValue (x, y) n = Some (nth (Z.to_nat (Qfloor y mod n * n + Qfloor x mod n)) t 0 # d).
Proof.
  intros Hin.
  assert (0 < n ∧ length t = Z.to_nat (n * n)) as [Hn Hl] by (set_unfold; naive_solver lia).
  pose proof (Z.mod_pos_bound (Qfloor x) n Hn). pose proof (Z.mod_pos_bound (Qfloor y) n Hn).
  unfold getBayerValue. cbn [fst snd]. rewrite !floor_glsl_mod by done.
  assert (t !! Z.to_nat (Qfloor y mod n * n + Qfloor x mod n) =
    Some (nth (Z.to_nat (Qfloor y mod n * n + Qfloor x mod n)) t 0)) as Ht.
  { destruct (nth_lookup_or_length t (Z.to_nat (Qfloor y mod n * n + Qfloor x mod n)) 0)
      as [Ht|Ht]; [exact Ht|]. rewrite Hl in Ht. nia. }
  assert (0 ≤ Qfloor y mod n * n + Qfloor x mod n) as Hi by nia.
  rewrite (proj2 (Z.ltb_ge _ 0)) by done.
  revert Hin Ht. rewrite !elem_of_cons, elem_of_nil. clear.
  intros [[= -> -> ->]|[[= -> -> ->]|[[= -> -> ->]|[]]]] ->; done.
Qed.

Lemma floor_add x k : Qfloor (x + inject_Z k) = Qfloor x + k.
Proof.
  pose proof (Qfloor_le x). pose proof (Qlt_floor x). apply floor_unique.
  - rewrite inject_Z_plus. lra.
  - replace (Qfloor x + k + 1) with ((Qfloor x + 1) + k) by lia. rewrite inject_Z_plus. lra.
Qed.

Definition tables : list (DitheringType * nat) := [(t2x2, 2%nat); (t4x4, 4%nat); (t8x8, 8%nat)].

(** The table a type of dithering reads. *)
Lemma table_of hash (noise : Q * Q) s ty n :
  (ty, n) ∈ tables →
  ∃ t d, tile_check n t = true ∧ (0 < n)%nat ∧ Z.pos d = Z.of_nat (n * n) ∧
    (Z.of_nat n, t, d) ∈
      [(2, bayer2x2, 4%positive); (4, bayer4x4, 16%positive); (8, bayer8x8, 64%positive)] ∧
    ∀ uv,
      (if Qfloor (inject_Z (DitheringTypes ty)) =? 1 then Some (glsl_step (hash noise) s)
       else if Qfloor (inject_Z (DitheringTypes ty)) =? 2 then getBayerValue uv 2
       else if Qfloor (inject_Z (DitheringTypes ty)) =? 3 then getBayerValue uv 4
       else getBayerValue uv 8) = getBayerValue uv (Z.of_nat n).
Proof.
  pose proof tiles_check as [[H2 H4]%andb_true_iff H8]%andb_true_iff.
  unfold tables. rewrite !elem_of_cons, elem_of_nil. intros [E|[E|[E|[]]]]; injection E as -> ->.
  - exists bayer2x2, 4%positive. split; [exact H2|]. repeat split; [lia|]. apply (list_elem_of_lookup_2 _ 0). reflexivity.
  - exists bayer4x4, 16%positive. split; [exact H4|]. repeat split; [lia|]. apply (list_elem_of_lookup_2 _ 1). reflexivity.
  - exists bayer8x8, 64%positive. split; [exact H8|]. repeat split; [lia|]. apply (list_elem_of_lookup_2 _ 2). reflexivity.
Qed.

(** ordered dithering keeps the tone.  With a table of [n × n] thresholds and
    a shape of constant value [s], every square of [n × n] cells, wherever it
    starts, is painted in the two colours only, and the number of its cells in
    the front colour is the integer part of [s n²]. *)
Theorem dithering_tone hash ty n (front back : jstr) (s x y : Q) noise :
  (ty, n) ∈ tables → (0 <= s <= 1)%Q →
  ∃ lit : nat * nat → bool,
    (∀ c, c ∈ cells n → ∃ colour,
      fragColor hash (inject_Z (DitheringTypes ty)) (hexToRgba front) (hexToRgba back) s
        (x + inject_Z (Z.of_nat c.1), y + inject_Z (Z.of_nat c.2))%Q noise = Some colour ∧
      same_colour colour (hexToRgba (if lit c then front else back))) ∧
    Z.of_nat (length (filter (λ c, lit c = true) (cells n))) =
      Qfloor (inject_Z (Z.of_nat (n * n)) * s).
Proof.
  intros Hty Hs.
  destruct (table_of hash noise s ty n Hty) as (t & d & Hc & Hn & Hd & Hin & Hv).
  set (v c := nth (Z.to_nat ((Qfloor y + Z.of_nat c.2) mod Z.of_nat n * Z.of_nat n
                       + (Qfloor x + Z.of_nat c.1) mod Z.of_nat n)) t 0).
  exists (λ c : nat * nat, Qle_bool 1 (s + (v c # d))). split.
  - intros c _. destruct (hexToRgba_opaque front) as (fr & fg & fb & Ef).
    destruct (hexToRgba_opaque back) as (br & bg & bb & Eb). rewrite Ef, Eb.
    destruct (fragColor_opaque hash (inject_Z (DitheringTypes ty)) fr fg fb br bg bb s
      (x + inject_Z (Z.of_nat c.1), y + inject_Z (Z.of_nat c.2))%Q noise (v c # d)) as (col & -> & H).
    { rewrite Hv. rewrite (getBayerValue_entry _ _ _ _ _ Hin), !floor_add. done. }
    exists col. split; [done|]. revert H. destruct (Qle_bool _ _); by rewrite ?Ef, ?Eb.
  - rewrite <-(count_lit n t s (Qfloor x) (Qfloor y)) by done. unfold tile.
    rewrite filter_fmap_length. f_equal. f_equal. apply list_filter_iff. intros c. fold (v c).
    rewrite !Qle_bool_iff, (Qmake_Qdiv (v c)), <-Hd.
    assert (0 < inject_Z (Z.pos d))%Q as Hp by (by rewrite <-(Zlt_Qlt 0)).
    set (N := inject_Z (Z.pos d)) in *. set (V := inject_Z (v c)).
    assert (V / N * N == V)%Q as HV by (rewrite Qmult_comm; apply Qmult_div_r; lra).
    split; intros H; [apply (Qmult_le_r _ _ N) in H; [|done]; lra|].
    apply (Qmult_le_r _ _ N); [done|]. lra.
Qed.

(** ** Colours *)

Definition byte_text (v : Z) : jstr := [upper_hex (v / 16); upper_hex (v mod 16)].

(** A colour in the notation [#RRGGBB], with or without the sign, is read back. *)
Lemma hexToRgba_text (sign : bool) r g b :
  0 ≤ r < 256 → 0 ≤ g < 256 → 0 ≤ b < 256 →
  hexToRgba ((if sign then [35] else []) ++ byte_text r ++ byte_text g ++ byte_text b)
  = (r # 255, g # 255, b # 255, 1%Q).
Proof.
  intros Hr Hg Hb.
  assert (∀ v s, 0 ≤ v < 256 → hex_pair (byte_text v ++ s) = Some (v, s)) as Hp.
  { intros v s Hv. cbn. rewrite !hex_val_upper by euclid. cbn. do 2 f_equal. euclid. }
  unfold hexToRgba, hex_groups.
  assert (∀ s, (if upper_hex (r / 16) =? 35 then s else byte_text r ++ byte_text g ++ byte_text b)
    = byte_text r ++ byte_text g ++ byte_text b) as Hu.
  { intros s. rewrite (proj2 (Z.eqb_neq _ _)); [done|]. unfold upper_hex. case_match; euclid. }
  assert (hex_pair (byte_text b) = Some (b, [])) as Hb' by (by rewrite <-(app_nil_r (byte_text b)), Hp).
  destruct sign; cbn [app]; [rewrite Z.eqb_refl|unfold byte_text at 1; cbn [app]; rewrite Hu];
    rewrite Hp by done; cbn [mbind option_bind]; rewrite Hp by done; cbn [mbind option_bind];
    by rewrite Hb'.
Qed.

(** Every channel is between 0 and 1, whatever the text. *)
Lemma hexToRgba_range hex : Forall (λ c, 0 <= c <= 1)%Q (channels (hexToRgba hex)).
Proof.
  assert (∀ s v s', hex_pair s = Some (v, s') → 0 ≤ v < 256) as Hp.
  { assert (∀ c v, hex_val c = Some v → 0 ≤ v < 16) as Hv.
    { intros c v. unfold hex_val. repeat case_match; intros [= <-]; lia. }
    intros [|a [|b s]] v s'; [done..|]. cbn.
    intros (x & Hx%Hv & (y & Hy%Hv & [= <- _])%bind_Some)%bind_Some. lia. }
  unfold hexToRgba. destruct (hex_groups hex) as [[[r g] b]|] eqn:E; [|repeat constructor; done].
  unfold hex_groups in E. apply bind_Some in E as ([r' s1] & H1 & E).
  apply bind_Some in E as ([g' s2] & H2 & E). apply bind_Some in E as ([b' s3] & H3 & E).
  destruct s3; [|done]. injection E as -> -> ->.
  apply Hp in H1, H2, H3. repeat constructor; unfold Qle; cbn; lia.
Qed.

(** ** Runs *)

(** The page's background: two frames, a change to a still picture during
    which the driver has no buffer to give, and the end. *)
Definition no_second_buffer (n : nat) : bool := negb (n =? 13)%nat.
Abbreviation browser := (step true no_second_buffer (λ _, true)).
Definition sample_events : list (Event * Z) :=
  [(Commit wave_1, 0); (Frame 1, 16); (Frame 2, 33);
   (Commit (wave_1 <| speed := 0%Q |>), 40); (Unmount, 50)].
Definition sample : World := default (mounted 0) (run browser (mounted 0) sample_events).

Lemma dithering_lifecycle_witness :
  length (drawn sample) = 4%nat ∧ made sample = 7%nat ∧
  programs sample = ∅ ∧ buffers sample = ∅ ∧ frames sample = ∅.
Proof.
  split; [vm_compute; reflexivity|]. split; [vm_compute; reflexivity|].
  assert (run browser (mounted 0) sample_events = Some sample) as E by (vm_compute; reflexivity).
  apply (dithering_lifecycle true no_second_buffer (λ _, true) 0 sample (run_reachable _ _ _ _ E)).
  vm_compute. reflexivity.
Defined.

Lemma shaders_stay_witness :
  let w := default (mounted 0) (run (step true (λ _, true) (λ _, true)) (mounted 0) sample_events) in
  made w = 8%nat ∧ 8%nat = (2 * size (shaders w))%nat.
Proof.
  set (w := default _ _). assert (made w = 8%nat) as Hm by (vm_compute; reflexivity).
  split; [exact Hm|]. rewrite <-Hm at 1.
  apply (shaders_stay (λ _, true) 0 w), (run_reachable _ _ sample_events). vm_compute. reflexivity.
Defined.

(** Half tone in the page's colours, on a square that starts in mid-cell. *)
Lemma dithering_tone_witness : ∃ lit : nat * nat → bool,
  Z.of_nat (length (filter (λ c, lit c = true) (cells 8))) = 32.
Proof.
  destruct (dithering_tone (λ _, 0%Q) t8x8 8 (colorFront wave_1) (colorBack wave_1) (1 # 2)
    (-3 # 2) (7 # 3) (0%Q, 0%Q)) as (lit & _ & H);
    [apply (list_elem_of_lookup_2 _ 2); reflexivity|split; lra|].
  exists lit. rewrite H. vm_compute. reflexivity.
Defined.
End Dithering.
