(* ===== verification/Dashboard.v ===== *)
(** * The user's dashboard: [web/components/Dashboard.tsx]

    Loading of the session and the configuration, the subscription summary,
    auto-renewal, payments, the Happ link, and the rendered page.  Answers
    are read at their declared types; a page given something else fails to
    render, which leaves it empty. *)
From S2P Require Export JsDate JsNumber RoutingProfiles AuthForm PricingTable.

Module Dashboard.

Record Subscription := {
  plan : jstr;
  status : jstr;
  expires_at : jstr;
  auto_renew : bool;
}.

Record Session := {
  authenticated : bool;
  user_email : jstr;
  subscription : Subscription;
}.

#[export] Instance Subscription_eta : Eta Subscription := λ s,
  {| plan := plan s; status := status s; expires_at := expires_at s; auto_renew := auto_renew s |}.
#[export] Instance Session_eta : Eta Session := λ s,
  {| authenticated := authenticated s; user_email := user_email s; subscription := subscription s |}.

(** What the page reads of the answer: the account's address and the plan
    must be strings, an absent expiry is falsy. *)
Definition decode_session (v : jval) : option Session :=
  e ← as_str (get (get v §"user") §"email");
  let s := get v §"subscription" in
  p ← as_str (get s §"plan");
  x ← (if nullish (get s §"expires_at") then Some [] else as_str (get s §"expires_at"));
  Some {| authenticated := truthy (get v §"authenticated"); user_email := e;
          subscription := {| plan := p; status := to_text (get s §"status"); expires_at := x;
                             auto_renew := truthy (get s §"auto_renew") |} |}.

Inductive Platform := p_android | p_androidtv | p_windows | p_macos | p_linux | p_happ.

Definition platforms : list Platform := [p_android; p_androidtv; p_windows; p_macos; p_linux; p_happ].

Definition platformLabels (p : Platform) : jstr :=
  match p with
  | p_android => §"Android"
  | p_androidtv => §"TV"
  | p_windows => §"Windows"
  | p_macos => §"macOS"
  | p_linux => §"Linux"
  | p_happ => §"iPhone"
  end.

Definition download_of (d : Downloads) (p : Platform) : jstr :=
  match p with
  | p_android => android d
  | p_androidtv => androidtv d
  | p_windows => windows d
  | p_macos => macos d
  | p_linux => linux d
  | p_happ => happ d
  end.

(** [PLAN_BADGE[plan] ?? PLAN_BADGE.free], by its label. *)
Definition PLAN_BADGE (p : jstr) : jstr :=
  if str_eqb p §"vip" || str_eqb p §"vip_3m" then §"VIP"
  else if str_eqb p §"basic" || str_eqb p §"basic_3m" then §"Premium"
  else if str_eqb p §"trial" then §"Trial"
  else §"Free".

Definition pluralizeDays (n : Z) : jstr :=
  let mod10 := Z.rem n 10 in
  let mod100 := Z.rem n 100 in
  if (mod10 =? 1) && negb (mod100 =? 11) then §"день"
  else if (2 <=? mod10) && (mod10 <=? 4) && ((mod100 <? 10) || (20 <=? mod100)) then §"дня"
  else §"дней".

(** ** The summary *)

(** [progress] is the fraction [progress_days / period_days]. *)
Record Meta := {
  formatted : jstr;
  daysLeft : Z;
  progress_days : Z;
  period_days : Z;
  badge : jstr;
  isActive : bool;
  isFree : bool;
}.

Definition day_ms : Z := 1000 * 60 * 60 * 24.

(** [None]: formatting an invalid date throws. *)
Definition subscriptionMeta `{JsHost} (now : Z) (session : Session) : option Meta :=
  let sub := subscription session in
  let isFree := str_eqb (plan sub) §"free" in
  let expiresDate := if str_truthy (expires_at sub) then Some (date_parse (expires_at sub)) else None in
  formatted ← match expiresDate with
              | Some (Some t) => Some (intl_date_long t)
              | Some None => None
              | None => Some §"—"
              end;
  let ms := match expiresDate with Some (Some t) => t - now | _ => 0 end in
  let daysLeft := Z.max 0 (ceil_div ms day_ms) in
  let is3Months := ends_with (plan sub) §"_3m" in
  let periodDays := if is3Months then 90 else 30 in
  let progress := if isFree then periodDays else Z.min periodDays (Z.max 0 daysLeft) in
  let isActive := isFree || (str_eqb (status sub) §"active" && (0 <? daysLeft)) in
  Some {| formatted := formatted; daysLeft := daysLeft; progress_days := progress;
          period_days := periodDays; badge := PLAN_BADGE (plan sub);
          isActive := isActive; isFree := isFree |}.

(** ** State and operations *)

Record State := {
  session : option Session;
  config : SiteConfig;
  message : jstr;
  error : jstr;
  loadingPayment : option PlanId;
  loadingAutoRenew : bool;
  showCancelConfirm : bool;
  (** the two answers [Promise.all] waits for *)
  sessionResponse : option Response;
  configResponse : option Response;
  (** a value of an undeclared type reached the page *)
  crashed : bool;
}.

#[export] Instance State_eta : Eta State := λ s,
  {| session := session s; config := config s; message := message s; error := error s;
     loadingPayment := loadingPayment s; loadingAutoRenew := loadingAutoRenew s;
     showCancelConfirm := showCancelConfirm s; sessionResponse := sessionResponse s;
     configResponse := configResponse s; crashed := crashed s |}.

Inductive Operation :=
| LoadSession
| LoadConfig
| AutoRenew (enabled : bool)
| CreatePayment (plan : PlanId) (promo : jstr)
| HappLink
| Logout.

Definition json_headers : list header := [(§"Content-Type", §"application/json")].

Definition operation_request (op : Operation) : Request :=
  match op with
  | LoadSession => {| method := §"GET"; url := §"/api/session"; headers := []; body := None |}
  | LoadConfig => {| method := §"GET"; url := §"/api/site-config"; headers := []; body := None |}
  | AutoRenew enabled =>
      {| method := §"PATCH"; url := §"/api/subscription/auto-renew"; headers := json_headers;
         body := Some (stringify (JObj [(§"enabled", JBool enabled)])) |}
  | CreatePayment p promo =>
      {| method := §"POST"; url := §"/api/payments/create"; headers := json_headers;
         body := Some (stringify (JObj ((§"plan", JStr (plan_id_str p)) ::
           (if str_truthy promo then [(§"promo_code", JStr promo)] else [])))) |}
  | HappLink => {| method := §"POST"; url := §"/api/happ-link"; headers := []; body := None |}
  | Logout => {| method := §"POST"; url := §"/api/auth/logout"; headers := []; body := None |}
  end.

Definition initial : State :=
  {| session := None; config := defaultSiteConfig; message := []; error := [];
     loadingPayment := None; loadingAutoRenew := false; showCancelConfirm := false;
     sessionResponse := None; configResponse := None; crashed := false |}.

(** The rest of [load] after [Promise.all]. *)
Definition afterLoad (sr cr : Response) (s : State) : Outcome State Operation :=
  if Http.status sr =? 401 then Build_Outcome s [] [Push §"/auth"] else
  let set_config (s : State) : State :=
    if ok cr then
      match resp_body cr with
      | JsonBody v =>
          match decode_config v with
          | Some c => s <| config := c |>
          | None => s <| crashed := true |>
          end
      | RawBody _ => s
      end
    else s in
  if ok sr then
    match resp_body sr with
    | JsonBody v =>
        match decode_session v with
        | Some x => settled (set_config (s <| session := Some x |>))
        | None => settled (s <| crashed := true |>)
        end
    | RawBody _ => settled s
    end
  else settled (set_config s).

Definition errorMessage (data : jval) (fallback : jstr) : jstr :=
  if nullish data then §"Cannot read properties of null"
  else to_text (coalesce (get data §"error") (JStr fallback)).

(** The rest of [toggleAutoRenew]; its message uses [||]. *)
Definition afterAutoRenew (enabled : bool) (reply : Reply) (s : State) : Outcome State Operation :=
  let finish s := settled (s <| loadingAutoRenew := false |>) in
  match reply with
  | NetworkError msg => finish (s <| error := msg |>)
  | Arrived response =>
      if ok response then
        finish (s <| session := (λ x, x <| subscription := (subscription x) <| auto_renew := enabled |> |>)
                                  <$> session s |>)
      else
        match resp_body response with
        | RawBody _ => finish (s <| error := §"Unexpected token in JSON" |>)
        | JsonBody data =>
            if nullish data then finish (s <| error := §"Cannot read properties of null" |>)
            else finish (s <| error := to_text (or_else (get data §"error")
                   (JStr §"Ошибка при изменении автосписания")) |>)
        end
  end.

(** The rest of [createPayment]. *)
Definition afterPayment (reply : Reply) (s : State) : Outcome State Operation :=
  let finish s out := Build_Outcome (s <| loadingPayment := None |>) [] out in
  match reply with
  | NetworkError msg => finish (s <| error := msg |>) []
  | Arrived response =>
      match resp_body response with
      | RawBody _ => finish (s <| error := §"Unexpected token in JSON" |>) []
      | JsonBody data =>
          if negb (ok response)
          then finish (s <| error := errorMessage data §"Не удалось создать платеж" |>) []
          else if nullish data
          then finish (s <| error := §"Cannot read properties of null" |>) []
          else if truthy (get data §"confirmation_url")
          then finish s [Assign (to_text (get data §"confirmation_url"))]
          else finish (s <| message := §"Подписка активирована." |>) []
      end
  end.

(** The rest of [openHapp]. *)
Definition afterHapp (reply : Reply) (s : State) : Outcome State Operation :=
  match reply with
  | NetworkError msg => settled (s <| error := msg |>)
  | Arrived response =>
      match resp_body response with
      | RawBody _ => settled (s <| error := §"Unexpected token in JSON" |>)
      | JsonBody data =>
          if negb (ok response)
          then settled (s <| error := errorMessage data §"Не удалось создать ссылку" |>)
          else if nullish data then settled (s <| error := §"Cannot read properties of null" |>)
          else if negb (truthy (get data §"happ_url"))
          then settled (s <| error := §"Не удалось получить ссылку" |>)
          else Build_Outcome s [] [Assign (to_text (get data §"happ_url"))]
      end
  end.

Definition resumes (op : Operation) (reply : Reply) (s : State) : Outcome State Operation :=
  match op, reply with
  | LoadSession, Arrived r =>
      match configResponse s with
      | Some cr => afterLoad r cr (s <| sessionResponse := Some r |>)
      | None => settled (s <| sessionResponse := Some r |>)
      end
  | LoadConfig, Arrived r =>
      match sessionResponse s with
      | Some sr => afterLoad sr r (s <| configResponse := Some r |>)
      | None => settled (s <| configResponse := Some r |>)
      end
  | (LoadSession | LoadConfig), NetworkError _ => settled s
  | AutoRenew enabled, _ => afterAutoRenew enabled reply s
  | CreatePayment _ _, _ => afterPayment reply s
  | HappLink, _ => afterHapp reply s
  | Logout, Arrived _ => Build_Outcome s [] [Push §"/"]
  | Logout, NetworkError _ => settled s
  end.

Inductive Event :=
| AskCancel
| KeepRenewal
| CancelRenewal
| SelectPlan (p : PlanId) (promo : jstr)
| OpenHapp
| SignOut.

Definition handle (e : Event) (s : State) : Outcome State Operation :=
  match e with
  | AskCancel => settled (s <| showCancelConfirm := true |>)
  | KeepRenewal => settled (s <| showCancelConfirm := false |>)
  | CancelRenewal =>
      Build_Outcome (s <| showCancelConfirm := false |> <| error := [] |> <| loadingAutoRenew := true |>)
        [AutoRenew false] []
  | SelectPlan p promo =>
      Build_Outcome (s <| error := [] |> <| message := [] |> <| loadingPayment := Some p |>)
        [CreatePayment p promo] []
  | OpenHapp => Build_Outcome (s <| error := [] |> <| message := [] |>) [HappLink] []
  | SignOut => Build_Outcome s [Logout] []
  end.

(** ** The rendered page *)

Section Render.
Context `{JsHost} (now : Z) (selectedPlan : option PlanId) (promoFromUrl : jstr).

(** [Pricing04] calls [onSelect] only while no payment is being created
    ([Pricing04.pay_offered]); the promo code is whatever it holds. *)
Definition pricing (s : State) (session : Session) : node Event :=
  El §"Pricing04"
    ([Flag §"disabled" (negb (bool_decide (loadingPayment s = None)));
      Prop_ §"currentPlan" (plan (subscription session));
      Prop_ §"currentStatus" (status (subscription session));
      Prop_ §"initialPlan" (from_option plan_id_str [] selectedPlan);
      Prop_ §"initialPromoCode" promoFromUrl]
     ++ ((λ p, OnText (SelectPlan p)) <$> [basic; basic_3m; vip; vip_3m])) [].

Definition sidebar (s : State) (x : Session) (m : Meta) : node Event :=
  El §"aside" []
    [El §"div" [] [Txt (to_upper (take 1 (user_email x)))];
     El §"strong" [] [Txt (user_email x)];
     El §"span" [] [Txt (badge m)];
     El §"nav" [Prop_ §"aria-label" §"Кабинет"]
       [El §"a" [Prop_ §"href" §"#home"] [Txt §"Главная"];
        El §"a" [Prop_ §"href" §"#subscription"] [Txt §"Подписка"];
        El §"a" [Prop_ §"href" §"#downloads"] [Txt §"Скачать"];
        El §"a" [Prop_ §"href" §"/dashboard/vip"] [Txt §"VIP"];
        El §"button" [On §"click" SignOut] [Txt §"Выйти"]]].

Definition hero (s : State) (x : Session) (m : Meta) : node Event :=
  El §"section" [Prop_ §"id" §"home"]
    [El §"strong" [] [Txt (if isActive m then §"Защита включена" else §"Подписка истекла")];
     El §"div" [Flag §"data-active" (isActive m)]
       [Txt (if isFree m then §"Бесплатный тариф"
             else if isActive m then §"Подписка активна" else §"Требуется продление")];
     El §"h2" []
       [Txt (if isFree m then §"Бесплатный план"
             else if isActive m
             then §"Осталось " ++ num_str (daysLeft m) ++ §" " ++ pluralizeDays (daysLeft m)
             else §"Подписка истекла")];
     El §"p" []
       [Txt (if isFree m then §"Доступен базовый функционал. Выберите план для полного доступа."
             else if isActive m then §"Действует до " ++ formatted m ++ §". Управляйте подпиской ниже."
             else §"Выберите план — и подключение восстановится сразу после оплаты.")];
     El §"div" []
       ([El §"div" [] [El §"span" [] [Txt §"План"]; El §"strong" [] [Txt (badge m)]];
         El §"div" [] [El §"span" [] [Txt §"Email"]; El §"strong" [] [Txt (user_email x)]]]
        ++ show (negb (isFree m) && auto_renew (subscription x))
             [El §"div" []
                [El §"span" [] [Txt §"Автопродление"];
                 El §"strong" []
                   [Txt §"Включено";
                    El §"button" [On §"click" AskCancel; Flag §"disabled" (loadingAutoRenew s);
                                  Prop_ §"title" §"Нажмите, чтобы отключить"]
                      [Txt (if loadingAutoRenew s then §"Отключение..." else §"Отключить")]]]])].

Definition notice (s : State) : list (node Event) :=
  show (str_truthy (message s) || str_truthy (error s) || bool_decide (is_Some selectedPlan))
    [El §"div" [] [Txt (str_or (error s) (str_or (message s)
                          §"Тариф выбран. Завершите оплату ниже."))]].

Definition downloads_section (s : State) : node Event :=
  El §"section" [Prop_ §"id" §"downloads"]
    [El §"h2" [] [Txt §"Скачать FBLink VPN"];
     El §"p" [] [Txt §"Выберите платформу. Авторизация — тем же email."];
     El §"div" []
       ((λ p, El §"div" []
          [El §"strong" [] [Txt (platformLabels p)];
           match p with
           | p_happ => El §"button" [On §"click" OpenHapp; Prop_ §"type" §"button"] [Txt §"В Happ"]
           | _ => El §"a" [Prop_ §"href" (download_of (downloads (config s)) p)] [Txt §"Скачать"]
           end]) <$> platforms)].

Definition support_section (s : State) (x : Session) : node Event :=
  El §"section" []
    [El §"h3" [] [Txt §"Поддержка 24/7"];
     El §"p" [] [Txt §"Отвечаем в течение часа. Email или Telegram — что удобнее."];
     El §"a" [Prop_ §"href" (telegram (support (config s)))] [Txt §"Telegram"];
     El §"a" [Prop_ §"href" (§"mailto:" ++ email (support (config s)))] [Txt §"Email"];
     El §"h3" [] [Txt §"Данные аккаунта"];
     El §"p" [] [Txt §"Подписка привязана к email. На любом устройстве — тот же логин и пароль."];
     El §"span" [] [Txt (user_email x)]].

Definition cancel_dialog : node Event :=
  El §"div" []
    [El §"h3" [] [Txt §"Вы уверены?"];
     El §"p" [] [Txt §"Отключая автосписание, вы рискуете остаться без защиты в самый неподходящий момент. Ваша подписка не будет продлена автоматически."];
     El §"button" [On §"click" KeepRenewal] [Txt §"Оставить включенным"];
     El §"button" [On §"click" CancelRenewal] [Txt §"Всё равно отключить"]].

Definition topbar (s : State) : node Event :=
  El §"header" []
    [Brand §"/";
     El §"a" [Prop_ §"href" (telegram (support (config s)))] [Txt §"Telegram"];
     El §"a" [Prop_ §"href" (§"mailto:" ++ email (support (config s)))] [Txt §"Поддержка"]].

Definition render (s : State) : list (node Event) :=
  if crashed s then [] else
  match session s with
  | None => [El §"main" [] [Brand §"/"; El §"p" [] [Txt §"Загружаем кабинет..."]]]
  | Some x =>
      match subscriptionMeta now x with
      | None => []
      | Some m =>
          [El §"main" []
             ([topbar s; sidebar s x m; hero s x m]
              ++ notice s
              ++ [El §"section" [Prop_ §"id" §"subscription"]
                    [El §"span" [] [Txt §"Подписка"];
                     El §"h2" [] [Txt (if isActive m then §"Продлить или сменить план"
                                       else §"Активировать доступ")];
                     pricing s x];
                  downloads_section s;
                  support_section s x]
              ++ show (showCancelConfirm s) [cancel_dialog])]
      end
  end.

Definition component : Component := {|
  St := State; Ev := Event; Op := Operation;
  mount := Build_Outcome initial [LoadSession; LoadConfig] [];
  view := render;
  on := handle;
  request := operation_request;
  resume := resumes;
|}.

(** ** Properties *)

(** Which states offer the events that start payments and changes of the
    renewal. *)
Lemma offered_when e s :
  offered component e s →
  (∀ p promo, e = SelectPlan p promo → loadingPayment s = None) ∧
  (e = CancelRenewal → showCancelConfirm s = true) ∧
  (e = AskCancel → loadingAutoRenew s = false).
Proof.
  apply (offered_every component (λ e, (∀ p promo, e = SelectPlan p promo → _) ∧
    (e = CancelRenewal → _) ∧ (e = AskCancel → _))).
  cbn [view component].
  unfold render, topbar, sidebar, hero, notice, downloads_section, support_section, cancel_dialog,
    pricing, Brand. events; try (split_and!; done).
  - split_and!; try done. intros _.
    match goal with H : is_disabled _ = false |- _ => unfold is_disabled in H; simpl in H end.
    destruct (loadingAutoRenew s); [|done].
    match goal with H : _ = false |- _ => vm_compute in H; discriminate H end.
  - match goal with H : is_disabled _ = false |- _ =>
      apply enabled_flag, negb_false_iff, bool_decide_eq_true in H end.
    apply Forall_app. split; [repeat constructor|]. apply Forall_fmap. apply Forall_forall.
    intros p _ promo. split_and!; try done. 
Qed.

Definition is_payment (op : Operation) : bool :=
  match op with CreatePayment _ _ => true | _ => false end.
Definition is_renewal (op : Operation) : bool :=
  match op with AutoRenew _ => true | _ => false end.

Definition paying (s : State) : bool := bool_decide (is_Some (loadingPayment s)).

(** The replies change the flags only through their own operation. *)
Lemma resumes_flags op r s :
  started (resumes op r s) = [] ∧
  loadingPayment (new (resumes op r s)) = (if is_payment op then None else loadingPayment s) ∧
  loadingAutoRenew (new (resumes op r s)) = (if is_renewal op then false else loadingAutoRenew s) ∧
  showCancelConfirm (new (resumes op r s)) = showCancelConfirm s.
Proof.
  unfold resumes, afterAutoRenew, afterPayment, afterHapp, afterLoad.
  destruct op, r; simpl; repeat (case_match; simpl); done.
Qed.

(** The dialog is never open while a renewal change is in flight. *)
Lemma dialog_closed s :
  reached component s → showCancelConfirm (st s) = true → loadingAutoRenew (st s) = false.
Proof.
  revert s. apply (state_invariant component
    (λ s, showCancelConfirm s = true → loadingAutoRenew s = false)); simpl; [done| |].
  - intros e s Hs Ho%offered_when. destruct e; simpl; try done. naive_solver.
  - intros op r s Hs. destruct (resumes_flags op r s) as (_ & _ & -> & ->).
    destruct (is_renewal op); auto.
Qed.

(** whatever the user does and however replies are delayed, at most one
    payment is being created and at most one change of the renewal is in
    flight, each exactly while its loading flag is up. *)
Theorem dashboard_one_flight s :
  reached component s →
  one_flight component is_payment paying s ∧
  one_flight component is_renewal loadingAutoRenew s.
Proof.
  intros Hr. split.
  - revert s Hr. apply (one_flight_invariant component is_payment paying (λ _, True)); simpl.
    + done.
    + done.
    + intros e s _ Ho%offered_when. unfold paying. rewrite bool_decide_eq_true. intros [p Hp].
      destruct e; simpl; rewrite ?bool_decide_eq_true; eauto; naive_solver.
    + intros e s _ _. unfold paying. rewrite bool_decide_eq_false. intros Hp.
      destruct e; simpl; rewrite ?bool_decide_eq_true, ?bool_decide_eq_false; eauto.
    + intros op r s Hk _. destruct (resumes_flags op r s) as (-> & Hp & _). unfold paying.
      rewrite Hp, Hk. by left.
    + intros op r s Hk. destruct (resumes_flags op r s) as (-> & Hp & _). unfold paying.
      by rewrite Hp, Hk.
  - revert s Hr. apply (one_flight_invariant component is_renewal loadingAutoRenew
      (λ s, showCancelConfirm s = true → loadingAutoRenew s = false)); simpl.
    + apply dialog_closed.
    + done.
    + intros e s HP Ho%offered_when Hb. destruct e; simpl; try done.
      destruct Ho as (_ & Hc & _). specialize (HP (Hc eq_refl)). congruence.
    + intros e s _ _ Hb. destruct e; simpl; rewrite ?Hb; eauto.
    + intros op r s Hk _. destruct (resumes_flags op r s) as (-> & _ & -> & _). rewrite Hk. by left.
    + intros op r s Hk. destruct (resumes_flags op r s) as (-> & _ & -> & _). by rewrite Hk.
Qed.

(** the summary is right: the number of days left is the least whole
    number of days that reaches the expiry, the subscription counts as active
    exactly when it is free or is marked active and expires after the
    current instant, and the ring shows a fraction between 0 and 1. *)
Theorem subscriptionMeta_spec x m t :
  expires_at (subscription x) ≠ [] → date_parse (expires_at (subscription x)) = Some t →
  subscriptionMeta now x = Some m →
  (∀ n, 0 ≤ n → daysLeft m ≤ n ↔ t - now ≤ n * day_ms) ∧ 0 ≤ daysLeft m ∧
  (isActive m = true ↔
     plan (subscription x) = §"free" ∨ status (subscription x) = §"active" ∧ now < t) ∧
  0 ≤ progress_days m ≤ period_days m ∧ 0 < period_days m.
Proof.
  intros Hne Ht. unfold subscriptionMeta. rewrite Ht.
  destruct (expires_at (subscription x)) as [|c e]; [done|]. simpl. intros [= <-]. simpl.
  assert (0 < day_ms) as Hd by done. pose proof (ceil_div_spec (t - now) day_ms) as Hc.
  split_and!.
  - intros n Hn. rewrite Z.max_lub_iff, Hc by done. rewrite (Z.mul_comm day_ms). tauto.
  - lia.
  - rewrite orb_true_iff, andb_true_iff, !str_eqb_eq, Z.ltb_lt.
    specialize (Hc 0 Hd). rewrite Z.mul_0_r in Hc.
    assert (0 < Z.max 0 (ceil_div (t - now) day_ms) ↔ now < t) as ->; [lia|tauto].
  - case_match; [destruct (ends_with _ _); lia|]. destruct (ends_with _ _); lia.
  - destruct (str_eqb _ _), (ends_with _ _); lia.
  - destruct (ends_with _ _); lia.
Qed.
End Render.

(** ** A concrete session *)

#[local] Existing Instance plain_host.

Definition sample_session : Session :=
  {| authenticated := true; user_email := §"u@example.com";
     subscription := {| plan := §"vip_3m"; status := §"active";
                        expires_at := §"2026-06-01T00:00:00Z"; auto_renew := true |} |}.

Definition sample_session_json : jval := JObj [
  (§"authenticated", JBool true);
  (§"user", JObj [(§"email", JStr §"u@example.com")]);
  (§"subscription", JObj [(§"plan", JStr §"vip_3m"); (§"status", JStr §"active");
     (§"expires_at", JStr §"2026-06-01T00:00:00Z"); (§"auto_renew", JBool true)])].

(** Noon of 30 May 2026. *)
Definition sample_now : Z := 1780142400000.

(** The page loads, the user orders VIP and asks to cancel the renewal. *)
Definition sample_run : list Label :=
  [Settle 0 (Arrived (json_response sample_session_json 200));
   Settle 0 (Arrived (json_response JNull 500)); Input 2 []; Click 1; Click 4].

Lemma dashboard_one_flight_witness :
  let s := final (component sample_now None []) sample_run in
  pending s = [CreatePayment vip []; AutoRenew false] ∧
  one_flight (component sample_now None []) is_payment paying s ∧
  one_flight (component sample_now None []) is_renewal loadingAutoRenew s.
Proof.
  split; [vm_compute; reflexivity|].
  apply dashboard_one_flight, final_reached. vm_compute. reflexivity.
Defined.

Lemma subscriptionMeta_spec_witness :
  ∃ m, subscriptionMeta sample_now sample_session = Some m ∧ daysLeft m = 2 ∧ isActive m = true ∧
       0 ≤ progress_days m ≤ period_days m.
Proof.
  eexists. split; [reflexivity|]. split; [vm_compute; reflexivity|]. split.
  - apply (subscriptionMeta_spec sample_now sample_session _ 1780272000000 ltac:(done)
      ltac:(vm_compute; reflexivity) eq_refl).
    right. split; [reflexivity|vm_compute; reflexivity].
  - apply (subscriptionMeta_spec sample_now sample_session _ 1780272000000 ltac:(done)
      ltac:(vm_compute; reflexivity) eq_refl).
Defined.

(** The page's own plural of days is the one of the routing summaries. *)
Lemma pluralizeDays_pluralRu n : pluralizeDays n = pluralRu n §"день" §"дня" §"дней".
Proof. reflexivity. Qed.
End Dashboard.
