(* ===== verification/DashboardPage.v ===== *)
(** * The dashboard with its pricing table

    [Dashboard] and [Pricing04] as one page: the table gets its plans, the
    payment in progress and the subscription from the dashboard's state
    ([web/components/Dashboard.tsx], 400 to 411), and its [onSelect] is the
    dashboard's [createPayment]. *)
From S2P Require Export Compose Dashboard.

Module DashboardPage.
Import Dashboard.

Section Page.
Context `{JsHost} (now : Z) (selectedPlan : option PlanId) (promoFromUrl : jstr).

(** The properties of the table, when the dashboard renders it. *)
Definition table_props (s : State) : option Pricing04.Props :=
  if crashed s then None else
  x ← session s;
  _ ← subscriptionMeta now x;
  Some {| Pricing04.plans := plans (config s);
          Pricing04.initialPlan := selectedPlan;
          Pricing04.initialPromoCode := promoFromUrl;
          Pricing04.loadingPlan := loadingPayment s;
          Pricing04.mode := mode_payment;
          Pricing04.currentSubscription :=
            Some {| sub_plan := plan (subscription x); sub_status := status (subscription x) |} |}.

(** [onSelect={createPayment}] *)
Definition onSelect (o : Out) : option Event :=
  match o with
  | Callback name [i; promo] =>
      if str_eqb name §"onSelect" then (λ p, SelectPlan p promo) <$> plan_id_of i else None
  | _ => None
  end.

Definition table : Child State Event := {|
  CSt := Pricing04.State; CEv := Pricing04.Event; COp := Pricing04.Op; CProps := Pricing04.Props;
  slot := §"Pricing04";
  shown := table_props;
  c_mount p := Pricing04.sync p (Pricing04.initial p);
  c_update := Pricing04.sync;
  c_view := Pricing04.render;
  c_on := Pricing04.handle;
  c_request op := preview_request (Pricing04.preview op);
  c_resume _ := Pricing04.settle;
  hears := onSelect;
|}.

Definition dash : Component := component now selectedPlan promoFromUrl.

Definition page : Component := nest dash table.

(** ** What the page offers *)

Lemma table_props_spec s p :
  table_props s = Some p →
  Pricing04.plans p = plans (config s) ∧ Pricing04.loadingPlan p = loadingPayment s ∧
  Pricing04.initialPromoCode p = promoFromUrl.
Proof.
  unfold table_props. destruct (crashed s); [done|]. destruct (session s) as [x|]; [|done]. simpl.
  destruct (subscriptionMeta now x); [|done]. by intros [= <-].
Qed.

(** An order button is shown only for a selected period of a plan in the
    current configuration, while no payment is being created. *)
Definition orderable (s : State) (t : Pricing04.State) : Prop :=
  loadingPayment s = None ∧
  ∃ plan period, plan ∈ plans (config s) ∧ period ∈ periods plan ∧
    Pricing04.selectedPlanId t = Some (id period).

Definition event_ok (x : State * option Pricing04.State) (e : Event + Pricing04.Event) : Prop :=
  match e with
  | inl (SelectPlan _ _) => False
  | inr Pricing04.Pay => ∃ t, x.2 = Some t ∧ orderable x.1 t
  | _ => True
  end.

Lemma page_offered x e : offered page e x → event_ok x e.
Proof.
  apply (nest_offered dash table (event_ok x)).
  - cbn [view dash component event_ok]. unfold render, topbar, sidebar, hero, notice, downloads_section,
      support_section, cancel_dialog, pricing, Brand. outsides; done.
  - intros p t Hp Ht. cbn [c_view table]. destruct (table_props_spec x.1 p Hp) as (Epl & Elo & _).
    eapply every_impl; [|apply Pricing04.pay_every]. intros [] Hpay; try done. simpl.
    exists t. split; [done|]. destruct (Hpay eq_refl) as (Hl & _ & plan & period & Hs).
    split; [exact (eq_trans (eq_sym Elo) Hl)|].
    apply Pricing04.selected_sound in Hs as (? & Hin & ?). rewrite Epl in Hin. by exists plan, period.
Qed.

(** ** Payments *)

Definition pays (op : Operation + Pricing04.Op) : bool :=
  match op with inl op => is_payment op | inr _ => false end.

(** The payments among operations. *)
Definition payments (ops : list (Operation + Pricing04.Op)) : list (Operation + Pricing04.Op) :=
  filter (λ op, pays op = true) ops.

Lemma payments_app a b : payments (a ++ b) = payments a ++ payments b.
Proof. apply filter_app. Qed.

Lemma payments_child (ops : list Pricing04.Op) : payments (inr <$> ops) = [].
Proof. induction ops; [done|]. unfold payments. by rewrite fmap_cons, filter_cons_False. Qed.

Lemma payments_parent ops :
  payments (inl <$> ops) = inl <$> filter (λ op, is_payment op = true) ops.
Proof.
  unfold payments. induction ops as [|op ops IH]; [done|]. rewrite fmap_cons, !filter_cons. simpl.
  by destruct (is_payment op); simpl; rewrite IH.
Qed.

Lemma adopt_spec s c :
  payments (started (adopt dash table s c)) = [] ∧ (new (adopt dash table s c)).1 = s ∧
  ∀ t, (new (adopt dash table s c)).2 = Some t →
    Pricing04.promoCode t = from_option Pricing04.promoCode promoFromUrl c.
Proof.
  unfold adopt. cbn [shown table]. destruct (table_props s) as [p|] eqn:Ep; [|done].
  destruct (table_props_spec s p Ep) as (_ & _ & Epr).
  destruct c as [c|]; cbn [started new fst snd]; (split; [apply payments_child|]; split; [done|]).
  - intros t [= <-]. cbn [c_update table]. by destruct (Pricing04.sync_promo p c) as [-> _].
  - intros t [= <-]. cbn [c_mount table].
    destruct (Pricing04.sync_promo p (Pricing04.initial p)) as [-> _]. done.
Qed.

Lemma parent_payments o c :
  payments (started (parent_step dash table o c))
    = inl <$> filter (λ op, is_payment op = true) (started o) ∧
  (new (parent_step dash table o c)).1 = new o.
Proof.
  destruct (adopt_spec (new o) c) as (Ha & Hn & _). unfold parent_step. cbn [started new].
  split; [|exact Hn]. etrans; [exact (payments_app _ _)|]. rewrite Ha, app_nil_r.
  apply payments_parent.
Qed.

Lemma child_payments s (o : Outcome Pricing04.State Pricing04.Op) :
  payments (started (child_step dash table s o))
    = inl <$> filter (λ op, is_payment op = true) (started (hear dash table (outs o) s)) ∧
  (new (child_step dash table s o)).1 = new (hear dash table (outs o) s).
Proof.
  destruct (parent_payments (hear dash table (outs o) s) (Some (new o))) as [Hp Hn].
  unfold child_step. cbn [started new]. split; [|exact Hn].
  etrans; [exact (payments_app _ _)|]. etrans; [|exact Hp]. by rewrite payments_child.
Qed.

(** An order of the table creates a payment; nothing else it does is heard. *)
Lemma table_payments p e s t :
  (∃ i, e = Pricing04.Pay ∧ Pricing04.selectedPlanId t = Some i ∧
     hear dash table (outs (Pricing04.handle p e t)) s
     = handle (SelectPlan i (Pricing04.promoCode t)) s) ∨
  hear dash table (outs (Pricing04.handle p e t)) s = settled s.
Proof.
  destruct (Pricing04.handle_promo p e t) as [_ [->| ->]]; [|by right].
  cbn [Pricing04.handle outs]. destruct (Pricing04.selectedPlanId t) as [i|]; [left|by right].
  exists i. split_and!; [done..|]. cbn [hear hears table onSelect].
  rewrite str_eqb_refl, plan_id_of_str. reflexivity.
Qed.

(** An order: the table is shown, no payment is being created, and the
    selected period is in the current configuration. *)
Definition order (x : State * option Pricing04.State) (i : PlanId) (promo : jstr) : Prop :=
  ∃ t plan period, x.2 = Some t ∧ promo = Pricing04.promoCode t ∧ loadingPayment x.1 = None ∧
    plan ∈ plans (config x.1) ∧ period ∈ periods plan ∧ i = id period.

Lemma on_payments e (x : State * option Pricing04.State) :
  offered page e x →
  let o := nest_on dash table e x in
  payments (started o) = [] ∧ loadingPayment (new o).1 = loadingPayment x.1 ∨
  ∃ i promo, order x i promo ∧ payments (started o) = [inl (CreatePayment i promo)] ∧
             loadingPayment (new o).1 = Some i.
Proof.
  intros Ho%page_offered o. unfold o. clear o. destruct e as [e|e].
  - left. destruct (parent_payments (on dash e x.1) x.2) as [Hp Hn].
    split; [etrans; [exact Hp|]|etrans; [exact (f_equal loadingPayment Hn)|]]; by destruct e.
  - destruct (nest_on_child dash table e x) as [(p & t & _ & Et & ->)| ->]; [|left; split; reflexivity].
    destruct (child_payments x.1 (c_on table p e t)) as [Hp Hn].
    destruct (table_payments p e x.1 t) as [(i & -> & Hi & Hh)|Hh].
    + right. destruct Ho as (t' & Ht & Hl & plan & period & Hpl & Hpe & Hs).
      assert (t' = t) as -> by (exact (f_equal (default t) (eq_trans (eq_sym Ht) Et))).
      rewrite Hi in Hs. injection Hs as ->. exists (id period), (Pricing04.promoCode t).
      split; [by exists t, plan, period|]. split.
      * etrans; [exact Hp|]. exact (f_equal (λ o, inl <$> filter _ (started o)) Hh).
      * etrans; [exact (f_equal loadingPayment Hn)|]. exact (f_equal (λ o, loadingPayment (new o)) Hh).
    + left. split.
      * etrans; [exact Hp|]. exact (f_equal (λ o, inl <$> filter _ (started o)) Hh).
      * etrans; [exact (f_equal loadingPayment Hn)|]. exact (f_equal (λ o, loadingPayment (new o)) Hh).
Qed.

Lemma resume_payments op r (x : State * option Pricing04.State) :
  let o := nest_resume dash table op r x in
  payments (started o) = [] ∧
  loadingPayment (new o).1 = if pays op then None else loadingPayment x.1.
Proof.
  intros o. unfold o. clear o. destruct op as [op|op].
  - destruct (parent_payments (resume dash op r x.1) x.2) as [Hp Hn].
    destruct (resumes_flags op r x.1) as (Hs & Hl & _).
    split; [etrans; [exact Hp|]|etrans; [exact (f_equal loadingPayment Hn)|exact Hl]].
    exact (f_equal (λ ops, inl <$> filter _ ops) Hs).
  - destruct (nest_resume_child dash table op r x) as [(p & t & _ & _ & ->)| ->]; [|split; reflexivity].
    destruct (child_payments x.1 (c_resume table p op r t)) as [Hp Hn].
    destruct (Pricing04.settle_promo op r t) as [Ho _].
    assert (hear dash table (outs (c_resume table p op r t)) x.1 = settled x.1) as Hh
      by exact (f_equal (λ os, hear dash table os x.1) Ho).
    split.
    + etrans; [exact Hp|]. exact (f_equal (λ o, inl <$> filter _ (started o)) Hh).
    + etrans; [exact (f_equal loadingPayment Hn)|]. exact (f_equal (λ o, loadingPayment (new o)) Hh).
Qed.

(** At most one payment is being created. *)
Lemma page_one_payment s :
  reached page s → one_flight page pays (λ x, paying x.1) s.
Proof.
  revert s. apply (one_flight_invariant page pays (λ x, paying x.1) (λ _, True)); unfold paying.
  - done.
  - done.
  - intros e x _ Ho Hb. apply bool_decide_eq_true in Hb as [i Hi].
    destruct (on_payments e x Ho) as [[Hs Hl]|(? & ? & (t & ? & ? & _ & _ & Hn & _) & _)].
    + split; [exact Hs|]. apply bool_decide_eq_true. exists i. by etrans; [exact Hl|].
    + exfalso. discriminate (eq_trans (eq_sym Hi) Hn).
  - intros e x _ Ho Hb.
    destruct (on_payments e x Ho) as [[Hs Hl]|(i & promo & _ & Hs & Hl)]; [left|right].
    + split; [exact Hs|]. etrans; [|exact Hb]. exact (f_equal (λ l, bool_decide (is_Some l)) Hl).
    + split; [eexists; exact Hs|]. exact (f_equal (λ l, bool_decide (is_Some l)) Hl).
  - intros op r x Hk _. left. destruct (resume_payments op r x) as [Hs Hl]. rewrite Hk in Hl.
    split; [exact Hs|]. exact (f_equal (λ l, bool_decide (is_Some l)) Hl).
  - intros op r x Hk. destruct (resume_payments op r x) as [Hs Hl]. rewrite Hk in Hl.
    split; [exact Hs|]. exact (f_equal (λ l, bool_decide (is_Some l)) Hl).
Qed.

(** ** Promo codes *)

(** A promo code of the page is the one of the address, empty, or one that
    was sent to the backend for a preview. *)
Definition promo_source (rs : list Request) (c : jstr) : Prop :=
  c = promoFromUrl ∨ c = [] ∨
  ∃ plan, preview_request {| previewPlan := plan; resolved := c |} ∈ rs.

Lemma promo_source_app rs rs' c : promo_source rs c → promo_source (rs ++ rs') c.
Proof. unfold promo_source. set_solver. Qed.

Lemma parent_promo o c t :
  (new (parent_step dash table o c)).2 = Some t →
  Pricing04.promoCode t = from_option Pricing04.promoCode promoFromUrl c.
Proof. exact (proj2 (proj2 (adopt_spec (new o) c)) t). Qed.

Lemma child_promo s o t :
  (new (child_step dash table s o)).2 = Some t → Pricing04.promoCode t = Pricing04.promoCode (new o).
Proof. exact (parent_promo (hear dash table (outs o) s) (Some (new o)) t). Qed.

Lemma page_promo s :
  reached page s → ∀ t, (st s).2 = Some t → promo_source (requests s) (Pricing04.promoCode t).
Proof.
  revert s. apply (component_invariant page
    (λ s, ∀ t, (st s).2 = Some t → promo_source (requests s) (Pricing04.promoCode t))).
  - intros t Ht. apply parent_promo in Ht. rewrite Ht. by left.
  - intros s e _ IH _ t Ht. apply promo_source_app. cbn [commit st] in Ht.
    destruct e as [e|e].
    + apply parent_promo in Ht. rewrite Ht. destruct (st s).2 as [c|] eqn:Ec; [by apply IH|by left].
    + destruct (nest_on_child dash table e (st s)) as [(p & c & _ & Ec & E)|E];
        change (on page) with (nest_on dash table) in Ht; rewrite E in Ht; [|by apply IH].
      apply child_promo in Ht. destruct (Pricing04.handle_promo p e c) as [[Hc|Hc] _].
      * rewrite (eq_trans Ht Hc). by apply IH.
      * rewrite (eq_trans Ht Hc). right. by left.
  - intros s k op r Hr IH Hk t Ht. apply promo_source_app. cbn [commit st] in Ht.
    destruct op as [op|op].
    + apply parent_promo in Ht. rewrite Ht. destruct (st s).2 as [c|] eqn:Ec; [by apply IH|by left].
    + destruct (nest_resume_child dash table op r (st s)) as [(p & c & _ & Ec & E)|E];
        change (resume page) with (nest_resume dash table) in Ht; rewrite E in Ht; [|by apply IH].
      apply child_promo in Ht.
      destruct (Pricing04.settle_promo op r c) as [_ [Hc|Hc]]; rewrite (eq_trans Ht Hc).
      * right. by left.
      * right. right. exists (previewPlan (Pricing04.preview op)).
        apply list_elem_of_lookup_2, (pending_requested page s _ Hr) in Hk. by destruct op as [? []].
Qed.

Lemma elem_of_eq {A} (x : A) (l l' : list A) : l = l' → x ∈ l → x ∈ l'.
Proof. by intros ->. Qed.

(** A step starts a payment only for an order. *)
Lemma step_orders s l s' i promo :
  step page s l = Some s' →
  inl (CreatePayment i promo) ∈ pending s' → inl (CreatePayment i promo) ∉ pending s →
  order (st s) i promo.
Proof.
  assert (∀ ops, inl (CreatePayment i promo) ∈ ops → inl (CreatePayment i promo) ∈ payments ops) as Hin.
  { intros ops Hop. unfold payments. by apply list_elem_of_filter. }
  assert (∀ e, offered page e (st s) → inl (CreatePayment i promo) ∈ started (on page e (st s)) →
    order (st s) i promo) as Hon.
  { intros e Ho Hop%Hin. destruct (on_payments e (st s) Ho) as [[Hs _]|(i' & c & Hord & Hs & _)].
    all: apply (elem_of_eq _ _ _ Hs) in Hop.
    - by apply elem_of_nil in Hop.
    - apply list_elem_of_singleton in Hop. by injection Hop as -> ->. }
  destruct l as [k|k txt|k r]; simpl; intros Hst Hop Hno;
    apply bind_Some in Hst as (x & Hx & [= <-]); cbn [commit pending] in Hop;
    apply elem_of_app in Hop as [Hop|Hop]; try done.
  - apply (Hon x); [|done]. left. by eapply list_elem_of_lookup_2.
  - apply (Hon (x txt)); [|done]. right. exists x, txt. split; [by eapply list_elem_of_lookup_2|done].
  - exfalso. apply Hno. eapply elem_of_submseteq; [exact Hop|]. apply sublist_submseteq, sublist_delete.
  - destruct (resume_payments x r (st s)) as [Hs _].
    apply Hin, (elem_of_eq _ _ _ Hs), elem_of_nil in Hop. done.
Qed.

(** C13: end to end, a payment that the dashboard with its pricing table
    creates is one the user may order.  When a step of the page starts a
    payment, no other payment is being created, the plan is a period of a
    plan in the configuration that the page shows at that moment, and the
    promo code is the one of the address, empty, or one that was sent to the
    backend for a preview before; for every interleaving of clicks, inputs
    and replies. *)
Theorem page_payments s l s' i promo :
  reached page s → step page s l = Some s' →
  inl (CreatePayment i promo) ∈ pending s' → inl (CreatePayment i promo) ∉ pending s →
  payments (pending s) = [] ∧ promo_source (requests s) promo ∧
  ∃ plan period, plan ∈ plans (config (st s).1) ∧ period ∈ periods plan ∧ i = id period.
Proof.
  intros Hr Hst Hin Hno.
  destruct (step_orders s l s' i promo Hst Hin Hno) as (t & plan & period & Ht & -> & Hl & ? & ? & ?).
  split; [|split; [by apply page_promo|by exists plan, period]].
  apply (one_flight_idle page pays (λ x, paying x.1) s (page_one_payment s Hr)).
  exact (f_equal (λ l, bool_decide (is_Some l)) Hl).
Qed.
End Page.

(** ** A concrete visit *)

#[local] Existing Instance plain_host.

Abbreviation sample_page := (page sample_now None []).

(** The session and the configuration arrive; the user chooses a plan and
    orders it. *)
Definition visit : list Label :=
  [Settle 0 (Arrived (json_response sample_session_json 200));
   Settle 0 (Arrived (json_response JNull 500)); Click 3].

Lemma page_payments_witness :
  pending (final sample_page (visit ++ [Click 6])) = [inl (CreatePayment vip [])] ∧
  ∃ plan period, plan ∈ plans (config (st (final sample_page visit)).1) ∧
    period ∈ periods plan ∧ vip = id period.
Proof.
  assert (reached sample_page (final sample_page visit)) as Hr
    by (apply final_reached; vm_compute; reflexivity).
  assert (step sample_page (final sample_page visit) (Click 6)
          = Some (final sample_page (visit ++ [Click 6]))) as Hst.
  { apply final_step. vm_compute. reflexivity. }
  assert (pending (final sample_page (visit ++ [Click 6])) = [inl (CreatePayment vip [])]) as Hp
    by (vm_compute; reflexivity).
  assert (pending (final sample_page visit) = []) as Hs by (vm_compute; reflexivity).
  revert Hr Hst Hp Hs. generalize (final sample_page (visit ++ [Click 6])) (final sample_page visit).
  intros s' s Hr Hst Hp Hs. split; [exact Hp|].
  refine (proj2 (proj2 (page_payments sample_now None [] s (Click 6) s' vip [] Hr Hst _ _))).
  - rewrite Hp. apply elem_of_cons. left. reflexivity.
  - rewrite Hs. apply not_elem_of_nil.
Defined.
End DashboardPage.
