(* ===== verification/VipSection.v ===== *)
(** * The VIP page: [web/components/VipSection.tsx]

    Ad blocking and routing rules of a VIP subscription, and the export of
    the rules to the Happ client.  The handlers that change rules rebuild the
    list from the one their closure captured, so an operation in flight
    carries that list. *)
From S2P Require Export Encoding RoutingProfiles Component SiteConfig ApiRoutes.

Module VipSection.

Inductive Tab := tab_custom | tab_system.

#[export] Instance Tab_eq_dec : EqDecision Tab.
Proof. solve_decision. Defined.

Record State := {
  profiles : list RoutingProfile;
  adBlockEnabled : bool;
  loading : bool;
  error : jstr;
  activeTab : Tab;
  isEditing : option Z;
  editName : jstr;
  editDomains : jstr;
  editAction : RoutingAction;
  (** a value of an undeclared type reached the page *)
  crashed : bool;
}.

#[export] Instance State_eta : Eta State := λ s,
  {| profiles := profiles s; adBlockEnabled := adBlockEnabled s; loading := loading s;
     error := error s; activeTab := activeTab s; isEditing := isEditing s; editName := editName s;
     editDomains := editDomains s; editAction := editAction s; crashed := crashed s |}.

#[export] Instance RoutingProfile_eta : Eta RoutingProfile := λ p,
  {| rp_id := rp_id p; name := name p; rp_code := rp_code p; kind := kind p; action := action p;
     enabled := enabled p; rp_description := rp_description p; domains := domains p;
     domain_suffixes := domain_suffixes p; cidrs := cidrs p; already_added := already_added p |}.

(** ** Reading profiles at their declared type *)

Definition opt_strings (v : jval) : option (option (list jstr)) :=
  if nullish v then Some None else Some <$> (as_arr v ≫= mapM as_str).

Definition decode_profile (v : jval) : option RoutingProfile :=
  i ← as_num (get v §"id");
  n ← as_str (get v §"name");
  c ← as_str (get v §"code");
  k ← as_str (get v §"kind");
  kd ← (if str_eqb k §"system" then Some system else if str_eqb k §"custom" then Some custom else None);
  a ← as_str (get v §"action");
  ac ← (if str_eqb a §"proxy" then Some proxy else if str_eqb a §"direct" then Some direct else None);
  ds ← opt_strings (get v §"domains");
  ss ← opt_strings (get v §"domain_suffixes");
  cs ← opt_strings (get v §"cidrs");
  Some {| rp_id := i; name := n; rp_code := c; kind := kd; action := ac;
          enabled := truthy (get v §"enabled");
          rp_description := default [] (as_str (get v §"description"));
          domains := ds; domain_suffixes := ss; cidrs := cs;
          already_added := Some (truthy (get v §"already_added")) |}.

Definition decode_profiles (v : jval) : option (list RoutingProfile) :=
  as_arr v ≫= mapM decode_profile.

(** ** Operations in flight *)

Record Rule := { rule_name : jstr; rule_action : RoutingAction; rule_domains : list jstr }.

Inductive Operation :=
| FetchProfiles
| AdBlock (target : bool)
| Toggle (profile : RoutingProfile) (captured : list RoutingProfile)
| Delete (id : Z) (captured : list RoutingProfile)
| Save (editing : option Z) (rule : Rule)
| CopySession (code : jstr)
| CopyPost (code : jstr) (token : jval).

Definition json_headers : list header := [(§"Content-Type", §"application/json")].

Definition rule_json (r : Rule) : jval :=
  JObj [(§"name", JStr (rule_name r)); (§"action", JStr (action_str (rule_action r)));
        (§"domains", JArr (JStr <$> rule_domains r))].

Definition profile_url (id : Z) : jstr := §"/api/routing-profiles/" ++ num_str id.

(** [Save None] sends nothing: [saveProfile] outside of an edit only reloads. *)
Definition operation_request (op : Operation) : Request :=
  match op with
  | FetchProfiles =>
      {| method := §"GET"; url := §"/api/routing-profiles"; headers := []; body := None |}
  | AdBlock target =>
      {| method := §"PATCH"; url := §"/api/subscription/ad-block"; headers := json_headers;
         body := Some (stringify (JObj [(§"enabled", JBool target)])) |}
  | Toggle p _ =>
      {| method := §"PUT"; url := profile_url (rp_id p); headers := json_headers;
         body := Some (stringify (JObj [(§"enabled", JBool (negb (enabled p)))])) |}
  | Delete i _ => {| method := §"DELETE"; url := profile_url i; headers := []; body := None |}
  | Save editing r =>
      match editing with
      | Some i =>
          if i =? -1 then
            {| method := §"POST"; url := §"/api/routing-profiles"; headers := json_headers;
               body := Some (stringify (rule_json r)) |}
          else
            {| method := §"PUT"; url := profile_url i; headers := json_headers;
               body := Some (stringify (rule_json r)) |}
      | None => {| method := []; url := []; headers := []; body := None |}
      end
  | CopySession _ => {| method := §"GET"; url := §"/api/session"; headers := []; body := None |}
  | CopyPost code token =>
      {| method := §"POST"; url := §"/api/v1/me/routing-profiles/system/" ++ code ++ §"/copy";
         headers := [(§"Authorization", §"Bearer " ++ to_text token)]; body := None |}
  end.

(** ** Handlers *)

Inductive Event :=
| ToggleAdBlock
| ToggleProfile (p : RoutingProfile)
| DeleteProfile (id : Z) (confirmed : bool)
| SaveProfile
| CopySystem (code : jstr)
| StartCreate
| StartEdit (p : RoutingProfile)
| CancelEdit
| ExportToHapp
| SetTab (t : Tab)
| TypeName (v : jstr)
| TypeDomains (v : jstr)
| ChooseAction (a : RoutingAction).

(** [split(/[\s,]+/).filter(Boolean)] *)
Definition domain_separator (c : Z) : bool := is_space c || (c =? 44).
Definition domainsArray (s : jstr) : list jstr :=
  filter (λ d, str_truthy d = true) (split_class domain_separator s).

Definition allDomains (p : RoutingProfile) : list jstr :=
  default [] (domains p) ++ default [] (domain_suffixes p) ++ default [] (cidrs p).

Definition begin (s : State) : State := s <| error := [] |> <| loading := true |>.

Definition startCreate (s : State) : State :=
  s <| isEditing := Some (-1) |> <| editName := [] |> <| editDomains := [] |>
    <| editAction := proxy |>.

Definition startEdit (p : RoutingProfile) (s : State) : State :=
  s <| isEditing := Some (rp_id p) |> <| editName := name p |>
    <| editDomains := join [10] (allDomains p) |> <| editAction := action p |>.

Definition customProfiles (s : State) : list RoutingProfile :=
  filter (λ p, kind p = custom) (profiles s).
Definition systemProfiles (s : State) : list RoutingProfile :=
  filter (λ p, kind p = system) (profiles s).

Definition happ_rule (p : RoutingProfile) : jval :=
  JObj [(§"type", JStr §"field"); (§"domain", JArr (JStr <$> allDomains p));
        (§"outboundTag", JStr (action_str (action p)))].

Definition happProfile (rules : list RoutingProfile) : jval :=
  JObj [(§"name", JStr §"FBLink Routing"); (§"rules", JArr (happ_rule <$> rules))].

(** [btoa(unescape(encodeURIComponent(JSON.stringify(happProfile))))] *)
Definition deepLink (rules : list RoutingProfile) : res jstr :=
  match encodeURIComponent (stringify (happProfile rules)) with
  | Throw e => Throw e
  | Ok encoded =>
      match btoa (unescape encoded) with
      | Throw e => Throw e
      | Ok b => Ok (§"happ://routing/onadd/" ++ b)
      end
  end.

Definition exportToHapp (s : State) : Outcome State Operation :=
  match customProfiles s with
  | [] => Build_Outcome s [] [Alert §"Добавьте хотя бы одно правило для экспорта"]
  | rules =>
      match deepLink rules with
      | Ok link => Build_Outcome s [] [Assign link]
      | Throw _ => settled (s <| error := §"Ошибка формирования ссылки" |>)
      end
  end.

(** [saveProfile] with nothing being edited goes straight to its end. *)
Definition afterSave (s : State) : Outcome State Operation :=
  Build_Outcome (s <| isEditing := None |> <| activeTab := tab_custom |> <| loading := false |>)
    [FetchProfiles] [].

Definition saveProfile (s : State) : Outcome State Operation :=
  let rule := {| rule_name := editName s; rule_action := editAction s;
                 rule_domains := domainsArray (editDomains s) |} in
  match isEditing s with
  | Some i => Build_Outcome (begin s) [Save (Some i) rule] []
  | None => afterSave (begin s)
  end.

Definition handle (e : Event) (s : State) : Outcome State Operation :=
  match e with
  | ToggleAdBlock => Build_Outcome (begin s) [AdBlock (negb (adBlockEnabled s))] []
  | ToggleProfile p => Build_Outcome (begin s) [Toggle p (profiles s)] []
  | DeleteProfile i confirmed =>
      if confirmed then Build_Outcome (begin s) [Delete i (profiles s)] [] else settled s
  | SaveProfile => saveProfile s
  | CopySystem code => Build_Outcome (begin s) [CopySession code] []
  | StartCreate => settled (startCreate s)
  | StartEdit p => settled (startEdit p s)
  | CancelEdit => settled (s <| isEditing := None |>)
  | ExportToHapp => exportToHapp s
  | SetTab t => settled (s <| activeTab := t |>)
  | TypeName v => settled (s <| editName := v |>)
  | TypeDomains v => settled (s <| editDomains := v |>)
  | ChooseAction a => settled (s <| editAction := a |>)
  end.

(** ** Replies *)

Definition fails (msg : jstr) (s : State) : Outcome State Operation :=
  settled (s <| error := msg |> <| loading := false |>).

(** [if (!res.ok) throw new Error(msg)], then the rest. *)
Definition checked (reply : Reply) (msg : jstr) (s : State)
    (k : Response → Outcome State Operation) : Outcome State Operation :=
  match reply with
  | NetworkError m => fails m s
  | Arrived res => if ok res then k res else fails msg s
  end.

Definition afterFetch (reply : Reply) (s : State) : Outcome State Operation :=
  match reply with
  | Arrived res =>
      match resp_body res with
      | JsonBody data =>
          if truthy (get data §"profiles") then
            match decode_profiles (get data §"profiles") with
            | Some ps => settled (s <| profiles := ps |>)
            | None => settled (s <| crashed := true |>)
            end
          else settled s
      | RawBody _ => settled s
      end
  | NetworkError _ => settled s
  end.

Definition resumes (op : Operation) (reply : Reply) (s : State) : Outcome State Operation :=
  match op with
  | FetchProfiles => afterFetch reply s
  | AdBlock target =>
      checked reply §"Ошибка изменения AdBlock" s (λ _,
        settled (s <| adBlockEnabled := target |> <| loading := false |>))
  | Toggle profile captured =>
      checked reply §"Ошибка изменения профиля" s (λ _,
        settled (s <| profiles := (λ p, if rp_id p =? rp_id profile
                                        then p <| enabled := negb (enabled p) |> else p) <$> captured |>
                   <| loading := false |>))
  | Delete i captured =>
      checked reply §"Ошибка удаления" s (λ _,
        settled (s <| profiles := filter (λ p, rp_id p ≠ i) captured |> <| loading := false |>))
  | Save editing _ =>
      checked reply (if bool_decide (editing = Some (-1)) then §"Ошибка создания правила"
                     else §"Ошибка обновления правила") s (λ _, afterSave s)
  | CopySession code =>
      checked reply §"Session error" s (λ res,
        match resp_body res with
        | JsonBody data =>
            if nullish data then fails §"Cannot destructure property 'token'" s
            else Build_Outcome s [CopyPost code (get data §"token")] []
        | RawBody _ => fails §"Unexpected token in JSON" s
        end)
  | CopyPost _ _ =>
      checked reply §"Ошибка добавления системного пресета" s (λ _,
        Build_Outcome (s <| activeTab := tab_custom |> <| loading := false |>) [FetchProfiles] [])
  end.

(** ** The rendered page *)

Section Render.
(** [session.subscription.plan] and [vip_ad_block_enabled] *)
Context (plan : jstr) (adBlock : bool).

Definition isVip : bool := str_eqb plan §"vip" || str_eqb plan §"vip_3m".

Definition initial : State :=
  {| profiles := []; adBlockEnabled := adBlock; loading := false; error := [];
     activeTab := tab_custom; isEditing := None; editName := []; editDomains := [];
     editAction := proxy; crashed := false |}.

Definition paywall : node Event :=
  El §"div" []
    [El §"h2" [] [Txt §"Доступно только для VIP"];
     El §"p" [] [Txt §"Умная маршрутизация и встроенный AdBlock (Pi-Hole) доступны только в тарифе VIP."];
     El §"a" [Prop_ §"href" §"/dashboard#subscription"] [Txt §"Обновить до VIP"]].

Definition adblock_panel (s : State) : node Event :=
  El §"div" []
    [El §"span" [] [Txt §"Фильтрация рекламы"];
     El §"h2" [] [Txt §"AdBlock (DNS)"];
     El §"p" [] [Txt §"Блокировка рекламы, трекеров и фишинга на уровне серверов."];
     El §"strong" [] [Txt §"AdBlock включен"];
     El §"input" [Flag §"disabled" (loading s); Prop_ §"type" §"checkbox";
                  Flag §"checked" (adBlockEnabled s); On §"change" ToggleAdBlock] []].

Definition export_panel (s : State) : node Event :=
  El §"div" []
    [El §"h3" [] [Txt §"Применить конфигурацию"];
     El §"p" [] [Txt (§"У вас " ++ num_str (Z.of_nat (length (customProfiles s)))
                      ++ §" правил(а). Отправьте их в приложение Happ.")];
     El §"button" [Flag §"disabled" (length (customProfiles s) =? 0)%nat; On §"click" ExportToHapp]
       [Txt §"Добавить в Happ"]].

Definition editor (s : State) (i : Z) : node Event :=
  El §"div" []
    [El §"h3" [] [Txt (if i =? -1 then §"Новое правило" else §"Редактировать правило")];
     El §"label" [] [Txt §"Название"];
     El §"input" [Prop_ §"value" (editName s); OnText TypeName;
                  Prop_ §"placeholder" §"Например: YouTube или Заблокированные сайты"] [];
     El §"label" [] [Txt §"Действие"];
     El §"select" [Prop_ §"value" (action_str (editAction s));
                   On §"change" (ChooseAction proxy); On §"change" (ChooseAction direct)]
       [El §"option" [Prop_ §"value" §"proxy"] [Txt §"Через VPN (Proxy)"];
        El §"option" [Prop_ §"value" §"direct"] [Txt §"Напрямую (Direct)"]];
     El §"label" [] [Txt §"Домены (через запятую, пробел или с новой строки)"];
     El §"textarea" [Prop_ §"value" (editDomains s); OnText TypeDomains] [];
     El §"button" [Flag §"disabled" (loading s); On §"click" CancelEdit] [Txt §"Отмена"];
     El §"button" [Flag §"disabled" (loading s || negb (str_truthy (editName s)));
                   On §"click" SaveProfile] [Txt §"Сохранить"]].

(** The deletion asks for a confirmation, whose two answers are two events. *)
Definition custom_item (s : State) (p : RoutingProfile) : node Event :=
  El §"div" []
    [El §"strong" [] [Txt (name p)];
     El §"span" [] [Txt (action_str (action p))];
     El §"span" [] [Txt (str_or (rp_description p) §"Пользовательское правило")];
     El §"input" [Flag §"disabled" (loading s); Prop_ §"type" §"checkbox";
                  Flag §"checked" (enabled p); On §"change" (ToggleProfile p)] [];
     El §"button" [Flag §"disabled" (loading s); On §"click" (StartEdit p)] [];
     El §"button" [Flag §"disabled" (loading s);
                   On §"click" (DeleteProfile (rp_id p) true);
                   On §"click" (DeleteProfile (rp_id p) false)] []].

Definition custom_list (s : State) : node Event :=
  El §"div" []
    ([El §"button" [Flag §"disabled" (bool_decide (is_Some (isEditing s))); On §"click" StartCreate]
        [Txt §"Создать свое правило"]]
     ++ match isEditing s with Some i => [editor s i] | None => [] end
     ++ (custom_item s <$> customProfiles s)
     ++ show ((length (customProfiles s) =? 0)%nat && bool_decide (isEditing s = None))
          [El §"div" [] [El §"p" [] [Txt §"У вас пока нет добавленных правил."];
                         El §"button" [On §"click" (SetTab tab_system)]
                           [Txt §"Выбрать готовые пресеты"]]]).

Definition system_item (s : State) (p : RoutingProfile) : node Event :=
  El §"div" []
    [El §"strong" [] [Txt (name p)];
     El §"span" [] [Txt §"Системное"];
     El §"span" [] [Txt (action_str (action p))];
     El §"span" [] [Txt (rp_description p)];
     if default false (already_added p)
     then El §"span" [] [Txt §"Добавлено"]
     else El §"button" [Flag §"disabled" (loading s); On §"click" (CopySystem (rp_code p))]
            [Txt §"Добавить"]].

Definition render (s : State) : list (node Event) :=
  if negb isVip then [paywall] else
  if crashed s then [] else
  [El §"div" []
     ([El §"h1" [] [Txt §"VIP Настройки"];
       El §"p" [] [Txt §"Управляйте фильтрацией трафика и правилами маршрутизации."]]
      ++ show (str_truthy (error s)) [El §"div" [] [Txt (error s)]]
      ++ [adblock_panel s;
          El §"div" []
            ([El §"span" [] [Txt §"Умная маршрутизация"];
              El §"h2" [] [Txt §"Правила трафика"];
              El §"p" [] [Txt §"Соберите свой список маршрутов и добавьте их в приложение Happ одним нажатием."];
              El §"button" [On §"click" (SetTab tab_custom)] [Txt §"Мои маршруты"];
              El §"button" [On §"click" (SetTab tab_system)] [Txt §"Готовые пресеты"]]
             ++ show (bool_decide (activeTab s = tab_custom)) [export_panel s; custom_list s]
             ++ show (bool_decide (activeTab s = tab_system))
                  [El §"div" [] (system_item s <$> systemProfiles s)])])].

Definition component : Component := {|
  St := State; Ev := Event; Op := Operation;
  mount := Build_Outcome initial (if isVip then [FetchProfiles] else []) [];
  view := render;
  on := handle;
  request := operation_request;
  resume := resumes;
|}.

(** ** Properties *)

(** Changes of rules and of the ad blocking, as opposed to reloading. *)
Definition is_change (op : Operation) : bool :=
  match op with FetchProfiles => false | _ => true end.

Definition starts_change (e : Event) : bool :=
  match e with
  | ToggleAdBlock | ToggleProfile _ | DeleteProfile _ _ | SaveProfile | CopySystem _ => true
  | _ => false
  end.

Lemma change_offered e s : offered component e s → starts_change e = true → loading s = false.
Proof.
  apply (offered_every component (λ e, starts_change e = true → _)). cbn [view component].
  unfold render, paywall, adblock_panel, export_panel, custom_list, editor, custom_item, system_item.
  events; try done; intros _.
  all: match goal with H : is_disabled _ = false |- _ => apply enabled_flag in H end; try done.
  by match goal with H : _ || _ = false |- _ => apply orb_false_iff in H as [H _] end.
Qed.

Lemma checked_done reply msg s k :
  (∀ res, filter (λ op, is_change op = true) (started (k res)) = [] ∧ loading (new (k res)) = false) →
  filter (λ op, is_change op = true) (started (checked reply msg s k)) = [] ∧
  loading (new (checked reply msg s k)) = false.
Proof. intros Hk. unfold checked. destruct reply as [res|]; [destruct (ok res)|]; [apply Hk|done..]. Qed.

(** at most one change of the rules or of the ad blocking is in flight,
    exactly while the page is marked as loading, whatever else is reloading;
    adding a preset counts as one change over its two requests. *)
Theorem vip_one_change s :
  reached component s → one_flight component is_change loading s.
Proof.
  revert s. apply (one_flight_invariant component is_change loading (λ _, True)); simpl.
  - done.
  - by destruct isVip.
  - intros e s _ Ho Hb. pose proof (change_offered e s Ho) as Hc.
    destruct e; simpl in *; try (specialize (Hc eq_refl); congruence); try done.
    unfold exportToHapp. repeat case_match; done.
  - intros e s _ _ Hb. destruct e; simpl; eauto.
    + destruct confirmed; simpl; eauto.
    + unfold saveProfile. destruct (isEditing s); simpl; eauto.
    + unfold exportToHapp. repeat case_match; auto.
  - intros op r s Hk Hb. destruct op; simpl; try discriminate.
    5: { unfold checked. destruct r as [res|]; [|by left]. destruct (ok res); [|by left].
         destruct (resp_body res) as [v|]; [|by left]. destruct (nullish v); [by left|].
         right. simpl. eauto. }
    all: left; apply checked_done; done.
  - intros op r s Hk. destruct op; try discriminate. simpl. unfold afterFetch.
    repeat case_match; done.
Qed.
End Render.

(** *** The export to Happ *)

Definition profile_units (p : RoutingProfile) : Prop := Forall (Forall is_unit) (allDomains p).

Lemma happ_rule_units p : profile_units p → jval_units (happ_rule p) = true.
Proof.
  intros Hp. unfold happ_rule.
  cut (jval_units (JArr (JStr <$> allDomains p)) = true ∧
       jval_units (JStr (action_str (action p))) = true).
  { intros [H1 H2]. cbn [jval_units forallb fst snd] in *. rewrite H1, H2. vm_compute. reflexivity. }
  split; [|destruct (action p); vm_compute; reflexivity].
  unfold profile_units in Hp. cbn [jval_units]. induction Hp as [|d l Hd Hl IH]; [done|].
  csimpl. cbn [jval_units]. by rewrite (proj2 (unitsb_spec d) Hd).
Qed.

Lemma happProfile_units rules :
  Forall profile_units rules → jval_units (happProfile rules) = true.
Proof.
  intros Hr. unfold happProfile. cut (forallb jval_units (happ_rule <$> rules) = true).
  { intros H. cbn [jval_units forallb fst snd] in *. rewrite H. vm_compute. reflexivity. }
  induction Hr as [|p l Hp Hl IH]; [done|]. rewrite fmap_cons. cbn [forallb]. by rewrite happ_rule_units.
Qed.

(** C34: exporting never fails, and the link is decodable: base64, then
    UTF-8, gives back the JSON text of the rules. *)
Theorem deepLink_decodes rules :
  Forall profile_units rules →
  ∃ b, deepLink rules = Ok (§"happ://routing/onadd/" ++ b) ∧
       utf8_decode (unbase64 b) = stringify (happProfile rules).
Proof.
  intros Hr. destruct (stringify_text _ (happProfile_units rules Hr)) as [[bs Hbs] Hu].
  destruct (utf8_roundtrip _ _ Hu Hbs) as [Hd Hb]. exists (base64 bs).
  unfold deepLink, encodeURIComponent. rewrite Hbs. unfold unescape, btoa.
  rewrite unescape_percent_go by done.
  assert (forallb (λ c, (0 <=? c) && (c <? 256)) bs = true) as ->.
  { apply forallb_forall. intros c Hc%list_elem_of_In. rewrite Forall_forall in Hb.
    specialize (Hb c Hc). unfold is_byte in Hb. lia. }
  split; [done|]. by rewrite unbase64_base64.
Qed.

(** What an export does, as a function of the rules. *)
Definition export_outs (rules : list RoutingProfile) : list Out :=
  if bool_decide (rules = []) then [Alert §"Добавьте хотя бы одно правило для экспорта"]
  else match deepLink rules with Ok link => [Assign link] | Throw _ => [] end.

Lemma export_outs_eq s : outs (exportToHapp s) = export_outs (customProfiles s).
Proof.
  unfold exportToHapp, export_outs. destruct (customProfiles s) as [|p l]; [reflexivity|].
  rewrite bool_decide_false by done. by destruct (deepLink (p :: l)).
Qed.

Lemma export_outs_disabled rules :
  export_outs ((λ p, p <| enabled := false |>) <$> rules) = export_outs rules.
Proof.
  unfold export_outs, deepLink, happProfile.
  assert (happ_rule <$> ((λ p, p <| enabled := false |>) <$> rules) = happ_rule <$> rules) as ->.
  { rewrite <-list_fmap_compose. by apply list_fmap_ext. }
  rewrite (bool_decide_ext ((λ p, p <| enabled := false |>) <$> rules = []) (rules = [])); [done|].
  by destruct rules.
Qed.

(** the export takes every custom rule, switched on or off: the link is
    the same when all rules are disabled, unlike the profile built by
    [buildHappRoutingProfile], which then has none of them. *)
Theorem export_ignores_enabled s :
  let off := (λ p, p <| enabled := false |>) <$> profiles s in
  outs (exportToHapp (s <| profiles := off |>)) = outs (exportToHapp s) ∧
  ProxySites (buildHappRoutingProfile off 0) = [].
Proof.
  intros off. split.
  - assert (customProfiles (s <| profiles := off |>) =
            (λ p, p <| enabled := false |>) <$> customProfiles s) as Ec.
    { unfold customProfiles, off. simpl. induction (profiles s) as [|p l IH]; [done|]. csimpl.
      rewrite !filter_cons. cbn [kind]. destruct (decide (kind p = custom)); csimpl; by rewrite IH. }
    by rewrite !export_outs_eq, Ec, export_outs_disabled.
  - destruct (build_arrays off 0) as (_ & _ & -> & _).
    assert (exported proxy site_rules off = []) as ->; [|done].
    unfold exported, chosen, off.
    induction (profiles s) as [|p l IH]; [done|]. csimpl.
    rewrite filter_cons, decide_False; [done|]. simpl. naive_solver.
Qed.

(** *** Editing *)

(** opening a rule in the editor and saving it unchanged sends its name
    and action and all its entries, in order, but as domains: suffixes and
    address ranges lose their kind. *)
Theorem edit_save_roundtrip p s :
  Forall (λ d, d ≠ [] ∧ Forall (λ c, domain_separator c = false) d) (allDomains p) →
  started (saveProfile (startEdit p s)) =
    [Save (Some (rp_id p)) {| rule_name := name p; rule_action := action p;
                              rule_domains := default [] (domains p) ++
                                default [] (domain_suffixes p) ++ default [] (cidrs p) |}].
Proof.
  intros Hp. unfold saveProfile, startEdit. cbn [isEditing started].
  assert (domainsArray (join [10] (allDomains p)) = allDomains p) as Hd.
  { rewrite <-(words_join domain_separator 10 (allDomains p)) at 2 by done.
    unfold domainsArray, words. apply list_filter_iff. intros d. apply str_truthy_iff. }
  simpl. rewrite Hd. done.
Qed.

(** *** Adding a preset *)

(** the request that adds a preset is sent with [Bearer undefined]: the
    session endpoint it takes the token from never returns one. *)
Theorem copy_sends_undefined {W} `{!Server W} env (w : W) r w' code s :
  session_GET env w = (Ok r, w') → ok r = true →
  ∃ op, started (resumes (CopySession code) (Arrived r) s) = [op] ∧
        url (operation_request op) = §"/api/v1/me/routing-profiles/system/" ++ code ++ §"/copy" ∧
        headers_get (headers (operation_request op)) §"Authorization" = Some §"Bearer undefined".
Proof.
  intros Hr Hok. destruct (session_body env w r w' Hr Hok)
    as (user & sub & me & sr & w1 & w2 & w3 & -> & _).
  exists (CopyPost code JUndefined). split_and!; [reflexivity|reflexivity|].
  vm_compute. reflexivity.
Qed.

(** ** Concrete pages *)

Definition rule_record (i : Z) (n : jstr) : jval := JObj [
  (§"id", JNum i); (§"name", JStr n); (§"code", JStr []); (§"kind", JStr §"custom");
  (§"action", JStr §"proxy"); (§"enabled", JBool true); (§"description", JStr []);
  (§"domains", JArr [JStr §"example.com"])].

Definition profiles_reply (l : list jval) : Reply :=
  Arrived (json_response (JObj [(§"profiles", JArr l)]) 200).

Definition ok_reply : Reply := Arrived (json_response (JObj []) 200).

Definition vip_page : Component := component §"vip" false.

(** The list loads; the user creates a second rule; while the list reloads
    the user switches the first one off; the reload arrives, then the answer
    to the switch. *)
Definition lost_run : list Label :=
  [Settle 0 (profiles_reply [rule_record 1 §"a"]);
   Click 4; Input 0 §"b"; Click 7; Settle 0 ok_reply;
   Click 5;
   Settle 0 (profiles_reply [rule_record 1 §"a"; rule_record 2 §"b"]);
   Settle 0 ok_reply].

Lemma vip_one_change_witness :
  let s := final vip_page (take 6 lost_run) in
  length (pending s) = 2%nat ∧ one_flight vip_page is_change loading s.
Proof.
  split; [vm_compute; reflexivity|].
  apply vip_one_change, final_reached. vm_compute. reflexivity.
Defined.

(** the page can lose a rule the server has: with nothing in flight and
    the last list received holding rules 1 and 2, the page shows rule 1 only,
    because the switch rebuilt the list it had captured before the reload. *)
Theorem vip_lost_update :
  let s6 := final vip_page (take 7 lost_run) in
  ∃ s, reached vip_page s ∧ pending s = [] ∧
       rp_id <$> profiles (st s6) = [1; 2] ∧ rp_id <$> profiles (st s) = [1].
Proof.
  exists (final vip_page lost_run). split; [apply final_reached; vm_compute; reflexivity|].
  split_and!; vm_compute; reflexivity.
Qed.

Definition sample_profile : RoutingProfile :=
  {| rp_id := 7; name := §"Почта"; rp_code := []; kind := custom; action := direct; enabled := true;
     rp_description := []; domains := Some [§"mail.ru"]; domain_suffixes := Some [§".рф"];
     cidrs := Some [§"10.0.0.0/8"]; already_added := None |}.

Lemma deepLink_decodes_witness :
  ∃ b, deepLink [sample_profile] = Ok (§"happ://routing/onadd/" ++ b) ∧
       utf8_decode (unbase64 b) = stringify (happProfile [sample_profile]).
Proof.
  apply deepLink_decodes. apply Forall_singleton. unfold profile_units.
  change (Forall (Forall is_unit) [§"mail.ru"; §".рф"; §"10.0.0.0/8"]).
  repeat (apply Forall_cons; split; [apply unitsb_spec; vm_compute; reflexivity|]). constructor.
Defined.

Lemma edit_save_roundtrip_witness :
  started (saveProfile (startEdit sample_profile (initial false))) =
    [Save (Some 7) {| rule_name := §"Почта"; rule_action := direct;
                      rule_domains := [§"mail.ru"; §".рф"; §"10.0.0.0/8"] |}].
Proof.
  apply (edit_save_roundtrip sample_profile (initial false)).
  apply Forall_forall. intros d Hd. apply (words_no_sep domain_separator (join [10] (allDomains sample_profile))).
  vm_compute in Hd |- *. exact Hd.
Defined.

Lemma copy_sends_undefined_witness :
  ∃ op, headers_get (headers (operation_request op)) §"Authorization" = Some §"Bearer undefined".
Proof.
  destruct (@copy_sends_undefined ServerWorld sample_server_world sample_env renewed_world
    (json_response (JObj [(§"authenticated", JBool true); (§"user", sample_user);
                          (§"subscription", sample_user)]) 200)
    (@session_GET _ sample_server_world sample_env renewed_world).2 §"ads" (initial false))
    as (op & _ & _ & Hh).
  - vm_compute. reflexivity.
  - reflexivity.
  - exists op. exact Hh.
Defined.
End VipSection.
