(* ===== verification/VipPage.v ===== *)
(** * The VIP page: [web/components/VipPageClient.tsx]

    The page loads the session and the configuration and then renders
    [VipSection].  Both answers are kept untyped, as in the source: reading a
    field of a missing object fails the render, which leaves the page empty.
    The page and its section are one component by [nest]. *)
From S2P Require Export Compose AuthForm VipSection.

Module VipPage.

Record State := {
  session : jval;
  config : jval;
  (** the two answers [Promise.all] waits for *)
  sessionResponse : option Response;
  configResponse : option Response;
}.

#[export] Instance State_eta : Eta State := λ s,
  {| session := session s; config := config s; sessionResponse := sessionResponse s;
     configResponse := configResponse s |}.

Inductive Operation := LoadSession | LoadConfig.
Inductive Event := Back.

Definition operation_request (op : Operation) : Request :=
  match op with
  | LoadSession => {| method := §"GET"; url := §"/api/session"; headers := []; body := None |}
  | LoadConfig => {| method := §"GET"; url := §"/api/site-config"; headers := []; body := None |}
  end.

Definition initial : State :=
  {| session := JNull; config := JNull; sessionResponse := None; configResponse := None |}.

(** The rest of [load] after [Promise.all]; a body that is not JSON ends it. *)
Definition afterLoad (sr cr : Response) (s : State) : Outcome State Operation :=
  if Http.status sr =? 401 then Build_Outcome s [] [Push §"/auth"] else
  let set_config (s : State) : State :=
    if ok cr then
      match resp_body cr with JsonBody v => s <| config := v |> | RawBody _ => s end
    else s in
  if ok sr then
    match resp_body sr with
    | JsonBody v => settled (set_config (s <| session := v |>))
    | RawBody _ => settled s
    end
  else settled (set_config s).

Definition resumes (op : Operation) (reply : Reply) (s : State) : Outcome State Operation :=
  match op, reply with
  | LoadSession, Arrived r =>
      match configResponse s with
      | Some cr => afterLoad r cr (s <| sessionResponse := Some r |>)
      | None => settled (s <| sessionResponse := Some r |>)
      end
  | LoadConfig, Arrived r =>
      match sessionResponse s with
      | Some sr => afterLoad sr r (s <| configResponse := Some r |>)
      | None => settled (s <| configResponse := Some r |>)
      end
  | _, NetworkError _ => settled s
  end.

Definition handle (e : Event) (s : State) : Outcome State Operation :=
  match e with Back => Build_Outcome s [] [Push §"/dashboard"] end.

(** ** The rendered page *)

Definition loaded (s : State) : bool := truthy (session s) && truthy (config s).

(** [config.support] and [session.subscription] are read. *)
Definition renders (s : State) : bool :=
  negb (nullish (get (config s) §"support")) && negb (nullish (get (session s) §"subscription")).

(** An attribute whose value may be [undefined]. *)
Definition attr {E} (k : jstr) (v : jval) : list (prop E) :=
  if nullish v then [] else [Prop_ k (to_text v)].

Definition render (s : State) : list (node Event) :=
  if negb (loaded s) then
    [El §"main" [] [Brand §"/"; El §"p" [] [Txt §"Загружаем VIP панель..."]]]
  else if negb (renders s) then []
  else
    let support := get (config s) §"support" in
    [El §"main" []
       [El §"header" []
          [Brand §"/";
           El §"a" (attr §"href" (get support §"telegram")) [Txt §"Telegram"];
           El §"a" [Prop_ §"href" (§"mailto:" ++ to_text (get support §"email"))] [Txt §"Поддержка"]];
        El §"button" [On §"click" Back] [Txt §"Вернуться в Дашборд"];
        El §"VipSection" [] []]].

Definition client : Component := {|
  St := State; Ev := Event; Op := Operation;
  mount := Build_Outcome initial [LoadSession; LoadConfig] [];
  view := render;
  on := handle;
  request := operation_request;
  resume := resumes;
|}.

(** ** The section in the page *)

(** What [VipSection] reads of the session. *)
Definition plan_of (session : jval) : jstr :=
  match get (get session §"subscription") §"plan" with JStr p => p | _ => [] end.
Definition adBlock_of (session : jval) : bool :=
  truthy (get (get session §"subscription") §"vip_ad_block_enabled").

Definition section : Child State Event := {|
  CSt := VipSection.State; CEv := VipSection.Event; COp := VipSection.Operation; CProps := jval;
  slot := §"VipSection";
  shown s := if loaded s && renders s then Some (session s) else None;
  c_mount p := mount (VipSection.component (plan_of p) (adBlock_of p));
  c_update _ c := settled c;
  c_view p c := view (VipSection.component (plan_of p) (adBlock_of p)) c;
  c_on _ := VipSection.handle;
  c_request := VipSection.operation_request;
  c_resume _ := VipSection.resumes;
  hears _ := None;
|}.

Definition page : Component := nest client section.

Definition vip (session : jval) : bool := VipSection.isVip (plan_of session).

(** ** Steps of the page *)

Lemma hear_section os s : hear client section os s = Build_Outcome s [] os.
Proof. induction os as [|o os IH]; [done|]. cbn [hear hears section]. by rewrite IH. Qed.

Lemma adopt_section s c :
  (new (adopt client section s c)).1 = s ∧
  (started (adopt client section s c) = [] ∨
   vip (session s) = true ∧ started (adopt client section s c) = [inr VipSection.FetchProfiles]) ∧
  (c ≠ None → started (adopt client section s c) = []).
Proof.
  unfold adopt. cbn [shown section]. destruct (loaded s && renders s); [|by split_and!; auto].
  destruct c as [c|]; [by split_and!; auto|]. cbn [c_mount section started new fst].
  split; [done|]. split; [|done]. unfold VipSection.component, vip. cbn [mount started].
  destruct (VipSection.isVip (plan_of (session s))); [by right|by left].
Qed.

(** A step of the page itself starts nothing but the section. *)
Lemma parent_section o c :
  started o = [] →
  (new (parent_step client section o c)).1 = new o ∧
  (started (parent_step client section o c) = [] ∨
   vip (session (new o)) = true ∧
   started (parent_step client section o c) = [inr VipSection.FetchProfiles]).
Proof.
  intros Ho. destruct (adopt_section (new o) c) as (Hn & Hs & _). unfold parent_step.
  cbn [new started]. rewrite Ho. split; [exact Hn|exact Hs].
Qed.

(** The section never changes the page's state. *)
Lemma child_section s (o : Outcome VipSection.State VipSection.Operation) :
  (new (child_step client section s o)).1 = s ∧
  started (child_step client section s o) = inr <$> started o.
Proof.
  destruct (adopt_section s (Some (new o))) as (Hn & _ & Hs).
  pose proof (hear_section (outs o) s) as Eh. split.
  - etrans; [|exact Hn]. exact (f_equal (λ h, (new (parent_step client section h (Some (new o)))).1) Eh).
  - etrans; [exact (f_equal (λ h, (inr <$> started o) ++
      started (parent_step client section h (Some (new o)))) Eh)|].
    etrans; [exact (f_equal (app _) (Hs ltac:(done)))|apply app_nil_r].
Qed.

(** Events of the section are offered to VIP users only. *)
Lemma section_offered (x : State * option VipSection.State) e :
  offered page e x →
  match e with inl _ => True | inr _ => vip (session x.1) = true end.
Proof.
  apply (nest_offered client section
    (λ e, match e with inl _ => True | inr _ => vip (session x.1) = true end)).
  - cbn [view client]. unfold render, attr, Brand. outsides; done.
  - intros p c Hp Hc. cbn [c_view section]. cbn [shown section] in Hp.
    assert (p = session x.1) as -> by (by destruct (loaded _ && renders _); simplify_eq).
    unfold vip. cbn [view VipSection.component]. unfold VipSection.render.
    destruct (VipSection.isVip (plan_of (session x.1))) eqn:Ev; cbn [negb].
    + eapply every_impl; [|apply every_True]. done.
    + unfold VipSection.paywall. by events.
Qed.

(** ** Loading, and who is shown the section *)

Definition POp : Type := Operation + VipSection.Operation.

(** The loads among operations, and whether there is another operation. *)
Definition loads (ops : list POp) : list Operation :=
  omap (λ op, match op with inl o => Some o | inr _ => None end) ops.
Definition only_loads (ops : list POp) : Prop :=
  Forall (λ op, match op with inl _ => True | inr _ => False end) ops.

Lemma loads_delete (ops : list POp) i op :
  ops !! i = Some op →
  match op with
  | inl o => ∃ a b, loads ops = a ++ o :: b ∧ loads (delete i ops) = a ++ b
  | inr _ => loads (delete i ops) = loads ops
  end.
Proof.
  intros Hi. apply list_elem_of_split_length in Hi as (a & b & -> & ->).
  rewrite delete_middle. unfold loads. destruct op as [o|o]; rewrite !omap_app; simpl; [|done].
  by eexists _, _.
Qed.

(** The answers that are still awaited. *)
Definition waiting (s : State) (ops : list Operation) : Prop :=
  ops = [LoadSession; LoadConfig] ∧ sessionResponse s = None ∧ configResponse s = None ∨
  ops = [LoadConfig] ∧ configResponse s = None ∨
  ops = [LoadSession] ∧ sessionResponse s = None.

Definition basic_requests : list Request := [operation_request LoadSession; operation_request LoadConfig].

(** Nothing was sent but the two loads. *)
Definition quiet (ops : list POp) (rs : list Request) : Prop :=
  only_loads ops ∧ Forall (λ r, r ∈ basic_requests) rs.

(** While an answer is awaited there is no session; afterwards the section
    has started nothing unless the session is a VIP one. *)
Definition gated (s : State) (ops : list POp) (rs : list Request) : Prop :=
  session s = JNull ∧ waiting s (loads ops) ∧ quiet ops rs ∨
  loads ops = [] ∧ (vip (session s) = true ∨ quiet ops rs).

Lemma null_not_vip s : session s = JNull → vip (session s) = true → False.
Proof. by intros ->. Qed.

Lemma resumes_started op r s : started (resumes op r s) = [].
Proof.
  unfold resumes, afterLoad. destruct op, r; try done; case_match; try done.
  all: repeat (case_match; simpl); done.
Qed.

(** A reply that does not complete the load leaves no session. *)
Lemma resumes_waiting op r s a b :
  session s = JNull → waiting s (a ++ op :: b) →
  a ++ b = [] ∨ session (new (resumes op r s)) = JNull ∧ waiting (new (resumes op r s)) (a ++ b).
Proof.
  intros Hn [(E & Hs & Hc)|[[E Hc]|[E Hs]]].
  - right. unfold resumes. rewrite Hs, Hc.
    destruct a as [|a0 [|a1 a]]; simplify_eq/=; [| |by destruct a].
    + destruct r; simpl; (split; [done|]); right; left; done.
    + destruct r; simpl; (split; [done|]); right; right; done.
  - left. by destruct a as [|? []]; simplify_eq/=.
  - left. by destruct a as [|? []]; simplify_eq/=.
Qed.

Lemma loads_app a b : loads (a ++ b) = loads a ++ loads b.
Proof. apply omap_app. Qed.

Lemma loads_child (ops : list VipSection.Operation) : loads (inr <$> ops) = [].
Proof. by induction ops. Qed.

(** The section may start a load of the rules for a VIP session. *)
Definition starts (s : State) (ops : list POp) : Prop :=
  ops = [] ∨ vip (session s) = true ∧ ops = [inr VipSection.FetchProfiles].

Lemma gated_child s ops rs new rs' :
  gated s ops rs → vip (session s) = true → gated s (ops ++ (inr <$> new)) (rs ++ rs').
Proof.
  intros [(Hn & _)|[Hl _]] Hv; [destruct (null_not_vip s Hn Hv)|]. right.
  rewrite loads_app, Hl, loads_child. auto.
Qed.

Lemma gated_starts s ops rs new :
  gated s ops rs → starts s new → gated s (ops ++ new) (rs ++ (request page <$> new)).
Proof.
  intros Hg [->|[Hv ->]]; [by rewrite !app_nil_r|].
  by apply (gated_child s ops rs [VipSection.FetchProfiles]).
Qed.

Lemma gated_vip s ops rs op : gated s ops rs → inr op ∈ ops → vip (session s) = true.
Proof.
  intros Hg Hin. assert (¬ only_loads ops) as Hno.
  { unfold only_loads. rewrite Forall_forall. intros Ha. exact (Ha _ Hin). }
  destruct Hg as [(_ & _ & [Hq _])|[_ [Hv|[Hq _]]]]; done.
Qed.

Lemma gated_delete s ops rs i op :
  gated s ops rs → ops !! i = Some (inr op) → gated s (delete i ops) rs.
Proof.
  intros Hg Hi. pose proof (gated_vip s ops rs op Hg (list_elem_of_lookup_2 _ _ _ Hi)) as Hv.
  destruct Hg as [(Hn & _)|[Hl _]]; [destruct (null_not_vip s Hn Hv)|]. right.
  apply loads_delete in Hi. rewrite Hi. auto.
Qed.

Lemma gated_load s ops rs i op r :
  gated s ops rs → ops !! i = Some (inl op) → gated (new (resumes op r s)) (delete i ops) rs.
Proof.
  intros Hg Hi. pose proof (loads_delete _ _ _ Hi) as (a & b & Ha & Hb).
  destruct Hg as [(Hn & Hw & [Ho Hr])|[Hl _]]; [|by rewrite Hl in Ha; destruct a].
  assert (quiet (delete i ops) rs) as Hq by (split; [by apply Forall_delete|done]).
  rewrite Ha in Hw. destruct (resumes_waiting op r s a b Hn Hw) as [E|[Hn' Hw']].
  - right. rewrite Hb, E. auto.
  - left. by rewrite Hb.
Qed.

(** The state after a step is gated. *)
Definition step_ok (rest : list POp) (rs : list Request)
    (o : Outcome (State * option VipSection.State) POp) : Prop :=
  gated (new o).1 (rest ++ started o) (rs ++ (request page <$> started o)).

Lemma step_ok_settled x rest rs : gated x.1 rest rs → step_ok rest rs (settled x).
Proof. intros Hg. unfold step_ok. cbn [settled new started]. by rewrite !app_nil_r. Qed.

Lemma step_ok_parent o c rest rs :
  started o = [] → gated (new o) rest rs → step_ok rest rs (parent_step client section o c).
Proof.
  intros Ho Hg. destruct (parent_section o c Ho) as [Hn Hs].
  exact (eq_ind_r (λ x, gated x _ _) (gated_starts _ _ _ _ Hg Hs) Hn).
Qed.

Lemma step_ok_child s o rest rs :
  vip (session s) = true → gated s rest rs → step_ok rest rs (child_step client section s o).
Proof.
  intros Hv Hg. destruct (child_section s o) as [Hn Hs].
  refine (eq_ind_r (λ x, gated x _ _) _ Hn).
  refine (eq_ind_r (λ l, gated s (rest ++ l) (rs ++ (request page <$> l))) _ Hs).
  by apply gated_child.
Qed.

Lemma page_gated s : reached page s → gated (st s).1 (pending s) (requests s).
Proof.
  revert s. apply (component_invariant page (λ s, gated (st s).1 (pending s) (requests s))).
  - left. split; [done|]. split; [by left|]. split; [repeat constructor|].
    apply Forall_forall. intros r Hr. exact Hr.
  - intros s e _ IH Ho%section_offered. destruct e as [[]|e].
    + exact (step_ok_parent (handle Back (st s).1) (st s).2 _ _ eq_refl IH).
    + destruct (nest_on_child client section e (st s)) as [(p & c & _ & _ & E)|E].
      * exact (eq_ind_r (step_ok _ _) (step_ok_child _ _ _ _ Ho IH) E).
      * exact (eq_ind_r (step_ok _ _) (step_ok_settled _ _ _ IH) E).
  - intros s i op r _ IH Hi. destruct op as [op|op].
    + exact (step_ok_parent (resumes op r (st s).1) (st s).2 _ _ (resumes_started op r (st s).1)
        (gated_load _ _ _ _ _ r IH Hi)).
    + pose proof (gated_vip _ _ _ op IH (list_elem_of_lookup_2 _ _ _ Hi)) as Hv.
      pose proof (gated_delete _ _ _ _ _ IH Hi) as Hg.
      destruct (nest_resume_child client section op r (st s)) as [(p & c & _ & _ & E)|E].
      * exact (eq_ind_r (step_ok _ _) (step_ok_child _ _ _ _ Hv Hg) E).
      * exact (eq_ind_r (step_ok _ _) (step_ok_settled _ _ _ Hg) E).
Qed.

(** C33: the VIP page sends no request about rules or ad blocking for other
    users: in every run, a request beyond the two that load the page is only
    sent when the session that was loaded has a VIP plan. *)
Theorem vip_page_gated s r :
  reached page s → r ∈ requests s →
  r ∈ basic_requests ∨ vip (session (st s).1) = true.
Proof.
  intros Hr Hin. destruct (page_gated s Hr) as [(_ & _ & _ & Hq)|[_ [Hv|[_ Hq]]]]; [left|by right|left].
  all: rewrite Forall_forall in Hq; by apply Hq.
Qed.

(** ** Concrete visits *)

Definition session_json (plan : jstr) : jval := JObj [
  (§"authenticated", JBool true);
  (§"subscription", JObj [(§"plan", JStr plan)])].

Definition config_json : jval := JObj [
  (§"support", JObj [(§"telegram", JStr §"https://t.me/x"); (§"email", JStr §"s@example.com")])].

Definition answers (plan : jstr) (config : Response) : list Label :=
  [Settle 0 (Arrived (json_response (session_json plan) 200)); Settle 0 (Arrived config)].

Lemma vip_page_gated_witness :
  let s := final page (answers §"vip" (json_response config_json 200)) in
  VipSection.operation_request VipSection.FetchProfiles ∈ requests s ∧
  vip (session (st s).1) = true.
Proof.
  assert (requests (final page (answers §"vip" (json_response config_json 200)))
    = basic_requests ++ [VipSection.operation_request VipSection.FetchProfiles]) as E
    by (vm_compute; reflexivity).
  assert (VipSection.operation_request VipSection.FetchProfiles
    ∈ requests (final page (answers §"vip" (json_response config_json 200)))) as Hin
    by (rewrite E; apply elem_of_app; right; apply elem_of_cons; by left).
  split; [exact Hin|].
  destruct (vip_page_gated (final page (answers §"vip" (json_response config_json 200)))
    (VipSection.operation_request VipSection.FetchProfiles)) as [Hb|Hv].
  - apply final_reached. vm_compute. reflexivity.
  - exact Hin.
  - exfalso. unfold basic_requests in Hb. rewrite !elem_of_cons, elem_of_nil in Hb.
    destruct Hb as [Hb|[Hb|[]]]; apply (f_equal url) in Hb; vm_compute in Hb; discriminate Hb.
  - exact Hv.
Defined.

(** When the configuration cannot be loaded the page of a VIP user keeps
    saying that it is loading: nothing is in flight and nothing can be
    clicked.  The dashboard falls back to the built-in configuration. *)
Theorem vip_page_stuck :
  let s := final page (answers §"vip" (json_response JNull 500)) in
  feasible page (answers §"vip" (json_response JNull 500)) = true ∧
  pending s = [] ∧ vip (session (st s).1) = true ∧
  all_clicks (view page (st s)) = [] ∧
  last (all_texts (view page (st s))) = Some §"Загружаем VIP панель...".
Proof. split_and!; vm_compute; reflexivity. Qed.
End VipPage.
