(* ===== verification/FullStack.v ===== *)
(** * The pages of the site in the full stack

    The components of the site against its own server: every request a page
    sends has a handler behind the gateway (with one exception), and a
    payment is created at most once per order, with the body the page wrote,
    whatever is clicked, processed, delayed or lost. *)
From S2P Require Export Stack AuthForm DashboardPage VipPage AdminPanel.
Import Site.

(** ** Any component in the stack *)

Section AnyPage.
Context (C : Component) {W : Type} `{!Server W, !ServerLaws W} (env : Env) (w0 : W).

(** The request [b] to the backend goes back to one of the component. *)
Definition wanted (s : Stack C (W:=W)) (b : Request) : Prop :=
  ∃ q, q ∈ requests (client C s) ∧ caused env q b.

(** The cookies hold a whole session or none. *)
Definition session_kept (s : Stack C (W:=W)) : Prop := whole (world C s).


Context `{!Writable W, !TokenBackend W env}.

(** C3: the session is never half stored.  Starting from both cookies or
    none, in every run of any component of the site against its routes (calls
    that fail, refused refreshes, sign-ins, sign-outs and lost answers
    included) either both cookies hold a non-empty token or neither cookie
    exists. *)
Theorem stack_session s : running C env w0 s → whole w0 → session_kept s.
Proof. intros Hr Hw. exact (running_whole C env w0 s Hr Hw). Qed.
End AnyPage.

(** ** Requests and handlers *)

(** A request that the gateway sends to the web server and for which there is
    a function. *)
Definition lands (q : Request) : Prop := gateway (url q) = Frontend ∧ routed q = true.

(** Digits and the minus sign are neither separators nor query marks. *)
Lemma num_str_plain n : Forall (λ c, c ≠ 63 ∧ c ≠ 47) (num_str n).
Proof.
  eapply Forall_impl; [apply num_str_units|]. unfold decimal. intros c Hc. lia.
Qed.

Lemma num_str_ne n : num_str n ≠ [].
Proof. by destruct (num_str_head n) as (c & s & -> & _). Qed.

(** The addresses of the pages' requests: literals, and literals followed by
    the number of a rule, a server or a notification. *)
Lemma lands_literal q :
  bool_decide (gateway (url q) = Frontend) && routed q = true → lands q.
Proof. intros [Hg%bool_decide_eq_true Hr]%andb_true_iff. by split. Qed.

Lemma lands_profile q id :
  url q = VipSection.profile_url id → method q = §"PUT" ∨ method q = §"DELETE" → lands q.
Proof.
  intros Hu Hm. split; [rewrite Hu; by vm_compute|]. unfold routed. rewrite Hu.
  assert (segments (VipSection.profile_url id) = [§"api"; §"routing-profiles"; num_str id]) as ->.
  { unfold VipSection.profile_url.
    change (§"/api/routing-profiles/" ++ num_str id) with (§"/api/routing-profiles" ++ 47 :: num_str id).
    rewrite segments_dir by (vm_compute; reflexivity).
    rewrite segments_plain by (apply num_str_ne || apply num_str_plain). reflexivity. }
  assert (resolve [§"api"; §"routing-profiles"; num_str id] = Some (Profile (num_str id))) as ->
    by reflexivity.
  by destruct Hm as [->| ->].
Qed.

(** Everything below the directory of the admin proxy. *)
Lemma lands_admin q d rest :
  url q = §"/api/admin/" ++ d ++ 47 :: rest → d = §"servers" ∨ d = §"notifications" →
  method q = §"GET" ∨ method q = §"POST" → lands q.
Proof.
  intros Hu Hd Hm. split; [rewrite Hu; by vm_compute|]. unfold routed.
  assert (∃ path, resolve (segments (url q)) = Some (AdminProxy path)) as [path ->].
  { rewrite Hu, app_assoc. destruct Hd as [->| ->]; rewrite segments_dir by (vm_compute; reflexivity).
    1: exists (§"servers" :: segments rest). 2: exists (§"notifications" :: segments rest).
    all: generalize (segments rest); intros l; reflexivity. }
  by destruct Hm as [->| ->].
Qed.

(** *** The pages' operations *)

Lemma auth_lands op : lands (AuthForm.submission_request op).
Proof. apply lands_literal. by destruct op; vm_compute. Qed.

Lemma dashboard_lands op : lands (Dashboard.operation_request op).
Proof. apply lands_literal. by destruct op; vm_compute. Qed.

Lemma preview_lands p : lands (preview_request p).
Proof. apply lands_literal. by vm_compute. Qed.

Lemma vip_load_lands op : lands (VipPage.operation_request op).
Proof. apply lands_literal. by destruct op; vm_compute. Qed.

(** The operations of the rules section that reach the web server. *)
Definition section_op (op : VipSection.Operation) : Prop :=
  match op with VipSection.Save None _ => False | _ => True end.

Lemma section_lands op :
  section_op op →
  lands (VipSection.operation_request op) ∨
  ∃ code token, op = VipSection.CopyPost code token.
Proof.
  intros Hop. destruct op as [|t|p l|i l|[i|] r|code|code token]; [..|by right; exists code, token]; left.
  1, 2, 7: apply lands_literal; by vm_compute.
  - by apply (lands_profile _ (rp_id p)); [|left].
  - by apply (lands_profile _ i); [|right].
  - cbn [VipSection.operation_request]. destruct (i =? -1).
    + apply lands_literal. by vm_compute.
    + by apply (lands_profile _ i); [|left].
  - destruct Hop.
Qed.

Lemma copy_upstream code token :
  gateway (url (VipSection.operation_request (VipSection.CopyPost code token))) = VpnBackend.
Proof. by vm_compute. Qed.

Section Admin.
Context `{JsHost} (adminEmail : jstr) (initialOverview : AdminOverview) (now : Z).
Let panel := AdminPanel.component adminEmail initialOverview now.

(** Commands go to a server or to a notification. *)
Definition addressed (op : AdminPanel.Operation) : Prop :=
  match op with
  | AdminPanel.Post u _ _ _ =>
      ∃ i tail, u = AdminPanel.server_url i tail ∨ u = AdminPanel.notification_url i tail
  | _ => True
  end.

Lemma addressed_lands op : addressed op → lands (AdminPanel.operation_request op).
Proof.
  destruct op as [rest| |i rest|u payload get_ rest|i|]; intros Ha.
  1, 2, 3, 6: apply lands_literal; by vm_compute.
  - destruct Ha as (i & tail & Hu).
    assert (method (AdminPanel.operation_request (AdminPanel.Post u payload get_ rest)) = §"GET" ∨
            method (AdminPanel.operation_request (AdminPanel.Post u payload get_ rest)) = §"POST")
      as Hm by (destruct get_; [left|right]; reflexivity).
    destruct Hu as [->| ->].
    + apply (lands_admin _ §"servers" (num_str i ++ tail)); [reflexivity|by left|exact Hm].
    + apply (lands_admin _ §"notifications" (num_str i ++ tail)); [reflexivity|by right|exact Hm].
  - apply (lands_admin _ §"servers" (num_str i ++ §"/health")); [reflexivity|by left|by left].
Qed.

Lemma post_addressed l u p g c s i tail :
  u = AdminPanel.server_url i tail ∨ u = AdminPanel.notification_url i tail →
  Forall addressed (started (AdminPanel.postAction l u p g c s)).
Proof. intros Hu. apply Forall_singleton. by exists i, tail. Qed.

Ltac addressed :=
  lazymatch goal with
  | |- Forall addressed (started (AdminPanel.postAction _ (AdminPanel.server_url ?i ?t) _ _ _ _)) =>
      apply (post_addressed _ _ _ _ _ _ i t); left; reflexivity
  | |- Forall addressed (started (AdminPanel.postAction _ (AdminPanel.notification_url ?i ?t) _ _ _ _)) =>
      apply (post_addressed _ _ _ _ _ _ i t); right; reflexivity
  | |- Forall addressed _ => repeat constructor; fail
  end.

Lemma handler_addressed e s : Forall addressed (started (AdminPanel.handler e s)).
Proof.
  destruct e; cbn [AdminPanel.handler]; unfold AdminPanel.ackNotification, AdminPanel.muteNotification;
    try addressed.
  - destruct (AdminPanel.notes s); addressed.
  - unfold AdminPanel.submitActionModal. destruct (AdminPanel.actionModal s) as [m|]; [|constructor].
    destruct (AdminPanel.m_kind m); [|addressed..].
    destruct (immutableDigestPattern _); cbn [negb]; addressed.
Qed.

Lemma replied_addressed op r s : Forall addressed (started (AdminPanel.replied op r s)).
Proof.
  destruct op; simpl; try constructor.
  - unfold AdminPanel.afterOverview. destruct rest as [x|]; [|constructor].
    destruct (AdminPanel.captured x); repeat constructor.
  - unfold AdminPanel.posted. destruct r as [res|]; [|constructor]. destruct (ok res); repeat constructor.
  - unfold AdminPanel.notified. destruct r; repeat constructor.
Qed.

Lemma effects_addressed s o :
  Forall addressed (started o) → Forall addressed (started (AdminPanel.effects s o)).
Proof.
  rewrite !Forall_forall. intros Ho op [Hin|[i ->]]%AdminPanel.effects_started; [by apply Ho|done].
Qed.

Lemma admin_lands s q : reached panel s → q ∈ requests s → lands q.
Proof.
  intros Hr Hin. destruct (started_invariant panel addressed) with s as [_ Hreq]; [| | |done|].
  - repeat constructor.
  - intros s' e _ _. apply effects_addressed, handler_addressed.
  - intros s' op reply _ _. apply effects_addressed, replied_addressed.
  - destruct (Hreq q Hin) as (op & Hop & ->). by apply addressed_lands.
Qed.
End Admin.

(** What the section starts: operations of the plain kinds, and the copy
    after the answer about the session. *)
Section Vip.
Context (Q : VipSection.Operation → Prop).
Context (Q_plain : ∀ op,
  match op with VipSection.Save None _ | VipSection.CopyPost _ _ => False | _ => True end → Q op).

Lemma section_on e s : Forall Q (started (VipSection.handle e s)).
Proof.
  assert (∀ op, match op with VipSection.Save None _ | VipSection.CopyPost _ _ => False | _ => True end →
    Forall Q [op]) as H1 by (intros op Hop; apply Forall_singleton; by apply Q_plain).
  destruct e; cbn [VipSection.handle]; try (apply H1; exact I); try apply Forall_nil_2.
  - destruct confirmed; [by apply H1|constructor].
  - unfold VipSection.saveProfile. destruct (VipSection.isEditing s); by apply H1.
  - unfold VipSection.exportToHapp. destruct (VipSection.customProfiles s) as [|p l]; [constructor|].
    destruct (VipSection.deepLink (p :: l)); constructor.
Qed.

Lemma section_checked r msg s k :
  (∀ res, r = Arrived res → ok res = true → Forall Q (started (k res))) →
  Forall Q (started (VipSection.checked r msg s k)).
Proof.
  intros Hk. unfold VipSection.checked. destruct r as [res|]; [|constructor].
  destruct (ok res) eqn:E; [by apply Hk|constructor].
Qed.

Lemma section_resume op r s :
  (∀ code res data, op = VipSection.CopySession code → r = Arrived res → ok res = true →
     resp_body res = JsonBody data → Q (VipSection.CopyPost code (get data §"token"))) →
  Forall Q (started (VipSection.resumes op r s)).
Proof.
  intros Hcopy. assert (Forall Q [VipSection.FetchProfiles]) as H1
    by (apply Forall_singleton; by apply Q_plain).
  destruct op; cbn [VipSection.resumes]; try (apply section_checked; intros res Hr Hok).
  - unfold VipSection.afterFetch. destruct r as [res|]; [|constructor].
    destruct (resp_body res); [|constructor]. destruct (truthy _); [|constructor].
    destruct (VipSection.decode_profiles _); constructor.
  - constructor.
  - constructor.
  - constructor.
  - exact H1.
  - destruct (resp_body res) as [data|] eqn:Eb; [|constructor].
    destruct (nullish data); [constructor|]. apply Forall_singleton. by eapply Hcopy.
  - exact H1.
Qed.
End Vip.

(** *** The pages' requests *)

Section Pages.
Context `{JsHost} (now : Z) (selectedPlan : option PlanId) (promoFromUrl : jstr).

(** The requests of the dashboard with its pricing table. *)
Lemma dashboard_requests s q :
  reached (DashboardPage.page now selectedPlan promoFromUrl) s → q ∈ requests s →
  (∃ op, q = Dashboard.operation_request op) ∨ (∃ p, q = preview_request p).
Proof.
  intros Hr Hq.
  destruct (nest_requests (DashboardPage.dash now selectedPlan promoFromUrl)
    (DashboardPage.table now selectedPlan promoFromUrl) (λ _, True) (λ _, True)) with s q as [(op & _ & ->)|(op & _ & ->)].
  all: try (intros; apply Forall_true; done).
  - exact Hr.
  - exact Hq.
  - left. by exists op.
  - right. by exists (Pricing04.preview op).
Qed.

Lemma vip_requests s q :
  reached VipPage.page s → q ∈ requests s →
  (∃ op, q = VipPage.operation_request op) ∨
  (∃ op, section_op op ∧ q = VipSection.operation_request op).
Proof.
  intros Hr Hq.
  destruct (nest_requests VipPage.client VipPage.section (λ _, True) section_op)
    with s q as [(op & _ & ->)|(op & Hop & ->)].
  all: try (intros; apply Forall_true; done).
  - intros p. cbn. case_match; repeat constructor.
  - intros p c. constructor.
  - intros p e c. apply section_on. by intros [| | | |[]| |].
  - intros p op r c. apply section_resume; [by intros [| | | |[]| |]|]. by intros code res data ->.
  - exact Hr.
  - exact Hq.
  - left. by exists op.
  - right. by exists op.
Qed.

(** C6: the pages and the server agree on the API.  In every run of the
    sign-in form, of the dashboard with its pricing table and of the admin
    panel, every request goes through the gateway to the web server and finds
    a route handler that exports its method, so none is ever answered 404 or
    405.  The same holds of the VIP page but for one request, the copy of a
    preset, which the gateway sends past the web server to the backend. *)
Theorem pages_land plan adminEmail initialOverview :
  (∀ s q, reached (AuthForm.component plan) s → q ∈ requests s → lands q) ∧
  (∀ s q, reached (DashboardPage.page now selectedPlan promoFromUrl) s → q ∈ requests s → lands q) ∧
  (∀ s q, reached (AdminPanel.component adminEmail initialOverview now) s → q ∈ requests s → lands q) ∧
  (∀ s q, reached VipPage.page s → q ∈ requests s →
     lands q ∨ ∃ code token, q = VipSection.operation_request (VipSection.CopyPost code token) ∧
                             gateway (url q) = VpnBackend).
Proof.
  split; [|split; [|split]]; intros s q Hr Hq.
  - destruct (started_invariant (AuthForm.component plan) (λ _, True)) with s as [_ Hreq].
    1-3: intros; apply Forall_true; done.
    { exact Hr. }
    destruct (Hreq q Hq) as (op & _ & ->). apply auth_lands.
  - destruct (dashboard_requests s q Hr Hq) as [[op ->]|[p ->]];
      [apply dashboard_lands|apply preview_lands].
  - by apply (admin_lands adminEmail initialOverview now s).
  - destruct (vip_requests s q Hr Hq) as [[op ->]|(op & Hop & ->)]; [left; apply vip_load_lands|].
    destruct (section_lands op Hop) as [Hl|(code & token & ->)]; [by left|right].
    exists code, token. split; [done|apply copy_upstream].
Qed.
End Pages.

(** ** Payments *)

Section Payments.
Context `{JsHost} (now : Z) (selectedPlan : option PlanId) (promoFromUrl : jstr).
Context (backend : Backend) (env : Env) (w0 : ServerWorld).

#[local] Instance stack_server : Server ServerWorld := route_server backend.
#[local] Instance stack_laws : ServerLaws ServerWorld := route_laws backend.

Let page := DashboardPage.page now selectedPlan promoFromUrl.

(** A request for a payment, of which the page's are the orders. *)
Definition is_order (q : Request) : bool := str_eqb (url q) §"/api/payments/create".

Definition order_request (i : PlanId) (promo : jstr) : Request :=
  Dashboard.operation_request (Dashboard.CreatePayment i promo).

(** What tells another request from a payment: its route, and the last unit
    of its address. *)
Definition other_request (u : jstr) : bool :=
  negb (str_eqb u §"/api/payments/create") &&
  negb (bool_decide (resolve (segments u) = Some PaymentsCreate)) &&
  negb (bool_decide (last u = Some 101)).

Lemma last_create : last (create_url env) = Some 101.
Proof. unfold create_url. by rewrite last_app. Qed.

Lemma other_request_spec q :
  other_request (url q) = true → is_order q = false ∧ pays env q = false.
Proof.
  unfold other_request. intros [[H1%negb_true_iff H2%negb_true_iff]%andb_true_iff H3%negb_true_iff]%andb_true_iff.
  split; [exact H1|]. unfold pays. rewrite H2. cbn [orb]. apply bool_decide_eq_false in H3.
  apply bool_decide_eq_false. intros E. apply H3. rewrite E. apply last_create.
Qed.

(** The requests of the page: orders, and requests that pay nothing. *)
Lemma page_orders s q :
  reached page s → q ∈ requests s →
  (∃ i promo, q = order_request i promo) ∨ is_order q = false ∧ pays env q = false.
Proof.
  intros Hr Hq. destruct (dashboard_requests now selectedPlan promoFromUrl s q Hr Hq) as [[op ->]|[p ->]].
  - destruct op as [| |b|i promo| |]; [..|by left; exists i, promo| |]; right;
      apply other_request_spec; by vm_compute.
  - right. apply other_request_spec. by vm_compute.
Qed.

Lemma orders_count s qs :
  reached page s → (∀ q, q ∈ qs → q ∈ requests s) →
  (orders env qs ≤ length (filter (λ q, is_order q = true) qs))%nat.
Proof.
  intros Hr. induction qs as [|q qs IH]; intros Hin; [done|].
  assert (orders env qs ≤ length (filter (λ q, is_order q = true) qs))%nat as Hqs.
  { apply IH. intros q' Hq'. apply Hin. by right. }
  change (orders env (q :: qs)) with (most env q + orders env qs)%nat. rewrite filter_cons.
  destruct (page_orders s q Hr) as [(i & promo & ->)|[Ho Hp]]; [apply Hin; by left| |].
  - rewrite decide_True by (by vm_compute). unfold most. simpl length. case_match; lia.
  - rewrite decide_False by (by rewrite Ho). unfold most. rewrite Hp. lia.
Qed.

(** The backend's payment requests are the page's orders, unchanged. *)
Lemma page_payment s b q :
  reached page s → q ∈ requests s → caused env q b → url b = create_url env →
  ∃ i promo, q = order_request i promo ∧ method b = §"POST" ∧
    (unitsb promo = true → body b = body q).
Proof.
  intros Hr Hq Hc Hu. destruct (page_orders s q Hr Hq) as [(i & promo & ->)|[_ Hp]].
  - exists i, promo. split; [done|]. unfold caused in Hc.
    assert (gateway (url (order_request i promo)) = Frontend) as Hg by (by vm_compute).
    rewrite Hg in Hc. destruct Hc as (e & He & Hb).
    assert (resolve (segments (url (order_request i promo))) = Some PaymentsCreate) as He' by (by vm_compute).
    rewrite He' in He. injection He as <-.
    destruct Hb as [[rt ->]|[(path & init & t & Hi & ->)|[[=] _]]]; [by destruct (refresh_url_ne env rt)|].
    apply with_body_intent in Hi as (v & Ev & -> & ->). split; [done|]. intros Hunits.
    change (body (backend_request env _ _)) with (Some (stringify v)).
    change (body (order_request i promo)) with (Some (stringify (JObj ((§"plan", JStr (plan_id_str i)) ::
       (if str_truthy promo then [(§"promo_code", JStr promo)] else []))))) in Ev |- *.
    f_equal. eapply stringify_parse_stringify; [| |exact Ev].
    + by destruct (str_truthy promo).
    + destruct (str_truthy promo); cbn [jval_units forallb fst snd]; rewrite ?Hunits; by destruct i.
  - exfalso. unfold pays in Hp. apply orb_false_iff in Hp as [Hp1 Hp2]. unfold caused in Hc.
    destruct (gateway (url q)).
    + subst b. rewrite Hu, str_eqb_refl in Hp2. done.
    + destruct Hc as (e & He & Hb). apply bool_decide_eq_false in Hp1.
      apply (accounted_other env e q b); [congruence|done|done].
Qed.

(** C1: end to end, from the click to the backend: a payment is created at
    most once per order, and as ordered.  In every run of the dashboard with
    its pricing table against the site and any backend, with requests
    processed late, answered out of order or lost, the number of payment
    requests that the backend did not refuse with 401 is at most the number
    of orders the page sent; and every payment request the backend ever sees
    is a POST with the body of one of these orders. *)
Theorem payments_once s :
  running page env w0 s → log w0 = [] →
  (charges backend env [] (log (world page s))
    ≤ length (filter (λ q, is_order q = true) (requests (client page s))))%nat ∧
  ∀ b, b ∈ log (world page s) → url b = create_url env →
    ∃ i promo, order_request i promo ∈ requests (client page s) ∧ method b = §"POST" ∧
      (unitsb promo = true → body b = body (order_request i promo)).
Proof.
  intros Hr H0. pose proof (running_reached page env w0 s Hr) as Hreach. split.
  - pose proof (running_charges backend env page w0 s Hr) as Hc. rewrite H0 in Hc.
    cbn [charges] in Hc. etrans; [|by apply (orders_count (client page s)); [done|]]. lia.
  - intros b Hb Hu. destruct (running_sends page env w0 s Hr) as (rs & E & Hrs).
    change (sent (world page s)) with (log (world page s)) in E. change (sent w0) with (log w0) in E.
    rewrite E, H0 in Hb. rewrite Forall_forall in Hrs. destruct (Hrs b Hb) as (q & Hq & Hc).
    destruct (page_payment (client page s) b q Hreach Hq Hc Hu) as (i & promo & -> & Hm & Hbody).
    by exists i, promo.
Qed.
End Payments.

(** ** Copying a preset *)

Section Copy.
Context {W : Type} `{!Server W} (env : Env) (w0 : W).

(** A field an object does not have is not in its text either. *)
Lemma get_clean fs k : obj_has fs k = false → get (clean (JObj fs)) k = JUndefined.
Proof.
  intros Hk. rewrite clean_obj. cbn [get]. apply obj_has_false_get. unfold defined.
  induction fs as [|[k' v] fs IH]; [done|]. cbn [obj_has existsb fst] in Hk.
  apply orb_false_iff in Hk as [H1 H2]. rewrite filter_cons.
  case_decide; [|by apply IH]. rewrite fmap_cons. cbn [obj_has existsb clean_field fst].
  rewrite H1. by apply IH.
Qed.

(** The answer of the session route has no token. *)
Lemma session_no_token q w r w' data :
  resolve (segments (url q)) = Some SessionInfo → gateway (url q) = Frontend →
  arrive env q w = (r, w') → ok r = true → resp_body r = JsonBody data →
  get data §"token" = JUndefined.
Proof.
  intros He Hg. unfold arrive, serve, handler_of. rewrite Hg, He. cbn [mbind option_bind exports].
  rewrite find_first_cons. cbn [fst]. destruct (str_eqb §"GET" (method q)); [|by intros [= <- _]].
  cbn [fmap option_fmap option_map snd].
  destruct (session_GET env w) as [[r0|e] w1] eqn:E; [|by intros [= <- _]].
  intros [= <- _] Hok Hb.
  destruct (session_body env w r0 w1 E Hok) as (user & sub & _ & _ & _ & _ & _ & -> & _).
  assert (data = clean (JObj [(§"authenticated", JBool true); (§"user", user);
    (§"subscription", sub)])) as ->
    by exact (f_equal (λ b, match b with JsonBody v => v | RawBody _ => JNull end) (eq_sym Hb)).
  apply get_clean. by vm_compute.
Qed.

(** What the page may send when the answers come from the site. *)
Definition copy_ok (op : VipSection.Operation) : Prop :=
  match op with
  | VipSection.Save None _ => False
  | VipSection.CopyPost _ token => token = JUndefined
  | _ => True
  end.

Definition session_answer (op : Op VipPage.page) (r : Response) : Prop :=
  match op with
  | inr (VipSection.CopySession _) =>
      ok r = true → ∀ data, resp_body r = JsonBody data → get data §"token" = JUndefined
  | _ => True
  end.

Lemma session_answered op w : session_answer op (arrive env (request VipPage.page op) w).1.
Proof.
  destruct op as [op|[| | | | |code|]]; try exact I. intros Hok data Hb.
  destruct (arrive env _ w) as [r w'] eqn:E.
  eapply session_no_token; [| |exact E|exact Hok|exact Hb]; by vm_compute.
Qed.

Lemma copy_ok_plain op :
  match op with VipSection.Save None _ | VipSection.CopyPost _ _ => False | _ => True end → copy_ok op.
Proof. by destruct op as [| | | |[]| |]. Qed.

(** A request of the page that goes past the web server. *)
Definition past_frontend (q : Request) : Prop :=
  gateway (url q) = VpnBackend → headers_get (headers q) §"Authorization" = Some §"Bearer undefined".

Lemma copy_ok_request (op : Op VipPage.page) :
  op_ok VipPage.client VipPage.section (λ _, True) copy_ok op → past_frontend (request VipPage.page op).
Proof.
  destruct op as [op|op]; intros Hop Hg.
  - destruct (vip_load_lands op) as [Hl _]. change (request VipPage.page (inl op)) with (VipPage.operation_request op) in Hg.
    rewrite Hl in Hg. discriminate.
  - change (request VipPage.page (inr op)) with (VipSection.operation_request op) in Hg |- *.
    destruct (section_lands op) as [[Hl _]|(code & token & ->)].
    + by destruct op as [| | | |[]| |].
    + rewrite Hl in Hg. discriminate.
    + cbn in Hop. subst token. by vm_compute.
Qed.

Lemma copy_ok_requests (ops : list (Op VipPage.page)) rs :
  Forall past_frontend rs → Forall (op_ok VipPage.client VipPage.section (λ _, True) copy_ok) ops →
  Forall past_frontend (rs ++ (request VipPage.page <$> ops)).
Proof.
  intros Hrs Hops. apply Forall_app. split; [done|]. apply Forall_fmap.
  eapply Forall_impl; [exact Hops|]. intros op. apply copy_ok_request.
Qed.

(** adding a preset cannot work.  In every run of the VIP page against
    the site, a request that the gateway sends past the web server (only the
    copy of a preset does) carries [Bearer undefined]: the page takes the
    token from the session route, whose answers never have one. *)
Theorem copy_undefined s q :
  running VipPage.page env w0 s → q ∈ requests (client VipPage.page s) →
  gateway (url q) = VpnBackend →
  headers_get (headers q) §"Authorization" = Some §"Bearer undefined".
Proof.
  intros Hr Hq. cut (Forall past_frontend (requests (client VipPage.page s))).
  { rewrite Forall_forall. intros Hall. by apply (Hall q). }
  clear q Hq. revert s Hr.
  pose proof (section_on copy_ok copy_ok_plain) as Hon.
  pose proof (section_resume copy_ok copy_ok_plain) as Hres.
  assert (∀ p, Forall copy_ok (started (c_mount VipPage.section p))) as Hmount
    by (intros p; cbn; case_match; repeat constructor).
  assert (∀ p c, Forall copy_ok (started (c_update VipPage.section p c))) as Hupd by constructor.
  assert (∀ ops : list (Op VipPage.client), Forall (λ _, True) ops) as HT by (intros; by apply Forall_true).
  apply (running_replies VipPage.page env w0 session_answer session_answered
    (λ c, Forall past_frontend (requests c))).
  - apply (copy_ok_requests _ []); [constructor|]. by apply parent_step_ok.
  - intros c e _ Hc _. apply copy_ok_requests; [done|]. cbn [on VipPage.page nest]. unfold nest_on.
    destruct e as [e|e]; [by apply parent_step_ok|].
    repeat (case_match; [|constructor]). by apply child_step_ok.
  - intros c i op r _ Hc _ Hrel. apply copy_ok_requests; [done|]. cbn [resume VipPage.page nest].
    unfold nest_resume. destruct op as [op|op]; [by apply parent_step_ok|].
    repeat (case_match; [|constructor]). apply child_step_ok; [done..|]. apply Hres.
    intros code res data -> -> Hok Hb. exact (Hrel res eq_refl Hok data Hb).
Qed.
End Copy.

(** ** A concrete visit: the page loads, a plan is chosen and ordered, the
    backend asks for a new token first. *)

#[local] Existing Instance plain_host.

Definition shop_backend : Backend := λ pre r,
  let at_ path := str_eqb (url r) (§"http://api" ++ path) in
  if at_ §"/api/v1/auth/refresh" then
    Ok (json_response (JObj [(§"access_token", JStr §"a2"); (§"refresh_token", JStr §"r2")]) 200)
  else if at_ §"/api/v1/me" then Ok (json_response (JObj [(§"email", JStr §"u@example.com")]) 200)
  else if at_ §"/api/v1/me/subscription" then
    Ok (json_response (get Dashboard.sample_session_json §"subscription") 200)
  else if at_ §"/api/v1/payments/create" then
    if existsb (λ q, str_eqb (url q) (url r)) pre
    then Ok (json_response (JObj [(§"payment_url", JStr §"https://pay.example/1")]) 200)
    else Ok (json_response (JObj [(§"error", JStr §"expired")]) 401)
  else Ok (json_response (JObj [(§"error", JStr §"not_found")]) 404).

(** Both loads are processed before the first answer arrives. *)
Definition shop_moves : list Move :=
  [Process 0; Process 1; Deliver 1; Deliver 0; UserClick 3; UserClick 6; Process 0].

Abbreviation shop_page := (DashboardPage.page Dashboard.sample_now None []).
Abbreviation shop_run :=
  (@outcome shop_page ServerWorld (route_server shop_backend) sample_env sample_world shop_moves).

Lemma payments_once_witness :
  length (filter (λ b, url b = create_url sample_env) (log (world shop_page shop_run))) = 2%nat ∧
  charges shop_backend sample_env [] (log (world shop_page shop_run)) = 1%nat ∧
  (charges shop_backend sample_env [] (log (world shop_page shop_run))
    ≤ length (filter (λ q, is_order q = true) (requests (client shop_page shop_run))))%nat.
Proof.
  split; [vm_compute; reflexivity|]. split; [vm_compute; reflexivity|].
  refine (proj1 (payments_once Dashboard.sample_now None [] shop_backend sample_env sample_world
    shop_run _ _)).
  - apply outcome_running. vm_compute. reflexivity.
  - reflexivity.
Defined.

(** A visit of the VIP page that adds a preset. *)
Definition preset_record : jval := JObj [
  (§"id", JNum 5); (§"name", JStr §"Ads"); (§"code", JStr §"ads"); (§"kind", JStr §"system");
  (§"action", JStr §"direct"); (§"enabled", JBool true); (§"description", JStr []);
  (§"domains", JArr [JStr §"example.com"])].

Definition preset_backend : Backend := λ _ r,
  let at_ path := str_eqb (url r) (§"http://api" ++ path) in
  if at_ §"/api/v1/me/subscription" then Ok (json_response (JObj [(§"plan", JStr §"vip")]) 200)
  else if at_ §"/api/v1/me/routing-profiles" then
    Ok (json_response (JObj [(§"profiles", JArr [preset_record])]) 200)
  else if at_ §"/api/v1/me" then Ok (json_response (JObj [(§"email", JStr §"u@example.com")]) 200)
  else Ok (json_response (JObj [(§"error", JStr §"not_found")]) 404).

Definition preset_moves : list Move :=
  [Process 0; Deliver 0; Process 0; Deliver 0; Process 0; Deliver 0;
   UserClick 3; UserClick 4; Process 0; Deliver 0; Process 0].

Abbreviation preset_run :=
  (@outcome VipPage.page ServerWorld (route_server preset_backend) sample_env sample_world preset_moves).

Definition copy_request : Request :=
  VipSection.operation_request (VipSection.CopyPost §"ads" JUndefined).

Lemma copy_undefined_witness :
  last (log (world VipPage.page preset_run)) = Some copy_request ∧
  headers_get (headers copy_request) §"Authorization" = Some §"Bearer undefined".
Proof.
  split; [vm_compute; reflexivity|].
  refine (@copy_undefined ServerWorld (route_server preset_backend) sample_env sample_world preset_run
    copy_request _ _ _).
  - apply outcome_running. vm_compute. reflexivity.
  - assert (last (requests (client VipPage.page preset_run)) = Some copy_request) as Hl
      by (vm_compute; reflexivity).
    revert Hl. generalize (requests (client VipPage.page preset_run)). intros l Hl.
    apply last_Some_elem_of in Hl. exact Hl.
  - vm_compute. reflexivity.
Defined.


(** The sample backend again, with the sign-in form and a sign-out. *)
Definition signing_moves : list Move :=
  [UserInput 0 §"u@example.com"; UserInput 1 §"secret"; UserClick 0; Process 0; Deliver 0].

Abbreviation sign_in_run :=
  (@outcome (AuthForm.component []) ServerWorld sample_server_world sample_env sample_world signing_moves).

Lemma stack_session_witness :
  whole (W:=ServerWorld) (Server0:=sample_server_world) (world (AuthForm.component []) sign_in_run).
Proof.
  apply (@stack_session (AuthForm.component []) ServerWorld sample_server_world
    (route_laws sample_backend) sample_env sample_world (route_writable sample_backend) sample_tokens).
  - apply outcome_running. vm_compute. reflexivity.
  - exists (Some (§"a1", §"r1")). split; [done|split; [done|split; vm_compute; reflexivity]].
Defined.
