(* ===== verification/Installer.v ===== *)
(** * The installer's component script

    [deploy/installer/packages/org.fblinkvpn.package/meta/componentscript.js]:
    paths, quoting, the repair of the Windows service and the end of an
    installation.

    The Qt Installer Framework and the machine under it are not part of the
    sources: [Machine] gives the answers of programs, the file system, the
    elevation dialog and the user, from an environment of its own that every
    call may change.  A world carries that environment, the installer's
    variables and the trace of the calls with their answers. *)
From S2P Require Export JsonParse.

(** ** The machine *)

Inductive Button := OkButton | CancelButton | RetryButton | AbortButton | NextButton | FinishButton
  | CommitButton.

#[export] Instance Button_eq_dec : EqDecision Button.
Proof. solve_decision. Defined.

(** [installer.execute] answers with an output and an exit code, or with an
    empty array when the program cannot be started. *)
Class Machine (E : Type) := {
  run_program : jstr → list jstr → E → option (jstr * Z) * E;
  path_exists : jstr → E → bool * E;
  grant_admin : E → bool * E;
  press : jstr → E → Button * E;
}.

Inductive Call :=
| Execute (program : jstr) (args : list jstr) (answer : option (jstr * Z))
| FileExists (path : jstr) (found : bool)
| GainAdminRights (granted : bool)
| DropAdminRights
| ExecuteDetached (program : jstr) (args : list jstr) (dir : jstr)
| MessageBox (text : jstr) (pressed : Button)
| Sleep (ms : Z)
| SetValue (k v : jstr)
| ClickButton (b : Button)
| SetDefaultPageVisible (page : jstr) (visible : bool)
| SetCancelled
| AutoAnswer (box : jstr)
| AddElevatedOperation (args : list jstr)
| HideWidget (name : jstr)
| SetText (text : jstr)
| Connect (signal handler : jstr)
| Disconnect (signal handler : jstr).

Record World (E : Type) := { env : E; values : list (jstr * jstr); trace : list Call }.
#[global] Arguments env {E} _.
#[global] Arguments values {E} _.
#[global] Arguments trace {E} _.

#[export] Instance World_eta E : Eta (World E) := λ w,
  {| env := env w; values := values w; trace := trace w |}.

(** What does not change while a script runs. *)
Record Setup := {
  kernelType : jstr;
  isInstaller : bool;
  isUpdater : bool;
  isUninstaller : bool;
  success : bool;
  currentCpuArchitecture : jstr;
  public_dir : jstr;
}.

Section Calls.
Context {E : Type} `{Machine E}.

Definition record (c : Call) : M (World E) unit :=
  modify (λ w, w <| trace := trace w ++ [c] |>).

Definition execute (program : jstr) (args : list jstr) : M (World E) (option (jstr * Z)) := λ w,
  let '(a, e) := run_program program args (env w) in
  (Ok a, {| env := e; values := values w; trace := trace w ++ [Execute program args a] |}).

Definition fileExists (path : jstr) : M (World E) bool := λ w,
  let '(b, e) := path_exists path (env w) in
  (Ok b, {| env := e; values := values w; trace := trace w ++ [FileExists path b] |}).

Definition gainAdminRights : M (World E) bool := λ w,
  let '(b, e) := grant_admin (env w) in
  (Ok b, {| env := e; values := values w; trace := trace w ++ [GainAdminRights b] |}).

Definition messageBox (text : jstr) : M (World E) Button := λ w,
  let '(b, e) := press text (env w) in
  (Ok b, {| env := e; values := values w; trace := trace w ++ [MessageBox text b] |}).

Definition value (k : jstr) : M (World E) jstr :=
  gets (λ w, from_option snd [] (find_first (λ f, str_eqb f.1 k) (values w))).

Definition setValue (k v : jstr) : M (World E) unit := λ w,
  (Ok tt, {| env := env w; values := (k, v) :: values w; trace := trace w ++ [SetValue k v] |}).

Definition sleep (ms : Z) : M (World E) unit := record (Sleep ms).
Definition dropAdminRights : M (World E) unit := record DropAdminRights.
Definition executeDetached (p : jstr) (args : list jstr) (dir : jstr) : M (World E) unit :=
  record (ExecuteDetached p args dir).
End Calls.

(** ** Paths and strings *)

Section Script.
Context `{JsHost}.

Definition serviceName : jstr := §"FBLinkVPN-service".
Definition dashedServiceExecutableFileName : jstr := §"FBLink-VPN-service.exe".
Definition legacyServiceExecutableFileName : jstr := §"FBLink-service.exe".
Definition expectedServiceExecutablePathWindows : jstr :=
  §"C:\Program Files\FBLink VPN\FBLinkVPN-service.exe".

Definition runningOnWindows (setup : Setup) : bool := str_eqb (kernelType setup) §"winnt".
Definition runningOnMacOS (setup : Setup) : bool := str_eqb (kernelType setup) §"darwin".
Definition runningOnLinux (setup : Setup) : bool := str_eqb (kernelType setup) §"linux".

Definition uniquePushString (l : list jstr) (v : jstr) : list jstr :=
  if negb (str_truthy v) then l
  else if existsb (λ x, str_eqb (to_lower x) (to_lower v)) l then l
  else l ++ [v].

(** [s.replace(/\\+/g, "\\")]: a run of backslashes becomes one. *)
Fixpoint collapse (s : jstr) : jstr :=
  match s with
  | [] => []
  | c :: s' =>
      if (c =? 92) && starts_with [92] s' then collapse s' else c :: collapse s'
  end.

Definition is_letter (c : Z) : bool :=
  ((65 <=? c) && (c <=? 90)) || ((97 <=? c) && (c <=? 122)).

(** A letter, a colon and a backslash. *)
Definition drive_at (s : jstr) : bool :=
  match s with
  | l :: c :: d :: _ => is_letter l && (c =? 58) && (d =? 92)
  | _ => false
  end.

(** [s.replace(/^([A-Za-z]:)\\+/, "$1\\")] *)
Definition drive_root (s : jstr) : jstr :=
  if drive_at s then take 3 s ++ drop_while (λ c, c =? 92) (drop 3 s) else s.

Definition normalizeWindowsPath (path : jstr) : jstr :=
  if negb (str_truthy path) then [] else
  let p := trim (replace_unit 47 [92] (replace_unit 34 [] path)) in
  let p := if starts_with [92; 92] p then [92; 92] ++ collapse (drop 2 p) else collapse p in
  to_lower (drive_root p).

(** The flag [i] of a pattern compares units by their upper case. *)
Definition canon (c : Z) : Z :=
  match to_upper [c] with
  | [u] => if (128 <=? c) && (u <? 128) then c else u
  | _ => c
  end.
Definition word_i (w s : jstr) : bool := starts_with (canon <$> w) (canon <$> s).

Definition line_end (c : Z) : bool := (c =? 10) || (c =? 13).

(** The position of the first (last) ".exe" in a line. *)
Fixpoint first_exe (s : jstr) : option nat :=
  if word_i §".exe" s then Some O else
  match s with
  | c :: s' => if line_end c then None else S <$> first_exe s'
  | [] => None
  end.
Fixpoint last_exe (s : jstr) : option nat :=
  match s with
  | c :: s' =>
      if line_end c then None else
      match last_exe s' with
      | Some n => Some (S n)
      | None => if word_i §".exe" s then Some O else None
      end
  | [] => None
  end.

(** [/([A-Za-z]:\\[^\r\n]*?\.exe)/i]: the leftmost drive from which the line
    reaches an executable, up to the first ".exe". *)
Fixpoint match_exe (s : jstr) : option jstr :=
  match s with
  | [] => None
  | _ :: s' =>
      if drive_at s then
        match first_exe (drop 3 s) with
        | Some n => Some (take (3 + n + 4) s)
        | None => match_exe s'
        end
      else match_exe s'
  end.

Definition extractExecutablePathWindows (pathValue : jstr) : jstr :=
  let line := trim pathValue in
  if (length line =? 0)%nat then [] else
  let quoted :=
    match line with
    | 34 :: rest => match index_of dq rest with Some (S n) => Some (take (S n) rest) | _ => None end
    | _ => None
    end in
  match quoted with
  | Some p => p
  | None => default line (match_exe line)
  end.

Definition psSingleQuote (v : jstr) : jstr := replace_unit 39 [39; 39] v.

(** ** Running programs *)

Section OnMachine.
Context {E : Type} `{Machine E} (setup : Setup).
Abbreviation P := (M (World E)).

Definition appName : P jstr := value §"Name".

Definition appLinkName : P jstr :=
  title ← value §"Title";
  if str_truthy title then mret title else appName.

Definition serviceExecutableFileName : P jstr := n ← appName; mret (n ++ §"-service.exe").

Definition appExecutableFileName : P jstr :=
  n ← appName;
  mret (if runningOnWindows setup then n ++ §".exe" else n).

(** [Number(result[1]) === n]; the exit code of a failed start is not a number. *)
Definition exited (r : option (jstr * Z)) (n : Z) : bool :=
  match r with Some (_, c) => c =? n | None => false end.
(** [String(result[0])] *)
Definition output (r : option (jstr * Z)) : jstr :=
  match r with Some (o, _) => o | None => §"undefined" end.

Definition runCmdWindows (command : jstr) : P (option (jstr * Z)) :=
  execute §"cmd" [§"/c"; command].
Definition runPowerShellWindows (script : jstr) : P (option (jstr * Z)) :=
  execute §"powershell" [§"-NoProfile"; §"-ExecutionPolicy"; §"Bypass"; §"-Command"; script].

Definition running_script : jstr :=
  §"$s=Get-Service -Name '" ++ serviceName ++ §"' -ErrorAction SilentlyContinue; if ($null -ne $s -and $s.Status -eq 'Running') { exit 0 } else { exit 1 }".

Definition serviceIsRunningWindows : P bool :=
  r ← runPowerShellWindows running_script; mret (exited r 0).

Definition registry_query : jstr :=
  §"reg query " ++ dq ++ §"HKLM\SYSTEM\CurrentControlSet\Services\" ++ serviceName ++ dq ++ §" >nul 2>&1".

Definition serviceExistsWindows : P bool :=
  r ← execute §"sc" [§"query"; serviceName];
  if exited r 0 then mret true else
  r ← runCmdWindows registry_query;
  mret (exited r 0).

Definition strip_lines (s : jstr) : jstr := replace_unit 10 [] (replace_unit 13 [] s).

Definition exists_script (p : jstr) : jstr :=
  §"$p='" ++ psSingleQuote p ++ §"'; "
  ++ §"if (Test-Path -LiteralPath $p) { exit 0 } else { exit 1 }".

Definition fileExistsWindows (path : jstr) : P bool :=
  let p := trim (strip_lines (replace_unit 34 [] path)) in
  r ← runPowerShellWindows (exists_script p);
  mret (exited r 0).

Definition wildcard_script (dir : jstr) : jstr :=
  §"$d='" ++ psSingleQuote dir ++ §"'; "
  ++ §"if (-not (Test-Path -LiteralPath $d)) { exit 1 }; "
  ++ §"$files = Get-ChildItem -LiteralPath $d -File -Filter '*service*.exe' -ErrorAction SilentlyContinue; "
  ++ §"if ($null -eq $files -or $files.Count -eq 0) { exit 2 }; "
  ++ §"$preferred = $files | Where-Object { $_.Name -match 'fblink.*service\.exe' } | Select-Object -First 1; "
  ++ §"if ($null -eq $preferred) { $preferred = $files | Select-Object -First 1 }; "
  ++ §"Write-Output $preferred.FullName; exit 0".

Definition findServiceExecutableByWildcardWindows (dir : jstr) : P jstr :=
  r ← runPowerShellWindows (wildcard_script dir);
  mret (if exited r 0 then trim (strip_lines (output r)) else []).

Definition backslashed (dir : jstr) : jstr := replace_unit 47 [92] dir.

Definition pushes : list jstr → list jstr := foldl uniquePushString [].

Definition serviceExecutablePathCandidatesForRegistrationWindows : P (list jstr) :=
  dir ← value §"TargetDir";
  exe ← serviceExecutableFileName;
  let raw := backslashed dir in
  wildcard ← findServiceExecutableByWildcardWindows raw;
  mret (pushes
    [expectedServiceExecutablePathWindows; raw ++ §"\" ++ exe;
     raw ++ §"\" ++ dashedServiceExecutableFileName;
     raw ++ §"\" ++ legacyServiceExecutableFileName; wildcard]).

Definition serviceExecutablePathCandidatesWindows : P (list jstr) :=
  dir ← value §"TargetDir";
  exe ← serviceExecutableFileName;
  let d := normalizeWindowsPath dir in
  mret (pushes
    [d ++ §"\" ++ exe; d ++ §"\" ++ dashedServiceExecutableFileName;
     d ++ §"\" ++ legacyServiceExecutableFileName; d ++ §"\FBLinkVPN-service.exe";
     d ++ §"\FBLink-VPN-service.exe"; d ++ §"\FBLink-service.exe"; d ++ §"\AmneziaVPN-service.exe"]).

(** One round of the search. *)
Definition resolve_attempt (dir : jstr) (candidates : list jstr) : P (option jstr) :=
  c ← for_first candidates (λ c, b ← fileExistsWindows c; mret (if b : bool then Some c else None));
  match c with
  | Some c => mret (Some c)
  | None =>
      wildcard ← findServiceExecutableByWildcardWindows dir;
      b ← (if str_truthy wildcard then fileExistsWindows wildcard else mret false);
      if b : bool then mret (Some wildcard) else (sleep 500;; mret None)
  end.

Definition resolveServiceExecutablePathWindows (waitMs : Z) : P jstr :=
  dir ← value §"TargetDir";
  candidates ← serviceExecutablePathCandidatesWindows;
  found ← attempts (Z.to_nat (Z.max 1 (waitMs / 500))) (resolve_attempt (backslashed dir) candidates);
  mret (default (default [] (head candidates)) found).

(** *** The registered path of the service *)

Definition skip_spaces (s : jstr) : jstr := drop_while is_space s.

(** Up to a line terminator. *)
Fixpoint dot_run (s : jstr) : jstr :=
  match s with
  | c :: s' => if line_end c || (c =? 8232) || (c =? 8233) then [] else c :: dot_run s'
  | [] => []
  end.

(** The label in any case, a colon between white space, the rest of the line. *)
Fixpoint match_label (label s : jstr) : option jstr :=
  let here :=
    if word_i label s then
      match skip_spaces (drop (length label) s) with
      | 58 :: r => Some (dot_run (skip_spaces r))
      | _ => None
      end
    else None in
  match here, s with
  | Some r, _ => Some r
  | None, _ :: s' => match_label label s'
  | None, [] => None
  end.

(** A quoted path that ends in ".exe" and has more than that. *)
Definition quoted_exe (s : jstr) : option jstr :=
  match s with
  | 34 :: r =>
      n ← index_of dq r;
      if (5 <=? n)%nat && word_i §".exe" (drop (n - 4) (take n r)) then Some (take (n + 2) s) else None
  | _ => None
  end.

(** A drive path up to the last ".exe" of its line. *)
Definition plain_exe (s : jstr) : option jstr :=
  if drive_at s then
    match last_exe (drop 3 s) with
    | Some (S n) => Some (take (3 + S n + 4) s)
    | _ => None
    end
  else None.

(** A colon, white space and a path. *)
Fixpoint match_colon (path_at : jstr → option jstr) (s : jstr) : option jstr :=
  match s with
  | [] => None
  | c :: s' =>
      match (if c =? 58 then path_at (skip_spaces s') else None) with
      | Some p => Some p
      | None => match_colon path_at s'
      end
  end.

Definition first_match (l : list (option jstr)) : option jstr := head (omap id l).

Definition match_binary_path (out : jstr) : option jstr :=
  first_match
    [match_label §"BINARY_PATH_NAME" out; match_label §"Имя_двоичного_файла" out;
     match_colon quoted_exe out; match_colon plain_exe out].

Definition wmi_path_script : jstr :=
  §"$svc = Get-CimInstance Win32_Service -Filter " ++ dq ++ §"Name='" ++ serviceName ++ §"'" ++ dq
  ++ §" -ErrorAction SilentlyContinue; " ++ §"if ($null -eq $svc) { exit 1 }; "
  ++ §"Write-Output $svc.PathName".

Definition currentServiceBinaryPathWindows : P jstr :=
  ps ← runPowerShellWindows wmi_path_script;
  let fromWmi := extractExecutablePathWindows (output ps) in
  if exited ps 0 && str_truthy fromWmi then mret (normalizeWindowsPath fromWmi) else
  r ← execute §"sc" [§"qc"; serviceName];
  if negb (exited r 0) then mret [] else
  mret (match match_binary_path (output r) with
        | Some p => normalizeWindowsPath (extractExecutablePathWindows p)
        | None => []
        end).

(** The object that [queryServiceStateWindows] returns. *)
Definition state_script : jstr :=
  §"$svc = Get-CimInstance Win32_Service -Filter " ++ dq ++ §"Name='" ++ serviceName ++ §"'" ++ dq
  ++ §" -ErrorAction SilentlyContinue; "
  ++ §"if ($null -eq $svc) { Write-Output '{" ++ dq ++ §"exists" ++ dq ++ §":false}'; exit 0 }; "
  ++ §"$obj = [pscustomobject]@{ exists = $true; PathName = $svc.PathName; State = $svc.State; Status = $svc.Status; ExitCode = $svc.ExitCode; ProcessId = $svc.ProcessId; StartMode = $svc.StartMode }; "
  ++ §"$obj | ConvertTo-Json -Compress".

Definition absent : jval := JObj [(§"exists", JBool false)].

Definition queryServiceStateWindows : P jval :=
  r ← runPowerShellWindows state_script;
  mret (if exited r 0 then default absent (json_parse (output r)) else absent).

(** *** Registration *)

Definition if_exists (path : jstr) : jstr :=
  §"if exist " ++ dq ++ path ++ dq ++ §" (exit /b 0) else (exit /b 1)".

(** [runInstallServiceScriptWindows] and [runPostInstallScriptWindows] *)
Definition runScriptWindows (name : jstr) : P bool :=
  dir ← value §"TargetDir";
  let script := backslashed dir ++ §"\" ++ name in
  check ← execute §"cmd" [§"/c"; if_exists script];
  if negb (exited check 0) then mret false else
  r ← execute §"cmd" [§"/c"; §"call " ++ dq ++ script ++ dq];
  mret (exited r 0).

Definition runInstallServiceScriptWindows : P bool := runScriptWindows §"install_service.cmd".
Definition runPostInstallScriptWindows : P bool := runScriptWindows §"post_install.cmd".

Definition bin_path : jstr := §"$binPath = ('" ++ dq ++ §"{0}" ++ dq ++ §"' -f $exe); ".

Definition register_script (path : jstr) : jstr :=
  §"$ErrorActionPreference='Stop'; " ++ §"$svc='" ++ psSingleQuote serviceName ++ §"'; "
  ++ §"$exe='" ++ psSingleQuote path ++ §"'; "
  ++ §"if (-not (Test-Path -LiteralPath $exe)) { Write-Output 'service_exe_missing'; exit 2 }; "
  ++ bin_path
  ++ §"$existing = Get-Service -Name $svc -ErrorAction SilentlyContinue; "
  ++ §"if ($null -ne $existing) { "
  ++ §"  try { Stop-Service -Name $svc -Force -ErrorAction SilentlyContinue } catch {}; "
  ++ §"  sc.exe delete $svc | Out-Null; "
  ++ §"  for($i=0; $i -lt 30; $i++){ sc.exe query $svc > $null 2>&1; if($LASTEXITCODE -eq 1060){ break }; Start-Sleep -Milliseconds 500 }; "
  ++ §"}; "
  ++ §"New-Service -Name $svc -BinaryPathName $binPath -DisplayName 'FBLink VPN Service' -Description 'Service for FBLink VPN' -StartupType Automatic | Out-Null; "
  ++ §"sc.exe failure $svc reset= 100 actions= restart/2000/restart/2000/restart/2000 | Out-Null; "
  ++ §"try { Start-Service -Name $svc -ErrorAction SilentlyContinue } catch {}; "
  ++ §"Write-Output 'ok'; " ++ §"exit 0".

Definition registerServiceViaPowerShellWindows (path : jstr) : P bool :=
  r ← runPowerShellWindows (register_script path); mret (exited r 0).

Definition sc (verb tail : jstr) : P (option (jstr * Z)) :=
  runCmdWindows (§"sc.exe " ++ verb ++ §" " ++ dq ++ serviceName ++ dq ++ tail).

(** [for (i = 0; i < n; ++i) { if (test) { ... break } sleep(ms) }] *)
Definition wait_until (n : nat) (ms : Z) (test : P bool) : P bool :=
  r ← attempts n (b ← test; if b : bool then mret (Some tt) else (sleep ms;; mret None));
  mret (bool_decide (is_Some r)).

(** The second way to register: [sc create]. *)
Definition scCreate (path : jstr) : P bool :=
  sc §"stop" §" >nul 2>&1";;
  sc §"delete" §" >nul 2>&1";;
  sleep 1200;;
  r ← sc §"create" (§" binPath= " ++ dq ++ §"\" ++ dq ++ path ++ §"\" ++ dq ++ dq ++ §" start= auto");
  if negb (exited r 0) && negb (exited r 1073) then mret false else
  sc §"description" (§" " ++ dq ++ §"FBLink VPN Service" ++ dq);;
  sc §"failure" §" reset= 100 actions= restart/2000/restart/2000/restart/2000";;
  mret true.

Definition registerServiceFallbackWindowsWithPathWindows (path : jstr) : P bool :=
  found ← wait_until 20 500 (r ← runCmdWindows (if_exists path); mret (exited r 0));
  if negb found then mret false else
  registered ← registerServiceViaPowerShellWindows path;
  created ← (if registered : bool then mret true else scCreate path);
  if negb created then mret false else
  existsInScm ← wait_until 20 500 serviceExistsWindows;
  if negb existsInScm then mret false else
  currentServiceBinaryPathWindows;;
  sc §"start" [];;
  running ← wait_until 8 1000 serviceIsRunningWindows;
  if running : bool then mret true else serviceExistsWindows.

Definition registerServiceFallbackWindows : P bool :=
  candidates ← serviceExecutablePathCandidatesForRegistrationWindows;
  r ← for_first candidates (λ c,
        let candidate := trim c in
        if (length candidate =? 0)%nat then mret None else
        found ← runCmdWindows (if_exists candidate);
        if negb (exited found 0) then mret None else
        done ← registerServiceFallbackWindowsWithPathWindows candidate;
        mret (if done : bool then Some tt else None));
  mret (bool_decide (is_Some r)).

Definition force_script (path : jstr) : jstr :=
  §"$ErrorActionPreference='Stop'; " ++ §"$svc='" ++ psSingleQuote serviceName ++ §"'; "
  ++ §"$exe='" ++ psSingleQuote path ++ §"'; " ++ bin_path
  ++ §"$existing = Get-Service -Name $svc -ErrorAction SilentlyContinue; "
  ++ §"if ($null -eq $existing) { "
  ++ §"  New-Service -Name $svc -BinaryPathName $binPath -DisplayName 'FBLink VPN Service' -Description 'Service for FBLink VPN' -StartupType Automatic | Out-Null; "
  ++ §"} else { " ++ §"  sc.exe config $svc binPath= $binPath start= auto | Out-Null; " ++ §"}; "
  ++ §"sc.exe description $svc 'FBLink VPN Service' | Out-Null; "
  ++ §"sc.exe failure $svc reset= 100 actions= restart/2000/restart/2000/restart/2000 | Out-Null; "
  ++ §"try { Start-Service -Name $svc -ErrorAction SilentlyContinue } catch {}; "
  ++ §"$created = Get-Service -Name $svc -ErrorAction SilentlyContinue; "
  ++ §"if ($null -ne $created) { exit 0 } else { exit 1 }".

Definition forceCreateServiceKnownGoodWindows : P bool :=
  found ← fileExistsWindows expectedServiceExecutablePathWindows;
  if negb found then mret false else
  r ← runPowerShellWindows (force_script expectedServiceExecutablePathWindows);
  mret (exited r 0).

(** *** The repair of the service *)

(** [(x || "<empty>")] *)
Definition or_empty (x : jstr) : jstr := str_or x §"<empty>".

(** The placeholders of the message are filled in order. *)
Definition showServiceInstallIncompleteWindows (expectedPath actualPath details : jstr) : P unit :=
  messageBox
    (§"Service installation is incomplete (" ++ serviceName ++ §" missing)." ++ [10; 10]
     ++ §"Details:" ++ [10] ++ §"Expected: " ++ or_empty expectedPath ++ [10]
     ++ §"Actual: " ++ or_empty actualPath
     ++ (if str_truthy details then [10; 10] ++ details else [])
     ++ [10; 10] ++ §"Please run installer as Administrator and reinstall.");;
  mret tt.

(** The state of the service and its registered path. *)
Definition probe : P (jval * jstr) :=
  svc ← queryServiceStateWindows;
  e ← access svc §"exists";
  svc ← (if truthy e then mret svc else
         b ← serviceExistsWindows;
         mret (if b : bool then JObj [(§"exists", JBool true)] else svc));
  let raw := extractExecutablePathWindows (to_text (or_else (get svc §"PathName") (JStr []))) in
  raw ← (if str_truthy raw then mret raw else currentServiceBinaryPathWindows);
  mret (svc, raw).

Definition svc_exists (svc : jval) : bool := truthy (get svc §"exists").

(** Missing, or registered for another executable. *)
Definition needs_repair (p : jval * jstr) : bool :=
  let currentPath := normalizeWindowsPath p.2 in
  negb (svc_exists p.1) ||
  (str_truthy currentPath &&
   negb (str_eqb currentPath (normalizeWindowsPath expectedServiceExecutablePathWindows))).

Definition repair : P (jval * jstr) :=
  repaired ← runInstallServiceScriptWindows;
  (if repaired : bool then mret true else registerServiceFallbackWindows);;
  sleep 1500;;
  p ← probe;
  if needs_repair p then
    (registerServiceFallbackWindows;; sleep 1200;; probe)
  else mret p.

(** The last resorts when the service is still missing. *)
Definition recover (actualPath : jstr) : P bool :=
  forced ← forceCreateServiceKnownGoodWindows;
  ready ← (if forced : bool then (sleep 1000;; serviceExistsWindows) else mret false);
  if ready : bool then mret true else
  runPostInstallScriptWindows;;
  sleep 1000;;
  ready ← serviceExistsWindows;
  if ready : bool then mret true else
  candidates ← serviceExecutablePathCandidatesForRegistrationWindows;
  found ← for_first candidates (λ c,
            let c := trim c in
            b ← (if str_truthy c then fileExistsWindows c else mret false);
            mret (if b : bool then Some c else None));
  details ← match found with
            | Some c => mret (§"Service executable was found but registration failed: " ++ c)
            | None =>
                b ← fileExistsWindows expectedServiceExecutablePathWindows;
                mret (if b : bool then [] else
                      §"Service executable file is missing: " ++ expectedServiceExecutablePathWindows)
            end;
  showServiceInstallIncompleteWindows expectedServiceExecutablePathWindows actualPath details;;
  mret false.

Definition startService (actualPath : jstr) : P bool :=
  running ← serviceIsRunningWindows;
  if running : bool then mret true else
  execute §"sc" [§"start"; serviceName];;
  running ← wait_until 10 1200 serviceIsRunningWindows;
  if running : bool then mret true else
  svc ← queryServiceStateWindows;
  e ← access svc §"State";
  let details :=
    §"Service status: " ++ to_text (or_else e (JStr §"unknown")) ++ §", exit code: "
    ++ to_text (or_else (get svc §"ExitCode") (JNum 0)) in
  registered ← serviceExistsWindows;
  if registered : bool then mret true else
  showServiceInstallIncompleteWindows
    (normalizeWindowsPath expectedServiceExecutablePathWindows) (normalizeWindowsPath actualPath) details;;
  mret false.

Definition ensureServiceStartedAndRunningWindows : P bool :=
  p ← probe;
  p ← (if needs_repair p then repair else mret p);
  if negb (svc_exists p.1) then recover p.2 else startService p.2.

(** *** The life of the component *)

Definition clickButton (b : Button) : P unit := record (ClickButton b).
Definition addElevatedOperation (args : list jstr) : P unit := record (AddElevatedOperation args).

(** [shown]: the framework added the page with its widget; [toggles]: what the
    user does to the check box of the page. *)
Definition componentLoaded (shown : bool) (toggles : list bool) : P unit :=
  if negb (runningOnWindows setup) || negb (isInstaller setup) then mret tt else
  setValue §"InstallYandexBrowser" §"true";;
  if shown then
    (record (SetDefaultPageVisible §"ReadyForInstallation" false);;
     for_first toggles (λ checked : bool,
       setValue §"InstallYandexBrowser" (if checked then §"true" else §"false");; mret (@None unit));;
     mret tt)
  else mret tt.

Definition installationFinishedPageIsShown : P unit :=
  when (isInstaller setup && success setup) (clickButton FinishButton).

(** A script that runs if it exists, with its output in the installer's log. *)
Definition logged_call (script name : jstr) : jstr :=
  let log := dq ++ §"%TEMP%\FBLinkVPN-installer.log" ++ dq ++ §" 2>&1" in
  §"if exist " ++ dq ++ script ++ dq ++ §" (call " ++ dq ++ script ++ dq ++ §" >> " ++ log
  ++ §") else (echo WARN: missing " ++ name ++ §" >> " ++ log ++ §") & exit /b 0".

Definition shortcut (target : jstr) (exe : jstr) : list jstr :=
  [§"CreateShortcut"; §"@TargetDir@/" ++ exe; target; §"workingDirectory=@TargetDir@";
   §"iconPath=@TargetDir@\" ++ exe; §"iconId=0"].

(** [vc]: [vcRuntimeIsInstalled()], a search of the framework. *)
Definition createOperations (vc : bool) : P unit :=
  if runningOnWindows setup then
    link ← appLinkName;
    exe ← appExecutableFileName;
    when (str_truthy (public_dir setup))
      (addElevatedOperation
         (shortcut (replace_unit 92 [47] (public_dir setup) ++ §"/Desktop/" ++ link ++ §".lnk") exe));;
    menu ← value §"AllUsersStartMenuProgramsPath";
    addElevatedOperation (shortcut (menu ++ §"/" ++ link ++ §".lnk") exe);;
    when (negb vc)
      (addElevatedOperation
         [§"Execute";
          §"@TargetDir@\" ++ (if includes (currentCpuArchitecture setup) §"64"
                              then §"vc_redist.x64.exe" else §"vc_redist.x86.exe");
          §"/install"; §"/quiet"; §"/norestart"; §"/log"; §"vc_redist.log"]);;
    dir ← value §"TargetDir";
    let pu_path := backslashed dir ++ §"\" in
    addElevatedOperation
      [§"Execute"; §"cmd"; §"/c"; logged_call (pu_path ++ §"install_service.cmd") §"install_service.cmd";
       §"UNDOEXECUTE"; §"cmd"; §"/c";
       logged_call (pu_path ++ §"post_uninstall.cmd") §"post_uninstall.cmd"];;
    addElevatedOperation
      [§"Execute"; §"cmd"; §"/c"; logged_call (pu_path ++ §"post_install.cmd") §"post_install.cmd"]
  else if runningOnMacOS setup then
    addElevatedOperation
      [§"Execute"; §"@TargetDir@/post_install.sh"; §"UNDOEXECUTE"; §"@TargetDir@/post_uninstall.sh"]
  else
    when (runningOnLinux setup)
      (addElevatedOperation
         [§"Execute"; §"bash"; §"@TargetDir@/post_install.sh"; §"UNDOEXECUTE"; §"bash";
          §"@TargetDir@/post_uninstall.sh"]).

(** What the Windows branch of [installationFinished] settles: the installer
    of the browser to launch, or [None] when the service is not ready. *)
Definition finishWindows : P (option (option jstr)) :=
  wanted ← value §"InstallYandexBrowser";
  dir ← value §"TargetDir";
  let launchYandex := isInstaller setup && str_eqb wanted §"true" in
  ready ← ensureServiceStartedAndRunningWindows;
  execute §"sc" [§"failure"; serviceName; §"reset="; §"100"; §"actions=";
                 §"restart/2000/restart/2000/restart/2000"];;
  mret (if ready : bool then
          Some (if launchYandex then Some (backslashed dir ++ §"\YandexDownloader.exe") else None)
        else None).

(** On the other systems there is nothing to check. *)
Definition finishPlatform : P (option (option jstr)) :=
  if runningOnWindows setup then finishWindows else mret (Some None).

Definition clientCommand : P jstr :=
  n ← appName;
  exe ← appExecutableFileName;
  mret (if runningOnWindows setup then §"@TargetDir@/" ++ exe
        else if runningOnMacOS setup then §"/Applications/" ++ n ++ §".app/Contents/MacOS/" ++ n
        else if runningOnLinux setup then §"@TargetDir@/client/" ++ n else []).

Definition launchClient (yandex : option jstr) : P unit :=
  command ← clientCommand;
  dir ← value §"TargetDir";
  dropAdminRights;;
  executeDetached command [] dir;;
  match yandex with
  | Some y =>
      b ← fileExistsWindows y;
      when b (executeDetached y [] dir)
  | None => mret tt
  end.

Definition installationFinished : P unit :=
  if negb (success setup && (isInstaller setup || isUpdater setup)) then mret tt else
  granted ← gainAdminRights;
  if negb granted then mret tt else
  r ← finishPlatform;
  match r with
  | None => dropAdminRights
  | Some yandex => launchClient yandex
  end.

(** The constructor connects the handlers above to the framework's signals. *)
Definition Component (shown : bool) (toggles : list bool) : list (jstr * P unit) :=
  [(§"component.loaded", componentLoaded shown toggles);
   (§"installer.installationFinished", installationFinishedPageIsShown);
   (§"installer.finishButtonClicked", installationFinished)].

(** The message about a restart, at most once; [shown] is the script's
    variable [rebootMessageShown].  Nothing in the sources calls it. *)
Definition reboot_message : jstr :=
  §"Installation is complete. Please reboot your computer to apply VPN service and routing changes.".

Definition showRebootRequiredMessage (shown : bool) : P bool :=
  if shown then mret true else (messageBox reboot_message;; mret true).
End OnMachine.
End Script.

(** ** A concrete machine *)

(** A machine on which every program succeeds silently. *)
#[export] Instance calm_machine : Machine unit := {|
  run_program _ _ _ := (Some ([], 0), tt);
  path_exists _ _ := (true, tt);
  grant_admin _ := (true, tt);
  press _ _ := (OkButton, tt);
|}.

Definition windows_setup : Setup :=
  {| kernelType := §"winnt"; isInstaller := true; isUpdater := false; isUninstaller := false;
     success := true; currentCpuArchitecture := §"x86_64"; public_dir := §"C:\Users\Public" |}.

Definition calm_world : World unit :=
  {| env := tt; values := [(§"Name", §"FBLinkVPN"); (§"TargetDir", §"C:/Program Files/FBLink VPN");
                           (§"InstallYandexBrowser", §"true")]; trace := [] |}.
