(* ===== verification/InstallerSpec.v ===== *)
(** * What the component script guarantees

    For every machine: the client is launched without administrator rights
    and, on Windows, only after the service manager has confirmed the service;
    the waiting of the repair is bounded. *)
From S2P Require Export Installer.

(** ** The trace grows *)

Section Growth.
Context {E : Type}.

(** The calls between two worlds, all of a kind. *)
Definition extends (K : Call → Prop) (w w' : World E) : Prop :=
  values w' = values w ∧ ∃ new, trace w' = trace w ++ new ∧ Forall K new.

#[export] Instance extends_preorder K : PreOrder (extends K).
Proof.
  split.
  - intros w. split; [done|]. exists []. by rewrite app_nil_r.
  - intros w1 w2 w3 (Hv & n1 & E1 & H1) (Hv' & n2 & E2 & H2). split; [congruence|].
    exists (n1 ++ n2). split; [by rewrite E2, E1, app_assoc|by apply Forall_app].
Qed.

Lemma extends_one K w w' c :
  values w' = values w → trace w' = trace w ++ [c] → K c → extends K w w'.
Proof. intros Hv Ht Hc. split; [done|]. exists [c]. auto. Qed.
End Growth.

Section Calls.
Context `{JsHost} {E : Type} `{Machine E}.
Implicit Types (K : Call → Prop).

Lemma execute_extends K p a :
  (∀ r, K (Execute p a r)) → preserves (extends K) (execute (E:=E) p a).
Proof.
  intros HK w. unfold execute. destruct (run_program p a (env w)) as [r e].
  by apply (extends_one K _ _ (Execute p a r)).
Qed.

Lemma messageBox_extends K t : (∀ b, K (MessageBox t b)) → preserves (extends K) (messageBox (E:=E) t).
Proof.
  intros HK w. unfold messageBox. destruct (press t (env w)) as [r e].
  by apply (extends_one K _ _ (MessageBox t r)).
Qed.

Lemma record_extends K c : K c → preserves (extends K) (record (E:=E) c).
Proof. intros HK w. by apply (extends_one K _ _ c). Qed.

Lemma value_extends K k : preserves (extends K) (value (E:=E) k).
Proof. apply preserves_gets. tc_solve. Qed.

(** ** What the repair of the service may do *)

(** Programs, messages and pauses: neither rights nor launches. *)
Definition neutral (c : Call) : Prop :=
  match c with Execute _ _ _ | MessageBox _ _ | Sleep _ => True | _ => False end.

Lemma execute_neutral p a : preserves (extends neutral) (execute (E:=E) p a).
Proof. by apply execute_extends. Qed.
Lemma messageBox_neutral t : preserves (extends neutral) (messageBox (E:=E) t).
Proof. by apply messageBox_extends. Qed.
Lemma sleep_neutral ms : preserves (extends neutral) (sleep (E:=E) ms).
Proof. by apply record_extends. Qed.
Lemma value_neutral k : preserves (extends neutral) (value (E:=E) k).
Proof. apply value_extends. Qed.
End Calls.
#[export] Hint Resolve execute_neutral messageBox_neutral sleep_neutral value_neutral : effects.

Section Repair.
Context `{JsHost} {E : Type} `{Machine E} (setup : Setup).
Abbreviation keeps c := (preserves (extends (E:=E) neutral) c).

Lemma isRunning_neutral : keeps serviceIsRunningWindows.
Proof. unfold serviceIsRunningWindows, runPowerShellWindows. preserve. Qed.
Lemma exists_neutral : keeps serviceExistsWindows.
Proof. unfold serviceExistsWindows, runCmdWindows. preserve. Qed.
Lemma fileExists_neutral p : keeps (fileExistsWindows p).
Proof. unfold fileExistsWindows, runPowerShellWindows. preserve. Qed.
Lemma wildcard_neutral d : keeps (findServiceExecutableByWildcardWindows d).
Proof. unfold findServiceExecutableByWildcardWindows, runPowerShellWindows. preserve. Qed.
Lemma currentPath_neutral : keeps currentServiceBinaryPathWindows.
Proof. unfold currentServiceBinaryPathWindows, runPowerShellWindows. preserve. Qed.
Lemma query_neutral : keeps queryServiceStateWindows.
Proof. unfold queryServiceStateWindows, runPowerShellWindows. preserve. Qed.
Lemma runScript_neutral n : keeps (runScriptWindows n).
Proof. unfold runScriptWindows. preserve. Qed.
Lemma candidates_neutral : keeps serviceExecutablePathCandidatesForRegistrationWindows.
Proof.
  unfold serviceExecutablePathCandidatesForRegistrationWindows, serviceExecutableFileName, appName.
  preserve. apply wildcard_neutral.
Qed.
Lemma wait_neutral n ms t : keeps t → keeps (wait_until n ms t).
Proof. intros. unfold wait_until. preserve; done. Qed.
End Repair.
#[export] Hint Resolve isRunning_neutral exists_neutral fileExists_neutral wildcard_neutral
  currentPath_neutral query_neutral runScript_neutral candidates_neutral wait_neutral : effects.

Section Repaired.
Context `{JsHost} {E : Type} `{Machine E} (setup : Setup).
Abbreviation keeps c := (preserves (extends (E:=E) neutral) c).

Lemma registerPath_neutral p : keeps (registerServiceFallbackWindowsWithPathWindows p).
Proof.
  unfold registerServiceFallbackWindowsWithPathWindows, registerServiceViaPowerShellWindows, scCreate, sc,
    runCmdWindows, runPowerShellWindows, wait_until. preserve.
Qed.
Lemma registerFallback_neutral : keeps registerServiceFallbackWindows.
Proof.
  unfold registerServiceFallbackWindows, runCmdWindows. preserve. apply registerPath_neutral.
Qed.
Lemma force_neutral : keeps forceCreateServiceKnownGoodWindows.
Proof. unfold forceCreateServiceKnownGoodWindows, runPowerShellWindows. preserve. Qed.
Lemma incomplete_neutral e a d : keeps (showServiceInstallIncompleteWindows e a d).
Proof. unfold showServiceInstallIncompleteWindows. preserve. Qed.
Lemma probe_neutral : keeps probe.
Proof. unfold probe. preserve. Qed.
Lemma repair_neutral : keeps repair.
Proof.
  unfold repair, runInstallServiceScriptWindows. preserve;
    auto using registerFallback_neutral, probe_neutral.
Qed.
Lemma recover_neutral a : keeps (recover a).
Proof.
  unfold recover, runPostInstallScriptWindows. preserve; auto using force_neutral, incomplete_neutral.
Qed.
Lemma startService_neutral a : keeps (startService a).
Proof. unfold startService, wait_until. preserve. apply incomplete_neutral. Qed.
Lemma ensure_neutral : keeps ensureServiceStartedAndRunningWindows.
Proof.
  unfold ensureServiceStartedAndRunningWindows. preserve;
    auto using probe_neutral, repair_neutral, recover_neutral, startService_neutral.
Qed.
Lemma finishWindows_neutral : keeps (finishWindows setup).
Proof. unfold finishWindows. preserve. apply ensure_neutral. Qed.
Lemma finishPlatform_neutral : keeps (finishPlatform setup).
Proof. unfold finishPlatform. preserve. apply finishWindows_neutral. Qed.
End Repaired.

(** ** Rights *)

(** Whether the installer holds administrator rights after the calls. *)
Definition rights (held : bool) (c : Call) : bool :=
  match c with GainAdminRights true => true | DropAdminRights => false | _ => held end.
Definition privileged (held : bool) (calls : list Call) : bool := foldl rights held calls.

Definition launches (c : Call) : bool :=
  match c with ExecuteDetached _ _ _ => true | _ => false end.

(** No launch while rights are held. *)
Fixpoint launches_plainly (held : bool) (calls : list Call) : bool :=
  match calls with
  | [] => true
  | c :: calls => negb (launches c && held) && launches_plainly (rights held c) calls
  end.

Lemma launches_plainly_app h a b :
  launches_plainly h (a ++ b) = launches_plainly h a && launches_plainly (privileged h a) b.
Proof.
  revert h. induction a as [|c a IH]; intros h; simpl; [done|]. by rewrite IH, andb_assoc.
Qed.

Lemma privileged_app h a b : privileged h (a ++ b) = privileged (privileged h a) b.
Proof. apply foldl_app. Qed.

Lemma neutral_rights h calls :
  Forall neutral calls → privileged h calls = h ∧ launches_plainly h calls = true.
Proof.
  induction 1 as [|c calls Hc Hcs IH]; [done|]. destruct c; try done; simpl in *.
Qed.

(** No rights are asked for: launches may happen. *)
Definition unprivileged (c : Call) : Prop :=
  match c with GainAdminRights _ => False | _ => True end.

Lemma unprivileged_rights calls :
  Forall unprivileged calls → privileged false calls = false ∧ launches_plainly false calls = true.
Proof.
  induction 1 as [|c calls Hc Hcs IH]; [done|].
  destruct c; try done; simpl in *; rewrite ?andb_false_r; done.
Qed.

Section Finished.
Context `{JsHost} {E : Type} `{Machine E} (setup : Setup).
Implicit Types w : World E.

Lemma launchClient_unprivileged y w :
  ∃ new, trace (launchClient setup y w).2 = trace w ++ DropAdminRights :: new ∧
         Forall unprivileged new.
Proof.
  unfold launchClient. assert (∀ w, ∃ c, clientCommand setup w = (Ok c, w)) as Hcmd.
  { intros w'. eexists. reflexivity. }
  rewrite bind_run. destruct (Hcmd w) as [c ->]. rewrite bind_run. cbn [value gets].
  rewrite bind_run. cbn [dropAdminRights record modify].
  set (w1 := w <| trace := trace w ++ [DropAdminRights] |>).
  assert (preserves (extends unprivileged)
    (executeDetached (E:=E) c [] (from_option snd [] (find_first (λ f, str_eqb f.1 §"TargetDir") (values w)));;
     match y with
     | Some y => b ← fileExistsWindows y;
                 when b (executeDetached y [] (from_option snd []
                   (find_first (λ f, str_eqb f.1 §"TargetDir") (values w))))
     | None => mret tt
     end)) as Hp.
  { unfold fileExistsWindows, runPowerShellWindows. preserve.
    all: try by apply record_extends. by apply execute_extends. }
  destruct (Hp w1) as (_ & new & Ht & Hn). exists new. split; [|done].
  rewrite Ht. unfold w1. simpl. by rewrite <-app_assoc.
Qed.

End Finished.

(** ** Readiness *)

Definition powershell_args (script : jstr) : list jstr :=
  [§"-NoProfile"; §"-ExecutionPolicy"; §"Bypass"; §"-Command"; script].

(** A call by which Windows says that the service is registered or runs. *)
Definition confirmation (c : Call) : Prop :=
  match c with
  | Execute p a (Some (_, code)) =>
      code = 0 ∧
      ((p = §"sc" ∧ a = [§"query"; serviceName]) ∨
       (p = §"cmd" ∧ a = [§"/c"; registry_query]) ∨
       (p = §"powershell" ∧ a = powershell_args running_script))
  | _ => False
  end.

Section Confirmation.
Context `{JsHost} {E : Type} `{Machine E}.
Implicit Types w : World E.

Definition confirmed w w' : Prop :=
  ∃ new x, trace w' = trace w ++ new ∧ x ∈ new ∧ confirmation x.

Lemma confirmed_after K w w1 w2 : extends K w w1 → confirmed w1 w2 → confirmed w w2.
Proof.
  intros (_ & n1 & E1 & _) (n2 & x & E2 & Hx & Hc). exists (n1 ++ n2), x.
  split_and!; [by rewrite E2, E1, app_assoc|apply elem_of_app; by right|done].
Qed.

Lemma confirmed_before K w w1 w2 : confirmed w w1 → extends K w1 w2 → confirmed w w2.
Proof.
  intros (n1 & x & E1 & Hx & Hc) (_ & n2 & E2 & _). exists (n1 ++ n2), x.
  split_and!; [by rewrite E2, E1, app_assoc|apply elem_of_app; by left|done].
Qed.

(** A check that answers [true] has seen a confirmation. *)
Definition confirms (c : M (World E) bool) : Prop :=
  ∀ w w', c w = (Ok true, w') → confirmed w w'.

Lemma confirms_false : confirms (mret false).
Proof. by intros w w' [=]. Qed.

Lemma confirms_bind {A} (c : M (World E) A) f :
  preserves (extends neutral) c → (∀ a, confirms (f a)) → confirms (c ≫= f).
Proof.
  intros Hc Hf w w'. rewrite bind_run. specialize (Hc w). destruct (c w) as [[a|] w1]; [|done].
  intros Hr. eapply confirmed_after; [exact Hc|]. by eapply Hf.
Qed.

(** [if (check) return true; ...] *)
Lemma confirms_or c d :
  confirms c → preserves (extends neutral) c → confirms d →
  confirms (b ← c; if b : bool then mret true else d).
Proof.
  intros Hc Hp Hd w w'. rewrite bind_run. specialize (Hc w). specialize (Hp w).
  destruct (c w) as [[[]|] w1]; [| |done].
  - intros [= <-]. by apply Hc.
  - intros Hr. eapply confirmed_after; [exact Hp|]. by eapply Hd.
Qed.

Lemma confirms_execute p a :
  (∀ o, confirmation (Execute p a (Some (o, 0)))) → confirms (r ← execute p a; mret (exited r 0)).
Proof.
  intros Hc w w'. rewrite bind_run. unfold execute. destruct (run_program p a (env w)) as [r e].
  intros [= Hx <-]. destruct r as [[o c]|]; [|done]. simpl in Hx. apply Z.eqb_eq in Hx as ->.
  eexists _, _. split_and!; [reflexivity|by left|apply Hc].
Qed.

Lemma isRunning_confirms : confirms serviceIsRunningWindows.
Proof. apply confirms_execute. intros o. split; [done|]. by right; right. Qed.

Lemma exists_confirms : confirms serviceExistsWindows.
Proof.
  intros w w'. unfold serviceExistsWindows. rewrite bind_run.
  pose proof (confirms_execute §"sc" [§"query"; serviceName]) as Hq.
  specialize (Hq (λ o, conj eq_refl (or_introl (conj eq_refl eq_refl))) w).
  rewrite bind_run in Hq. pose proof (execute_neutral §"sc" [§"query"; serviceName] w) as Hn.
  destruct (execute _ _ w) as [[r|] w1]; [|done].
  destruct (exited r 0).
  - intros [= <-]. by apply Hq.
  - intros Hr. eapply confirmed_after; [exact Hn|]. revert Hr. apply confirms_execute.
    intros o. split; [done|]. by right; left.
Qed.

Lemma attempts_confirms n ms test w w' :
  confirms test → preserves (extends neutral) test →
  attempts n (b ← test; if b : bool then mret (Some tt) else (sleep ms;; mret None)) w
    = (Ok (Some tt), w') → confirmed w w'.
Proof.
  intros Ht Hp. revert w. induction n as [|n IH]; intros w; [done|]. cbn [attempts].
  rewrite bind_run, bind_run. specialize (Ht w). specialize (Hp w).
  destruct (test w) as [[[]|] w1]; [| |done].
  - intros [= <-]. by apply Ht.
  - intros Hr. eapply confirmed_after; [exact Hp|].
    eapply confirmed_after; [apply (sleep_neutral ms)|]. by apply IH.
Qed.

Lemma wait_confirms n ms test :
  confirms test → preserves (extends neutral) test → confirms (wait_until n ms test).
Proof.
  intros Ht Hp w w'. unfold wait_until. rewrite bind_run.
  destruct (attempts _ _ w) as [[[[]|]|] w1] eqn:Ea; [|done..]. intros [= <-].
  by eapply attempts_confirms.
Qed.

Lemma recover_confirms a : confirms (recover a).
Proof.
  unfold recover. apply confirms_bind; [apply force_neutral|]. intros forced.
  apply confirms_or.
  - destruct forced; [|apply confirms_false].
    apply confirms_bind; [apply sleep_neutral|]. intros _. apply exists_confirms.
  - preserve.
  - apply confirms_bind; [apply runScript_neutral|]. intros _.
    apply confirms_bind; [apply sleep_neutral|]. intros _.
    apply confirms_or; [apply exists_confirms|apply exists_neutral|].
    apply confirms_bind; [apply candidates_neutral|]. intros cs.
    apply confirms_bind; [preserve|]. intros found.
    apply confirms_bind; [preserve|]. intros d.
    apply confirms_bind; [apply incomplete_neutral|]. intros _. apply confirms_false.
Qed.

Lemma startService_confirms a : confirms (startService a).
Proof.
  unfold startService. apply confirms_or; [apply isRunning_confirms|apply isRunning_neutral|].
  apply confirms_bind; [apply execute_neutral|]. intros _.
  apply confirms_or.
  { apply wait_confirms; [apply isRunning_confirms|apply isRunning_neutral]. }
  { apply wait_neutral, isRunning_neutral. }
  apply confirms_bind; [apply query_neutral|]. intros svc.
  apply confirms_bind; [preserve|]. intros st.
  apply confirms_or; [apply exists_confirms|apply exists_neutral|].
  apply confirms_bind; [apply incomplete_neutral|]. intros _. apply confirms_false.
Qed.

Lemma ensure_confirms : confirms ensureServiceStartedAndRunningWindows.
Proof.
  unfold ensureServiceStartedAndRunningWindows.
  apply confirms_bind; [apply probe_neutral|]. intros p.
  apply confirms_bind; [destruct (needs_repair p); [apply repair_neutral|preserve]|]. intros q.
  destruct (negb _); [apply recover_confirms|apply startService_confirms].
Qed.

Context (setup : Setup).

Lemma finishWindows_confirms w y w' : finishWindows setup w = (Ok (Some y), w') → confirmed w w'.
Proof.
  unfold finishWindows. rewrite bind_run. cbn [value gets]. rewrite bind_run. cbn [value gets].
  rewrite bind_run. pose proof (ensure_confirms w) as Hc.
  destruct (ensureServiceStartedAndRunningWindows w) as [[[]|] w1]; [| |done].
  - rewrite bind_run. intros Hr. specialize (Hc w1 eq_refl).
    pose proof (execute_neutral §"sc" [§"failure"; serviceName; §"reset="; §"100"; §"actions=";
      §"restart/2000/restart/2000/restart/2000"] w1) as Hn.
    destruct (execute _ _ w1) as [[r|] w2]; [|done]. injection Hr as _ <-.
    by eapply confirmed_before.
  - rewrite bind_run. by destruct (execute _ _ w1) as [[r|] w2].
Qed.

Lemma neutral_launches calls : Forall neutral calls → existsb launches calls = false.
Proof. induction 1 as [|c calls Hc Hcs IH]; [done|]. by destruct c. Qed.

(** C16: on Windows, whatever the machine answers, nothing is launched at the
    end of an installation unless the service manager, the registry or
    PowerShell has confirmed that the service is registered or running. *)
Theorem finished_ready w :
  runningOnWindows setup = true →
  ∃ new, trace (installationFinished setup w).2 = trace w ++ new ∧
    (existsb launches new = true → ∃ x, x ∈ new ∧ confirmation x).
Proof.
  intros Hw. unfold installationFinished. destruct (negb (success setup && _)).
  { exists []. by rewrite app_nil_r. }
  rewrite bind_run. unfold gainAdminRights. destruct (grant_admin (env w)) as [[] e]; cbn [negb].
  2: { eexists. split; [reflexivity|done]. }
  set (w1 := {| env := e; values := values w; trace := trace w ++ [GainAdminRights true] |}).
  rewrite bind_run. pose proof (finishPlatform_neutral setup w1) as (_ & n1 & Ht & Hn).
  unfold finishPlatform in *. rewrite Hw in *. pose proof (finishWindows_confirms w1) as Hc.
  destruct (finishWindows setup w1) as [[[y|]|ex] w2]; simpl in Ht.
  - destruct (Hc y w2 eq_refl) as (n & x & Hx & Hin & Hcf). rewrite Ht in Hx. simplify_list_eq.
    destruct (launchClient_unprivileged setup y w2) as (n2 & Ht2 & _).
    exists (GainAdminRights true :: n ++ DropAdminRights :: n2).
    split; [by rewrite Ht2, Ht; simplify_list_eq|]. intros _. exists x. split; [|done]. set_solver.
  - exists (GainAdminRights true :: n1 ++ [DropAdminRights]).
    split; [simpl; by rewrite Ht, <-!app_assoc|].
    simpl. by rewrite existsb_app, neutral_launches.
  - exists (GainAdminRights true :: n1). split; [simpl; by rewrite Ht, <-app_assoc|].
    simpl. by rewrite neutral_launches.
Qed.
End Confirmation.

Definition calm_trace : list Call :=
  trace (@installationFinished plain_host unit _ windows_setup calm_world).2.

Lemma finished_ready_witness :
  existsb launches calm_trace = true ∧ runningOnWindows windows_setup = true ∧
  ∃ new, calm_trace = trace calm_world ++ new ∧
    (existsb launches new = true → ∃ x, x ∈ new ∧ confirmation x).
Proof.
  split; [vm_compute; reflexivity|]. split; [vm_compute; reflexivity|].
  apply (finished_ready (H := plain_host) windows_setup calm_world). vm_compute. reflexivity.
Defined.

(** ** Waiting *)

Definition pause (c : Call) : Z := match c with Sleep ms => ms | _ => 0 end.
Definition slept (calls : list Call) : Z := foldr (λ c n, pause c + n) 0 calls.

Lemma slept_app a b : slept (a ++ b) = slept a + slept b.
Proof. induction a as [|c a IH]; simpl; [done|]. rewrite IH. lia. Qed.

Section Waiting.
Context `{JsHost} {E : Type} `{Machine E}.
Implicit Types (w : World E).

(** [c] pauses for at most [n] milliseconds, and its results satisfy [Q]. *)
Definition waits {A} (c : M (World E) A) (n : Z) (Q : A → Prop) : Prop :=
  ∀ w, (∃ new, trace (c w).2 = trace w ++ new ∧ slept new ≤ n) ∧ (∀ a, (c w).1 = Ok a → Q a).

Abbreviation within c n := (waits c n (λ _, True)).

Lemma waits_ret {A} (a : A) (Q : A → Prop) : Q a → waits (mret a) 0 Q.
Proof.
  intros Ha w. split; [exists []; by rewrite app_nil_r|]. by intros b [= <-].
Qed.

Lemma waits_bind {A B} (c : M (World E) A) (f : A → M (World E) B) n m k P Q :
  waits c n P → (∀ a, P a → waits (f a) m Q) → 0 ≤ m → n + m ≤ k → waits (c ≫= f) k Q.
Proof.
  intros Hc Hf Hm Hk w. rewrite bind_run. destruct (Hc w) as [(n1 & E1 & S1) HP].
  destruct (c w) as [[a|e] w1]; simpl in *.
  - destruct (Hf a (HP a eq_refl) w1) as [(n2 & E2 & S2) HQ]. split; [|done].
    exists (n1 ++ n2). rewrite E2, E1, app_assoc, slept_app. split; [done|lia].
  - split; [|done]. exists n1. split; [done|lia].
Qed.

Lemma waits_weaken {A} (c : M (World E) A) n k P : n ≤ k → waits c n P → waits c k P.
Proof. intros Hk Hc w. destruct (Hc w) as [(new & ? & ?) ?]. split; [exists new; split; [done|lia]|done]. Qed.

(** The waiting of calls that do not pause. *)
Definition pauseless (c : Call) : Prop := pause c = 0.

Lemma pauseless_within {A} (c : M (World E) A) : preserves (extends pauseless) c → within c 0.
Proof.
  intros Hc w. destruct (Hc w) as (_ & new & Ht & Hn). split; [|done]. exists new. split; [done|]. clear Ht.
  induction Hn as [|x l Hx Hl IH]; simpl; [done|]. unfold pauseless in Hx. lia.
Qed.

Lemma sleep_within ms : within (sleep ms) ms.
Proof. intros w. split; [|done]. exists [Sleep ms]. split; [done|]. simpl. lia. Qed.

Lemma attempts_within {A} n (body : M (World E) (option A)) k :
  0 ≤ k → within body k → within (attempts n body) (Z.of_nat n * k).
Proof.
  intros Hk Hb. induction n as [|n IH]; [by apply waits_ret|]. cbn [attempts].
  eapply (waits_bind body _ k (Z.of_nat n * k)); [exact Hb| |nia|nia]. intros [a|] _; [|exact IH].
  eapply waits_weaken; [|by apply waits_ret]. nia.
Qed.

Lemma for_first_within {A B} (l : list A) (body : A → M (World E) (option B)) k :
  0 ≤ k → (∀ x, within (body x) k) → within (for_first l body) (Z.of_nat (length l) * k).
Proof.
  intros Hk Hb. induction l as [|x l IH]; [by apply waits_ret|]. cbn [for_first length].
  eapply (waits_bind _ _ k (Z.of_nat (length l) * k)); [apply Hb| |nia|nia]. intros [a|] _; [|exact IH].
  eapply waits_weaken; [|by apply waits_ret]. nia.
Qed.

Lemma wait_until_within n ms test :
  0 ≤ ms → within test 0 → within (wait_until n ms test) (Z.of_nat n * ms).
Proof.
  intros Hms Ht. unfold wait_until. eapply waits_bind; [apply attempts_within; [exact Hms|]| |reflexivity|lia].
  - eapply waits_bind; [exact Ht| |exact Hms|lia]. intros [] _.
    + eapply waits_weaken; [|by apply waits_ret]. lia.
    + eapply waits_bind; [apply sleep_within| |reflexivity|lia]. intros _ _. by apply waits_ret.
  - intros r _. by apply waits_ret.
Qed.
End Waiting.

Section WaitingBound.
Context `{JsHost} {E : Type} `{Machine E} (setup : Setup).
Abbreviation within c n := (waits (E:=E) c n (λ _, True)).
Abbreviation quick c := (preserves (extends (E:=E) pauseless) c).

Lemma execute_quick p a : quick (execute p a).
Proof. by apply execute_extends. Qed.
Lemma messageBox_quick t : quick (messageBox t).
Proof. by apply messageBox_extends. Qed.
Lemma value_quick k : quick (value k).
Proof. apply value_extends. Qed.
#[local] Hint Resolve execute_quick messageBox_quick value_quick : effects.

Lemma isRunning_quick : quick serviceIsRunningWindows.
Proof. unfold serviceIsRunningWindows, runPowerShellWindows. preserve. Qed.
Lemma exists_quick : quick serviceExistsWindows.
Proof. unfold serviceExistsWindows, runCmdWindows. preserve. Qed.
Lemma fileExists_quick p : quick (fileExistsWindows p).
Proof. unfold fileExistsWindows, runPowerShellWindows. preserve. Qed.
Lemma currentPath_quick : quick currentServiceBinaryPathWindows.
Proof. unfold currentServiceBinaryPathWindows, runPowerShellWindows. preserve. Qed.
Lemma query_quick : quick queryServiceStateWindows.
Proof. unfold queryServiceStateWindows, runPowerShellWindows. preserve. Qed.
Lemma runScript_quick n : quick (runScriptWindows n).
Proof. unfold runScriptWindows. preserve. Qed.
Lemma candidates_quick : quick serviceExecutablePathCandidatesForRegistrationWindows.
Proof.
  unfold serviceExecutablePathCandidatesForRegistrationWindows, serviceExecutableFileName, appName,
    findServiceExecutableByWildcardWindows, runPowerShellWindows. preserve.
Qed.
#[local] Hint Resolve isRunning_quick exists_quick fileExists_quick currentPath_quick query_quick
  runScript_quick candidates_quick : effects.
Lemma probe_quick : quick probe.
Proof. unfold probe. preserve. Qed.
Lemma force_quick : quick forceCreateServiceKnownGoodWindows.
Proof. unfold forceCreateServiceKnownGoodWindows, runPowerShellWindows. preserve. Qed.
Lemma incomplete_quick e a d : quick (showServiceInstallIncompleteWindows e a d).
Proof. unfold showServiceInstallIncompleteWindows. preserve. Qed.
#[local] Hint Resolve probe_quick force_quick incomplete_quick : effects.

(** A quick call followed by the rest; a pause followed by the rest. *)
Lemma within_then {A B} (c : M (World E) A) (f : A → M (World E) B) n :
  0 ≤ n → quick c → (∀ a, within (f a) n) → within (c ≫= f) n.
Proof.
  intros Hn Hc Hf. eapply waits_bind; [by apply pauseless_within| |exact Hn|lia]. intros a _. apply Hf.
Qed.

Lemma within_seq {A B} (c : M (World E) A) (f : A → M (World E) B) n m k :
  within c n → (∀ a, within (f a) m) → 0 ≤ m → n + m ≤ k → within (c ≫= f) k.
Proof. intros Hc Hf. eapply waits_bind; [exact Hc|]. intros a _. apply Hf. Qed.

Lemma within_quick {A} (c : M (World E) A) n : 0 ≤ n → quick c → within c n.
Proof. intros Hn Hc. eapply waits_weaken; [exact Hn|]. by apply pauseless_within. Qed.

Lemma scCreate_within p : within (scCreate p) 1200.
Proof.
  unfold scCreate, sc, runCmdWindows.
  apply within_then; [lia|preserve|]. intros _. apply within_then; [lia|preserve|]. intros _.
  eapply within_seq; [apply sleep_within| |reflexivity|lia]. intros _.
  apply within_quick; [lia|preserve].
Qed.

Lemma registerPath_within p : within (registerServiceFallbackWindowsWithPathWindows p) 29200.
Proof.
  unfold registerServiceFallbackWindowsWithPathWindows.
  eapply (within_seq _ _ (20 * 500) 19200); [|intros found|lia|lia].
  { apply (wait_until_within 20 500); [lia|]. apply pauseless_within. unfold runCmdWindows. preserve. }
  destruct found; cbn [negb]; [|by apply within_quick; [lia|preserve]].
  apply within_then; [lia|unfold registerServiceViaPowerShellWindows, runPowerShellWindows; preserve|].
  intros registered. eapply (within_seq _ _ 1200 18000); [|intros created|lia|lia].
  { destruct registered; [apply within_quick; [lia|preserve]|apply scCreate_within]. }
  destruct created; cbn [negb]; [|by apply within_quick; [lia|preserve]].
  eapply (within_seq _ _ (20 * 500) 8000); [|intros ex|lia|lia].
  { apply (wait_until_within 20 500); [lia|]. apply pauseless_within, exists_quick. }
  destruct ex; cbn [negb]; [|by apply within_quick; [lia|preserve]].
  apply within_then; [lia|preserve|]. intros _.
  apply within_then; [lia|unfold sc, runCmdWindows; preserve|]. intros _.
  eapply (within_seq _ _ (8 * 1000) 0); [|intros run|lia|lia].
  { apply (wait_until_within 8 1000); [lia|]. apply pauseless_within, isRunning_quick. }
  apply within_quick; [lia|]. preserve.
Qed.

Lemma pushes_length l acc : (length (foldl uniquePushString acc l) ≤ length acc + length l)%nat.
Proof.
  revert acc. induction l as [|x l IH]; intros acc; simpl; [lia|]. etransitivity; [apply IH|].
  unfold uniquePushString. repeat case_match; rewrite ?length_app; simpl; lia.
Qed.

Lemma candidates_within :
  waits (E:=E) serviceExecutablePathCandidatesForRegistrationWindows 0 (λ l, (length l ≤ 5)%nat).
Proof.
  intros w. destruct (pauseless_within (E:=E) _ candidates_quick w) as [Hw _]. split; [exact Hw|].
  intros l. unfold serviceExecutablePathCandidatesForRegistrationWindows.
  rewrite bind_run. cbn [value gets]. rewrite bind_run.
  destruct (serviceExecutableFileName w) as [[exe|] w1]; [|done]. rewrite bind_run.
  destruct (findServiceExecutableByWildcardWindows _ w1) as [[wc|] w2]; [|done].
  intros [= <-]. unfold pushes. etransitivity; [apply pushes_length|]. simpl. lia.
Qed.

Lemma fallback_within : within registerServiceFallbackWindows 146000.
Proof.
  unfold registerServiceFallbackWindows.
  eapply (waits_bind _ _ 0 146000); [apply candidates_within| |lia|lia]. intros l Hl. cbn beta in Hl.
  eapply (within_seq _ _ (Z.of_nat (length l) * 29200) 0); [|intros r; by apply waits_ret|lia|lia].
  apply for_first_within; [lia|]. intros c. cbv zeta.
  destruct (_ =? 0)%nat; [by apply within_quick; [lia|preserve]|].
  apply within_then; [lia|unfold runCmdWindows; preserve|]. intros found.
  destruct (negb _); [by apply within_quick; [lia|preserve]|].
  eapply (within_seq _ _ 29200 0); [apply registerPath_within|intros d; by apply waits_ret|lia|lia].
Qed.

Lemma repair_within : within repair 294700.
Proof.
  unfold repair. apply within_then; [lia|unfold runInstallServiceScriptWindows; preserve|]. intros ok.
  eapply (within_seq _ _ 146000 148700); [|intros _|lia|lia].
  { destruct ok; [apply within_quick; [lia|preserve]|apply fallback_within]. }
  eapply (within_seq _ _ 1500 147200); [apply sleep_within|intros _|lia|lia].
  apply within_then; [lia|preserve|]. intros p. destruct (needs_repair p).
  - eapply (within_seq _ _ 146000 1200); [apply fallback_within|intros _|lia|lia].
    eapply (within_seq _ _ 1200 0); [apply sleep_within|intros _|lia|lia].
    apply within_quick; [lia|preserve].
  - apply within_quick; [lia|preserve].
Qed.

Lemma recover_within a : within (recover a) 2000.
Proof.
  unfold recover. apply within_then; [lia|preserve|]. intros forced.
  eapply (within_seq _ _ 1000 1000); [|intros ready|lia|lia].
  { destruct forced; [|by apply within_quick; [lia|preserve]].
    eapply (within_seq _ _ 1000 0); [apply sleep_within|intros _|lia|lia].
    apply within_quick; [lia|preserve]. }
  destruct ready; [by apply within_quick; [lia|preserve]|].
  apply within_then; [lia|unfold runPostInstallScriptWindows; preserve|]. intros _.
  eapply (within_seq _ _ 1000 0); [apply sleep_within|intros _|lia|lia].
  apply within_quick; [lia|preserve].
Qed.

Lemma startService_within a : within (startService a) 12000.
Proof.
  unfold startService. apply within_then; [lia|preserve|]. intros run.
  destruct run; [by apply within_quick; [lia|preserve]|].
  apply within_then; [lia|preserve|]. intros _.
  eapply (within_seq _ _ (10 * 1200) 0); [|intros run|lia|lia].
  { apply (wait_until_within 10 1200); [lia|]. apply pauseless_within, isRunning_quick. }
  apply within_quick; [lia|preserve].
Qed.

End WaitingBound.
