(* ===== verification/InstallerPaths.v ===== *)
(** * Paths and quoting in the component script

    Values quoted for PowerShell are read back as they were, normalised paths
    are canonical, and the candidate lists hold no path twice. *)
From S2P Require Export Installer.

(** ** Quoting for PowerShell *)

(** PowerShell reads the typographic single quotes as quotes, too. *)
Definition ps_quote (c : Z) : bool := (c =? 39) || ((8216 <=? c) && (c <=? 8219)).

(** What follows the opening quote of a single-quoted literal: its value and
    the rest of the command; two quotes in a row are one. *)
Fixpoint ps_literal (s : jstr) : option (jstr * jstr) :=
  match s with
  | [] => None
  | c :: r =>
      if ps_quote c then
        match r with
        | d :: r' => if ps_quote d then '(v, rest) ← ps_literal r'; Some (c :: v, rest)
                     else Some ([], r)
        | [] => Some ([], [])
        end
      else '(v, rest) ← ps_literal r; Some (c :: v, rest)
  end.

Definition plain_quotes (v : jstr) : Prop := Forall (λ c, ps_quote c = true → c = 39) v.

(** A quoted value contributes itself to the literal. *)
Lemma psSingleQuote_prefix v t :
  plain_quotes v →
  ps_literal (psSingleQuote v ++ t) = '(x, rest) ← ps_literal t; Some (v ++ x, rest).
Proof.
  intros Hv. induction Hv as [|c v Hc Hv IH].
  { simpl. by destruct (ps_literal t) as [[??]|]. }
  change (psSingleQuote (c :: v)) with ((if c =? 39 then [39; 39] else [c]) ++ psSingleQuote v).
  rewrite <-app_assoc. destruct (c =? 39) eqn:E.
  - apply Z.eqb_eq in E as ->. cbn [app ps_literal]. change (ps_quote 39) with true. rewrite IH.
    by destruct (ps_literal t) as [[??]|].
  - cbn [app ps_literal]. destruct (ps_quote c) eqn:Ec; [by rewrite (Hc eq_refl) in E|].
    rewrite IH. by destruct (ps_literal t) as [[??]|].
Qed.

(** A literal that the scripts close with a quote and a semicolon. *)
Lemma psSingleQuote_closed p l :
  plain_quotes p → ps_literal (psSingleQuote p ++ §"'; " ++ l) = Some (p, §"; " ++ l).
Proof.
  intros Hp. change (§"'; " ++ l) with (39 :: 59 :: 32 :: l). change (§"; " ++ l) with (59 :: 32 :: l).
  rewrite psSingleQuote_prefix by done. cbn. by rewrite app_nil_r.
Qed.

Lemma exists_script_eq p :
  ∃ l, exists_script p = §"$p='" ++ psSingleQuote p ++ §"'; " ++ l.
Proof. eexists §"if (Test-Path -LiteralPath $p) { exit 0 } else { exit 1 }". reflexivity. Qed.

Lemma register_script_eq p :
  ∃ a l, register_script p = a ++ §"$exe='" ++ psSingleQuote p ++ §"'; " ++ l.
Proof.
  unfold register_script.
  eexists (§"$ErrorActionPreference='Stop'; " ++ §"$svc='" ++ psSingleQuote serviceName ++ §"'; "), _.
  by rewrite <-!app_assoc.
Qed.

(** a path that the script hands to PowerShell is read back as it is: the
    literal of the existence test and of the registration is exactly the path,
    quotes included, so no part of a path is run as a command.  The path has
    none of the typographic quotes, which PowerShell also takes for quotes. *)
Theorem psSingleQuote_roundtrip p :
  plain_quotes p →
  (∃ rest l, exists_script p = §"$p='" ++ rest ∧ ps_literal rest = Some (p, §"; " ++ l)) ∧
  (∃ a rest l, register_script p = a ++ §"$exe='" ++ rest ∧ ps_literal rest = Some (p, §"; " ++ l)).
Proof.
  intros Hp. destruct (exists_script_eq p) as [l1 ->]. destruct (register_script_eq p) as (a & l2 & ->).
  split.
  - eexists _, l1. split; [reflexivity|]. by apply psSingleQuote_closed.
  - eexists a, _, l2. split; [reflexivity|]. by apply psSingleQuote_closed.
Qed.

Definition quoted_path : jstr := §"C:\O'Brien\service.exe".

Lemma psSingleQuote_roundtrip_witness :
  plain_quotes quoted_path ∧
  (∃ rest l, exists_script quoted_path = §"$p='" ++ rest ∧
     ps_literal rest = Some (quoted_path, §"; " ++ l)) ∧
  (∃ a rest l, register_script quoted_path = a ++ §"$exe='" ++ rest ∧
     ps_literal rest = Some (quoted_path, §"; " ++ l)).
Proof.
  assert (plain_quotes quoted_path) as Hp.
  { unfold plain_quotes. apply (bool_decide_unpack _). vm_compute. exact I. }
  split; [exact Hp|]. exact (psSingleQuote_roundtrip quoted_path Hp).
Defined.

(** a typographic quote is not doubled, and PowerShell takes it for the
    end of the literal: of such a path only the part before it is tested, and
    what follows is read as a command. *)
Theorem psSingleQuote_typographic a b c rest :
  plain_quotes a → ps_quote c = false →
  ps_literal (psSingleQuote (a ++ 8217 :: c :: b) ++ rest) =
    Some (a, c :: psSingleQuote b ++ rest).
Proof.
  intros Ha Hc. unfold psSingleQuote at 1, replace_unit at 1. rewrite bind_app, <-app_assoc.
  change (a ≫= _) with (psSingleQuote a). rewrite psSingleQuote_prefix by done.
  assert ((c =? 39) = false) as Hn by (unfold ps_quote in Hc; by apply orb_false_iff in Hc as [? _]).
  rewrite !bind_cons, Hn. change (8217 =? 39) with false. cbn [app ps_literal].
  change (ps_quote 8217) with true. rewrite Hc. cbn. by rewrite app_nil_r.
Qed.

Lemma psSingleQuote_typographic_witness :
  ps_literal (psSingleQuote (§"C:\it" ++ 8217 :: 115 :: §" service.exe") ++ §"'; exit 0") =
    Some (§"C:\it", 115 :: psSingleQuote §" service.exe" ++ §"'; exit 0").
Proof.
  apply psSingleQuote_typographic.
  - unfold plain_quotes. apply (bool_decide_unpack _). vm_compute. exact I.
  - reflexivity.
Defined.

(** ** Normalised paths *)

(** No two backslashes in a row. *)
Fixpoint no_double (s : jstr) : bool :=
  match s with
  | c :: s' => negb ((c =? 92) && starts_with [92] s') && no_double s'
  | [] => true
  end.

Lemma starts_with_one c s : starts_with [c] s = true ↔ head s = Some c.
Proof.
  destruct s as [|d s]; simpl; [done|]. rewrite andb_true_r, Z.eqb_eq. naive_solver.
Qed.

Lemma collapse_head s : head (collapse s) = head s.
Proof.
  induction s as [|c s IH]; [done|]. cbn [collapse]. destruct (_ && _) eqn:E; [|done].
  apply andb_true_iff in E as [->%Z.eqb_eq E]. rewrite IH. by apply starts_with_one in E.
Qed.

Lemma collapse_no_double s : no_double (collapse s) = true.
Proof.
  induction s as [|c s IH]; [done|]. cbn [collapse]. destruct (_ && _) eqn:E; [done|]. cbn [no_double].
  rewrite IH, andb_true_r. apply negb_true_iff. rewrite <-E. f_equal.
  apply eq_true_iff_eq. by rewrite !starts_with_one, collapse_head.
Qed.

Lemma collapse_id s : no_double s = true → collapse s = s.
Proof.
  induction s as [|c s IH]; [done|]. cbn [collapse no_double]. rewrite andb_true_iff, negb_true_iff. intros [-> Hs].
  by rewrite IH.
Qed.

Lemma collapse_elem c s : c ∈ collapse s → c ∈ s.
Proof.
  induction s as [|d s IH]; [done|]. cbn [collapse]. destruct (_ && _); rewrite ?elem_of_cons; naive_solver.
Qed.

Lemma collapse_last s : last (collapse s) = last s.
Proof.
  induction s as [|c s IH]; [done|]. cbn [collapse]. destruct (_ && _) eqn:E.
  - rewrite IH. destruct s; [by rewrite andb_false_r in E|done].
  - destruct s as [|d s]; [done|]. rewrite last_cons, IH.
    destruct (last (d :: s)) eqn:El; [by rewrite last_cons, El|].
    by apply last_None in El.
Qed.

(** *** Trimmed text *)

(** Neither end is white space. *)
Definition trimmed (s : jstr) : Prop :=
  (∀ c, head s = Some c → is_space c = false) ∧ (∀ c, last s = Some c → is_space c = false).

Lemma trimmed_trim s : trimmed s → trim s = s.
Proof.
  intros [Hh Hl]. unfold trim, trim_start. assert (drop_while is_space s = s) as ->.
  { destruct s as [|c s]; [done|]. by apply drop_while_fix, Hh. }
  destruct s as [|x s' _] using rev_ind; [done|]. apply trim_end_fix, Hl. apply last_snoc.
Qed.

Lemma trim_trimmed s : trimmed (trim s).
Proof.
  unfold trim. set (t := trim_start s).
  assert (∀ c, last (trim_end t) = Some c → is_space c = false) as Hl.
  { intros c. unfold trim_end. rewrite <-head_reverse, reverse_involutive.
    destruct (drop_while is_space (reverse t)) eqn:E; [done|]. intros [= <-]. by eapply drop_while_head. }
  split; [|done]. intros c Hc. destruct (trim_end_prefix t) as [r Hr].
  destruct (trim_end t) as [|d l] eqn:E; [done|]. injection Hc as ->. simpl in Hr.
  unfold t, trim_start in Hr. by eapply drop_while_head.
Qed.

(** *** The canonical form *)

(** What follows the two backslashes of a network path. *)
Definition below_root (s : jstr) : jstr := if starts_with [92; 92] s then drop 2 s else s.

Definition canonical (s : jstr) : Prop :=
  trimmed s ∧ (34 ∉ s) ∧ (47 ∉ s) ∧ no_double (below_root s) = true.

Lemma replace_unit_id c r s : c ∉ s → replace_unit c r s = s.
Proof.
  unfold replace_unit. induction s as [|d s IH]; [done|]. rewrite not_elem_of_cons. intros [Hd Hs].
  rewrite bind_cons, IH by done. by destruct (d =? c) eqn:E; [apply Z.eqb_eq in E; congruence|].
Qed.

Lemma replace_unit_elem c r s x : x ∈ replace_unit c r s → x ∈ r ∨ (x ∈ s ∧ x ≠ c).
Proof.
  unfold replace_unit. rewrite list_elem_of_bind. intros (d & Hx & Hd).
  destruct (d =? c) eqn:E; [by left|]. apply list_elem_of_singleton in Hx as ->. right.
  split; [done|]. by apply Z.eqb_neq in E.
Qed.

Lemma no_double_tail c s : no_double (c :: s) = true → no_double s = true.
Proof. cbn [no_double]. by rewrite andb_true_iff; intros [_ ?]. Qed.

Lemma drive_root_id s : no_double (below_root s) = true → drive_root s = s.
Proof.
  unfold drive_root, below_root, drive_at. intros Hs.
  destruct s as [|l [|c [|d r]]]; try done.
  destruct (is_letter l && (c =? 58) && (d =? 92)) eqn:E; [|done].
  apply andb_true_iff in E as [[Hl ->%Z.eqb_eq]%andb_true_iff ->%Z.eqb_eq].
  assert (starts_with [92; 92] (l :: 58 :: 92 :: r) = false) as Hu by (cbn [starts_with]; lia).
  rewrite Hu in Hs. do 2 apply no_double_tail in Hs.
  cbn [no_double] in Hs. apply andb_true_iff in Hs as [Hr%negb_true_iff _].
  change (take 3 _) with [l; 58; 92]. change (drop 3 _) with r. destruct r as [|x r]; [done|].
  rewrite drop_while_fix; [done|]. apply not_true_is_false. intros ->%Z.eqb_eq.
  by rewrite (proj2 (starts_with_one 92 (92 :: r)) eq_refl) in Hr.
Qed.

Lemma starts_with_two s : starts_with [92; 92] s = true → ∃ r, s = 92 :: 92 :: r.
Proof. intros [r ->]%starts_with_spec. by exists r. Qed.

Section Normalize.
Context `{JsHost}.

(** The form that is reached before the case is dropped. *)
Definition flattened (path : jstr) : jstr :=
  let p := trim (replace_unit 47 [92] (replace_unit 34 [] path)) in
  if starts_with [92; 92] p then [92; 92] ++ collapse (drop 2 p) else collapse p.

Lemma flattened_elem path c : c ∈ flattened path → c = 92 ∨ (c ∈ path ∧ c ≠ 34 ∧ c ≠ 47).
Proof.
  unfold flattened. set (p := trim _).
  assert (∀ c, c ∈ p → c = 92 ∨ (c ∈ path ∧ c ≠ 34 ∧ c ≠ 47)) as Hp.
  { intros x [->%list_elem_of_singleton|[[?%elem_of_nil|[??]]%replace_unit_elem ?]]%trim_elem%replace_unit_elem;
      auto; done. }
  destruct (starts_with [92; 92] p) eqn:E.
  - rewrite elem_of_app, !elem_of_cons, elem_of_nil.
    intros [[?|[?|?]]|Hc%collapse_elem]; [by left..|done|].
    apply Hp. apply starts_with_two in E as [r ->]. simpl in Hc. rewrite !elem_of_cons. auto.
  - intros Hc%collapse_elem. auto.
Qed.

Lemma flattened_canonical path : canonical (flattened path).
Proof.
  split_and!.
  - unfold flattened. set (p := trim _).
    pose proof (trim_trimmed (replace_unit 47 [92] (replace_unit 34 [] path))) as [Hh Hl].
    fold p in Hh, Hl. destruct (starts_with [92; 92] p) eqn:E.
    + apply starts_with_two in E as [r Er]. rewrite Er in *. split; [by intros c [= <-]|].
      intros c. change (drop 2 _) with r. cbn [app]. rewrite !last_cons, collapse_last. intros Hc. apply Hl. by rewrite !last_cons.
    + split; intros c; [rewrite collapse_head|rewrite collapse_last]; auto.
  - intros [?|(_ & ? & _)]%flattened_elem; done.
  - intros [?|(_ & _ & ?)]%flattened_elem; done.
  - unfold flattened. set (p := trim _). unfold below_root. destruct (starts_with [92; 92] p) eqn:E.
    + cbn [starts_with app]. cbn. apply collapse_no_double.
    + destruct (starts_with [92; 92] (collapse p)) eqn:E2; [|apply collapse_no_double].
      apply starts_with_two in E2 as [r Er]. pose proof (collapse_no_double p) as Hn.
      rewrite Er in *. by do 2 apply no_double_tail in Hn.
Qed.

Lemma canonical_flattened s : canonical s → flattened s = s.
Proof.
  intros (Ht & H34 & H47 & Hn). unfold flattened.
  rewrite !replace_unit_id by (rewrite ?replace_unit_id; done). rewrite trimmed_trim by done.
  unfold below_root in Hn. destruct (starts_with [92; 92] s) eqn:E; [|by apply collapse_id].
  rewrite collapse_id by done. apply starts_with_two in E as [r ->]. done.
Qed.

Lemma normalize_flattened path :
  path ≠ [] → normalizeWindowsPath path = to_lower (flattened path).
Proof.
  intros Hp. unfold normalizeWindowsPath. rewrite (proj2 (str_truthy_iff path) Hp). cbn [negb].
  change (to_lower (drive_root (flattened path)) = to_lower (flattened path)).
  rewrite drive_root_id; [done|]. apply flattened_canonical.
Qed.

(** *** Lower case keeps the form *)

Lemma lower_unit_other c d : lower_unit c = d → ¬ (97 ≤ d ≤ 122) → c = d.
Proof. unfold lower_unit. destruct ((65 <=? c) && (c <=? 90)) eqn:E; lia. Qed.

Lemma lower_unit_is c d : ¬ (97 ≤ d ≤ 122) → ¬ (65 ≤ d ≤ 90) → (d =? lower_unit c) = (d =? c).
Proof. intros H1 H2. unfold lower_unit. destruct ((65 <=? c) && (c <=? 90)) eqn:E; lia. Qed.

Lemma lower_starts_with k s :
  starts_with (replicate k 92) (lower_unit <$> s) = starts_with (replicate k 92) s.
Proof.
  revert s. induction k as [|k IH]; intros [|c s]; try done. cbn [replicate starts_with fmap list_fmap].
  by rewrite lower_unit_is, IH by lia.
Qed.

Lemma lower_no_double (s : jstr) : no_double (lower_unit <$> s) = no_double s.
Proof.
  induction s as [|c s IH]; [done|]. cbn [fmap list_fmap no_double].
  rewrite IH, (lower_starts_with 1). by rewrite Z.eqb_sym, lower_unit_is, Z.eqb_sym by lia.
Qed.

Lemma lower_space c : is_space (lower_unit c) = is_space c.
Proof. unfold is_space, lower_unit. destruct ((65 <=? c) && (c <=? 90)) eqn:E; lia. Qed.

Lemma lower_canonical s : canonical s → canonical (lower_unit <$> s).
Proof.
  intros ([Hh Hl] & H34 & H47 & Hn). split_and!.
  - split; intros c.
    + destruct s as [|d s]; [done|]. intros [= <-]. rewrite lower_space. by apply Hh.
    + rewrite fmap_last, fmap_Some. intros (d & Hd & ->). rewrite lower_space. by apply Hl.
  - intros (c & E%eq_sym & Hc)%list_elem_of_fmap. apply lower_unit_other in E; [by subst|lia].
  - intros (c & E%eq_sym & Hc)%list_elem_of_fmap. apply lower_unit_other in E; [by subst|lia].
  - unfold below_root in *.
    assert (starts_with [92; 92] (lower_unit <$> s) = starts_with [92; 92] s) as ->
      by apply (lower_starts_with 2).
    destruct (starts_with [92; 92] s); [rewrite <-fmap_drop|]; by rewrite lower_no_double.
Qed.

Lemma lower_idemp (s : jstr) : lower_unit <$> (lower_unit <$> s) = lower_unit <$> s.
Proof. rewrite <-list_fmap_compose. apply list_fmap_ext. intros. apply lower_unit_idemp. Qed.

Lemma is_ascii_elem s : is_ascii s = true ↔ ∀ c, c ∈ s → 0 ≤ c < 128.
Proof.
  unfold is_ascii. rewrite forallb_forall. split; intros Hs c Hc.
  - apply list_elem_of_In, Hs in Hc. lia.
  - apply list_elem_of_In, Hs in Hc. lia.
Qed.

Lemma normalize_lower path :
  is_ascii path = true → path ≠ [] →
  normalizeWindowsPath path = lower_unit <$> flattened path ∧ is_ascii (flattened path) = true.
Proof.
  intros Ha Hp. assert (is_ascii (flattened path) = true) as Hf.
  { rewrite is_ascii_elem in *. intros c [->|[Hc _]]%flattened_elem; [lia|auto]. }
  split; [|done]. rewrite normalize_flattened by done. unfold to_lower. by rewrite Hf.
Qed.

(** the normal form of a Windows path is canonical.  For a path of ASCII
    units, normalising again changes nothing; the form has no quote, no
    forward slash, no upper case letter, no white space at its ends, and no
    two backslashes in a row except the two that start a network path. *)
Theorem normalizeWindowsPath_canonical path :
  is_ascii path = true →
  let q := normalizeWindowsPath path in
  normalizeWindowsPath q = q ∧ canonical q ∧ lower_unit <$> q = q.
Proof.
  intros Ha. cbv zeta. destruct (decide (path = [])) as [->|Hp].
  { split; [done|]. split; [|done]. repeat split; try done; apply not_elem_of_nil. }
  destruct (normalize_lower path Ha Hp) as [-> Hf].
  pose proof (lower_canonical _ (flattened_canonical path)) as Hc.
  split; [|by split; [|apply lower_idemp]].
  destruct (decide (lower_unit <$> flattened path = [])) as [->|Hne]; [done|].
  apply is_ascii_lower in Hf. destruct (normalize_lower _ Hf Hne) as [-> _].
  by rewrite canonical_flattened, lower_idemp.
Qed.

End Normalize.

Lemma normalizeWindowsPath_canonical_witness :
  let q := @normalizeWindowsPath plain_host §"C:/Program Files//FBLink VPN\x.exe" in
  q = §"c:\program files\fblink vpn\x.exe" ∧
  @normalizeWindowsPath plain_host q = q ∧ canonical q ∧ lower_unit <$> q = q.
Proof.
  split; [vm_compute; reflexivity|].
  apply (normalizeWindowsPath_canonical (H := plain_host) §"C:/Program Files//FBLink VPN\x.exe").
  vm_compute. reflexivity.
Defined.

(** ** Candidate lists *)

Section Candidates.
Context `{JsHost}.

Lemma pushes_distinct l acc :
  NoDup (to_lower <$> acc) → Forall (λ x, x ≠ []) acc →
  let r := foldl uniquePushString acc l in
  NoDup (to_lower <$> r) ∧ Forall (λ x, x ≠ []) r.
Proof.
  revert acc. induction l as [|v l IH]; intros acc Hd Hn; [done|]. cbn [foldl]. apply IH.
  - unfold uniquePushString. destruct (negb (str_truthy v)); [done|].
    destruct (existsb _ acc) eqn:E; [done|]. rewrite fmap_app. apply NoDup_app. split_and!; [done| |apply NoDup_singleton].
    intros y (x & -> & Hx)%list_elem_of_fmap Hy%list_elem_of_singleton.
    rewrite <-not_true_iff_false, existsb_elem_of in E. apply E. exists x. split; [done|]. by apply str_eqb_eq.
  - unfold uniquePushString. destruct (negb (str_truthy v)) eqn:Ev; [done|].
    destruct (existsb _ acc); [done|]. apply Forall_app. split; [done|]. constructor; [|constructor].
    apply str_truthy_iff. by apply negb_false_iff in Ev.
Qed.

Lemma pushes_head l acc x : head acc = Some x → head (foldl uniquePushString acc l) = Some x.
Proof.
  revert acc. induction l as [|v l IH]; intros acc Hx; [done|]. cbn [foldl]. apply IH.
  unfold uniquePushString. repeat case_match; try done. by destruct acc.
Qed.

(** the paths at which a registration is tried start with the expected
    one, are not empty, and are different from each other up to case, so no
    executable is registered twice. *)
Theorem candidates_distinct {E : Type} `{Machine E} (w w' : World E) l :
  serviceExecutablePathCandidatesForRegistrationWindows w = (Ok l, w') →
  head l = Some expectedServiceExecutablePathWindows ∧
  NoDup (to_lower <$> l) ∧ Forall (λ x, x ≠ []) l.
Proof.
  unfold serviceExecutablePathCandidatesForRegistrationWindows.
  rewrite bind_run. cbn [value gets]. rewrite bind_run.
  destruct (serviceExecutableFileName w) as [[exe|] w1]; [|done]. rewrite bind_run.
  destruct (findServiceExecutableByWildcardWindows _ w1) as [[wc|] w2]; [|done].
  intros [= <- <-]. unfold pushes. split; [|by apply pushes_distinct; constructor].
  cbn [foldl]. apply (pushes_head [_; _; _; _] [expectedServiceExecutablePathWindows]). done.
Qed.
End Candidates.

Definition calm_candidates : list jstr :=
  match @serviceExecutablePathCandidatesForRegistrationWindows plain_host unit _ calm_world with
  | (Ok l, _) => l
  | _ => []
  end.

Lemma candidates_distinct_witness :
  length calm_candidates = 3%nat ∧
  head calm_candidates = Some expectedServiceExecutablePathWindows ∧
  NoDup (@to_lower plain_host <$> calm_candidates) ∧ Forall (λ x, x ≠ []) calm_candidates.
Proof.
  split; [vm_compute; reflexivity|].
  apply (candidates_distinct (H := plain_host) calm_world
    (@serviceExecutablePathCandidatesForRegistrationWindows plain_host unit _ calm_world).2).
  vm_compute. reflexivity.
Defined.
