(* ===== verification/InstallerControl.v ===== *)
(** * The installer's control script

    [deploy/installer/config/controlscript.js]: what the installer does before
    its pages are shown (a running client, an older installation), the pages
    it skips, and the choice of the target directory.

    The script's global variables join the world of the machine.  The dialog
    about a running client is repeated as often as the user wants: the model
    runs a given number of rounds and says when the user was still retrying. *)
From S2P Require Export Installer.

Record Vars := {
  requestToQuitFromApp : bool;
  updaterCompleted : Z;
  desktopAppProcessRunning : bool;
  appInstalledUninstallerPath : option jstr;
  appInstalledUninstallerPath_x86 : option jstr;
}.

#[export] Instance Vars_eta : Eta Vars := λ v,
  {| requestToQuitFromApp := requestToQuitFromApp v; updaterCompleted := updaterCompleted v;
     desktopAppProcessRunning := desktopAppProcessRunning v;
     appInstalledUninstallerPath := appInstalledUninstallerPath v;
     appInstalledUninstallerPath_x86 := appInstalledUninstallerPath_x86 v |}.

Definition initial_vars : Vars :=
  {| requestToQuitFromApp := false; updaterCompleted := 0; desktopAppProcessRunning := false;
     appInstalledUninstallerPath := None; appInstalledUninstallerPath_x86 := None |}.

Record Ctl (E : Type) := { world : World E; vars : Vars }.
#[global] Arguments world {E} _.
#[global] Arguments vars {E} _.

(** [str.indexOf(suffix, str.length - suffix.length) !== -1]; a negative
    start counts as 0. *)
Definition endsWith (str suffix : jstr) : bool :=
  bool_decide (is_Some (index_of_from suffix str (length str - length suffix))).

(** [Number(s)] of a decimal text, as far as the script needs it. *)
Definition to_number (s : jstr) : option Z :=
  match trim s with
  | [] => Some 0
  | t => if forallb is_digit t then Some (digit_run 0 t).1 else None
  end.

(** [s.split(/\n+/)[0]] *)
Fixpoint first_line (s : jstr) : jstr :=
  match s with
  | c :: s' => if c =? 10 then [] else c :: first_line s'
  | [] => []
  end.

Section Control.
Context `{JsHost} {E : Type} `{Machine E} (setup : Setup) (os : jstr).
Abbreviation C := (M (Ctl E)).

Definition lift {A} (c : M (World E) A) : C A := λ s,
  match c (world s) with (r, w) => (r, {| world := w; vars := vars s |}) end.
Definition set_vars (f : Vars → Vars) : C unit :=
  modify (λ s, {| world := world s; vars := f (vars s) |}).

(** [os] is [installer.value("os")]. *)
Definition onWindows : bool := str_eqb os §"win".
Definition onMacOS : bool := str_eqb os §"mac".
Definition onLinux : bool := str_eqb os §"linux" || str_eqb os §"x11".

(** An undefined path names no file. *)
Definition file_exists_at (p : option jstr) : C bool :=
  match p with Some p => lift (fileExists p) | None => mret false end.

Definition appName : C jstr := lift (value §"Name").
Definition appExecutableFileName : C jstr :=
  name ← appName; mret (if onWindows then name ++ §".exe" else name).

Definition appInstalled : C bool :=
  name ← appName;
  root ← lift (value §"RootDir");
  (if onWindows then
     set_vars (λ v, v <| appInstalledUninstallerPath :=
                           Some (root ++ §"Program Files/FBLinkVPN/maintenancetool.exe") |>
                      <| appInstalledUninstallerPath_x86 :=
                           Some (root ++ §"Program Files (x86)/FBLinkVPN/maintenancetool.exe") |>)
   else if onMacOS then
     set_vars (λ v, v <| appInstalledUninstallerPath :=
       Some (§"/Applications/" ++ name ++ §".app/maintenancetool.app/Contents/MacOS/maintenancetool") |>)
   else when onLinux
     (set_vars (λ v, v <| appInstalledUninstallerPath :=
       Some (§"/opt/" ++ name ++ §"/maintenancetool") |>)));;
  p ← gets (λ s, appInstalledUninstallerPath (vars s));
  b ← file_exists_at p;
  if b : bool then mret true else
  q ← gets (λ s, appInstalledUninstallerPath_x86 (vars s));
  file_exists_at q.

Definition raiseInstallerWindow : C unit :=
  if negb onMacOS then mret tt else
  name ← appName;
  r ← lift (execute §"/bin/bash"
              [§"-c"; §"ps -A | grep -m1 '" ++ name ++ §"' | awk '{print $1}'"]);
  match to_number (output r) with
  | Some pid =>
      when (0 <? pid)
        (lift (execute §"osascript"
           [§"-e"; §"tell application " ++ dq ++ §"System Events" ++ dq ++ §" " ++ [10]
                   ++ §"      set frontmost of the first process whose unix id is " ++ num_str pid
                   ++ §" to true " ++ [10] ++ §"      end tell" ++ [10] ++ §"       "]);; mret tt)
  | None => mret tt
  end.

Definition checkProcessIsRunning (arg : jstr) : C bool :=
  r ← lift (execute §"/bin/bash" [§"-c"; arg]);
  match r with
  | None => throw (ErrorExn §"Cannot read properties of undefined (reading 'trim')")
  | Some (out, _) =>
      mret (match to_number (first_line (trim out)) with Some n => 2 <=? n | None => false end)
  end.

Definition appProcessIsRunning : C bool :=
  if onWindows then
    r ← lift (execute §"tasklist" []);
    exe ← appExecutableFileName;
    mret (exited r 0 && includes (output r) exe)
  else
    name ← appName;
    checkProcessIsRunning (§"pgrep -x '" ++ name ++ §"'").

Definition pages_hidden_on_quit : list jstr :=
  [§"IntroductionPage"; §"TargetDirectory"; §"ComponentSelection"; §"LicenseCheck";
   §"StartMenuSelection"; §"ReadyForInstallation"; §"PerformInstallation"; §"FinishedPage"].

Definition hide_page (p : jstr) : C unit := lift (record (SetDefaultPageVisible p false)).
Definition click (b : Button) : C unit := lift (record (ClickButton b)).
Definition setCancelled : C unit := lift (record SetCancelled).

Definition requestToQuit : C unit :=
  set_vars (λ v, v <| requestToQuitFromApp := true |>);;
  for_first pages_hidden_on_quit (λ p, hide_page p;; mret (@None unit));;
  click NextButton;; click FinishButton;; click CancelButton;;
  when onWindows setCancelled.

(** *** The dialog about a running client *)

Definition running_message (name : jstr) : jstr :=
  name ++ §" is active. Close the app and press " ++ dq ++ §"Retry" ++ dq
  ++ §" button to continue installation. Press " ++ dq ++ §"Abort" ++ dq
  ++ §" button to abort the installer and exit.".

Definition poll_running : C bool :=
  b ← appProcessIsRunning;
  set_vars (λ v, v <| desktopAppProcessRunning := b |>);;
  mret b.

(** One call of the function: [Some] when it returns, [None] when it calls
    itself again. *)
Definition message_round : C (option unit) :=
  quit ← gets (λ s, requestToQuitFromApp (vars s));
  if quit : bool then mret (Some tt) else
  (if isUpdater setup then
     attempts 400 (b ← poll_running; mret (if b : bool then None else Some tt));; mret tt
   else mret tt);;
  b ← poll_running;
  if negb b then mret (Some tt) else
  name ← appName;
  pressed ← lift (messageBox (running_message name));
  if bool_decide (pressed = RetryButton) then mret None else
  set_vars (λ v, v <| requestToQuitFromApp := true |>);;
  mret (Some tt).

Definition isDesktopAppProcessRunningMessageLoop (rounds : nat) : C (option unit) :=
  attempts rounds message_round.

(** *** The constructor *)

Definition reinstall_message : jstr :=
  §"The application is already installed." ++ §" "
  ++ §"We need to remove the old installation first. Do you wish to proceed?".

(** [if (installer.fileExists(path)) resultArray = installer.execute(path)] *)
Definition run_uninstaller (path : option jstr) (previous : option (jstr * Z)) : C (option (jstr * Z)) :=
  b ← file_exists_at path;
  match path with
  | Some p => if b : bool then lift (execute p []) else mret previous
  | None => mret previous
  end.

(** Removing the older installation; [false] ends the installation. *)
Definition removeOld : C bool :=
  q ← gets (λ s, appInstalledUninstallerPath_x86 (vars s));
  r ← run_uninstaller q None;
  p ← gets (λ s, appInstalledUninstallerPath (vars s));
  r ← run_uninstaller p r;
  if negb (exited r 0) then (setCancelled;; mret false) else
  attempts 300 (lift (sleep 100);; b ← file_exists_at p; mret (if b : bool then None else Some tt));;
  mret true.

Definition replaceOld : C unit :=
  installed ← appInstalled;
  if negb installed then mret tt else
  pressed ← lift (messageBox reinstall_message);
  if negb (bool_decide (pressed = OkButton)) then setCancelled else
  again ← appInstalled;
  proceed ← (if again : bool then removeOld else mret true);
  when proceed raiseInstallerWindow.

(** [None]: the user was still retrying after [rounds] rounds. *)
Definition after_dialog (rounds : nat) (k : C unit) : C (option unit) :=
  r ← isDesktopAppProcessRunningMessageLoop rounds;
  match r with
  | None => mret None
  | Some _ =>
      quit ← gets (λ s, requestToQuitFromApp (vars s));
      (if quit : bool then requestToQuit else k);;
      mret (Some tt)
  end.

Definition Controller (rounds : nat) : C (option unit) :=
  (if isInstaller setup || isUpdater setup then (appInstalled;; mret tt) else mret tt);;
  when onWindows (lift (setValue §"AllUsers" §"true"));;
  if isInstaller setup then
    hide_page §"ComponentSelection";; hide_page §"TargetDirectory";; hide_page §"StartMenuDirectoryPage";;
    after_dialog rounds
      (when onMacOS (lift (record (AutoAnswer §"OverwriteTargetDirectory")));; replaceOld)
  else if isUninstaller setup then after_dialog rounds (mret tt)
  else if isUpdater setup then
    (lift (record (AutoAnswer §"cancelInstallation"));;
     lift (record (Connect §"installer.installationFinished" §"clickNext"));; mret (Some tt))
  else mret (Some tt).

(** *** The pages *)

Definition PerformInstallationPageCallback : C unit := click NextButton.
Definition StartMenuDirectoryPageCallback : C unit := click NextButton.
Definition ComponentSelectionPageCallback : C unit := click NextButton.

Definition FinishedPageCallback : C unit :=
  running ← gets (λ s, desktopAppProcessRunning (vars s));
  if running : bool then click FinishButton else
  when (isUpdater setup) (lift (record (AutoAnswer §"*"));; click FinishButton).

Definition RestartPageCallback : C unit :=
  set_vars (λ v, v <| updaterCompleted := 1 |>);; click FinishButton.

(** [widget]: the page has a widget. *)
Definition IntroductionPageCallback (widget : bool) : C unit :=
  done ← gets (λ s, updaterCompleted (vars s));
  if isUpdater setup && (done =? 1) then (click FinishButton;; click CancelButton) else
  when (isUninstaller setup && widget)
    (lift (record (HideWidget §"PackageManagerRadioButton"));;
     lift (record (HideWidget §"UpdaterRadioButton")));;
  when (isUpdater setup) (click NextButton).

Definition LicenseAgreementPageCallback : C unit := when (isUpdater setup) (click NextButton).
Definition ReadyForInstallationPageCallback : C unit := when (isUpdater setup) (click CommitButton).

(** The button's handler is connected once however often the page is shown. *)
Definition TargetDirectoryPageCallback (widget : bool) : C unit :=
  when widget
    (lift (record (Disconnect §"BrowseDirectoryButton.clicked" §"onBrowseButtonClicked"));;
     lift (record (Connect §"BrowseDirectoryButton.clicked" §"onBrowseButtonClicked"));;
     click NextButton).

(** The directory that the browse dialog leaves, given its text. *)
Definition browsed (name dir : jstr) : jstr :=
  if onWindows then (if endsWith dir name then dir else dir ++ §"\" ++ name) else dir.

(** [text]: the text of the page's field, when the page has a widget. *)
Definition onBrowseButtonClicked (text : option jstr) : C unit :=
  match text with
  | Some text =>
      when onWindows
        (name ← appName;
         lift (setValue §"TargetDir" (browsed name text));;
         dir ← lift (value §"TargetDir");
         lift (record (SetText dir)))
  | None => mret tt
  end.

Definition onNextButtonClicked (text : option jstr) : C unit :=
  match text with
  | Some text => lift (setValue §"APP_BUNDLE_TARGET_DIR" text)
  | None => mret tt
  end.

(** What the framework calls after the constructor: a page that is shown, or
    a button of the directory page. *)
Inductive Visit :=
| PerformInstallation | StartMenuDirectory | ComponentSelection | Finished | Restart
| Introduction (widget : bool) | LicenseAgreement | ReadyForInstallation
| TargetDirectory (widget : bool)
| BrowseClicked (text : option jstr) | NextClicked (text : option jstr).

Definition callback (v : Visit) : C unit :=
  match v with
  | PerformInstallation => PerformInstallationPageCallback
  | StartMenuDirectory => StartMenuDirectoryPageCallback
  | ComponentSelection => ComponentSelectionPageCallback
  | Finished => FinishedPageCallback
  | Restart => RestartPageCallback
  | Introduction widget => IntroductionPageCallback widget
  | LicenseAgreement => LicenseAgreementPageCallback
  | ReadyForInstallation => ReadyForInstallationPageCallback
  | TargetDirectory widget => TargetDirectoryPageCallback widget
  | BrowseClicked text => onBrowseButtonClicked text
  | NextClicked text => onNextButtonClicked text
  end.

(** The rest of the wizard: visits in any order; a callback that throws ends
    with its page. *)
Definition wizard (vs : list Visit) (s : Ctl E) : Ctl E := foldl (λ s v, (callback v s).2) s vs.
End Control.

(** ** The choice of the target directory *)

Lemma endsWith_spec s t : endsWith s t = true ↔ t `suffix_of` s.
Proof.
  unfold endsWith, index_of_from. rewrite Nat.min_l, bool_decide_eq_true, fmap_is_Some by lia.
  set (k := (length s - length t)%nat).
  assert (is_Some (index_of t (drop k s)) ↔ ∃ a b, drop k s = a ++ t ++ b) as ->.
  { rewrite <-includes_spec. unfold includes. by rewrite bool_decide_eq_true. }
  split.
  - intros (a & b & Hd). assert (length (drop k s) = length a + length t + length b)%nat as Hl
      by (rewrite Hd, !length_app; lia).
    rewrite length_drop in Hl. destruct a; [|simpl in Hl; lia]. destruct b; [|simpl in Hl; lia].
    cbn [app] in Hd. rewrite app_nil_r in Hd. exists (take k s). by rewrite <-Hd, take_drop.
  - intros [a ->]. exists [], []. unfold k. rewrite length_app, drop_app_ge by lia.
    replace (_ - _)%nat with 0%nat by lia. by rewrite app_nil_r.
Qed.

(** on Windows the directory that the browse dialog leaves ends with the
    application's name, is the chosen one when that already ends with it, and
    browsing again does not append the name twice. *)
Theorem browsed_spec os name dir :
  onWindows os = true →
  let d := browsed os name dir in
  name `suffix_of` d ∧ (name `suffix_of` dir → d = dir) ∧ browsed os name d = d.
Proof.
  intros Hos. cbv zeta. unfold browsed. rewrite Hos.
  assert (name `suffix_of` dir ++ §"\" ++ name) as Hs.
  { exists (dir ++ §"\"). by rewrite app_assoc. }
  destruct (endsWith dir name) eqn:E.
  - apply endsWith_spec in E as E'. by rewrite E.
  - split_and!; [done| |].
    + intros Hd%endsWith_spec. congruence.
    + by rewrite (proj2 (endsWith_spec _ _) Hs).
Qed.

Lemma browsed_spec_witness :
  let d := browsed §"win" §"FBLinkVPN" §"D:\Apps" in
  d = §"D:\Apps\FBLinkVPN" ∧
  (§"FBLinkVPN" `suffix_of` d ∧ (§"FBLinkVPN" `suffix_of` §"D:\Apps" → d = §"D:\Apps")
   ∧ browsed §"win" §"FBLinkVPN" d = d).
Proof.
  split; [vm_compute; reflexivity|]. apply (browsed_spec §"win" §"FBLinkVPN" §"D:\Apps").
  vm_compute. reflexivity.
Defined.

(** ** What the constructor may run *)

Section Consent.
Context `{JsHost} {E : Type} `{Machine E}.

(** Every call between two states of the script is of a kind. *)
Definition grows (K : Call → Prop) (s s' : Ctl E) : Prop :=
  ∃ new, trace (world s') = trace (world s) ++ new ∧ Forall K new.

#[export] Instance grows_preorder K : PreOrder (grows K).
Proof.
  split.
  - intros s. exists []. by rewrite app_nil_r.
  - intros s1 s2 s3 (n1 & E1 & H1) (n2 & E2 & H2). exists (n1 ++ n2).
    split; [by rewrite E2, E1, app_assoc|by apply Forall_app].
Qed.

(** The programs that look at the system; anything else removes software. *)
Definition inspecting (c : Call) : Prop :=
  match c with
  | Execute p _ _ => p ∈ [§"tasklist"; §"/bin/bash"; §"osascript"]
  | _ => True
  end.

Lemma lift_grows {A} K (c : M (World E) A) :
  (∀ w, ∃ new, trace (c w).2 = trace w ++ new ∧ Forall K new) → preserves (grows K) (lift c).
Proof.
  intros Hc s. unfold lift. destruct (Hc (world s)) as (new & Ht & Hn).
  destruct (c (world s)) as [r w]. by exists new.
Qed.

Lemma lift_record_grows K c : K c → preserves (grows K) (lift (record c)).
Proof. intros Hc. apply lift_grows. intros w. exists [c]. auto. Qed.

Lemma lift_setValue_grows K k v : K (SetValue k v) → preserves (grows K) (lift (setValue k v)).
Proof. intros Hc. apply lift_grows. intros w. exists [SetValue k v]. auto. Qed.

Lemma lift_value_grows K k : preserves (grows K) (lift (value k)).
Proof. apply lift_grows. intros w. exists []. by rewrite app_nil_r. Qed.

Lemma appName_grows K : preserves (grows K) (appName (E:=E)).
Proof. apply lift_value_grows. Qed.

Lemma appExecutableFileName_grows K os : preserves (grows K) (appExecutableFileName (E:=E) os).
Proof. unfold appExecutableFileName. preserve. apply appName_grows. Qed.

Lemma lift_fileExists_grows K p : (∀ b, K (FileExists p b)) → preserves (grows K) (lift (fileExists p)).
Proof.
  intros Hc. apply lift_grows. intros w. unfold fileExists. destruct (path_exists p (env w)) as [b e].
  exists [FileExists p b]. auto.
Qed.

Lemma lift_messageBox_grows K t : (∀ b, K (MessageBox t b)) → preserves (grows K) (lift (messageBox t)).
Proof.
  intros Hc. apply lift_grows. intros w. unfold messageBox. destruct (press t (env w)) as [b e].
  exists [MessageBox t b]. auto.
Qed.

Lemma lift_execute_grows K p a : (∀ r, K (Execute p a r)) → preserves (grows K) (lift (execute p a)).
Proof.
  intros Hc. apply lift_grows. intros w. unfold execute. destruct (run_program p a (env w)) as [r e].
  exists [Execute p a r]. auto.
Qed.

Lemma set_vars_grows K f : preserves (grows K) (set_vars (E:=E) f).
Proof. intros s. exists []. by rewrite app_nil_r. Qed.
End Consent.
#[export] Hint Resolve lift_value_grows set_vars_grows appName_grows
  appExecutableFileName_grows : effects.
#[export] Hint Extern 2 (preserves (grows inspecting) (lift (record _))) =>
  (apply lift_record_grows; exact I) : effects.
#[export] Hint Extern 2 (preserves (grows inspecting) (lift (setValue _ _))) =>
  (apply lift_setValue_grows; exact I) : effects.
#[export] Hint Extern 2 (preserves (grows inspecting) (lift (fileExists _))) =>
  (apply lift_fileExists_grows; intros ?; exact I) : effects.
#[export] Hint Extern 2 (preserves (grows inspecting) (lift (messageBox _))) =>
  (apply lift_messageBox_grows; intros ?; exact I) : effects.
#[export] Hint Extern 2 (preserves (grows inspecting) (lift (execute _ _))) =>
  (apply lift_execute_grows; intros ?; cbn [inspecting]; set_solver) : effects.

Section Consented.
Context `{JsHost} {E : Type} `{Machine E} (setup : Setup) (os : jstr).
Abbreviation inspects c := (preserves (grows (E:=E) inspecting) c).

Lemma file_exists_at_inspects p : inspects (file_exists_at p).
Proof. unfold file_exists_at. preserve. Qed.
Lemma appInstalled_inspects : inspects (appInstalled os).
Proof. unfold appInstalled, file_exists_at. preserve. Qed.
Lemma raise_inspects : inspects (raiseInstallerWindow os).
Proof. unfold raiseInstallerWindow. preserve. Qed.
Lemma requestToQuit_inspects : inspects (requestToQuit os).
Proof. unfold requestToQuit, hide_page, click, setCancelled. preserve. Qed.
Lemma loop_inspects n : inspects (isDesktopAppProcessRunningMessageLoop setup os n).
Proof.
  unfold isDesktopAppProcessRunningMessageLoop, message_round, poll_running, appProcessIsRunning,
    checkProcessIsRunning. preserve.
Qed.

(** Nothing but inspection before the user agrees. *)
Definition consents (new : list Call) : Prop :=
  Forall inspecting new ∨
  ∃ pre post, new = pre ++ MessageBox reinstall_message OkButton :: post ∧ Forall inspecting pre.

Definition asks {A} (c : M (Ctl E) A) : Prop :=
  ∀ s, ∃ new, trace (world (c s).2) = trace (world s) ++ new ∧ consents new.

Lemma inspects_asks {A} (c : M (Ctl E) A) : inspects c → asks c.
Proof. intros Hc s. destruct (Hc s) as (new & ? & ?). exists new. by split; [|left]. Qed.

Lemma consents_after pre new : Forall inspecting pre → consents new → consents (pre ++ new).
Proof.
  intros Hp [Hn|(a & b & -> & Ha)]; [left; by apply Forall_app|right].
  exists (pre ++ a), b. rewrite app_assoc. split; [done|by apply Forall_app].
Qed.

Lemma asks_bind {A B} (c : M (Ctl E) A) (f : A → M (Ctl E) B) :
  inspects c → (∀ a, asks (f a)) → asks (c ≫= f).
Proof.
  intros Hc Hf s. rewrite bind_run. destruct (Hc s) as (n1 & E1 & H1).
  destruct (c s) as [[a|e] s1]; simpl in *; [|exists n1; by split; [|left]].
  destruct (Hf a s1) as (n2 & E2 & H2). exists (n1 ++ n2).
  split; [by rewrite E2, E1, app_assoc|by apply consents_after].
Qed.

Lemma asks_then {A B} (c : M (Ctl E) A) (f : A → M (Ctl E) B) :
  asks c → (∀ a, inspects (f a)) → asks (c ≫= f).
Proof.
  intros Hc Hf s. rewrite bind_run. destruct (Hc s) as (n1 & E1 & H1).
  destruct (c s) as [[a|e] s1]; simpl in *; [|by exists n1].
  destruct (Hf a s1) as (n2 & E2 & H2). exists (n1 ++ n2). split; [by rewrite E2, E1, app_assoc|].
  destruct H1 as [H1|(p & q & -> & Hp)]; [left; by apply Forall_app|right].
  exists p, (q ++ n2). by rewrite <-app_assoc.
Qed.

(** The dialog: past it, anything may run. *)
Lemma asks_dialog (k no : M (Ctl E) unit) :
  preserves (grows (λ _, True)) k → inspects no →
  asks (pressed ← lift (messageBox reinstall_message);
        if negb (bool_decide (pressed = OkButton)) then no else k).
Proof.
  intros Hk Hno s. rewrite bind_run. unfold lift, messageBox.
  destruct (press reinstall_message (env (world s))) as [b e].
  set (s1 := {| world := _; vars := _ |}). case_bool_decide as Hb; cbn [negb].
  - destruct (Hk s1) as (new & Ht & _). exists (MessageBox reinstall_message b :: new).
    split; [rewrite Ht; simpl; by rewrite <-app_assoc|]. right. exists [], new. by subst b.
  - destruct (Hno s1) as (new & Ht & Hn). exists (MessageBox reinstall_message b :: new).
    split; [rewrite Ht; simpl; by rewrite <-app_assoc|]. left. by constructor.
Qed.

(** Any computation of the script only adds to the trace. *)
Lemma grows_weaken K s s' : grows (E:=E) K s s' → grows (λ _, True) s s'.
Proof. intros (new & Ht & _). exists new. split; [done|]. by apply Forall_true. Qed.

Lemma inspects_grows {A} (c : M (Ctl E) A) : inspects c → preserves (grows (λ _, True)) c.
Proof. intros Hc s. eapply grows_weaken, Hc. Qed.

Lemma removeOld_grows : preserves (grows (λ _, True)) (removeOld (E:=E)).
Proof.
  unfold removeOld, run_uninstaller, setCancelled. preserve.
  all: try (apply inspects_grows, file_exists_at_inspects).
  all: try by apply lift_record_grows.
  all: by apply lift_execute_grows.
Qed.

Lemma replaceOld_asks : asks (replaceOld os).
Proof.
  unfold replaceOld. apply asks_bind; [apply appInstalled_inspects|]. intros installed.
  destruct (negb installed); [apply inspects_asks; preserve|].
  apply asks_dialog; [|unfold setCancelled; preserve]. preserve.
  - apply inspects_grows, appInstalled_inspects.
  - apply removeOld_grows.
  - apply inspects_grows, raise_inspects.
Qed.

Lemma after_dialog_asks n k : asks k → asks (after_dialog setup os n k).
Proof.
  intros Hk. unfold after_dialog. apply asks_bind; [apply loop_inspects|]. intros [u|].
  2: { apply inspects_asks. preserve. }
  apply asks_bind; [preserve|]. intros quit. apply asks_then; [|intros _; preserve].
  destruct quit; [apply inspects_asks, requestToQuit_inspects|done].
Qed.

(** C17: the installer never removes an older installation unasked: for every
    machine and however often the dialog about the running client is retried,
    the constructor of the control script runs nothing but programs that look
    at the system, unless the user has agreed to the removal before. *)
Theorem controller_asks n (s : Ctl E) :
  ∃ new, trace (world (Controller setup os n s).2) = trace (world s) ++ new ∧ consents new.
Proof.
  revert s. change (asks (Controller setup os n)). unfold Controller.
  apply asks_bind; [preserve; apply appInstalled_inspects|]. intros _.
  apply asks_bind; [preserve|]. intros _. destruct (isInstaller setup).
  - unfold hide_page. do 3 (apply asks_bind; [preserve|]; intros _).
    apply after_dialog_asks. apply asks_bind; [preserve|]. intros _. apply replaceOld_asks.
  - destruct (isUninstaller setup); [|apply inspects_asks; preserve].
    apply after_dialog_asks, inspects_asks. preserve.
Qed.

(** ** The dialog about a running client ends *)

Definition is_retry (c : Call) : bool :=
  match c with MessageBox _ RetryButton => true | _ => false end.
Definition retries (calls : list Call) : nat := length (filter (λ c, is_retry c = true) calls).

Lemma retries_app a b : retries (a ++ b) = (retries a + retries b)%nat.
Proof. unfold retries. by rewrite filter_app, length_app. Qed.

Definition retried (k : nat) (s s' : Ctl E) : Prop :=
  ∃ new, trace (world s') = trace (world s) ++ new ∧ (k ≤ retries new)%nat.

Lemma retried_after j k s1 s2 s3 : retried j s1 s2 → retried k s2 s3 → retried (j + k) s1 s3.
Proof.
  intros (n1 & E1 & H1) (n2 & E2 & H2). exists (n1 ++ n2).
  rewrite E2, E1, app_assoc, retries_app. split; [done|lia].
Qed.

Lemma grows_retried K s s' : grows K s s' → retried 0 s s'.
Proof. intros (new & Ht & _). exists new. split; [done|lia]. Qed.

(** A round that repeats itself was answered with a retry. *)
Definition repeats (c : M (Ctl E) (option unit)) : Prop :=
  ∀ s s', c s = (Ok None, s') → retried 1 s s'.

Lemma repeats_bind {A} (d : M (Ctl E) A) f :
  inspects d → (∀ x, repeats (f x)) → repeats (d ≫= f).
Proof.
  intros Hd Hf s s'. rewrite bind_run. specialize (Hd s). destruct (d s) as [[x|] s1]; [|done].
  intros Hr. eapply (retried_after 0 1); [by eapply grows_retried|by eapply Hf].
Qed.

Lemma repeats_some : repeats (mret (Some tt)).
Proof. by intros s s' [=]. Qed.

Lemma round_repeats : repeats (message_round setup os).
Proof.
  unfold message_round. apply repeats_bind; [preserve|]. intros [|]; [apply repeats_some|].
  apply repeats_bind; [unfold poll_running, appProcessIsRunning, checkProcessIsRunning; preserve|].
  intros _. apply repeats_bind;
    [unfold poll_running, appProcessIsRunning, checkProcessIsRunning; preserve|].
  intros b. destruct (negb b); [apply repeats_some|]. apply repeats_bind; [preserve|]. intros name.
  intros s s'. rewrite bind_run. unfold lift, messageBox.
  destruct (press (running_message name) (env (world s))) as [pressed e].
  case_bool_decide as Hp; [|done]. intros [= <-]. eexists. split; [reflexivity|].
  subst pressed. vm_compute. lia.
Qed.

Lemma loop_repeats n s s' :
  isDesktopAppProcessRunningMessageLoop setup os n s = (Ok None, s') → retried n s s'.
Proof.
  unfold isDesktopAppProcessRunningMessageLoop. revert s. induction n as [|n IH]; intros s; cbn [attempts].
  - intros [= <-]. exists []. by rewrite app_nil_r.
  - rewrite bind_run. pose proof (round_repeats s) as Hr.
    destruct (message_round setup os s) as [[[]|] s1]; [done| |done].
    intros Hn. apply (retried_after 1 n s s1 s'); [by apply Hr|by apply IH].
Qed.

(** C32: the dialog about a running client is only repeated at the user's
    wish, for every machine: within [n] rounds either the user has pressed
    Retry [n] times, or the loop has ended, and then a larger bound on the
    rounds changes neither its result nor its effects. *)
Theorem message_loop_ends n (s : Ctl E) :
  let run n := isDesktopAppProcessRunningMessageLoop setup os n s in
  (∃ new, trace (world (run n).2) = trace (world s) ++ new ∧ (n ≤ retries new)%nat) ∨
  ((run n).1 ≠ Ok None ∧ ∀ m, (n ≤ m)%nat → run m = run n).
Proof.
  intros run. unfold run. destruct (isDesktopAppProcessRunningMessageLoop setup os n s) as [r s'] eqn:E0.
  destruct r as [[u|]|e]; [right|left; by apply loop_repeats|right].
  all: split; [done|]; intros m Hm; by apply (attempts_more n).
Qed.
End Consented.

(** ** The wizard of an interactive installation *)

Section Interactive.
Context `{JsHost} {E : Type} `{Machine E} (setup : Setup) (os : jstr).

(** What the pages of an installation with a user may do: move on, but not
    commit, and remember the chosen directory. *)
Definition leaves_choice (c : Call) : Prop :=
  match c with
  | ClickButton b => b = NextButton ∨ b = FinishButton
  | SetValue k _ => k = §"TargetDir" ∨ k = §"APP_BUNDLE_TARGET_DIR"
  | HideWidget _ | SetText _ | Connect _ _ | Disconnect _ _ => True
  | _ => False
  end.

#[local] Hint Extern 2 (preserves (grows leaves_choice) (lift (record _))) =>
  (apply lift_record_grows; first [exact I | left; reflexivity | right; reflexivity]) : effects.
#[local] Hint Extern 2 (preserves (grows leaves_choice) (lift (setValue _ _))) =>
  (apply lift_setValue_grows; first [left; reflexivity | right; reflexivity]) : effects.

Lemma callback_leaves v :
  isUpdater setup = false → preserves (grows (E:=E) leaves_choice) (callback setup os v).
Proof.
  intros Hu. destruct v; cbn [callback];
    unfold PerformInstallationPageCallback, StartMenuDirectoryPageCallback,
      ComponentSelectionPageCallback, FinishedPageCallback, RestartPageCallback,
      IntroductionPageCallback, LicenseAgreementPageCallback, ReadyForInstallationPageCallback,
      TargetDirectoryPageCallback, onBrowseButtonClicked, onNextButtonClicked, click; rewrite ?Hu.
  all: cbn [andb when]; preserve.
Qed.

(** C23: with a user in front of it the wizard leaves the decisions to the
    user: in every sequence of pages the script never presses the button that
    starts the installation, runs no program and asks for no rights, and on
    the license page it does nothing at all, as the comment there promises. *)
Theorem wizard_interactive vs (s : Ctl E) :
  isUpdater setup = false →
  (∃ new, trace (world (wizard setup os vs s)) = trace (world s) ++ new ∧ Forall leaves_choice new) ∧
  callback setup os LicenseAgreement s = (Ok tt, s).
Proof.
  intros Hu. split.
  - change (grows leaves_choice s (wizard setup os vs s)). revert s.
    induction vs as [|v vs IH]; intros s; [reflexivity|].
    etrans; [exact (callback_leaves v Hu s)|apply IH].
  - unfold callback, LicenseAgreementPageCallback. by rewrite Hu.
Qed.
End Interactive.

Lemma wizard_interactive_witness :
  ∃ new, trace (world (wizard windows_setup §"win"
            [Introduction true; LicenseAgreement; TargetDirectory true; BrowseClicked (Some §"D:\Apps");
             ReadyForInstallation; PerformInstallation; Finished]
            {| world := calm_world; vars := initial_vars |})) = new ∧
         Forall leaves_choice new ∧ length new = 6%nat.
Proof.
  destruct (proj1 (wizard_interactive (E:=unit) windows_setup §"win"
    [Introduction true; LicenseAgreement; TargetDirectory true; BrowseClicked (Some §"D:\Apps");
     ReadyForInstallation; PerformInstallation; Finished]
    {| world := calm_world; vars := initial_vars |} eq_refl)) as (new & E & Hn).
  exists new. split; [exact E|]. split; [exact Hn|].
  apply (f_equal length) in E. vm_compute in E. symmetry. exact E.
Defined.
