(* ===== verification/GoProg.v ===== *)
(** * Programs made of atomic steps

    A handler of the Go backend runs in a goroutine of its own, beside all the
    others, on shared state: the database, which has one connection, so that a
    statement or a transaction is one step, and maps under a mutex.  A program
    is the sequence of these steps, each of which may depend on what the ones
    before it returned.  [exec] runs one alone; a [Pool] runs many at once, one
    step of one of them at a time.  [safe] is the principle for properties of
    all interleavings: every step restores an invariant and changes the world
    only along a preorder, which is all that a program may assume of the world
    when it comes to its next step. *)
From S2P Require Export Prelude.

Section Programs.
Context {W : Type}.

Inductive prog (A : Type) :=
| Ret (a : A)
| Step (f : W → prog A * W).
#[global] Arguments Ret {A} _.
#[global] Arguments Step {A} _.

#[global] Instance prog_ret : MRet prog := @Ret.

#[global] Instance prog_bind : MBind prog := λ A B k, fix bind (p : prog A) : prog B :=
  match p with
  | Ret a => k a
  | Step f => Step (λ w, let '(p', w') := f w in (bind p', w'))
  end.

(** One step. *)
Definition atomic {A} (f : W → A * W) : prog A :=
  Step (λ w, let '(a, w') := f w in (Ret a, w')).
Definition asks {A} (f : W → A) : prog A := atomic (λ w, (f w, w)).
Definition tells (f : W → W) : prog () := atomic (λ w, ((), f w)).

(** ** Alone *)

Fixpoint exec {A} (p : prog A) (w : W) : A * W :=
  match p with
  | Ret a => (a, w)
  | Step f => let '(p', w') := f w in exec p' w'
  end.

Lemma exec_bind {A B} (k : A → prog B) p w :
  exec (p ≫= k) w = exec (k (exec p w).1) (exec p w).2.
Proof.
  revert p w. fix IH 1. intros [a|f] w; [done|]. cbn.
  generalize (f w). intros [p' w']. apply IH.
Qed.

Lemma exec_atomic {A} (f : W → A * W) w : exec (atomic f) w = f w.
Proof. cbn. by destruct (f w). Qed.

(** ** Answers

    Whatever happens between its steps, the program returns what has the
    property. *)
Fixpoint returns {A} (Q : A → Prop) (p : prog A) : Prop :=
  match p with
  | Ret a => Q a
  | Step f => ∀ w, returns Q (f w).1
  end.

Lemma returns_bind {A B} (P : A → Prop) (Q : B → Prop) (k : A → prog B) p :
  returns P p → (∀ a, P a → returns Q (k a)) → returns Q (p ≫= k).
Proof.
  intros Hp Hk. revert p Hp. fix IH 1. intros [a|f] Hp; [by apply Hk|]. cbn in *. intros w.
  specialize (Hp w). generalize dependent (f w). intros [p' w'] Hp. exact (IH p' Hp).
Qed.

Lemma returns_any {A} (p : prog A) : returns (λ _, True) p.
Proof.
  revert p. fix IH 1. intros [a|f]; [done|]. cbn. intros w. generalize (f w). intros [p' w']. exact (IH p').
Qed.

Lemma returns_then {A B} (Q : B → Prop) (k : A → prog B) p :
  (∀ a, returns Q (k a)) → returns Q (p ≫= k).
Proof. intros Hk. apply (returns_bind (λ _, True)); [apply returns_any|]. auto. Qed.

(** ** Among others, who do [others n] before its [n]-th step *)

Fixpoint exec_among {A} (others : nat → W → W) (n : nat) (p : prog A) (w : W) : A * W * nat :=
  match p with
  | Ret a => (a, w, n)
  | Step f => let '(p', w') := f (others n w) in exec_among others (S n) p' w'
  end.

Lemma exec_among_returns {A} (Q : A → Prop) others n p w : returns Q p → Q (exec_among others n p w).1.1.
Proof.
  revert p n w. fix IH 1. intros [a|f] n w Hp; [done|]. cbn in *. specialize (Hp (others n w)).
  generalize dependent (f (others n w)). intros [p' w'] Hp. exact (IH p' (S n) w' Hp).
Qed.

Lemma exec_among_alone {A} n (p : prog A) w : (exec_among (λ _ w, w) n p w).1 = exec p w.
Proof.
  revert p n w. fix IH 1. intros [a|f] n w; [done|]. cbn. generalize (f w). intros [p' w']. apply IH.
Qed.

(** What one program does while the others keep to [E]. *)
Section Ensures.
Context (E : relation W).

Fixpoint ensures {A} (Q : A → W → Prop) (p : prog A) (w0 : W) : Prop :=
  match p with
  | Ret a => Q a w0
  | Step f => ∀ w, E w0 w → let '(p', w') := f w in ensures Q p' w'
  end.

Lemma ensures_bind {A B} (P : A → W → Prop) (Q : B → W → Prop) (k : A → prog B) p w :
  ensures P p w → (∀ a v, P a v → ensures Q (k a) v) → ensures Q (p ≫= k) w.
Proof.
  intros Hp Hk. revert p w Hp. fix IH 1. intros [a|f] w Hp; [by apply Hk|]. cbn in *. intros v Hv.
  specialize (Hp v Hv). generalize dependent (f v). intros [p' v'] Hp. exact (IH p' v' Hp).
Qed.

Lemma ensures_atomic {A} (Q : A → W → Prop) (f : W → A * W) w :
  (∀ v, E w v → Q (f v).1 (f v).2) → ensures Q (atomic f) w.
Proof. intros H v Hv. specialize (H v Hv). by destruct (f v). Qed.

Lemma exec_among_ensures {A} (Q : A → W → Prop) others n p w :
  (∀ n w, E w (others n w)) → ensures Q p w →
  Q (exec_among others n p w).1.1 (exec_among others n p w).1.2.
Proof.
  intros Ho. revert p n w. fix IH 1. intros [a|f] n w Hp; [done|]. cbn in *. specialize (Hp _ (Ho n w)).
  generalize dependent (f (others n w)). intros [p' w'] Hp. exact (IH p' (S n) w' Hp).
Qed.
End Ensures.

(** ** Together *)

Record Pool (A : Type) := { shared : W; threads : list (prog A) }.
#[global] Arguments shared {A} _.
#[global] Arguments threads {A} _.
#[global] Arguments Build_Pool {A} _ _.

(** A request comes in, the [i]-th program takes a step, or the surroundings
    change the world. *)
Inductive Turn (A : Type) :=
| Enter (p : prog A)
| Take (i : nat)
| Around (g : W → W).
#[global] Arguments Enter {A} _.
#[global] Arguments Take {A} _.
#[global] Arguments Around {A} _.

Definition turn {A} (s : Pool A) (t : Turn A) : option (Pool A) :=
  match t with
  | Enter p => Some (Build_Pool (shared s) (threads s ++ [p]))
  | Take i =>
      match threads s !! i with
      | Some (Step f) =>
          let '(p, w) := f (shared s) in Some (Build_Pool w (<[i := p]> (threads s)))
      | _ => None
      end
  | Around g => Some (Build_Pool (g (shared s)) (threads s))
  end.

(** ** Programs that keep out of a part of the world *)

Fixpoint only {A} (K : relation W) (p : prog A) : Prop :=
  match p with
  | Ret _ => True
  | Step f => ∀ w, let '(p', w') := f w in K w w' ∧ only K p'
  end.

Lemma only_bind {A B} (K : relation W) (k : A → prog B) p :
  only K p → (∀ a, only K (k a)) → only K (p ≫= k).
Proof.
  intros Hp Hk. revert p Hp. fix IH 1. intros [a|f] Hp; [apply Hk|]. cbn in *. intros w.
  specialize (Hp w). generalize dependent (f w). intros [p' w'] [H1 H2]. split; [done|]. exact (IH p' H2).
Qed.

Lemma only_atomic {A} (K : relation W) (f : W → A * W) : (∀ w, K w (f w).2) → only K (atomic f).
Proof. intros H w. specialize (H w). by destruct (f w). Qed.

Lemma only_impl {A} (K K' : relation W) (p : prog A) : (∀ w w', K w w' → K' w w') → only K p → only K' p.
Proof.
  intros HK. revert p. fix IH 1. intros [a|f] Hp; [done|]. cbn in *. intros w. specialize (Hp w).
  generalize dependent (f w). intros [p' w'] [H1 H2]. split; [auto|]. exact (IH p' H2).
Qed.

Lemma only_exec {A} (K : relation W) `{!PreOrder K} (p : prog A) w : only K p → K w (exec p w).2.
Proof.
  revert p w. fix IH 1. intros [a|f] w Hp; [done|]. cbn in *. specialize (Hp w).
  generalize dependent (f w). intros [p' w'] [H1 H2]. etrans; [exact H1|]. exact (IH p' w' H2).
Qed.

Lemma ensures_only {A} (E : relation W) `{!PreOrder E} (p : prog A) w : only E p → ensures E (λ _ v, E w v) p w.
Proof.
  intros Hp. assert (∀ v, E w v → ensures E (λ _ v, E w v) p v) as H; [|by apply H].
  revert p Hp. fix IH 1. intros [a|f] Hp v Hv; [done|]. cbn in *. intros v1 H1. specialize (Hp v1).
  generalize dependent (f v1). intros [p' v2] [H2 Hp]. apply (IH p' Hp). by etrans; [|etrans].
Qed.

(** ** The principle *)

Section Safe.
Context (I : W → Prop) (R : relation W) `{!PreOrder R}.

Fixpoint safe {A} (Q : A → W → Prop) (p : prog A) (w0 : W) : Prop :=
  match p with
  | Ret a => Q a w0
  | Step f => ∀ w, R w0 w → I w →
      let '(p', w') := f w in R w w' ∧ I w' ∧ safe Q p' w'
  end.

(** A property that later worlds keep. *)
Definition stable {A} (Q : A → W → Prop) : Prop := ∀ a w w', R w w' → Q a w → Q a w'.

Lemma safe_mono {A} (Q Q' : A → W → Prop) p w w' :
  R w w' → (∀ a v, R w' v → Q a v → Q' a v) → stable Q → safe Q p w → safe Q' p w'.
Proof.
  intros Hw HQ Hs. revert p w w' Hw HQ. fix IH 1. intros [a|f] w w' Hw HQ.
  - intros H. cbn in *. apply HQ; [done|]. by eapply Hs.
  - cbn. intros H v Hv Hi. specialize (H v (transitivity Hw Hv) Hi).
    generalize dependent (f v). intros [p' v'] (Hr & Hi' & Hp). split; [done|]. split; [done|].
    refine (IH p' v' v' _ _ Hp); [done|]. intros a u Hu. apply HQ. by etrans; [|etrans].
Qed.

Lemma safe_later {A} (Q : A → W → Prop) p w w' : stable Q → R w w' → safe Q p w → safe Q p w'.
Proof. intros Hs Hw. by apply safe_mono. Qed.

Lemma safe_bind {A B} (P : A → W → Prop) (Q : B → W → Prop) (k : A → prog B) p w :
  stable P → safe P p w → (∀ a v, R w v → P a v → safe Q (k a) v) → safe Q (p ≫= k) w.
Proof.
  intros Hs. revert p w. fix IH 1. intros [a|f] w Hp Hk.
  - cbn. by apply Hk.
  - cbn in *. intros v Hv Hi. specialize (Hp v Hv Hi).
    generalize dependent (f v). intros [p' v'] (Hr & Hi' & Hp). split; [done|]. split; [done|].
    refine (IH p' v' Hp _). intros a u Hu. apply Hk. by etrans; [|etrans].
Qed.

Lemma safe_atomic {A} (Q : A → W → Prop) f w :
  (∀ v, R w v → I v → R v (f v).2 ∧ I (f v).2 ∧ Q (f v).1 (f v).2) → safe Q (atomic f) w.
Proof. intros H v Hv Hi. specialize (H v Hv Hi). by destruct (f v). Qed.

Lemma safe_asks {A} (Q : A → W → Prop) f w :
  (∀ v, R w v → I v → Q (f v) v) → safe Q (asks f) w.
Proof. intros H. apply safe_atomic. intros v Hv Hi. split; [reflexivity|]. split; [done|]. by apply H. Qed.

(** What keeps out of the part that matters is safe. *)
Lemma safe_only {A} (K : relation W) (p : prog A) w :
  (∀ v v', K v v' → I v → R v v' ∧ I v') → only K p → safe (λ _ _, True) p w.
Proof.
  intros HK. revert p w. fix IH 1. intros [a|f] w Hp; [done|]. cbn in *. intros v _ Hi.
  specialize (Hp v). generalize dependent (f v). intros [p' v'] [H1 H2].
  destruct (HK _ _ H1 Hi) as [Hr Hi']. split; [done|]. split; [done|]. exact (IH p' v' H2).
Qed.

(** Alone, a safe program restores the invariant. *)
Lemma safe_exec {A} (Q : A → W → Prop) p w :
  safe Q p w → I w → R w (exec p w).2 ∧ I (exec p w).2 ∧ Q (exec p w).1 (exec p w).2.
Proof.
  revert p w. fix IH 1. intros [a|f] w H Hi; [done|]. cbn in *.
  specialize (H w (reflexivity w) Hi). generalize dependent (f w). intros [p' w'] (Hr & Hi' & Hp).
  destruct (IH p' w' Hp Hi') as (H1 & H2 & H3). split; [by etrans|]. done.
Qed.

(** Together, safe programs and surroundings keep it in every interleaving. *)
Definition fair {A} (t : Turn A) : Prop :=
  match t with
  | Enter p => ∀ w, safe (λ _ _, True) p w
  | Take _ => True
  | Around g => ∀ w, I w → R w (g w) ∧ I (g w)
  end.

Definition quiet {A} (s : Pool A) : Prop :=
  I (shared s) ∧ Forall (λ p, safe (λ _ _, True) p (shared s)) (threads s).

Lemma quiet_turn {A} (s : Pool A) t s' : quiet s → fair t → turn s t = Some s' → quiet s'.
Proof.
  intros [Hi Hp] Ht. destruct t as [p|i|g]; cbn.
  - intros [= <-]. split; [done|]. apply Forall_app. split; [done|]. by apply Forall_singleton.
  - destruct (threads s !! i) as [[a|f]|] eqn:E; [done| |done].
    pose proof (Forall_lookup_1 _ _ _ _ Hp E (shared s) (reflexivity _) Hi) as H.
    destruct (f (shared s)) as [p w]. destruct H as (Hr & Hi' & Hs). intros [= <-]. split; [done|].
    apply Forall_insert; [|done]. eapply Forall_impl; [exact Hp|]. intros q. cbn. by apply safe_later.
  - intros [= <-]. destruct (Ht _ Hi) as [Hr Hi']. split; [done|]. cbn.
    eapply Forall_impl; [exact Hp|]. intros q. by apply safe_later.
Qed.

Lemma pool_invariant {A} (s : Pool A) ts s' :
  quiet s → Forall fair ts → run turn s ts = Some s' → I (shared s').
Proof.
  intros Hq Hts. revert s Hq. induction Hts as [|t ts Ht _ IH]; intros s Hq; cbn.
  - intros [= <-]. by destruct Hq.
  - intros (s1 & H1 & H2)%bind_Some. apply (IH s1); [|done]. by eapply quiet_turn.
Qed.
End Safe.
End Programs.
#[global] Arguments prog : clear implicits.
#[global] Arguments Pool : clear implicits.
#[global] Arguments Turn : clear implicits.
