(* ===== verification/Float64.v ===== *)
(** * Double precision

    Amounts and hours of the backend are [float64].  A finite double is a
    rational number; an operation returns the double nearest to the exact
    result, ties to even.  [float64] is that rounding for results in the normal
    range, which is where prices and hours are. *)
From S2P Require Export Prelude.
From Stdlib Require Export QArith Qround Qabs Qreduction Lqa.
Open Scope Z_scope.

(** The integer nearest to [n / d], ties to even. *)
Definition nearest_even (n d : Z) : Z :=
  let q := n / d in
  match 2 * (n mod d) ?= d with
  | Lt => q
  | Gt => q + 1
  | Eq => if Z.even q then q else q + 1
  end.

(** The powers of two above and below the bar of [2^-e]; [n / d] divided by [2^e] *)
Definition above (e : Z) : Z := 2 ^ Z.max 0 (- e).
Definition below (e : Z) : Z := 2 ^ Z.max 0 e.
Definition scaled (n d e : Z) : Z * Z := (n * above e, d * below e).

(** The exponent that leaves 53 bits before the point. *)
Definition exponent (n d : Z) : Z :=
  let e := Z.log2 n - Z.log2 d - 52 in
  let '(N, D) := scaled n d e in
  if N <? 2 ^ 52 * D then e - 1 else e.

Definition times_power (m e : Z) : Q := Qmake (m * below e) (Z.to_pos (above e)).

Definition float64_pos (n d : Z) : Q :=
  let e := exponent n d in
  let '(N, D) := scaled n d e in
  Qred (times_power (nearest_even N D) e).

Definition float64 (q : Q) : Q :=
  let n := Qnum q in
  let d := Zpos (Qden q) in
  match n with
  | Z0 => 0%Q
  | Zpos _ => float64_pos n d
  | Zneg _ => Qopp (float64_pos (- n) d)
  end.

Definition fadd (x y : Q) : Q := float64 (x + y).
Definition fsub (x y : Q) : Q := float64 (x - y).
Definition fmul (x y : Q) : Q := float64 (x * y).
Definition fdiv (x y : Q) : Q := float64 (x / y).

Definition fltb (x y : Q) : bool := negb (Qle_bool y x).

(** [math.Round]: to the nearest integer, halves away from zero. *)
Definition round_away (q : Q) : Z :=
  if Qle_bool 0 q then Qfloor (q + (1 # 2))%Q else - Qfloor (- q + (1 # 2))%Q.

(** Conversion to an integer drops the fraction. *)
Definition truncate (q : Q) : Z := Z.quot (Qnum q) (Zpos (Qden q)).

Example float64_test :
  float64 (1 # 10) = (3602879701896397 # 36028797018963968)%Q ∧
  float64 (199 # 1) = 199%Q ∧
  fadd (float64 (1 # 10)) (float64 (2 # 10)) = (1351079888211149 # 4503599627370496)%Q ∧
  fdiv 1 3 = (6004799503160661 # 18014398509481984)%Q.
Proof. vm_compute. done. Qed.

(** ** The error *)

Lemma nearest_even_error n d : 0 < d → 2 * Z.abs (nearest_even n d * d - n) <= d.
Proof.
  intros Hd. unfold nearest_even. pose proof (Z.div_mod n d ltac:(lia)) as H1.
  pose proof (Z.mod_pos_bound n d Hd) as H2. set (q := n / d) in *. set (r := n mod d) in *.
  assert (∀ k, (q + k) * d - n = k * d - r) as Hk by (intros; lia).
  specialize (Hk 0) as H0. specialize (Hk 1) as H3. rewrite Z.add_0_r in H0.
  destruct (Z.compare_spec (2 * r) d); [destruct (Z.even q)|..]; rewrite ?H0, ?H3; lia.
Qed.

Lemma above_pos e : 0 < above e.
Proof. apply Z.pow_pos_nonneg; lia. Qed.
Lemma below_pos e : 0 < below e.
Proof. apply Z.pow_pos_nonneg; lia. Qed.

Lemma powers_pred e : above (e - 1) * below e = 2 * (above e * below (e - 1)).
Proof.
  unfold above, below. rewrite <-!Z.pow_add_r, <-Z.pow_succ_r by lia. f_equal. lia.
Qed.

Lemma exponent_bits n d :
  0 < n → 0 < d → let e := exponent n d in 2 ^ 52 * (d * below e) <= n * above e.
Proof.
  intros Hn Hd. cbv zeta. unfold exponent. set (e := Z.log2 n - Z.log2 d - 52). unfold scaled.
  pose proof (above_pos e) as Ha. pose proof (below_pos e) as Hb.
  destruct (Z.ltb_spec (n * above e) (2 ^ 52 * (d * below e))) as [Hlt|Hge]; [|done].
  pose proof (powers_pred e) as Hp. pose proof (above_pos (e - 1)) as Ha'. pose proof (below_pos (e - 1)) as Hb'.
  assert (2 ^ 51 * (d * below e) <= n * above e) as H.
  { pose proof (Z.log2_spec n Hn) as [Hn1 _]. pose proof (Z.log2_spec d Hd) as [_ Hd2].
    assert (2 ^ Z.log2 n * above e = 2 ^ 51 * (2 ^ Z.succ (Z.log2 d) * below e)) as Heq.
    { pose proof (Z.log2_nonneg n). pose proof (Z.log2_nonneg d).
      unfold above, below. rewrite <-!Z.pow_add_r by lia. f_equal. lia. }
    transitivity (2 ^ 51 * (2 ^ Z.succ (Z.log2 d) * below e)).
    - apply Z.mul_le_mono_nonneg_l; [lia|]. apply Z.mul_le_mono_nonneg_r; lia.
    - rewrite <-Heq. apply Z.mul_le_mono_nonneg_r; lia. }
  apply (Z.mul_le_mono_pos_r _ _ (below e)); [done|].
  replace (n * above (e - 1) * below e) with (2 * (n * above e) * below (e - 1)) 
    by (transitivity (n * (above (e - 1) * below e)); [rewrite Hp|]; ring).
  replace (2 ^ 52 * (d * below (e - 1)) * below e) with (2 * (2 ^ 51 * (d * below e)) * below (e - 1)) by ring.
  apply Z.mul_le_mono_nonneg_r; lia.
Qed.

Lemma float64_pos_error n d :
  0 < n → (Qabs (float64_pos n (Zpos d) - (n # d)) <= (n # d) * (1 # 2 ^ 53))%Q.
Proof.
  intros Hn. unfold float64_pos. set (e := exponent n (Z.pos d)).
  pose proof (exponent_bits n (Z.pos d) Hn eq_refl) as Hb. cbv zeta in Hb. fold e in Hb. unfold scaled.
  pose proof (nearest_even_error (n * above e) (Z.pos d * below e)) as Hm.
  pose proof (above_pos e) as Ha. pose proof (below_pos e) as Hbe.
  specialize (Hm ltac:(lia)). set (m := nearest_even _ _) in *. rewrite Qred_correct. unfold times_power.
  unfold Qle, Qabs, Qminus, Qplus, Qopp, Qmult. cbn [Qnum Qden].
  rewrite !Pos2Z.inj_mul, Z2Pos.id by done. rewrite Z.mul_1_r.
  change (Z.pos (2 ^ 53)) with (2 * 2 ^ 52).
  replace (m * below e * Z.pos d + - n * above e) with (m * (Z.pos d * below e) - n * above e) by ring.
  set (x := Z.abs _) in *. set (D := Z.pos d * below e) in *.
  assert (x * 2 * 2 ^ 52 <= n * above e) as H by lia.
  replace (x * (Z.pos d * (2 * 2 ^ 52))) with (x * 2 * 2 ^ 52 * Z.pos d) by ring.
  replace (n * (above e * Z.pos d)) with (n * above e * Z.pos d) by ring.
  apply Z.mul_le_mono_nonneg_r; lia.
Qed.

(** The nearest double is off by at most one part in [2^53]. *)
Lemma float64_error q : (Qabs (float64 q - q) <= Qabs q * (1 # 2 ^ 53))%Q.
Proof.
  destruct q as [[|n|n] d]; unfold float64; cbn [Qnum Qden].
  - assert ((0 # d) == 0)%Q as -> by done. done.
  - apply float64_pos_error. lia.
  - change (Z.neg n # d) with (- (Z.pos n # d))%Q. change (- Z.neg n) with (Z.pos n).
    pose proof (float64_pos_error (Z.pos n) d eq_refl) as H. set (x := float64_pos _ _) in *.
    assert (- x - - (Z.pos n # d) == - (x - (Z.pos n # d)))%Q as -> by ring. rewrite !Qabs_opp. exact H.
Qed.

(** ** Relative errors *)

Definition ulp : Q := 1 # 2 ^ 53.
Definition rel (e x X : Q) : Prop := (0 <= X /\ Qabs (x - X) <= e * X)%Q.

Lemma rel_bounds e x X : rel e x X ↔ (0 <= X /\ X - e * X <= x /\ x <= X + e * X)%Q.
Proof.
  unfold rel. rewrite Qabs_Qle_condition. split; intros (H1 & H2 & H3); split_and!; lra.
Qed.

Lemma rel_exact x : (0 <= x)%Q → rel 0 x x.
Proof. intros Hx. apply rel_bounds. split_and!; lra. Qed.

Lemma rel_nonneg e x X : (e <= 1)%Q → rel e x X → (0 <= x)%Q.
Proof. intros He (H1 & H2 & H3)%rel_bounds. nra. Qed.

Lemma rel_add e x X y Y : rel e x X → rel e y Y → rel e (x + y) (X + Y).
Proof. intros (H1 & H2 & H3)%rel_bounds (H4 & H5 & H6)%rel_bounds. apply rel_bounds. split_and!; lra. Qed.

Lemma rel_mul e1 e2 x X y Y :
  (0 <= e1 <= 1 → 0 <= e2 <= 1 → rel e1 x X → rel e2 y Y → rel (e1 + e2 + e1 * e2) (x * y) (X * Y))%Q.
Proof.
  intros He1 He2 Hx Hy. pose proof (rel_nonneg _ _ _ (proj2 He1) Hx). pose proof (rel_nonneg _ _ _ (proj2 He2) Hy).
  apply rel_bounds in Hx as (H1 & H2 & H3). apply rel_bounds in Hy as (H4 & H5 & H6). apply rel_bounds.
  assert (0 <= X * Y)%Q by nra. assert (0 <= e1 * X)%Q by nra. assert (0 <= e2 * Y)%Q by nra.
  assert (e1 * X <= X)%Q by nra. assert (e2 * Y <= Y)%Q by nra. split; [done|]. split.
  - pose proof (Qmult_le_compat_nonneg (X - e1 * X) x (Y - e2 * Y) y ltac:(split; lra) ltac:(split; lra)) as H'.
    assert (0 <= e1 * (e2 * (X * Y)))%Q by nra. lra.
  - pose proof (Qmult_le_compat_nonneg x (X + e1 * X) y (Y + e2 * Y) ltac:(split; lra) ltac:(split; lra)) as H'.
    lra.
Qed.

Lemma rel_round e x X : (0 <= e <= 1)%Q → rel e x X → rel (e + ulp + e * ulp) (float64 x) X.
Proof.
  intros He Hx. pose proof (rel_nonneg _ _ _ (proj2 He) Hx) as Hn. apply rel_bounds in Hx as (H1 & H2 & H3).
  pose proof (float64_error x) as Hr. rewrite (Qabs_pos x Hn) in Hr. apply Qabs_Qle_condition in Hr as [Hr1 Hr2].
  fold ulp in Hr1, Hr2. assert (0 < ulp)%Q by done. apply rel_bounds.
  assert (x * ulp <= (X + e * X) * ulp)%Q by nra. split_and!; [done|lra|lra].
Qed.

Lemma rel_weaken e e' x X : (e <= e')%Q → rel e x X → rel e' x X.
Proof. intros He (H1 & H2 & H3)%rel_bounds. apply rel_bounds. split_and!; nra. Qed.

Lemma truncate_bounds q : (0 <= q → inject_Z (truncate q) <= q /\ q < inject_Z (truncate q + 1))%Q.
Proof.
  intros Hq. destruct q as [n d]. unfold truncate. cbn [Qnum Qden]. unfold Qle in Hq. cbn in Hq.
  rewrite Z.quot_div_nonneg by lia. pose proof (Z.div_mod n (Z.pos d) ltac:(lia)).
  pose proof (Z.mod_pos_bound n (Z.pos d) ltac:(lia)).
  unfold Qle, Qlt. cbn [Qnum Qden inject_Z]. lia.
Qed.
