(* ===== verification/GoModels.v ===== *)
(** * The backend's data: [vpn-backend/internal/models/models.go],
    [database/database.go] and what the handlers need of Go

    The tables the modelled handlers use, as lists in the order of their
    primary keys, and the queries of GORM on them.  Any query may fail; the
    world counts them and [fault] says which do.  Times are nanoseconds,
    amounts are doubles.  Soft deletion is not modelled, since no modelled
    handler deletes a row.  Libraries outside of the repository are classes:
    signed tokens, password hashes, randomness, the checks of the binding
    package, Unicode tables. *)
From S2P Require Export JsonRoundtrip Http JsDate GoProg Float64.
Open Scope Z_scope.

(** ** Durations *)

Definition second : Z := 1000000000.
Definition minute : Z := 60 * second.
Definition hour : Z := 60 * minute.
Definition day : Z := 24 * hour.

(** [AddDate] in UTC: a number of days, and one year, where the 29th of
    February becomes the 1st of March. *)
Definition add_days (t n : Z) : Z := t + n * day.

Definition civil_from_days (z : Z) : Z * Z * Z :=
  let z := z + 719468 in
  let era := z / 146097 in
  let doe := z - era * 146097 in
  let yoe := (doe - doe / 1460 + doe / 36524 - doe / 146096) / 365 in
  let doy := doe - (365 * yoe + yoe / 4 - yoe / 100) in
  let mp := (5 * doy + 2) / 153 in
  let m := if mp <? 10 then mp + 3 else mp - 9 in
  ((yoe + era * 400) + (if m <=? 2 then 1 else 0), m, doy - (153 * mp + 2) / 5 + 1).

Definition add_year (t : Z) : Z :=
  let '(y, m, d) := civil_from_days (t / day) in
  days_from_civil (y + 1) m d * day + t mod day.

Example add_year_test :
  add_year (days_from_civil 2026 7 4 * day + 5) = days_from_civil 2027 7 4 * day + 5 ∧
  add_year (days_from_civil 2028 2 29 * day) = days_from_civil 2029 3 1 * day.
Proof. vm_compute. done. Qed.

(** ** Strings *)

Class GoHost := {
  go_upper_other : jstr → jstr;
  go_lower_other : jstr → jstr;
}.

Definition ToUpper `{GoHost} (s : jstr) : jstr :=
  if is_ascii s then upper_unit <$> s else go_upper_other s.
Definition ToLower `{GoHost} (s : jstr) : jstr :=
  if is_ascii s then lower_unit <$> s else go_lower_other s.

Definition go_space (c : Z) : bool :=
  ((9 <=? c) && (c <=? 13)) || (c =? 32) || (c =? 133) || (c =? 160) || (c =? 5760) ||
  ((8192 <=? c) && (c <=? 8202)) || (c =? 8232) || (c =? 8233) || (c =? 8239) || (c =? 8287) ||
  (c =? 12288).
Definition TrimSpace (s : jstr) : jstr :=
  reverse (drop_while go_space (reverse (drop_while go_space s))).

(** [strings.SplitN(s, sep, 2)] for a separator of one unit *)
Fixpoint SplitN2 (c : Z) (s : jstr) : jstr * option jstr :=
  match s with
  | [] => ([], None)
  | x :: s => if x =? c then ([], Some s) else let '(a, b) := SplitN2 c s in (x :: a, b)
  end.

(** [strings.Split(s, ",")] *)
Fixpoint Split (c : Z) (s : jstr) : list jstr :=
  match s with
  | [] => [[]]
  | x :: s => if x =? c then [] :: Split c s
              else match Split c s with [] => [[x]] | p :: ps => (x :: p) :: ps end
  end.

(** ** Decoding and checking a request body: [ShouldBindJSON]

    The decoder reads one value and leaves the rest.  It matches names without
    regard to case (the Kelvin sign and the long s fold to letters), a later
    field overwrites an earlier one, and [null] leaves the field alone.  A name
    that occurs twice in the same spelling counts at the place of the first. *)

Definition fold_unit (c : Z) : Z :=
  if c =? 8490 then 107 else if c =? 383 then 115 else lower_unit c.
Definition fold_eq (a b : jstr) : bool := str_eqb (fold_unit <$> a) (fold_unit <$> b).

Definition go_decode (body : option jstr) : option (list (jstr * jval)) :=
  s ← body;
  '(v, _) ← parse_value (S (length s)) s;
  match v with JObj fs => Some fs | JNull => Some [] | _ => None end.

Lemma go_decode_text v :
  reads v →
  go_decode (Some (stringify v)) = match clean v with JObj fs => Some fs | JNull => Some [] | _ => None end.
Proof.
  intros Hr. specialize (Hr (S (length (stringify v))) [] I (Nat.lt_succ_diag_r _)). rewrite app_nil_r in Hr.
  unfold go_decode. cbn [mbind option_bind]. rewrite Hr. by destruct (clean v).
Qed.

Definition go_field {A} (name : jstr) (zero : A) (read : jval → option A)
    (fs : list (jstr * jval)) : option A :=
  foldl (λ acc f, a ← acc;
    if fold_eq f.1 name then match f.2 with JNull => Some a | v => read v end else Some a)
    (Some zero) fs.

Definition as_string (v : jval) : option jstr := match v with JStr s => Some s | _ => None end.
Definition string_field (name : jstr) : list (jstr * jval) → option jstr := go_field name [] as_string.

(** The number of code points. *)
Fixpoint rune_count (s : jstr) : nat :=
  match s with
  | [] => 0%nat
  | c :: s =>
      match s with
      | d :: s' => if is_high c && is_low d then S (rune_count s') else S (rune_count s)
      | [] => 1%nat
      end
  end.

(** ** Tables *)

Record User := { u_id : nat; u_email : jstr; u_hash : jstr; u_role : jstr; u_created : Z }.

Definition RoleUser : jstr := §"user".
Definition RoleAdmin : jstr := §"admin".

Inductive PlanType := PlanFree | PlanTrial | PlanBasic | PlanBasic3M | PlanVIP | PlanVIP3M.
Definition plan_text (p : PlanType) : jstr :=
  match p with
  | PlanFree => §"free" | PlanTrial => §"trial" | PlanBasic => §"basic"
  | PlanBasic3M => §"basic_3m" | PlanVIP => §"vip" | PlanVIP3M => §"vip_3m"
  end.

Inductive SubscriptionStatus := SubActive | SubExpired | SubCancelled.

Record Subscription := {
  s_user : nat;
  s_plan : PlanType;
  s_status : SubscriptionStatus;
  s_expires : Z;
  s_auto_renew : bool;
  s_method : jstr;
}.

Inductive TVLoginStatus := TVPending | TVApproved | TVConsumed | TVExpired.

Record TVLogin := {
  t_id : nat;
  t_device_hash : jstr;
  t_user_hash : jstr;
  t_user : option nat;
  t_status : TVLoginStatus;
  t_expires : Z;
  t_polled : option Z;
}.

Record VerificationCode := {
  c_id : nat;
  c_email : jstr;
  c_code : jstr;
  c_purpose : jstr;
  c_expires : Z;
  c_used : bool;
  c_created : Z;
}.

Inductive PaymentStatus := PaymentPending | PaymentSucceeded | PaymentCancelled.

Record Payment := {
  p_id : nat;
  p_user : nat;
  p_yookassa : jstr;
  p_amount : Q;
  p_original : Q;
  p_discount : Q;
  p_status : PaymentStatus;
  p_plan : PlanType;
  p_confirm_url : jstr;
  p_confirmed : option Z;
  p_promo : option nat;
  p_created : Z;
}.

Record PromoCode := {
  pr_id : nat;
  pr_code : jstr;
  pr_description : jstr;
  pr_percent : Z;
  pr_max_uses : Z;
  pr_used : Z;
  pr_active : bool;
  pr_plans : jstr;
  pr_once : bool;
  pr_expires : option Z;
}.

#[global] Instance PlanType_eq : EqDecision PlanType.
Proof. solve_decision. Defined.
#[global] Instance SubscriptionStatus_eq : EqDecision SubscriptionStatus.
Proof. solve_decision. Defined.
#[global] Instance TVLoginStatus_eq : EqDecision TVLoginStatus.
Proof. solve_decision. Defined.
#[global] Instance PaymentStatus_eq : EqDecision PaymentStatus.
Proof. solve_decision. Defined.

#[global] Instance User_eta : Eta User := λ u,
  Build_User (u_id u) (u_email u) (u_hash u) (u_role u) (u_created u).
#[global] Instance Subscription_eta : Eta Subscription := λ s,
  Build_Subscription (s_user s) (s_plan s) (s_status s) (s_expires s) (s_auto_renew s) (s_method s).
#[global] Instance TVLogin_eta : Eta TVLogin := λ t,
  Build_TVLogin (t_id t) (t_device_hash t) (t_user_hash t) (t_user t) (t_status t) (t_expires t) (t_polled t).
#[global] Instance VerificationCode_eta : Eta VerificationCode := λ c,
  Build_VerificationCode (c_id c) (c_email c) (c_code c) (c_purpose c) (c_expires c) (c_used c) (c_created c).
#[global] Instance Payment_eta : Eta Payment := λ p,
  Build_Payment (p_id p) (p_user p) (p_yookassa p) (p_amount p) (p_original p) (p_discount p)
    (p_status p) (p_plan p) (p_confirm_url p) (p_confirmed p) (p_promo p) (p_created p).
#[global] Instance PromoCode_eta : Eta PromoCode := λ p,
  Build_PromoCode (pr_id p) (pr_code p) (pr_description p) (pr_percent p) (pr_max_uses p) (pr_used p) (pr_active p)
    (pr_plans p) (pr_once p) (pr_expires p).

(** ** The world

    Besides the tables: the clock, the maps in memory (the visitors of every
    rate limiter by its number), the mails on their way,
    the counters that number queries and random draws, and records of what the
    theorems speak of: approvals and grants, activations, and the users whose
    cards YooKassa was told to charge. *)

Record Visitor := { count : Z; resetAt : Z }.

Inductive Event :=
| Approval (login user : nat)
| Grant (login user : nat).

(** A subscription was changed for a payment, because the payment went through
    or because an administrator said so. *)
Inductive Activated :=
| Automatic (payment : nat)
| Manual (payment : nat).

Record World := {
  clock : Z;
  users : list User;
  subs : list Subscription;
  logins : list TVLogin;
  codes : list VerificationCode;
  payments : list Payment;
  promos : list PromoCode;
  visitors : gmap (nat * jstr) Visitor;
  approveAttempts : gmap jstr (list Z);
  tokenAttempts : gmap jstr (list Z);
  mails : list (jstr * jstr * jstr);
  queries : nat;
  draws : nat;
  events : list Event;
  activated : list Activated;
  charges : list nat;
}.
#[global] Instance World_eta : Eta World := λ w, Build_World (clock w) (users w) (subs w) (logins w)
  (codes w) (payments w) (promos w) (visitors w) (approveAttempts w) (tokenAttempts w) (mails w)
  (queries w) (draws w) (events w) (activated w) (charges w).

(** ** Queries *)

Inductive DbError := RecordNotFound | DatabaseBusy | OtherError.

Section Queries.
(** The error of the [n]-th query, if it fails for reasons of its own. *)
Context (fault : nat → option DbError).

(** A statement, and a transaction of several, which leaves no trace when it
    fails. *)
Definition Tx (A : Type) : Type := World → (A + DbError) * World.

Definition statement {A} (f : Tx A) : Tx A := λ w,
  let w := w <| queries := S (queries w) |> in
  match fault (queries w) with Some e => (inr e, w) | None => f w end.

Definition query {A} (f : Tx A) : prog World (A + DbError) := atomic (statement f).

Definition transaction {A} (t : Tx A) : prog World (A + DbError) :=
  atomic (λ w,
    match t w with
    | (inl a, w') => (inl a, w')
    | (inr e, w') => (inr e, w <| queries := queries w' |>)
    end).

(** [First]: the row with the smallest key. *)
Definition find_row {A} (table : World → list A) (P : A → bool) : Tx A := λ w,
  (match find_first P (table w) with Some x => inl x | None => inr RecordNotFound end, w).
Definition first {A} (table : World → list A) (P : A → bool) : prog World (A + DbError) :=
  query (find_row table P).

(** A statement that only writes. *)
Definition writing (f : World → World) : Tx () := λ w, (inl (), f w).
Definition execute (f : World → World) : prog World (() + DbError) := query (writing f).

Definition set_where {A} (P : A → bool) (f : A → A) (l : list A) : list A :=
  (λ x, if P x then f x else x) <$> l.

Definition now : prog World Z := asks clock.
Definition draw : prog World nat := atomic (λ w, (draws w, w <| draws := S (draws w) |>)).
Definition record (e : Event) (w : World) : World := w <| events := events w ++ [e] |>.
End Queries.

(** The steps inside a transaction, one after the other, up to the first that
    fails. *)
#[global] Instance Tx_ret : MRet Tx := λ A a w, (inl a, w).
#[global] Instance Tx_bind : MBind Tx := λ A B k t w,
  match t w with (inl a, w') => k a w' | (inr e, w') => (inr e, w') end.

(** An error that the code drops, or looks at. *)
Definition caught {A} (t : Tx A) : Tx (A + DbError) := λ w, let '(r, w') := t w in (inl r, w').
Definition raise {A} (e : DbError) : Tx A := λ w, (inr e, w).

(** ** Requests and answers *)

Record GoRequest := {
  go_headers : list header;
  go_body : option jstr;
  client_ip : jstr;
  go_host : jstr;
  go_tls : bool;
}.

Definition reply (status : Z) (v : jval) : Response := json_response v status.
Definition error_json (message : jstr) : jval := JObj [(§"error", JStr message)].
Definition refuse (status : Z) (message : jstr) : prog World Response :=
  mret (reply status (error_json message)).

(** [db_errors.go] *)
Definition respondDatabaseBusy : prog World Response :=
  refuse 503 §"database temporarily busy, please retry".

(** What most handlers do with an error of a query. *)
Definition load_failed (missing : prog World Response) (message : jstr) (e : DbError) : prog World Response :=
  match e with
  | RecordNotFound => missing
  | DatabaseBusy => respondDatabaseBusy
  | OtherError => refuse 500 message
  end.

(** ** Libraries *)

Record Claims := { cl_user : nat; cl_role : jstr; cl_expires : Z }.

(** [golang-jwt] with the server's secret: [SignedString] and the part of
    [ParseWithClaims] that checks form and signature. *)
Class Tokens := {
  sign : Claims → option jstr;
  verify : jstr → option Claims;
}.

Class TokenLaws `{Tokens} := {
  verify_sign c s : sign c = Some s → verify s = Some c;
  sign_nonempty c s : sign c = Some s → s ≠ [];
  sign_units c s : sign c = Some s → Forall is_unit s;
}.

(** bcrypt, with the salt drawn from the random source. *)
Class Passwords := {
  GenerateFromPassword : nat → jstr → option jstr;
  CompareHashAndPassword : jstr → jstr → bool;
}.

(** Random numbers and device codes, the server's secret, SHA-256 in base64 for
    URLs, times in JSON, the binding package's check of addresses and its
    message, and what GORM does with the verification codes on an update for
    which no table was set. *)
Class Surroundings := {
  rand_int : nat → Z;
  rand_device_code : nat → jstr;
  jwtSecret : jstr;
  sha256_base64 : jstr → jstr;
  time_json : Z → jval;
  is_email : jstr → bool;
  binding_error : option jstr → jstr;
  update_without_table : (VerificationCode → bool) → list VerificationCode → list VerificationCode;
}.
