(* ===== verification/GoAuth.v ===== *)
(** * Sign-in at the backend: [vpn-backend/internal/handlers/auth.go] and
    [middleware/auth.go], [middleware/ratelimit.go]

    Registration, e-mail verification, sign-in, refresh, password reset and
    the device flow that signs in a television with a code confirmed on
    another device.  A handler is a program of atomic steps on the shared
    world. *)
From S2P Require Export GoModels.

Module GoAuth.
Section Handlers.
Context `{GoHost, Tokens, Passwords, Surroundings} (fault : nat → option DbError).

Abbreviation handler := (GoRequest → prog World Response).

(** ** Request bodies *)

Definition required (name : jstr) (fs : list (jstr * jval)) : option jstr :=
  s ← string_field name fs; if str_truthy s then Some s else None.
Definition email_field (fs : list (jstr * jval)) : option jstr :=
  s ← required §"email" fs; if is_email s then Some s else None.
Definition min8 (s : jstr) : option jstr := if (8 <=? rune_count s)%nat then Some s else None.

Definition registerRequest (body : option jstr) : option (jstr * jstr) :=
  fs ← go_decode body; e ← email_field fs; p ← required §"password" fs; p ← min8 p; Some (e, p).
Definition loginRequest (body : option jstr) : option (jstr * jstr) :=
  fs ← go_decode body; e ← email_field fs; p ← required §"password" fs; Some (e, p).
Definition verifyRequest (body : option jstr) : option (jstr * jstr) :=
  fs ← go_decode body; e ← email_field fs; c ← required §"code" fs; Some (e, c).
Definition forgotPasswordRequest (body : option jstr) : option jstr :=
  fs ← go_decode body; email_field fs.
Definition resetPasswordRequest (body : option jstr) : option (jstr * jstr * jstr) :=
  fs ← go_decode body; e ← email_field fs; c ← required §"code" fs;
  p ← required §"new_password" fs; p ← min8 p; Some (e, c, p).
Definition refreshRequest (body : option jstr) : option jstr :=
  fs ← go_decode body; required §"refresh_token" fs.
Definition tvApproveRequest (body : option jstr) : option (jstr * jstr * jstr) :=
  fs ← go_decode body; c ← required §"user_code" fs; e ← email_field fs;
  p ← required §"password" fs; Some (c, e, p).
Definition tvApproveAuthenticatedRequest (body : option jstr) : option jstr :=
  fs ← go_decode body; required §"user_code" fs.
Definition tvTokenRequest (body : option jstr) : option jstr :=
  fs ← go_decode body; required §"device_code" fs.

(** Run a handler on a bound request. *)
Definition binding {A} (req : option A) (body : option jstr) (k : A → prog World Response)
    : prog World Response :=
  match req with None => refuse 400 (binding_error body) | Some a => k a end.

(** ** Middleware *)

(** Form, signature and expiry of a token. *)
Definition ParseWithClaims (now : Z) (s : jstr) : option Claims :=
  c ← verify s; if now <? cl_expires c * second then Some c else None.

(** The middlewares stand before handlers with any kind of answer; [ok] makes an
    answer of a plain response. *)
Definition AuthRequired {A} (ok : Response → A) (next : Claims → GoRequest → prog World A)
    : GoRequest → prog World A := λ c,
  let unauthorized message := mret (ok (reply 401 (error_json message))) in
  match default [] (headers_get (go_headers c) §"Authorization") with
  | [] => unauthorized §"authorization header required"
  | authHeader =>
      match SplitN2 32 authHeader with
      | (scheme, Some token) =>
          if str_eqb scheme §"Bearer" then
            t ← now;
            match ParseWithClaims t token with
            | None => unauthorized §"invalid or expired token"
            | Some claims => next claims c
            end
          else unauthorized §"invalid authorization format"
      | _ => unauthorized §"invalid authorization format"
      end
  end.

Definition AdminRequired {A} (ok : Response → A) (next : Claims → GoRequest → prog World A)
    : Claims → GoRequest → prog World A := λ claims c,
  if str_eqb (cl_role claims) RoleAdmin then next claims c
  else mret (ok (reply 403 (error_json §"admin access required"))).

(** [Allow] on the entry of an address. *)
Definition count_visit (limit window t : Z) (v : option Visitor) : bool * Visitor :=
  match v with
  | Some v =>
      if resetAt v <? t then (true, {| count := 1; resetAt := t + window |})
      else (count v + 1 <=? limit, {| count := count v + 1; resetAt := resetAt v |})
  | None => (true, {| count := 1; resetAt := t + window |})
  end.

Definition Allow (limiter : nat) (limit window : Z) (ip : jstr) : prog World bool :=
  atomic (λ w,
    let '(ok, v) := count_visit limit window (clock w) (visitors w !! (limiter, ip)) in
    (ok, w <| visitors := <[(limiter, ip) := v]> (visitors w) |>)).

(** The limiter forgets visitors whose window is over. *)
Definition cleanup (limiter : nat) (w : World) : World :=
  w <| visitors := filter (λ x, ¬ (x.1.1 = limiter ∧ resetAt x.2 < clock w)) (visitors w) |>.

Definition RateLimit {A} (ok : Response → A) (limiter : nat) (limit window : Z) (next : GoRequest → prog World A)
    : GoRequest → prog World A := λ c,
  allowed ← Allow limiter limit window (client_ip c);
  if allowed : bool then next c
  else mret (ok (reply 429 (error_json §"too many requests, try again later"))).

(** ** Codes *)

Definition generateCode : prog World jstr :=
  n ← draw; mret (num_str (rand_int n mod 900000 + 100000)).

Definition alphabet : jstr := §"ABCDEFGHJKLMNPQRSTUVWXYZ23456789".

Fixpoint draw_letters (n : nat) : prog World jstr :=
  match n with
  | O => mret []
  | S n =>
      i ← draw;
      rest ← draw_letters n;
      mret (nth (Z.to_nat (rand_int i mod Z.of_nat (length alphabet))) alphabet 0 :: rest)
  end.
Definition generateTVUserCode : prog World jstr := draw_letters 8.
Definition generateTVDeviceCode : prog World jstr := n ← draw; mret (rand_device_code n).

Definition normalizeTVUserCode (code : jstr) : jstr :=
  ToUpper (filter (λ c, c ≠ 45) (TrimSpace code)).
Definition hashTVCode (code : jstr) : jstr := sha256_base64 (jwtSecret ++ §":" ++ code).

Definition requestBaseURL (c : GoRequest) : jstr :=
  let proto := default [] (headers_get (go_headers c) §"X-Forwarded-Proto") in
  let proto := if str_truthy proto then proto else if go_tls c then §"https" else §"http" in
  let host := default [] (headers_get (go_headers c) §"X-Forwarded-Host") in
  let host := if str_truthy host then host else go_host c in
  proto ++ §"://" ++ host.

(** ** Tokens *)

Definition token_claims (user : User) (t ttl : Z) : Claims :=
  {| cl_user := u_id user; cl_role := u_role user; cl_expires := (t + ttl) / second |}.

Definition generateTokens (user : User) : prog World (option (jstr * jstr)) :=
  t ← now;
  match sign (token_claims user t (1 * hour)) with
  | None => mret None
  | Some access =>
      t ← now;
      match sign (token_claims user t (30 * 24 * hour)) with
      | None => mret None
      | Some refresh => mret (Some (access, refresh))
      end
  end.

Definition tokenResponse (p : jstr * jstr) : jval :=
  JObj [(§"access_token", JStr p.1); (§"refresh_token", JStr p.2)].

Definition respond_tokens (status : Z) (message : jstr) (user : User) : prog World Response :=
  tokens ← generateTokens user;
  match tokens with
  | None => refuse 500 message
  | Some p => mret (reply status (tokenResponse p))
  end.

(** ** Accounts *)

Definition user_by_email (e : jstr) : prog World (User + DbError) :=
  first fault users (λ u, str_eqb (u_email u) e).
Definition user_by_id (i : nat) : prog World (User + DbError) :=
  first fault users (λ u, (u_id u =? i)%nat).

(** An unused code for an address and a purpose. *)
Definition open_code (e purpose : jstr) (c : VerificationCode) : bool :=
  str_eqb (c_email c) e && str_eqb (c_purpose c) purpose && negb (c_used c).

Definition create_code (e code purpose : jstr) (expires : Z) : prog World (() + DbError) :=
  execute fault (λ w, w <| codes := codes w ++
    [{| c_id := S (length (codes w)); c_email := e; c_code := code; c_purpose := purpose;
        c_expires := expires; c_used := false; c_created := clock w |}] |>).

Definition use_code (c : VerificationCode) : prog World (() + DbError) :=
  execute fault (λ w, w <| codes :=
    set_where (λ c', (c_id c' =? c_id c)%nat) (λ c', c' <| c_used := true |>) (codes w) |>).

Definition sendVerificationEmailAsync (e code purpose : jstr) : prog World () :=
  tells (λ w, w <| mails := mails w ++ [(e, code, purpose)] |>).

(** The address of a user is unique. *)
Definition create_user (e hash : jstr) : prog World (User + DbError) :=
  query fault (λ w,
    if existsb (λ u, str_eqb (u_email u) e) (users w) then (inr OtherError, w)
    else
      let u := {| u_id := S (length (users w)); u_email := e; u_hash := hash; u_role := RoleUser;
                  u_created := clock w |} in
      (inl u, w <| users := users w ++ [u] |>)).

(** A user has one subscription. *)
Definition create_subscription (s : Subscription) : prog World (() + DbError) :=
  query fault (λ w,
    if existsb (λ s', (s_user s' =? s_user s)%nat) (subs w) then (inr OtherError, w)
    else (inl (), w <| subs := subs w ++ [s] |>)).

Definition free_subscription (user : nat) (t : Z) : Subscription :=
  {| s_user := user; s_plan := PlanFree; s_status := SubActive; s_expires := add_year t;
     s_auto_renew := false; s_method := [] |}.

Definition Register : handler := λ c,
  binding (registerRequest (go_body c)) (go_body c) (λ '(e, password),
  existing ← user_by_email e;
  match existing with
  | inl _ => refuse 409 §"email already registered"
  | inr DatabaseBusy => respondDatabaseBusy
  | inr OtherError => refuse 500 §"failed to check email availability"
  | inr RecordNotFound =>
      t ← now;
      recent ← first fault codes (λ c, open_code e §"verify" c && (t - 55 * second <? c_created c));
      match recent with
      | inl _ => refuse 429 §"code already sent, wait 60 seconds before retrying"
      | inr _ =>
          _ ← execute fault (λ w, w <| codes := update_without_table (open_code e §"verify") (codes w) |>);
          salt ← draw;
          match GenerateFromPassword salt password with
          | None => refuse 500 §"internal error"
          | Some hash =>
              code ← generateCode;
              t ← now;
              _ ← create_code e (code ++ §"|" ++ hash) §"verify" (t + 10 * minute);
              _ ← sendVerificationEmailAsync e code §"verify";
              mret (reply 200 (JObj [(§"message", JStr §"verification code sent to email")]))
          end
      end
  end).

Definition VerifyEmail : handler := λ c,
  binding (verifyRequest (go_body c)) (go_body c) (λ '(e, code),
  t ← now;
  vc ← first fault codes (λ c, open_code e §"verify" c && (t <? c_expires c));
  match vc with
  | inr _ => refuse 400 §"invalid or expired code"
  | inl vc =>
      match SplitN2 124 (c_code vc) with
      | (sent_code, Some hash) =>
          if str_eqb sent_code code then
            _ ← use_code vc;
            user ← create_user e hash;
            match user with
            | inr _ => refuse 409 §"email already registered"
            | inl user =>
                t ← now;
                _ ← create_subscription (free_subscription (u_id user) t);
                respond_tokens 201 §"internal error" user
            end
          else refuse 400 §"invalid or expired code"
      | _ => refuse 400 §"invalid or expired code"
      end
  end).

Definition if_registered : Response :=
  reply 200 (JObj [(§"message", JStr §"if this email is registered, a code will be sent")]).

Definition ForgotPassword : handler := λ c,
  binding (forgotPasswordRequest (go_body c)) (go_body c) (λ e,
  user ← user_by_email e;
  match user with
  | inr err => load_failed (mret if_registered) §"failed to process password reset request" err
  | inl _ =>
      t ← now;
      recent ← first fault codes (λ c, open_code e §"reset" c && (t - 55 * second <? c_created c));
      match recent with
      | inl _ => mret if_registered
      | inr _ =>
          _ ← execute fault (λ w, w <| codes := update_without_table (open_code e §"reset") (codes w) |>);
          code ← generateCode;
          t ← now;
          _ ← create_code e code §"reset" (t + 10 * minute);
          _ ← sendVerificationEmailAsync e code §"reset";
          mret if_registered
      end
  end).

Definition ResetPassword : handler := λ c,
  binding (resetPasswordRequest (go_body c)) (go_body c) (λ '(e, code, password),
  t ← now;
  vc ← first fault codes (λ c, open_code e §"reset" c && str_eqb (c_code c) code && (t <? c_expires c));
  match vc with
  | inr _ => refuse 400 §"invalid or expired code"
  | inl vc =>
      _ ← use_code vc;
      salt ← draw;
      match GenerateFromPassword salt password with
      | None => refuse 500 §"internal error"
      | Some hash =>
          updated ← query fault (λ w,
            (inl (existsb (λ u, str_eqb (u_email u) e) (users w)),
             w <| users := set_where (λ u, str_eqb (u_email u) e) (λ u, u <| u_hash := hash |>) (users w) |>));
          match updated with
          | inl true => mret (reply 200 (JObj [(§"message", JStr §"password updated successfully")]))
          | _ => refuse 500 §"failed to update password"
          end
      end
  end).

Definition Login : handler := λ c,
  binding (loginRequest (go_body c)) (go_body c) (λ '(e, password),
  user ← user_by_email e;
  match user with
  | inr err => load_failed (refuse 401 §"invalid email or password") §"failed to load user" err
  | inl user =>
      if CompareHashAndPassword (u_hash user) password
      then respond_tokens 200 §"failed to generate tokens" user
      else refuse 401 §"invalid email or password"
  end).

Definition Refresh : handler := λ c,
  binding (refreshRequest (go_body c)) (go_body c) (λ refreshToken,
  t ← now;
  match ParseWithClaims t refreshToken with
  | None => refuse 401 §"invalid refresh token"
  | Some claims =>
      user ← user_by_id (cl_user claims);
      match user with
      | inr err => load_failed (refuse 401 §"user not found") §"failed to load user" err
      | inl user => respond_tokens 200 §"failed to generate tokens" user
      end
  end).

(** [user.go] *)
Definition GetMe (claims : Claims) : handler := λ _,
  user ← user_by_id (cl_user claims);
  match user with
  | inr _ => refuse 404 §"user not found"
  | inl user =>
      mret (reply 200 (JObj
        [(§"created_at", time_json (u_created user)); (§"email", JStr (u_email user));
         (§"id", JNum (Z.of_nat (u_id user))); (§"role", JStr (u_role user))]))
  end.

(** ** The device flow *)

Definition expireStaleTVLogins : prog World () :=
  t ← now;
  _ ← execute fault (λ w, w <| logins :=
    set_where (λ l, bool_decide (t_status l = TVPending ∨ t_status l = TVApproved) && (t_expires l <=? t))
      (λ l, l <| t_status := TVExpired |>) (logins w) |>);
  mret ().

(** The attempts that still count, and whether another is admitted. *)
Definition attempt (limit : nat) (window t : Z) (attempts : list Z) : bool * list Z :=
  let kept := filter (λ a, t - window < a) attempts in
  if (limit <=? length kept)%nat then (false, kept) else (true, kept ++ [t]).

Definition allowTVAttempt (get : World → gmap jstr (list Z)) (set : gmap jstr (list Z) → World → World)
    (key : jstr) (limit : nat) (window : Z) : prog World bool :=
  t ← now;
  atomic (λ w,
    let '(ok, kept) := attempt limit window t (default [] (get w !! key)) in
    (ok, set (<[key := kept]> (get w)) w)).

Definition allowApprove : jstr → nat → Z → prog World bool :=
  allowTVAttempt approveAttempts (λ m w, w <| approveAttempts := m |>).
Definition allowToken : jstr → nat → Z → prog World bool :=
  allowTVAttempt tokenAttempts (λ m w, w <| tokenAttempts := m |>).

(** [!a || !b] *)
Definition both (a b : prog World bool) : prog World bool :=
  x ← a; if x : bool then b else mret false.

Definition create_login (device user : jstr) (expires : Z) : prog World (() + DbError) :=
  query fault (λ w,
    if existsb (λ l, str_eqb (t_device_hash l) device) (logins w) then (inr OtherError, w)
    else (inl (), w <| logins := logins w ++
      [{| t_id := S (length (logins w)); t_device_hash := device; t_user_hash := user; t_user := None;
          t_status := TVPending; t_expires := expires; t_polled := None |}] |>)).

Definition update_login (i : nat) (f : TVLogin → TVLogin) (w : World) : World :=
  w <| logins := set_where (λ l, (t_id l =? i)%nat) f (logins w) |>.

Definition TVStart : handler := λ c,
  _ ← expireStaleTVLogins;
  deviceCode ← generateTVDeviceCode;
  if negb (str_truthy deviceCode) then refuse 500 §"failed to generate device code" else
  userCode ← generateTVUserCode;
  t ← now;
  created ← create_login (hashTVCode deviceCode) (hashTVCode userCode) (t + 10 * minute);
  match created with
  | inr _ => refuse 500 §"failed to create tv login"
  | inl _ =>
      let verificationURI := requestBaseURL c ++ §"/api/v1/tv" in
      mret (reply 200 (JObj
        [(§"device_code", JStr deviceCode);
         (§"expires_in", JNum 600);
         (§"interval", JNum 8);
         (§"user_code", JStr (take 4 userCode ++ §"-" ++ drop 4 userCode));
         (§"verification_uri", JStr verificationURI);
         (§"verification_uri_complete", JStr (verificationURI ++ §"?code=" ++ userCode))]))
  end.

Definition pending_login (userCode : jstr) (t : Z) : prog World (TVLogin + DbError) :=
  first fault logins (λ l, str_eqb (t_user_hash l) (hashTVCode userCode)
                             && bool_decide (t_status l = TVPending) && (t <? t_expires l)).

(** The end of both ways to approve. *)
Definition approve (login : TVLogin) (user : User) : prog World Response :=
  _ ← now;
  updated ← execute fault (λ w, record (Approval (t_id login) (u_id user))
    (update_login (t_id login)
       (λ l, l <| t_user := Some (u_id user) |> <| t_status := TVApproved |>) w));
  match updated with
  | inr _ => refuse 500 §"failed to approve tv login"
  | inl _ => mret (reply 200 (JObj [(§"status", JStr §"approved")]))
  end.

Definition TVApprove : handler := λ c,
  _ ← expireStaleTVLogins;
  binding (tvApproveRequest (go_body c)) (go_body c) (λ '(code, e, password),
  let userCode := normalizeTVUserCode code in
  allowed ← both (allowApprove (§"approve-ip:" ++ client_ip c) 60 (10 * minute))
    (allowApprove (§"approve-code:" ++ client_ip c ++ §":" ++ userCode) 6 (10 * minute));
  if negb allowed then refuse 429 §"too_many_attempts" else
  t ← now;
  login ← pending_login userCode t;
  match login with
  | inr _ => refuse 400 §"invalid or expired code"
  | inl login =>
      user ← user_by_email e;
      match user with
      | inr err => load_failed (refuse 401 §"invalid email or password") §"failed to load user" err
      | inl user =>
          if CompareHashAndPassword (u_hash user) password then approve login user
          else refuse 401 §"invalid email or password"
      end
  end).

Definition TVApproveAuthenticated (claims : Claims) : handler := λ c,
  _ ← expireStaleTVLogins;
  let userID := cl_user claims in
  if (userID =? 0)%nat then refuse 401 §"unauthorized" else
  binding (tvApproveAuthenticatedRequest (go_body c)) (go_body c) (λ code,
  let userCode := normalizeTVUserCode code in
  allowed ← both (allowApprove (§"approve-user:" ++ num_str (Z.of_nat userID)) 60 (10 * minute))
    (allowApprove (§"approve-user-code:" ++ num_str (Z.of_nat userID) ++ §":" ++ userCode) 8 (10 * minute));
  if negb allowed then refuse 429 §"too_many_attempts" else
  t ← now;
  login ← pending_login userCode t;
  match login with
  | inr _ => refuse 400 §"invalid or expired code"
  | inl login =>
      user ← user_by_id userID;
      match user with
      | inr _ => refuse 401 §"user not found"
      | inl user => approve login user
      end
  end).

Definition slow_down : Response :=
  reply 429 (JObj [(§"error", JStr §"slow_down"); (§"interval", JNum 8)]).

(** The end of [TVToken]: use up the approval, then issue the tokens. *)
Definition consume (login : TVLogin) (user : User) : prog World Response :=
  _ ← now;
  affected ← query fault (λ w,
    let hit := existsb (λ l, (t_id l =? t_id login)%nat && bool_decide (t_status l = TVApproved)) (logins w) in
    (inl hit,
     if hit then record (Grant (t_id login) (u_id user)) (w <| logins :=
       set_where (λ l, (t_id l =? t_id login)%nat && bool_decide (t_status l = TVApproved))
         (λ l, l <| t_status := TVConsumed |>) (logins w) |>)
     else w));
  match affected with
  | inr _ => refuse 500 §"failed to consume tv login"
  | inl false => refuse 400 §"already_used"
  | inl true => respond_tokens 200 §"failed to generate tokens" user
  end.

Definition TVToken : handler := λ c,
  _ ← expireStaleTVLogins;
  binding (tvTokenRequest (go_body c)) (go_body c) (λ deviceCode,
  let deviceHash := hashTVCode deviceCode in
  allowed ← allowToken (§"token-ip:" ++ client_ip c) 180 (10 * minute);
  if negb allowed then mret slow_down else
  login ← first fault logins (λ l, str_eqb (t_device_hash l) deviceHash);
  match login with
  | inr _ => refuse 400 §"invalid device code"
  | inl login =>
      allowed ← allowToken (§"token-device:" ++ deviceHash) 120 (10 * minute);
      if negb allowed then mret slow_down else
      t ← now;
      if bool_decide (t_status login = TVExpired) || (t_expires login <? t) then
        _ ← execute fault (update_login (t_id login) (λ l, l <| t_status := TVExpired |>));
        refuse 400 §"expired_token"
      else match t_status login with
      | TVConsumed => refuse 400 §"already_used"
      | TVPending =>
          t ← now;
          if match t_polled login with Some at_ => t - at_ <? 3 * second | None => false end
          then mret slow_down
          else
            _ ← execute fault (update_login (t_id login) (λ l, l <| t_polled := Some t |>));
            mret (reply 202 (JObj [(§"error", JStr §"authorization_pending"); (§"status", JStr §"pending")]))
      | _ =>
          match t_user login with
          | None => refuse 500 §"approved login is missing user"
          | Some i =>
              user ← user_by_id i;
              match user with
              | inr _ => refuse 401 §"user not found"
              | inl user => consume login user
              end
          end
      end
  end).
End Handlers.
End GoAuth.
