(* ===== verification/GoPay.v ===== *)
(** * Payments at the backend: [vpn-backend/internal/handlers/payment.go],
    [payment_sync.go], [promo_codes.go], [admin.go] ([ApprovePayment])

    Prices and promo codes, the creation of a payment at YooKassa, the webhook
    and the check of pending payments that activate a subscription, the
    administrator's approval and the administration of promo codes.  YooKassa
    is outside: a class with its answers, numbered by the requests. *)
From S2P Require Export GoModels.

Module GoPay.

(** ** Surroundings *)

Class PaymentHost := {
  (** the answer to the [n]-th request: status and the object in the body *)
  yk_get : nat → jstr → option (Z * option (list (jstr * jval)));
  yk_post : nat → jval → option (Z * option (list (jstr * jval)));
  new_uuid : nat → jstr;
  (** [fmt]'s [%v] of what is no string *)
  fmt_other : jval → jstr;
  db_text : DbError → jstr;
  rfc3339 : jstr → option Z;
  shopID : jstr;
  shopKey : jstr;
  PaymentReturnURL : jstr;
  (** the variable [YOOKASSA_RECURRING_ENABLED] *)
  recurring_env : jstr;
}.

(** ** Prices *)

Record Price := { Amount : Q; DurationDays : Z }.

Definition planPrices (p : PlanType) : option Price :=
  match p with
  | PlanFree => None
  | PlanTrial => Some {| Amount := 5; DurationDays := 3 |}
  | PlanBasic => Some {| Amount := 199; DurationDays := 30 |}
  | PlanBasic3M => Some {| Amount := 505; DurationDays := 90 |}
  | PlanVIP => Some {| Amount := 399; DurationDays := 30 |}
  | PlanVIP3M => Some {| Amount := 1015; DurationDays := 90 |}
  end.

(** What indexing the map yields for a plan without a price. *)
Definition price_of (p : PlanType) : Price :=
  default {| Amount := 0; DurationDays := 0 |} (planPrices p).

Definition priced : list PlanType := [PlanTrial; PlanBasic; PlanBasic3M; PlanVIP; PlanVIP3M].
Definition plan_named (s : jstr) : option PlanType :=
  find_first (λ p, str_eqb (plan_text p) s) priced.

Definition fiscalProductName (p : PlanType) : jstr :=
  match p with
  | PlanBasic | PlanVIP => §"Доступ к информационным ресурсам на 1 месяц"
  | PlanBasic3M | PlanVIP3M => §"Доступ к информационным ресурсам на 3 месяца"
  | PlanTrial => §"Доступ к информационным ресурсам на 3 дня"
  | PlanFree => §"Доступ к информационным ресурсам (free)"
  end.

(** [%.2f] of an amount *)
Definition kopecks (q : Q) : Z := nearest_even (100 * Qnum q) (Zpos (Qden q)).
Definition two_digits (n : Z) : jstr := if n <? 10 then §"0" ++ num_str n else num_str n.
Definition fixed2 (q : Q) : jstr :=
  let k := kopecks q in num_str (k / 100) ++ §"." ++ two_digits (k mod 100).

(** ** Promo codes *)

Definition normalizePromoCode `{GoHost} (code : jstr) : jstr := ToUpper (TrimSpace code).

Definition promo_unit (c : Z) : bool :=
  ((65 <=? c) && (c <=? 90)) || ((48 <=? c) && (c <=? 57)) || (c =? 95) || (c =? 45).
Definition promoCodePattern (s : jstr) : bool :=
  (3 <=? length s)%nat && (length s <=? 32)%nat && forallb promo_unit s.

Fixpoint distinct_plans (seen : list jstr) (items : list jstr) : list jstr :=
  match items with
  | [] => []
  | item :: items =>
      let plan := TrimSpace item in
      if negb (str_truthy plan) || existsb (str_eqb plan) seen then distinct_plans seen items
      else match plan_named plan with
           | None => distinct_plans seen items
           | Some _ => plan :: distinct_plans (plan :: seen) items
           end
  end.

Definition normalizeApplicablePlans `{GoHost} (value : jstr) : jstr :=
  let value := ToLower (TrimSpace value) in
  if negb (str_truthy value) || str_eqb value §"all" then §"all" else
  match distinct_plans [] (Split 44 value) with
  | [] => §"all"
  | plans => JsString.join §"," (js_sort str_compare plans)
  end.

Definition promoAppliesToPlan `{GoHost} (promo : PromoCode) (plan : PlanType) : bool :=
  let applicable := normalizeApplicablePlans (pr_plans promo) in
  str_eqb applicable §"all" ||
  existsb (λ item, str_eqb (TrimSpace item) (plan_text plan)) (Split 44 applicable).

Record promoApplication := {
  pa_promo : option PromoCode;
  OriginalAmount : Q;
  DiscountAmount : Q;
  FinalAmount : Q;
}.

(** The end of [validatePromoCode]. *)
Definition discounted (promo : PromoCode) (originalAmount : Q) : promoApplication :=
  let discountAmount := fdiv (inject_Z (round_away (fmul originalAmount (inject_Z (pr_percent promo))))) 100 in
  let discountAmount := if fltb originalAmount discountAmount then originalAmount else discountAmount in
  let finalAmount := fsub originalAmount discountAmount in
  let finalAmount := if fltb finalAmount 0 then 0%Q else finalAmount in
  if fltb 0 finalAmount && fltb finalAmount 1
  then {| pa_promo := Some promo; OriginalAmount := originalAmount;
          DiscountAmount := fsub originalAmount 1; FinalAmount := 1 |}
  else {| pa_promo := Some promo; OriginalAmount := originalAmount;
          DiscountAmount := discountAmount; FinalAmount := finalAmount |}.

Section Handlers.
Context `{GoHost, PaymentHost} (fault : nat → option DbError).

(** ** Answers

    Amounts are doubles, which the model's JSON does not have, and a promo code
    is shown with its times, so these answers are records. *)
Inductive PayReply :=
| Answered (r : Response)
| Previewed (plan : PlanType) (promo_code : jstr) (promo_applied : bool) (discount_percent : Z)
    (original_amount discount_amount amount : Q)
| Created (payment_id : nat) (confirmation_url : jstr) (amount original_amount discount_amount : Q)
    (promo_code : jstr) (plan : PlanType) (status : PaymentStatus)
| PromoShown (status : Z) (promo : PromoCode) (used_count : nat).

Definition answer (status : Z) (v : jval) : prog World PayReply := mret (Answered (reply status v)).
Definition refused (status : Z) (message : jstr) : prog World PayReply :=
  answer status (error_json message).
Definition status_json (s : jstr) : jval := JObj [(§"status", JStr s)].

(** A value of a decoded map: the last one with the name. *)
Definition go_key (fs : list (jstr * jval)) (name : jstr) : option jval :=
  snd <$> find_first (λ f, str_eqb f.1 name) (reverse fs).
Definition key_string (fs : list (jstr * jval)) (name : jstr) : jstr :=
  match go_key fs name with Some (JStr s) => s | _ => [] end.
Definition key_object (fs : list (jstr * jval)) (name : jstr) : option (list (jstr * jval)) :=
  match go_key fs name with Some (JObj o) => Some o | _ => None end.

(** ** YooKassa *)

Definition yooKassaRecurringPaymentsEnabled : bool :=
  let value := TrimSpace recurring_env in
  str_eqb value §"1" || fold_eq value §"true" || fold_eq value §"yes".

Record yooKassaPaymentDetails := { Status : jstr; PaymentMethodID : jstr }.

(** The id of a payment method that was saved. *)
Definition saved_method (fs : list (jstr * jval)) : jstr :=
  match key_object fs §"payment_method" with
  | Some pm => match go_key pm §"saved" with Some (JBool true) => key_string pm §"id" | _ => [] end
  | None => []
  end.

Definition details_of (r : option (Z * option (list (jstr * jval)))) : option yooKassaPaymentDetails :=
  '(code, body) ← r;
  if (200 <=? code) && (code <? 300) then
    data ← body;
    Some {| Status := key_string data §"status"; PaymentMethodID := saved_method data |}
  else None.

Definition fetchYooKassaPaymentDetails (id : jstr) : prog World (option yooKassaPaymentDetails) :=
  n ← draw; mret (details_of (yk_get n id)).

Definition amount_json (q : Q) : jval :=
  JObj [(§"currency", JStr §"RUB"); (§"value", JStr (fixed2 q))].

Definition yooKassaReceipt (email : jstr) (plan : PlanType) (amount : Q) : jval :=
  JObj [(§"customer", JObj [(§"email", JStr email)]);
        (§"internet", JBool true);
        (§"items", JArr [JObj
           [(§"amount", amount_json amount);
            (§"description", JStr (fiscalProductName plan));
            (§"payment_mode", JStr §"full_prepayment");
            (§"payment_subject", JStr §"service");
            (§"quantity", JNum 1);
            (§"vat_code", JNum 7)]])].

Definition payment_order (user : User) (plan : PlanType) (amount : Q) (promo : jstr) : jval :=
  JObj ([(§"amount", amount_json amount);
         (§"capture", JBool true);
         (§"confirmation", JObj [(§"return_url", JStr PaymentReturnURL); (§"type", JStr §"redirect")]);
         (§"description", JStr (fiscalProductName plan));
         (§"metadata", JObj [(§"plan", JStr (plan_text plan));
                             (§"promo_code", JStr (normalizePromoCode promo));
                             (§"user_id", JNum (Z.of_nat (u_id user)))]);
         (§"payment_method_data", JObj [(§"type", JStr §"bank_card")]);
         (§"receipt", yooKassaReceipt (u_email user) plan amount)] ++
        if yooKassaRecurringPaymentsEnabled then [(§"save_payment_method", JBool true)] else []).

(** ** Counting payments *)

Definition count_payments (P : Payment → bool) : Tx nat :=
  statement fault (λ w, (inl (length (filter (λ p, P p = true) (payments w))), w)).

Definition trialAvailableForUser (userID : nat) : prog World (bool + DbError) :=
  n ← atomic (count_payments (λ p, (p_user p =? userID)%nat && bool_decide (p_status p = PaymentSucceeded)
                                     && bool_decide (p_plan p ∈ priced)));
  mret match n with inl n => inl (n =? 0)%nat | inr e => inr e end.

Definition used_promo (promo : nat) (p : Payment) : bool :=
  bool_decide (p_promo p = Some promo) && bool_decide (p_status p = PaymentSucceeded).

(** The error is dropped; the count is then zero. *)
Definition promoSuccessfulUseCount (promo : nat) : Tx nat :=
  r ← caught (count_payments (used_promo promo));
  mret match r with inl n => n | inr _ => 0%nat end.

Definition markPromoCodeUsed (payment : Payment) : Tx () :=
  match p_promo payment with
  | None => mret ()
  | Some promo =>
      usedCount ← promoSuccessfulUseCount promo;
      statement fault (writing (λ w, w <| promos :=
        set_where (λ p, (pr_id p =? promo)%nat) (λ p, p <| pr_used := Z.of_nat usedCount |>) (promos w) |>))
  end.

(** Outside of a transaction a count is a step of its own. *)
Definition counted (t : Tx nat) : prog World nat :=
  r ← atomic t; mret match r with inl n => n | inr _ => 0%nat end.

Definition validatePromoCode (userID : nat) (plan : PlanType) (code : jstr) (originalAmount : Q)
    : prog World (promoApplication + jstr) :=
  let normalizedCode := normalizePromoCode code in
  if negb (str_truthy normalizedCode) then
    mret (inl {| pa_promo := None; OriginalAmount := originalAmount; DiscountAmount := 0;
                 FinalAmount := originalAmount |})
  else if negb (promoCodePattern normalizedCode) then
    mret (inr §"Промокод должен содержать 3-32 символа: латинские буквы, цифры, _ или -")
  else
  promo ← first fault promos (λ p, str_eqb (pr_code p) normalizedCode);
  match promo with
  | inr RecordNotFound => mret (inr §"Промокод не найден")
  | inr e => mret (inr (db_text e))
  | inl promo =>
      if negb (pr_active promo) then mret (inr §"Промокод отключён") else
      t ← now;
      if match pr_expires promo with Some e => e <? t | None => false end
      then mret (inr §"Срок действия промокода истёк") else
      actualUsedCount ← counted (count_payments (used_promo (pr_id promo)));
      if (0 <? pr_max_uses promo) && (pr_max_uses promo <=? Z.of_nat actualUsedCount)
      then mret (inr §"Лимит использований промокода исчерпан") else
      if negb (promoAppliesToPlan promo plan)
      then mret (inr §"Промокод не действует на выбранный тариф") else
      usedCount ← (if pr_once promo
                   then counted (count_payments (λ p, (p_user p =? userID)%nat && used_promo (pr_id promo) p))
                   else mret 0%nat);
      if pr_once promo && (0 <? usedCount)%nat then mret (inr §"Вы уже использовали этот промокод")
      else mret (inl (discounted promo originalAmount))
  end.

(** ** Activation *)

(** [Hours] of a duration, as a double. *)
Definition Hours (d : Z) : Q :=
  fadd (inject_Z (Z.quot d hour)) (fdiv (inject_Z (Z.rem d hour)) (inject_Z hour)).

(** Durations are 64 bits wide: a difference of times saturates, a product
    wraps around. *)
Definition time_sub (t u : Z) : Z := Z.max (- 2 ^ 63) (Z.min (2 ^ 63 - 1) (t - u)).
Definition wrap64 (z : Z) : Z := (z + 2 ^ 63) mod 2 ^ 64 - 2 ^ 63.

(** Time left on one plan as hours on another. *)
Definition converted_hours (remaining : Z) (old new : Price) : Z :=
  let oldPricePerDay := fdiv (Amount old) (inject_Z (DurationDays old)) in
  let newPricePerDay := fdiv (Amount new) (inject_Z (DurationDays new)) in
  let ratio := fdiv oldPricePerDay newPricePerDay in
  truncate (fmul (Hours remaining) ratio).

Definition new_expiry (t : Z) (plan : PlanType) (sub : Subscription) : Z :=
  let price := price_of plan in
  if negb (bool_decide (plan = PlanTrial)) && (t <? s_expires sub) && negb (bool_decide (s_plan sub = PlanFree)) then
    if bool_decide (plan = s_plan sub) then add_days (s_expires sub) (DurationDays price)
    else match planPrices (s_plan sub) with
         | None => add_days t (DurationDays price)
         | Some old =>
             if DurationDays old =? 0 then add_days t (DurationDays price)
             else add_days (t + wrap64 (converted_hours (time_sub (s_expires sub) t) old price * hour))
                    (DurationDays price)
         end
  else add_days t (DurationDays price).

Definition by_user (userID : nat) (s : Subscription) : bool := (s_user s =? userID)%nat.

Definition activateSubscriptionFromPayment (mark : Activated) (payment : Payment) (paymentMethodID : jstr) : Tx () :=
  t ← (λ w, (inl (clock w), w));
  let paymentMethodID := if yooKassaRecurringPaymentsEnabled then paymentMethodID else [] in
  let autoRenew := negb (bool_decide (p_plan payment = PlanTrial)) && str_truthy paymentMethodID in
  sub ← caught (statement fault (find_row subs (by_user (p_user payment))));
  match sub with
  | inr _ =>
      statement fault (λ w,
        if existsb (by_user (p_user payment)) (subs w) then (inr OtherError, w)
        else (inl (), w <| subs := subs w ++
          [{| s_user := p_user payment; s_plan := p_plan payment; s_status := SubActive;
              s_expires := add_days t (DurationDays (price_of (p_plan payment)));
              s_auto_renew := autoRenew; s_method := paymentMethodID |}] |>
          <| activated := activated w ++ [mark] |>))
  | inl sub =>
      statement fault (writing (λ w, w <| subs := set_where (by_user (s_user sub)) (λ s,
          s <| s_plan := p_plan payment |> <| s_status := SubActive |>
            <| s_expires := new_expiry t (p_plan payment) sub |> <| s_auto_renew := autoRenew |>
            <| s_method := if str_truthy paymentMethodID then paymentMethodID else s_method s |>) (subs w) |>
          <| activated := activated w ++ [mark] |>))
  end.

(** The id of YooKassa is unique. *)
Definition create_payment (p : nat → Payment) : Tx Payment :=
  statement fault (λ w,
    let row := p (S (length (payments w))) in
    if existsb (λ q, str_eqb (p_yookassa q) (p_yookassa row)) (payments w) then (inr OtherError, w)
    else (inl row, w <| payments := payments w ++ [row] |>)).

Definition by_id (i : nat) (p : Payment) : bool := (p_id p =? i)%nat.
Definition update_payments (P : Payment → bool) (f : Payment → Payment) (w : World) : World :=
  w <| payments := set_where P f (payments w) |>.

(** The row becomes the given one. *)
Definition save_payment (p : Payment) : Tx () :=
  statement fault (writing (update_payments (by_id (p_id p)) (λ _, p))).
Definition mark_succeeded (p : Payment) (t : Z) : Tx () :=
  statement fault (writing (update_payments (by_id (p_id p))
    (λ q, q <| p_status := PaymentSucceeded |> <| p_confirmed := Some t |>))).

(** ** Handlers *)

Abbreviation pay_handler := (GoRequest → prog World PayReply).

Definition createPaymentRequest (body : option jstr) : option (PlanType * jstr) :=
  fs ← go_decode body;
  plan ← string_field §"plan" fs;
  promo ← string_field §"promo_code" fs;
  plan ← plan_named plan;
  Some (plan, promo).

(** The check both handlers make of a trial. *)
Definition trial_checked (userID : nat) (plan : PlanType) (next : prog World PayReply) : prog World PayReply :=
  if bool_decide (plan = PlanTrial) then
    available ← trialAvailableForUser userID;
    match available with
    | inr _ => refused 500 §"Не удалось проверить доступность пробного периода"
    | inl false => refused 409 §"Пробный период доступен только новым пользователям"
    | inl true => next
    end
  else next.

Definition paymentPreviewResponse (plan : PlanType) (promo : jstr) (app : promoApplication) : PayReply :=
  Previewed plan (normalizePromoCode promo) (bool_decide (is_Some (pa_promo app)))
    (match pa_promo app with None => 0 | Some p => pr_percent p end)
    (OriginalAmount app) (DiscountAmount app) (FinalAmount app).

Definition PreviewPayment (claims : Claims) : pay_handler := λ c,
  let userID := cl_user claims in
  match createPaymentRequest (go_body c) with
  | None => refused 400 §"Выберите тариф для оплаты"
  | Some (plan, promo) =>
      match planPrices plan with
      | None => refused 400 §"Неизвестный тариф"
      | Some price =>
          trial_checked userID plan (
          app ← validatePromoCode userID plan promo (Amount price);
          match app with
          | inr message => refused 400 message
          | inl app => mret (paymentPreviewResponse plan promo app)
          end)
      end
  end.

Definition new_payment (userID : nat) (yookassa : jstr) (app : promoApplication) (amount : Q)
    (status : PaymentStatus) (plan : PlanType) (url : jstr) (confirmed : option Z) (t : Z) (i : nat) : Payment :=
  {| p_id := i; p_user := userID; p_yookassa := yookassa; p_amount := amount;
     p_original := OriginalAmount app; p_discount := DiscountAmount app; p_status := status; p_plan := plan;
     p_confirm_url := url; p_confirmed := confirmed; p_promo := pr_id <$> pa_promo app; p_created := t |}.

Definition created (p : Payment) (promo : jstr) : PayReply :=
  Created (p_id p) (p_confirm_url p) (p_amount p) (p_original p) (p_discount p)
    (normalizePromoCode promo) (p_plan p) (p_status p).

(** A payment of nothing succeeds at once. *)
Definition pay_nothing (userID : nat) (plan : PlanType) (promo : jstr) (app : promoApplication) : prog World PayReply :=
  t ← now;
  n ← draw;
  payment ← transaction (
    payment ← create_payment (new_payment userID (§"promo-" ++ new_uuid n) app 0 PaymentSucceeded plan [] (Some t) t);
    _ ← activateSubscriptionFromPayment (Automatic (p_id payment)) payment [];
    _ ← markPromoCodeUsed payment;
    mret payment);
  match payment with
  | inr _ => refused 500 §"Не удалось применить промокод"
  | inl payment => mret (created payment promo)
  end.

(** [%v] of the id in the answer *)
Definition answered_id (fs : list (jstr * jval)) : jstr :=
  match go_key fs §"id" with
  | None | Some JNull => §"<nil>"
  | Some (JStr s) => s
  | Some v => fmt_other v
  end.

(** A payment of something is created at YooKassa, then stored. *)
Definition pay_at_yookassa (userID : nat) (plan : PlanType) (promo : jstr) (app : promoApplication) : prog World PayReply :=
  user ← first fault users (λ u, (u_id u =? userID)%nat);
  match user with
  | inr _ => refused 500 §"Не удалось получить email для чека"
  | inl user =>
      n ← draw;
      match yk_post n (payment_order user plan (FinalAmount app) promo) with
      | None => refused 500 §"Не удалось создать платёж"
      | Some (code, body) =>
          let ykResp := default [] body in
          if negb ((code =? 200) || (code =? 201)) then
            answer 500 (JObj [(§"error", JStr §"Платёжная система не приняла запрос"); (§"details", from_option JObj JNull body)])
          else
          let confirmURL := match key_object ykResp §"confirmation" with
                            | Some conf => key_string conf §"confirmation_url" | None => [] end in
          t ← now;
          payment ← atomic (create_payment (new_payment userID (answered_id ykResp) app (FinalAmount app)
            PaymentPending plan confirmURL None t));
          match payment with
          | inr _ => refused 500 §"Не удалось сохранить платёж"
          | inl payment => mret (created payment promo)
          end
      end
  end.

Definition CreatePayment (claims : Claims) : pay_handler := λ c,
  let userID := cl_user claims in
  match createPaymentRequest (go_body c) with
  | None => refused 400 §"Выберите тариф для оплаты"
  | Some (plan, promo) =>
      trial_checked userID plan (
      match planPrices plan with
      | None => refused 400 §"Неизвестный тариф"
      | Some price =>
          app ← validatePromoCode userID plan promo (Amount price);
          match app with
          | inr message => refused 400 message
          | inl app =>
              if Qeq_bool (FinalAmount app) 0 then pay_nothing userID plan promo app
              else pay_at_yookassa userID plan promo app
          end
      end)
  end.

(** The webhook's transaction.  The error of the first update is dropped, and so
    is that of the subscription that is read and not used, unless it is other
    than a missing row. *)
Definition settle_webhook (ykPaymentID method : jstr) : Tx () :=
  payment ← statement fault (find_row payments (λ p, str_eqb (p_yookassa p) ykPaymentID));
  if bool_decide (p_status payment = PaymentSucceeded) then markPromoCodeUsed payment else
  t ← (λ w, (inl (clock w), w));
  _ ← caught (mark_succeeded payment t);
  let payment := payment <| p_status := PaymentSucceeded |> <| p_confirmed := Some t |> in
  sub ← caught (statement fault (find_row subs (by_user (p_user payment))));
  _ ← match sub with
      | inr RecordNotFound | inl _ => mret ()
      | inr e => raise e
      end;
  _ ← activateSubscriptionFromPayment (Automatic (p_id payment)) payment method;
  markPromoCodeUsed payment.

Definition Webhook : pay_handler := λ c,
  match go_decode (go_body c) with
  | None => refused 400 §"invalid payload"
  | Some event =>
      let eventType := key_string event §"event" in
      let obj := default [] (key_object event §"object") in
      let ykPaymentID := key_string obj §"id" in
      if str_eqb eventType §"payment.canceled" then
        details ← fetchYooKassaPaymentDetails ykPaymentID;
        match details with
        | Some d =>
            if negb (str_eqb (Status d) §"canceled") then answer 200 (status_json §"verification_failed") else
            r ← execute fault (update_payments (λ p, str_eqb (p_yookassa p) ykPaymentID)
                                 (λ p, p <| p_status := PaymentCancelled |>));
            match r with
            | inr _ => refused 500 §"webhook processing failed"
            | inl _ => answer 200 (status_json §"ok")
            end
        | None => answer 200 (status_json §"verification_failed")
        end
      else if negb (str_eqb eventType §"payment.succeeded") then answer 200 (status_json §"ignored") else
      details ← fetchYooKassaPaymentDetails ykPaymentID;
      match details with
      | Some d =>
          if negb (str_eqb (Status d) §"succeeded") then answer 200 (status_json §"verification_failed") else
          let method := saved_method obj in
          r ← transaction (settle_webhook ykPaymentID (if str_truthy method then method else PaymentMethodID d));
          match r with
          | inr _ => refused 500 §"webhook processing failed"
          | inl _ => answer 200 (status_json §"ok")
          end
      | None => answer 200 (status_json §"verification_failed")
      end
  end.

(** ** Pending payments of a user, checked when the user loads the subscription *)

Definition settle_pending (i : nat) (method : jstr) : Tx () :=
  current ← statement fault (find_row payments (by_id i));
  if bool_decide (p_status current = PaymentSucceeded) then markPromoCodeUsed current else
  t ← (λ w, (inl (clock w), w));
  _ ← mark_succeeded current t;
  let current := current <| p_status := PaymentSucceeded |> <| p_confirmed := Some t |> in
  _ ← activateSubscriptionFromPayment (Automatic (p_id current)) current method;
  markPromoCodeUsed current.

Fixpoint sync_payments (ps : list Payment) : prog World (() + DbError) :=
  match ps with
  | [] => mret (inl ())
  | p :: ps =>
      if starts_with §"promo-" (p_yookassa p) then sync_payments ps else
      details ← fetchYooKassaPaymentDetails (p_yookassa p);
      match details with
      | None => sync_payments ps
      | Some d =>
          if str_eqb (Status d) §"succeeded" then
            r ← transaction (settle_pending (p_id p) (PaymentMethodID d));
            match r with inr e => mret (inr e) | inl _ => sync_payments ps end
          else if str_eqb (Status d) §"canceled" then
            r ← execute fault (update_payments
                   (λ q, by_id (p_id p) q && bool_decide (p_status q = PaymentPending))
                   (λ q, q <| p_status := PaymentCancelled |>));
            match r with inr e => mret (inr e) | inl _ => sync_payments ps end
          else sync_payments ps
      end
  end.

Definition pending_of (userID : nat) (p : Payment) : bool :=
  (p_user p =? userID)%nat && bool_decide (p_status p = PaymentPending).

Definition reconcilePendingUserPayments (userID : nat) : prog World (() + DbError) :=
  if negb (str_truthy shopID) || negb (str_truthy shopKey) then mret (inl ()) else
  ps ← query fault (λ w,
    (inl (take 5 (js_sort (λ p q, p_created q - p_created p)
                    (filter (λ p, pending_of userID p = true) (payments w)))), w));
  match ps with inr e => mret (inr e) | inl ps => sync_payments ps end.

(** ** The administrator's approval *)

Definition ApprovePayment (i : nat) : prog World PayReply :=
  p ← first fault payments (by_id i);
  match p with
  | inr _ => refused 404 §"payment not found"
  | inl p =>
      if bool_decide (p_status p = PaymentSucceeded) then
        answer 200 (JObj [(§"message", JStr §"payment already approved")])
      else
      t ← now;
      let p := if Qeq_bool (p_original p) 0 then p <| p_original := fadd (p_amount p) (p_discount p) |> else p in
      let p := p <| p_status := PaymentSucceeded |> <| p_confirmed := Some t |> in
      r ← transaction (
        _ ← save_payment p;
        _ ← activateSubscriptionFromPayment (Manual (p_id p)) p [];
        markPromoCodeUsed p);
      match r with
      | inr _ => refused 500 §"failed to approve payment"
      | inl _ => answer 200 (JObj [(§"message", JStr §"payment manually approved and subscription issued")])
      end
  end.

(** ** The administration of promo codes *)

Record promoCodeRequest := {
  rq_code : jstr;
  rq_description : jstr;
  rq_percent : Z;
  rq_max_uses : Z;
  rq_active : option bool;
  rq_plans : jstr;
  rq_once : option bool;
  rq_expires : option Z;
}.

Definition as_int (v : jval) : option Z :=
  match v with JNum z => if (- 2 ^ 63 <=? z) && (z <? 2 ^ 63) then Some z else None | _ => None end.
Definition as_bool (v : jval) : option (option bool) :=
  match v with JBool b => Some (Some b) | _ => None end.
Definition as_time (v : jval) : option (option Z) :=
  match v with JStr s => Some <$> rfc3339 s | _ => None end.

Definition bind_promo (body : option jstr) : option promoCodeRequest :=
  fs ← go_decode body;
  code ← string_field §"code" fs;
  description ← string_field §"description" fs;
  percent ← go_field §"discount_percent" 0 as_int fs;
  max_uses ← go_field §"max_uses" 0 as_int fs;
  active ← go_field §"active" None as_bool fs;
  plans ← string_field §"applicable_plans" fs;
  once ← go_field §"once_per_user" None as_bool fs;
  expires ← go_field §"expires_at" None as_time fs;
  Some {| rq_code := code; rq_description := description; rq_percent := percent; rq_max_uses := max_uses;
          rq_active := active; rq_plans := plans; rq_once := once; rq_expires := expires |}.

Definition buildPromoCodeFromRequest (req : promoCodeRequest) (existing : option PromoCode) : PromoCode + jstr :=
  let active := default (from_option pr_active true existing) (rq_active req) in
  let oncePerUser := default (from_option pr_once true existing) (rq_once req) in
  let code := normalizePromoCode (rq_code req) in
  let code := match existing with Some e => if str_truthy code then code else pr_code e | None => code end in
  if negb (promoCodePattern code) then inr §"Код должен содержать 3-32 символа: A-Z, 0-9, _ или -"
  else if (rq_percent req <? 1) || (100 <? rq_percent req) then inr §"Скидка должна быть от 1 до 100%"
  else if rq_max_uses req <? 0 then inr §"Лимит использований не может быть отрицательным"
  else inl {|
    pr_id := from_option pr_id 0%nat existing; pr_code := code; pr_description := TrimSpace (rq_description req);
    pr_percent := rq_percent req; pr_max_uses := rq_max_uses req; pr_used := from_option pr_used 0 existing;
    pr_active := active; pr_plans := normalizeApplicablePlans (rq_plans req); pr_once := oncePerUser;
    pr_expires := rq_expires req |}.

(** The code is unique.  A field that is [false] and has a default gets the
    default of its column, which is [true] for both flags. *)
Definition create_promo (p : PromoCode) : Tx PromoCode :=
  statement fault (λ w,
    let row := p <| pr_id := S (length (promos w)) |> <| pr_active := true |> <| pr_once := true |> in
    if existsb (λ q, str_eqb (pr_code q) (pr_code row)) (promos w) then (inr OtherError, w)
    else (inl row, w <| promos := promos w ++ [row] |>)).

Definition promoCodeResponse (status : Z) (p : PromoCode) : prog World PayReply :=
  n ← counted (count_payments (used_promo (pr_id p)));
  mret (PromoShown status p n).

Definition CreatePromoCode : pay_handler := λ c,
  match bind_promo (go_body c) with
  | None => refused 400 §"Некорректные данные промокода"
  | Some req =>
      match buildPromoCodeFromRequest req None with
      | inr message => refused 400 message
      | inl promo =>
          r ← atomic (create_promo promo);
          match r with
          | inr _ => refused 409 §"Промокод с таким кодом уже существует"
          | inl promo => promoCodeResponse 201 promo
          end
      end
  end.

Definition promo_by_id (i : nat) (p : PromoCode) : bool := (pr_id p =? i)%nat.

(** The columns an update writes. *)
Definition promo_fields (promo q : PromoCode) : PromoCode :=
  q <| pr_code := pr_code promo |> <| pr_description := pr_description promo |>
    <| pr_percent := pr_percent promo |> <| pr_max_uses := pr_max_uses promo |>
    <| pr_active := pr_active promo |> <| pr_plans := pr_plans promo |>
    <| pr_once := pr_once promo |> <| pr_expires := pr_expires promo |>.

Definition update_promo (i : nat) (promo : PromoCode) : Tx () :=
  statement fault (λ w,
    if existsb (λ q, negb (promo_by_id i q) && str_eqb (pr_code q) (pr_code promo)) (promos w)
    then (inr OtherError, w)
    else (inl (), w <| promos := set_where (promo_by_id i) (promo_fields promo) (promos w) |>)).

Definition UpdatePromoCode (i : nat) : pay_handler := λ c,
  existing ← first fault promos (promo_by_id i);
  match existing with
  | inr _ => refused 404 §"Промокод не найден"
  | inl existing =>
      match bind_promo (go_body c) with
      | None => refused 400 §"Некорректные данные промокода"
      | Some req =>
          match buildPromoCodeFromRequest req (Some existing) with
          | inr message => refused 400 message
          | inl promo =>
              r ← atomic (update_promo (pr_id existing) promo);
              match r with
              | inr _ => refused 409 §"Не удалось сохранить промокод"
              | inl _ =>
                  again ← first fault promos (promo_by_id (pr_id existing));
                  promoCodeResponse 200 (match again with inl p => p | inr _ => promo_fields promo existing end)
              end
          end
      end
  end.

Definition DeletePromoCode (i : nat) : prog World PayReply :=
  promo ← first fault promos (promo_by_id i);
  match promo with
  | inr _ => refused 404 §"Промокод не найден"
  | inl promo =>
      r ← execute fault (λ w, w <| promos :=
             set_where (promo_by_id (pr_id promo)) (λ p, p <| pr_active := false |>) (promos w) |>);
      match r with
      | inr _ => refused 500 §"Не удалось отключить промокод"
      | inl _ => answer 200 (JObj [(§"message", JStr §"Промокод отключён")])
      end
  end.
End Handlers.
End GoPay.
