(* ===== verification/GoFrame.v ===== *)
(** * Reasoning about the backend's programs

    A [Frame] is a relation between worlds that the bookkeeping of every query
    respects; a program that stays inside of it does not touch what the
    relation protects.  For a property of all interleavings, a [Discipline]
    gives the invariant, what a program may rely on between its steps and a
    frame that endangers neither; the rest are rules to walk a program. *)
From S2P Require Export GoAuth GoPay.
Import GoPay.

(** ** Frames *)

Class Frame (K : relation World) := {
  frame_preorder :: PreOrder K;
  frame_queries w n : K w (w <| queries := n |>);
  frame_draws w n : K w (w <| draws := n |>);
  frame_visitors w m : K w (w <| visitors := m |>);
  frame_approveAttempts w m : K w (w <| approveAttempts := m |>);
  frame_tokenAttempts w m : K w (w <| tokenAttempts := m |>);
}.

Section Frames.
Context (K : relation World) `{!Frame K} (fault : nat → option DbError).

Lemma statement_frame {A} (f : Tx A) w :
  (∀ v, K v (f v).2) → K w (statement fault f w).2.
Proof.
  intros Hf. unfold statement. cbv zeta. destruct (fault _); [apply frame_queries|].
  etrans; [apply frame_queries|]. apply Hf.
Qed.

Lemma query_only {A} (f : Tx A) : (∀ w, K w (f w).2) → only K (query fault f).
Proof. intros Hf. apply only_atomic. intros w. by apply statement_frame. Qed.

Lemma atomic_only {A} (f : World → A * World) : (∀ w, K w (f w).2) → only K (atomic f).
Proof. apply only_atomic. Qed.

Lemma first_only {A} (table : World → list A) P : only K (first fault table P).
Proof. by apply query_only. Qed.

Lemma execute_only f : (∀ w, K w (f w)) → only K (execute fault f).
Proof. intros Hf. by apply query_only. Qed.

Lemma now_only : only K now.
Proof. by apply only_atomic. Qed.
Lemma draw_only : only K draw.
Proof. apply only_atomic. intros w. apply frame_draws. Qed.

Lemma load_failed_only missing message e : only K missing → only K (load_failed missing message e).
Proof. by destruct e. Qed.
End Frames.

(** The same inside of a transaction. *)
Section Transactions.
Context (K : relation World) `{!Frame K} (fault : nat → option DbError).

Definition keeps {A} (t : Tx A) : Prop := ∀ w, K w (t w).2.

Lemma transaction_only {A} (t : Tx A) : keeps t → only K (transaction t).
Proof.
  intros Ht. apply only_atomic. intros w. specialize (Ht w).
  destruct (t w) as [[a|e] w']; [done|]. apply frame_queries.
Qed.

Lemma tx_bind_inl {A B} (t : Tx A) (k : A → Tx B) w b w' :
  (t ≫= k) w = (inl b, w') → ∃ a w1, t w = (inl a, w1) ∧ k a w1 = (inl b, w').
Proof. unfold mbind, Tx_bind. destruct (t w) as [[a|e] w1]; [eauto|done]. Qed.

Lemma caught_inl {A} (t : Tx A) w r w' : caught t w = (inl r, w') → t w = (r, w').
Proof. unfold caught. destruct (t w). by intros [= <- <-]. Qed.

Lemma statement_inl {A} (f : Tx A) w a w' :
  statement fault f w = (inl a, w') → f (w <| queries := S (queries w) |>) = (inl a, w').
Proof. unfold statement. cbv zeta. by destruct (fault _). Qed.

Lemma keeps_bind {A B} (t : Tx A) (k : A → Tx B) : keeps t → (∀ a, keeps (k a)) → keeps (t ≫= k).
Proof.
  intros Ht Hk w. specialize (Ht w). unfold mbind, Tx_bind.
  destruct (t w) as [[a|e] w']; [|done]. etrans; [exact Ht|]. apply Hk.
Qed.
Lemma keeps_caught {A} (t : Tx A) : keeps t → keeps (caught t).
Proof. intros Ht w. specialize (Ht w). unfold caught. by destruct (t w). Qed.
Lemma keeps_statement {A} (f : Tx A) : keeps f → keeps (statement fault f).
Proof. intros Hf w. by apply statement_frame. Qed.
Lemma keeps_writing f : (∀ w, K w (f w)) → keeps (writing f).
Proof. done. Qed.
Lemma keeps_reading {A} (f : World → A + DbError) : keeps (λ w, (f w, w)).
Proof. by intros w. Qed.
End Transactions.

Create HintDb frame.
#[export] Hint Resolve first_only now_only draw_only load_failed_only : frame.

(** Walk a transaction, or a program, to its writes. *)
Ltac frame_tx :=
  repeat first
    [ solve [auto with frame typeclass_instances]
    | lazymatch goal with
      | |- keeps _ (_ ≫= _) => apply keeps_bind; [apply _| |intros ?]
      | |- keeps _ (caught _) => apply keeps_caught
      | |- keeps _ (statement _ (writing _)) => apply keeps_statement, keeps_writing; [apply _|intros ?]
      | |- keeps _ (statement _ (find_row _ _)) => apply keeps_statement; [apply _|intros ?; reflexivity]
      | |- keeps _ (statement _ _) => apply keeps_statement; [apply _|intros ?]
      | |- keeps _ (match ?x with _ => _ end) => destruct x
      | |- keeps ?K (mret _) => intros ?; reflexivity
      | |- keeps ?K (raise _) => intros ?; reflexivity
      | |- keeps ?K (λ w, (_, w)) => intros ?; reflexivity
      end ].

Ltac frame :=
  repeat first
    [ exact I
    | solve [auto with frame typeclass_instances]
    | lazymatch goal with
      | |- only _ (_ ≫= _) => apply only_bind; [|intros ?]
      | |- only _ (tells _) => apply only_atomic; intros ?
      | |- only _ (atomic _) => apply only_atomic; intros ?
      | |- only _ (execute _ _) => apply execute_only; [apply _|intros ?]
      | |- only _ (transaction _) => apply transaction_only; [apply _|frame_tx]
      | |- only _ (query _ _) => apply query_only; [apply _|intros ?]
      | |- only _ (load_failed _ _ _) => apply load_failed_only
      | |- only _ (match ?x with _ => _ end) => destruct x
      | |- only _ (refuse _ _) => exact I
      | |- only _ (refused _ _) => exact I
      | |- only _ (answer _ _) => exact I
      | |- only _ (mret _) => exact I
      end ].

(** The device flow and its record. *)
Definition aside (w w' : World) : Prop := logins w' = logins w ∧ events w' = events w.
(** The payments, the promo codes and the activations. *)
Definition unpaid (w w' : World) : Prop :=
  payments w' = payments w ∧ promos w' = promos w ∧ activated w' = activated w.
(** Both: what is left are users, subscriptions and codes. *)
Definition account (w w' : World) : Prop := aside w w' ∧ unpaid w w'.

#[global] Instance aside_frame : Frame aside.
Proof.
  split; [|done..]. split; [by intros w|]. intros w1 w2 w3 [H1 H2] [H3 H4]. split; congruence.
Qed.
#[global] Instance unpaid_frame : Frame unpaid.
Proof.
  split; [|done..]. split; [by intros w|]. intros w1 w2 w3 (H1 & H2 & H3) (H4 & H5 & H6). repeat split; congruence.
Qed.
#[global] Instance account_frame : Frame account.
Proof.
  split; [|done..]. split; [by intros w|]. intros w1 w2 w3 [H1 H2] [H3 H4]. split; by etrans.
Qed.

(** Only the payments and the activations. *)
Definition idle (w w' : World) : Prop := payments w' = payments w ∧ activated w' = activated w.
#[global] Instance idle_frame : Frame idle.
Proof.
  split; [|done..]. split; [by intros w|]. intros w1 w2 w3 [H1 H2] [H3 H4]. split; congruence.
Qed.
Lemma unpaid_idle w w' : unpaid w w' → idle w w'.
Proof. by intros (H1 & _ & H2). Qed.

Section Auth.
Import GoAuth.
Context `{GoHost, Tokens, Passwords, Surroundings} (fault : nat → option DbError).

Section Pieces.
Context (K : relation World) `{!Frame K}.

Lemma draw_letters_only n : only K (draw_letters n).
Proof. induction n as [|n IH]; [done|]. cbn [draw_letters]. frame. Qed.

Lemma allowApprove_only key limit window : only K (allowApprove key limit window).
Proof. unfold allowApprove, allowTVAttempt. frame. destruct (attempt _ _ _ _). apply frame_approveAttempts. Qed.
Lemma allowToken_only key limit window : only K (allowToken key limit window).
Proof. unfold allowToken, allowTVAttempt. frame. destruct (attempt _ _ _ _). apply frame_tokenAttempts. Qed.
Lemma Allow_only limiter limit window ip : only K (Allow limiter limit window ip).
Proof. unfold Allow. frame. destruct (count_visit _ _ _ _). apply frame_visitors. Qed.

Lemma generateTokens_only user : only K (generateTokens user).
Proof. unfold generateTokens. frame. Qed.
Lemma respond_tokens_only status message user : only K (respond_tokens status message user).
Proof. apply only_bind; [apply generateTokens_only|]. by intros [p|]. Qed.
Lemma both_only a b : only K a → only K b → only K (both a b).
Proof. intros Ha Hb. apply only_bind; [done|]. by intros [|]. Qed.
End Pieces.
Hint Resolve draw_letters_only allowApprove_only allowToken_only Allow_only respond_tokens_only
  generateTokens_only both_only : frame.

Lemma Register_account c : only account (Register fault c).
Proof. unfold Register, binding, user_by_email, generateCode, create_code, sendVerificationEmailAsync. frame; by repeat split. Qed.
Lemma VerifyEmail_account c : only account (VerifyEmail fault c).
Proof. unfold VerifyEmail, binding, use_code, create_user, create_subscription. frame; try (by repeat split); cbn; case_match; by repeat split. Qed.
Lemma ForgotPassword_account c : only account (ForgotPassword fault c).
Proof. unfold ForgotPassword, binding, user_by_email, generateCode, create_code, sendVerificationEmailAsync. frame; by repeat split. Qed.
Lemma ResetPassword_account c : only account (ResetPassword fault c).
Proof. unfold ResetPassword, binding, use_code. frame; by repeat split. Qed.
Lemma Login_account c : only account (Login fault c).
Proof. unfold Login, binding, user_by_email. frame. Qed.
Lemma Refresh_account c : only account (Refresh fault c).
Proof. unfold Refresh, binding, user_by_id. frame. Qed.
Lemma GetMe_account claims c : only account (GetMe fault claims c).
Proof. unfold GetMe, user_by_id. frame. Qed.

Lemma expire_unpaid : only unpaid (expireStaleTVLogins fault).
Proof. unfold expireStaleTVLogins. frame; by repeat split. Qed.
Hint Resolve expire_unpaid : frame.

Lemma approve_unpaid login user : only unpaid (approve fault login user).
Proof. unfold approve. frame; by repeat split. Qed.
Lemma consume_unpaid login user : only unpaid (consume fault login user).
Proof. unfold consume. frame. cbn. case_match; by repeat split. Qed.
Hint Resolve approve_unpaid consume_unpaid : frame.

Lemma TVStart_unpaid c : only unpaid (TVStart fault c).
Proof. unfold TVStart, generateTVDeviceCode, generateTVUserCode, create_login. frame. case_match; by repeat split. Qed.
Lemma TVApprove_unpaid c : only unpaid (TVApprove fault c).
Proof. unfold TVApprove, binding, pending_login, user_by_email. frame. Qed.
Lemma TVApproveAuthenticated_unpaid claims c : only unpaid (TVApproveAuthenticated fault claims c).
Proof. unfold TVApproveAuthenticated, binding, pending_login, user_by_id. cbv zeta. frame. Qed.
Lemma TVToken_unpaid c : only unpaid (TVToken fault c).
Proof. unfold TVToken, binding, user_by_id. cbv zeta. frame; by repeat split. Qed.
End Auth.
#[export] Hint Resolve draw_letters_only allowApprove_only allowToken_only Allow_only respond_tokens_only
  generateTokens_only both_only : frame.

Section Pay.
Context `{GoHost, PaymentHost} (fault : nat → option DbError).

Section Pieces.
Context (K : relation World) `{!Frame K}.

Lemma count_keeps P : keeps K (count_payments fault P).
Proof. unfold count_payments. frame_tx. done. Qed.
Lemma counted_only t : keeps K t → only K (counted t).
Proof. intros Ht. unfold counted. frame. Qed.
Lemma fetchDetails_only id : only K (fetchYooKassaPaymentDetails id).
Proof. unfold fetchYooKassaPaymentDetails. frame. Qed.
Lemma trialAvailable_only user : only K (trialAvailableForUser fault user).
Proof. unfold trialAvailableForUser. frame. apply count_keeps. Qed.
End Pieces.
Hint Resolve count_keeps counted_only fetchDetails_only trialAvailable_only : frame.

Lemma validate_only K `{!Frame K} user plan code amount : only K (validatePromoCode fault user plan code amount).
Proof. unfold validatePromoCode. cbv zeta. frame. Qed.
Hint Resolve validate_only : frame.

Lemma markPromo_aside p : keeps aside (markPromoCodeUsed fault p).
Proof. unfold markPromoCodeUsed, promoSuccessfulUseCount. frame_tx. done. Qed.
Lemma activate_aside mark p m : keeps aside (activateSubscriptionFromPayment fault mark p m).
Proof. unfold activateSubscriptionFromPayment. frame_tx; [done|]. by case_match. Qed.
Lemma create_payment_aside p : keeps aside (create_payment fault p).
Proof. unfold create_payment. frame_tx. cbn. by case_match. Qed.
Hint Resolve markPromo_aside activate_aside create_payment_aside : frame.

Lemma PreviewPayment_aside claims c : only aside (PreviewPayment fault claims c).
Proof. unfold PreviewPayment, trial_checked. cbv zeta. frame. Qed.
Lemma CreatePayment_aside claims c : only aside (CreatePayment fault claims c).
Proof.
  unfold CreatePayment, trial_checked, pay_nothing, pay_at_yookassa. cbv zeta. frame.
  all: apply create_payment_aside.
Qed.
Lemma Webhook_aside c : only aside (Webhook fault c).
Proof.
  unfold Webhook, settle_webhook, mark_succeeded. cbv zeta. frame; by repeat split.
Qed.
Lemma sync_aside ps : only aside (sync_payments fault ps).
Proof.
  induction ps as [|p ps IH]; [done|]. cbn [sync_payments]. unfold settle_pending, mark_succeeded.
  frame; by repeat split.
Qed.
Lemma reconcile_aside user : only aside (reconcilePendingUserPayments fault user).
Proof. unfold reconcilePendingUserPayments. frame; [done|]. apply sync_aside. Qed.
Lemma ApprovePayment_aside i : only aside (ApprovePayment fault i).
Proof. unfold ApprovePayment, save_payment. cbv zeta. frame; done. Qed.
Lemma CreatePromoCode_aside c : only aside (CreatePromoCode fault c).
Proof. unfold CreatePromoCode, promoCodeResponse, create_promo. frame. apply statement_frame; [apply _|]. intros v. cbn. by case_match. Qed.
Lemma UpdatePromoCode_aside i c : only aside (UpdatePromoCode fault i c).
Proof. unfold UpdatePromoCode, promoCodeResponse, update_promo. frame. apply statement_frame; [apply _|]. intros v. cbn. by case_match. Qed.
Lemma DeletePromoCode_aside i : only aside (DeletePromoCode fault i).
Proof. unfold DeletePromoCode. frame. done. Qed.
End Pay.
#[export] Hint Resolve count_keeps counted_only fetchDetails_only trialAvailable_only validate_only : frame.

(** ** Rules for all interleavings

    The invariant, what later worlds keep, and a frame that endangers neither. *)
Section Discipline.
Context (J : World → Prop) (R : relation World) `{!PreOrder R} (K : relation World) `{!Frame K}
  (HK : ∀ v v', K v v' → J v → R v v' ∧ J v') (fault : nat → option DbError).

Abbreviation sound p w := (safe J R (λ _ _, True) p w).

Lemma frame_sound {A} (p : prog World A) w : only K p → sound p w.
Proof. intros Hp. by apply (safe_only _ _ K). Qed.

Lemma frame_then {A B} (p : prog World A) (k : A → prog World B) w :
  only K p → (∀ a v, R w v → sound (k a) v) → sound (p ≫= k) w.
Proof.
  intros Hp Hk. apply (safe_bind _ _ (λ _ _, True)); [done| |auto]. by apply frame_sound.
Qed.

(** What a read finds, as long as later worlds keep it. *)
Lemma read_then {A B} (f : World → A + DbError) (G : A → World → Prop) (k : A + DbError → prog World B) w :
  stable R G →
  (∀ v a, R w v → J v → f v = inl a → G a v) →
  (∀ a v, R w v → G a v → sound (k (inl a)) v) →
  (∀ e v, R w v → sound (k (inr e)) v) →
  sound (query fault (λ w, (f w, w)) ≫= k) w.
Proof.
  intros HG Hr Hx He.
  apply (safe_bind _ _ (λ r v, match r with inl x => G x v | inr _ => True end)).
  - intros [x|e] v v' Hv; [by apply HG|done].
  - apply safe_atomic. intros v Hv Hj. unfold statement. cbv zeta. set (v' := v <| queries := _ |>).
    destruct (HK v v') as [Hg Hj']; [apply frame_queries|done|].
    destruct (fault _); [done|]. cbn. split; [done|]. split; [done|].
    destruct (f v') as [x|e] eqn:E; [|done]. apply Hr; [by etrans|done|done].
  - intros [x|e] v Hv; [by apply Hx|intros _; by apply He].
Qed.

Lemma first_then {A B} (table : World → list A) P (G : A → World → Prop) (k : A + DbError → prog World B) w :
  stable R G →
  (∀ v x, R w v → J v → x ∈ table v → P x = true → G x v) →
  (∀ x v, R w v → G x v → sound (k (inl x)) v) →
  (∀ e v, R w v → sound (k (inr e)) v) →
  sound (first fault table P ≫= k) w.
Proof.
  intros HG Hr Hx He. apply (read_then _ G); [done| |done..].
  intros v x Hv Hj. destruct (find_first P (table v)) as [y|] eqn:E; [|done]. intros [= <-].
  apply find_first_Some in E as [??]. by apply Hr.
Qed.

Lemma statement_ok {A} (f : Tx A) w v :
  (∀ v, R w v → J v → R v (f v).2 ∧ J (f v).2) →
  R w v → J v → R v (statement fault f v).2 ∧ J (statement fault f v).2.
Proof.
  intros Hf Hv Hj. unfold statement. cbv zeta. set (v' := v <| queries := _ |>).
  destruct (HK v v') as [Hg Hj']; [apply frame_queries|done|].
  destruct (fault _); [done|]. destruct (Hf v') as [H3 H4]; [by etrans|done|]. split; [by etrans|done].
Qed.

Lemma query_then {A B} (f : Tx A) (k : A + DbError → prog World B) w :
  (∀ v, R w v → J v → R v (f v).2 ∧ J (f v).2) →
  (∀ r v, R w v → sound (k r) v) → sound (query fault f ≫= k) w.
Proof.
  intros Hf Hk. apply (safe_bind _ _ (λ _ _, True)); [done| |auto].
  apply safe_atomic. intros v Hv Hj. destruct (statement_ok f w v); auto.
Qed.

Lemma execute_then {B} (f : World → World) (k : () + DbError → prog World B) w :
  (∀ v, R w v → J v → R v (f v) ∧ J (f v)) →
  (∀ r v, R w v → sound (k r) v) → sound (execute fault f ≫= k) w.
Proof. intros Hf. by apply query_then. Qed.

(** Of a transaction, only what it commits matters. *)
Lemma transaction_then {A B} (t : Tx A) (k : A + DbError → prog World B) w :
  (∀ v a v', R w v → J v → t v = (inl a, v') → R v v' ∧ J v') →
  (∀ r v, R w v → sound (k r) v) → sound (transaction t ≫= k) w.
Proof.
  intros Ht Hk. apply (safe_bind _ _ (λ _ _, True)); [done| |auto].
  apply safe_atomic. intros v Hv Hj. specialize (Ht v). destruct (t v) as [[a|e] v'].
  - destruct (Ht a v' Hv Hj eq_refl). done.
  - destruct (HK v (v <| queries := queries v' |>)); [apply frame_queries|done|done].
Qed.
End Discipline.
