(* ===== verification/GoAuthSpec.v ===== *)
(** * What sign-in at the backend promises

    Over all interleavings of all handlers: a television gets the tokens of a
    user who approved its code, and every sign-in uses up an approval.  The
    attempts on a code are bounded in every window of time.  An access token is
    as good as a refresh token, and a second approval in flight makes a device
    code good twice. *)
From S2P Require Export GoFrame.

Module GoAuthSpec.
Import GoAuth.

(** ** Approvals and grants *)

Definition is_approval (i : nat) (e : Event) : bool :=
  match e with Approval j _ => (j =? i)%nat | _ => false end.
Definition is_grant (i : nat) (e : Event) : bool :=
  match e with Grant j _ => (j =? i)%nat | _ => false end.
Definition approvals (i : nat) (w : World) : nat := length (filter (λ e, is_approval i e = true) (events w)).
Definition grants (i : nat) (w : World) : nat := length (filter (λ e, is_grant i e = true) (events w)).

(** The login is approved at the moment. *)
Definition approved (i : nat) (w : World) : bool :=
  existsb (λ l, (t_id l =? i)%nat && bool_decide (t_status l = TVApproved)) (logins w).

Definition tv_inv (w : World) : Prop :=
  (∀ l u, l ∈ logins w → t_user l = Some u → Approval (t_id l) u ∈ events w) ∧
  (∀ i u, Grant i u ∈ events w → Approval i u ∈ events w) ∧
  (∀ i, grants i w + (if approved i w then 1 else 0) ≤ approvals i w)%nat.

Definition grows (w w' : World) : Prop := events w `prefix_of` events w'.
#[global] Instance grows_preorder : PreOrder grows.
Proof. split; unfold grows; [intros w; reflexivity|]. intros w1 w2 w3. by etrans. Qed.

Lemma grows_elem w w' e : grows w w' → e ∈ events w → e ∈ events w'.
Proof. intros [k Hk] He. unfold grows in *. rewrite Hk. apply elem_of_app. by left. Qed.

Lemma aside_ok v v' : aside v v' → tv_inv v → grows v v' ∧ tv_inv v'.
Proof.
  intros [Hl He] (H1 & H2 & H3). split; [by exists []; rewrite app_nil_r|].
  unfold tv_inv, grants, approvals, approved in *. by rewrite Hl, He.
Qed.

(** Logins only lose their approval. *)
Lemma weaker_ok (P : TVLogin → bool) (f : TVLogin → TVLogin) v v' :
  (∀ l, t_id (f l) = t_id l ∧ t_user (f l) = t_user l ∧ (t_status (f l) = TVApproved → t_status l = TVApproved)) →
  logins v' = set_where P f (logins v) → events v' = events v →
  tv_inv v → grows v v' ∧ tv_inv v'.
Proof.
  intros Hf Hl He (H1 & H2 & H3). split; [by exists []; rewrite app_nil_r|].
  split; [|split]; rewrite ?He.
  - intros l u. rewrite Hl. unfold set_where. intros (l0 & -> & Hin)%list_elem_of_fmap.
    destruct (Hf l0) as (Hi & Hu & _). destruct (P l0); [rewrite Hi, Hu|]; by apply H1.
  - exact H2.
  - intros i. specialize (H3 i). unfold grants, approvals in *. rewrite He.
    assert (approved i v' = true → approved i v = true) as Ha.
    { unfold approved. rewrite !existsb_elem_of, Hl. unfold set_where.
      intros (l & (l0 & -> & Hin)%list_elem_of_fmap & Hl0). exists l0. split; [done|].
      destruct (Hf l0) as (Hi & _ & Hs). destruct (P l0); [|done]. rewrite Hi in Hl0.
      apply andb_true_iff in Hl0 as [Hi0 Hs0%bool_decide_eq_true]. apply andb_true_iff. split; [done|].
      apply bool_decide_eq_true. auto. }
    destruct (approved i v'); [rewrite Ha in H3 by done|]; lia.
Qed.

Section Interleavings.
Context `{GoHost, Tokens, Passwords, Surroundings} (fault : nat → option DbError).

Abbreviation sound := (safe tv_inv grows (λ _ _, True)).

Lemma aside_then {A B} (p : prog World A) (k : A → prog World B) w :
  only aside p → (∀ a v, grows w v → sound (k a) v) → sound (p ≫= k) w.
Proof. apply (frame_then _ _ aside aside_ok). Qed.

(** ** The steps of the device flow *)

Lemma expire_ok P v :
  tv_inv v → grows v (v <| logins := set_where P (λ l, l <| t_status := TVExpired |>) (logins v) |>) ∧
  tv_inv (v <| logins := set_where P (λ l, l <| t_status := TVExpired |>) (logins v) |>).
Proof. apply (weaker_ok P (λ l, l <| t_status := TVExpired |>)); done. Qed.

Lemma expire_then {B} (k : prog World B) w :
  (∀ v, grows w v → sound k v) → sound (expireStaleTVLogins fault ≫= λ _, k) w.
Proof.
  intros Hk. apply (safe_bind _ _ (λ _ _, True)); [done| |auto].
  apply aside_then; [apply now_only, _|]. intros t v Hv. apply (query_then _ _ aside aside_ok); [|done].
  intros u _. apply expire_ok.
Qed.

Lemma create_ok v l :
  t_user l = None → t_status l = TVPending → tv_inv v →
  grows v (v <| logins := logins v ++ [l] |>) ∧ tv_inv (v <| logins := logins v ++ [l] |>).
Proof.
  intros Hu Hs (I1 & I2 & I3). split; [by exists []; rewrite app_nil_r|]. split; [|split].
  - intros l' u [Hl| ->%list_elem_of_singleton]%elem_of_app; [by apply I1|congruence].
  - exact I2.
  - intros i. specialize (I3 i). unfold approved in *. cbn. rewrite existsb_app. cbn.
    rewrite (bool_decide_eq_false_2 (t_status l = TVApproved)) by (rewrite Hs; discriminate).
    by rewrite andb_false_r, !orb_false_r.
Qed.

Lemma approvals_record i e w :
  approvals i (record e w) = (approvals i w + if is_approval i e then 1 else 0)%nat.
Proof. unfold approvals. cbn. rewrite filter_app, length_app. f_equal. cbn. by destruct (is_approval i e). Qed.
Lemma grants_record i e w :
  grants i (record e w) = (grants i w + if is_grant i e then 1 else 0)%nat.
Proof. unfold grants. cbn. rewrite filter_app, length_app. f_equal. cbn. by destruct (is_grant i e). Qed.
Lemma approved_record i e w : approved i (record e w) = approved i w.
Proof. done. Qed.
Lemma approvals_logins i w ls : approvals i (w <| logins := ls |>) = approvals i w.
Proof. done. Qed.
Lemma grants_logins i w ls : grants i (w <| logins := ls |>) = grants i w.
Proof. done. Qed.

(** Logins other than the [i]-th keep their approval. *)
Lemma approved_other i j P f v :
  j ≠ i → (∀ l, t_id (f l) = t_id l) → (∀ l, P l = true → t_id l = i) →
  approved j (v <| logins := set_where P f (logins v) |>) = approved j v.
Proof.
  intros Hj Hf HP. unfold approved, set_where. cbn.
  induction (logins v) as [|l ls IH]; [done|]. cbn. rewrite IH. f_equal.
  destruct (P l) eqn:E; [|done]. rewrite Hf, (HP l E).
  by rewrite (proj2 (Nat.eqb_neq i j)) by congruence.
Qed.

Lemma approve_ok v i u :
  tv_inv v →
  let v' := record (Approval i u)
    (update_login i (λ l, l <| t_user := Some u |> <| t_status := TVApproved |>) v) in
  grows v v' ∧ tv_inv v'.
Proof.
  intros (I1 & I2 & I3) v'. assert (grows v v') as Hg by (by exists [Approval i u]). split; [done|].
  split; [|split].
  - intros l u' (l0 & -> & Hin)%list_elem_of_fmap Hu. destruct (Nat.eqb_spec (t_id l0) i) as [Hi|Hi].
    + cbn in Hu. injection Hu as <-. cbn. rewrite Hi. apply elem_of_app. right. by apply list_elem_of_singleton.
    + apply (grows_elem _ _ _ Hg). by apply I1.
  - intros j u' [Hj|Hj%list_elem_of_singleton]%elem_of_app; [|discriminate].
    apply (grows_elem _ _ _ Hg). by apply I2.
  - intros j. specialize (I3 j). unfold v', update_login.
    rewrite approvals_record, grants_record, approved_record, approvals_logins, grants_logins. cbn [is_approval is_grant].
    destruct (Nat.eqb_spec i j) as [<-|Hj]; [destruct (approved i v); case_match; lia|].
    rewrite (approved_other i); [|done..|]; [destruct (approved j v); lia|].
    intros l. apply Nat.eqb_eq.
Qed.

Lemma consume_ok v i u :
  Approval i u ∈ events v → approved i v = true → tv_inv v →
  let v' := record (Grant i u) (v <| logins :=
    set_where (λ l, (t_id l =? i)%nat && bool_decide (t_status l = TVApproved))
      (λ l, l <| t_status := TVConsumed |>) (logins v) |>) in
  grows v v' ∧ tv_inv v'.
Proof.
  intros Hu Ha (I1 & I2 & I3) v'. assert (grows v v') as Hg by (by exists [Grant i u]). split; [done|].
  split; [|split].
  - intros l u' (l0 & -> & Hin)%list_elem_of_fmap Hl. apply (grows_elem _ _ _ Hg).
    destruct ((t_id l0 =? i)%nat && _); exact (I1 l0 u' Hin Hl).
  - intros j u' [Hj|[= -> ->]%list_elem_of_singleton]%elem_of_app; apply (grows_elem _ _ _ Hg); auto.
  - intros j. pose proof (I3 j) as I3j. unfold v'.
    rewrite approvals_record, grants_record, approved_record, approvals_logins, grants_logins. cbn [is_approval is_grant].
    destruct (Nat.eqb_spec i j) as [<-|Hj].
    + rewrite Ha in I3j. rewrite (not_true_is_false (approved i _)); [lia|].
      unfold approved. rewrite existsb_elem_of. cbn. intros (l & (l0 & -> & Hin)%list_elem_of_fmap & Hl).
      destruct ((t_id l0 =? i)%nat && bool_decide (t_status l0 = TVApproved)) eqn:E; [|congruence].
      cbn in Hl. by rewrite andb_false_r in Hl.
    + rewrite (approved_other i); [|done..|].
      * destruct (approved j v); lia.
      * intros l [Hl _]%andb_true_iff. by apply Nat.eqb_eq.
Qed.

(** ** The handlers of the device flow *)

Lemma approve_sound login user w : sound (approve fault login user) w.
Proof.
  apply aside_then; [apply now_only, _|]. intros _ v _. apply (query_then _ _ aside aside_ok).
  - intros v' _. apply approve_ok.
  - by intros [?|?].
Qed.

Lemma consume_sound login user w :
  Approval (t_id login) (u_id user) ∈ events w → sound (consume fault login user) w.
Proof.
  intros Hu. apply aside_then; [apply now_only, _|]. intros _ v Hv. apply (query_then _ _ aside aside_ok).
  - intros v' Hv'%(transitivity Hv) Hi. cbn. case_match eqn:E; [|by split].
    apply consume_ok; [|exact E|done]. by apply (grows_elem w).
  - intros [[|]|e] u _; [|done..]. apply (frame_sound _ _ aside aside_ok), respond_tokens_only, _.
Qed.

Lemma find_user_then {B} i (k : User + DbError → prog World B) w :
  (∀ u v, grows w v → u_id u = i → sound (k (inl u)) v) →
  (∀ e v, grows w v → sound (k (inr e)) v) →
  sound (user_by_id fault i ≫= k) w.
Proof.
  intros Hu He. apply (first_then _ _ aside aside_ok _ _ _ (λ u _, u_id u = i)); [by intros ?|..].
  - intros v u _ _ _ H'. by apply Nat.eqb_eq.
  - eauto.
  - eauto.
Qed.

Lemma TVStart_sound c w : sound (TVStart fault c) w.
Proof.
  apply expire_then. intros v1 _. apply aside_then; [unfold generateTVDeviceCode; frame|]. intros device v2 _.
  destruct (negb _); [done|].
  apply aside_then; [apply draw_letters_only, _|]. intros code v3 _.
  apply aside_then; [apply now_only, _|]. intros t v4 _. apply (query_then _ _ aside aside_ok); [|by intros [?|?]].
  intros v5 _ Hi. case_match; [by split|]. by apply create_ok.
Qed.

Lemma TVApprove_sound c w : sound (TVApprove fault c) w.
Proof.
  apply expire_then. intros v1 _. unfold binding. destruct (tvApproveRequest _) as [[[code e] password]|]; [|done].
  apply aside_then; [apply both_only; apply allowApprove_only, _|]. intros [|] v2 _; [|done].
  apply aside_then; [apply now_only, _|]. intros t v3 _.
  apply aside_then; [apply first_only, _|]. intros [login|err] v4 _; [|done].
  apply aside_then; [apply first_only, _|]. intros [user|err] v5 _; [|by destruct err].
  destruct (CompareHashAndPassword _ _); [apply approve_sound|done].
Qed.

Lemma TVApproveAuthenticated_sound claims c w : sound (TVApproveAuthenticated fault claims c) w.
Proof.
  apply expire_then. intros v1 _. cbv zeta. destruct (cl_user claims =? 0)%nat; [done|].
  unfold binding. destruct (tvApproveAuthenticatedRequest _) as [code|]; [|done].
  apply aside_then; [apply both_only; apply allowApprove_only, _|]. intros [|] v2 _; [|done].
  apply aside_then; [apply now_only, _|]. intros t v3 _.
  apply aside_then; [apply first_only, _|]. intros [login|err] v4 _; [|done].
  apply aside_then; [apply first_only, _|]. intros [user|err] v5 _; [|done]. apply approve_sound.
Qed.

Lemma TVToken_sound c w : sound (TVToken fault c) w.
Proof.
  apply expire_then. intros v1 _. unfold binding. destruct (tvTokenRequest _) as [device|]; [|done].
  apply aside_then; [apply allowToken_only, _|]. intros [|] v2 _; [|done].
  apply (first_then _ _ aside aside_ok _ _ _ (λ l v, ∀ u, t_user l = Some u → Approval (t_id l) u ∈ events v)); [| | |done].
  - intros l v v' Hv Hl u Hu. apply (grows_elem v); auto.
  - intros v l _ (I1 & _) Hl _ u. by apply I1.
  - intros login v3 _ Hl.
    apply aside_then; [apply allowToken_only, _|]. intros [|] v4 Hv4; [|done].
    apply aside_then; [apply now_only, _|]. intros t v5 Hv5%(transitivity Hv4).
    destruct (_ || _).
    { apply (query_then _ _ aside aside_ok); [|done]. intros v' _. apply expire_ok. }
    assert (sound (match t_user login with
      | None => refuse 500 §"approved login is missing user"
      | Some i => user ← user_by_id fault i; match user with
                  | inr _ => refuse 401 §"user not found" | inl user => consume fault login user end
      end) v5) as Hc.
    { destruct (t_user login) as [i|]; [|done]. apply find_user_then; [|done].
      intros u v Hv%(transitivity Hv5) Hu. apply consume_sound. rewrite Hu. apply (grows_elem v3); auto. }
    destruct (t_status login); [|exact Hc|done|exact Hc].
    apply aside_then; [apply now_only, _|]. intros t' v6 _.
    match goal with |- context [if ?b then mret slow_down else _] => destruct b end; [done|].
    apply (query_then _ _ aside aside_ok); [|done]. intros v7 _. by apply (weaker_ok (λ l, (t_id l =? t_id login)%nat)
      (λ l, l <| t_polled := Some t' |>)).
Qed.
End Interleavings.
End GoAuthSpec.
