(* ===== verification/GoPaySpec.v ===== *)
(** * What payments at the backend promise

    Over all interleavings: a payment that goes through changes a subscription
    once, however often YooKassa says so and whoever asks.  Amounts in doubles
    agree with kopecks for every plan and every discount.  Time left on a plan
    keeps its price when the plan changes.  The runs at the end show what the
    code does not exclude: an approval beside the webhook, a webhook whose
    first update fails, a limited code used by payments that were pending. *)
From S2P Require Export GoFrame.

Module GoPaySpec.
Import GoPay.

(** ** Once *)

(** The statuses of YooKassa are final, and the ids the backend makes up for
    payments of nothing are unknown there. *)
Class PaymentLaws `{PaymentHost} := {
  status_final n m k d d' :
    details_of (yk_get n k) = Some d → details_of (yk_get m k) = Some d' →
    Status d = §"succeeded" → Status d' ≠ §"canceled";
  promo_unknown n m d :
    details_of (yk_get n (§"promo-" ++ new_uuid m)) = Some d → Status d ≠ §"canceled";
}.

Definition is_automatic (i : nat) (a : Activated) : bool :=
  match a with Automatic j => (j =? i)%nat | Manual _ => false end.
Definition automatics (i : nat) (w : World) : nat :=
  length (filter (λ a, is_automatic i a = true) (activated w)).

Section Once.
Context `{GoHost, PaymentHost}.

(** The payment is one that will never be cancelled. *)
Definition settled (k : jstr) : Prop :=
  (∃ m, k = §"promo-" ++ new_uuid m) ∨
  ∃ n d, details_of (yk_get n k) = Some d ∧ Status d = §"succeeded".

Definition pay_inv (w : World) : Prop :=
  (∀ k p, payments w !! k = Some p → p_id p = S k) ∧
  (∀ i, automatics i w ≤ 1)%nat ∧
  (∀ i, Automatic i ∈ activated w →
     ∃ p, p ∈ payments w ∧ p_id p = i ∧ p_status p = PaymentSucceeded ∧ settled (p_yookassa p)).

Definition ids_kept (w w' : World) : Prop :=
  (p_yookassa <$> payments w) `prefix_of` (p_yookassa <$> payments w').
#[export] Instance ids_kept_preorder : PreOrder ids_kept.
Proof. split; unfold ids_kept; [intros w; reflexivity|]. intros w1 w2 w3. by etrans. Qed.

Lemma idle_ok v v' : idle v v' → pay_inv v → ids_kept v v' ∧ pay_inv v'.
Proof.
  intros (Hp & Ha) (I1 & I2 & I3). unfold ids_kept, pay_inv, automatics in *. by rewrite Hp, Ha.
Qed.

(** A row that was read keeps its key and its id at YooKassa. *)
Definition known (p : Payment) (w : World) : Prop :=
  ∃ k, p_id p = S k ∧ (p_yookassa <$> payments w) !! k = Some (p_yookassa p).

Lemma known_stable : stable ids_kept known.
Proof. intros p w w' Hw (k & Hk & Hp). exists k. split; [done|]. by eapply prefix_lookup_Some. Qed.

Lemma known_row w p : pay_inv w → p ∈ payments w → known p w.
Proof.
  intros (I1 & _) [k Hk]%list_elem_of_lookup. exists k. split; [by apply I1|]. by rewrite list_lookup_fmap, Hk.
Qed.

Lemma same_row w p q : pay_inv w → p ∈ payments w → q ∈ payments w → p_id p = p_id q → p = q.
Proof.
  intros (I1 & _) [j Hj]%list_elem_of_lookup [k Hk]%list_elem_of_lookup E.
  rewrite (I1 j p Hj), (I1 k q Hk) in E. injection E as ->. congruence.
Qed.

(** Rows are rewritten in place. *)
Lemma rewritten_ids P f w :
  (∀ p, p ∈ payments w → P p = true → p_id (f p) = p_id p ∧ p_yookassa (f p) = p_yookassa p) →
  pay_inv w →
  (p_yookassa <$> set_where P f (payments w)) = (p_yookassa <$> payments w) ∧
  (∀ k p, set_where P f (payments w) !! k = Some p → p_id p = S k).
Proof.
  intros Hf (I1 & _). unfold set_where. split.
  - rewrite <-list_fmap_compose. apply list_fmap_ext. intros k p Hp. cbn.
    destruct (P p) eqn:E; [|done]. apply Hf; [|done]. by eapply list_elem_of_lookup_2.
  - intros k p. rewrite list_lookup_fmap, fmap_Some. intros (q & Hq & ->).
    destruct (P q) eqn:E; [|by apply I1]. rewrite (proj1 (Hf q (list_elem_of_lookup_2 _ _ _ Hq) E)). by apply I1.
Qed.

Lemma automatic_count i w : Automatic i ∈ activated w ↔ automatics i w ≠ 0%nat.
Proof.
  unfold automatics. split.
  - intros Hi E. apply nil_length_inv in E.
    assert (Automatic i ∈ filter (λ a, is_automatic i a = true) (activated w)) as H'.
    { apply list_elem_of_filter. split; [by cbn; rewrite Nat.eqb_refl|done]. }
    rewrite E in H'. by apply elem_of_nil in H'.
  - destruct (filter _ _) as [|a l] eqn:E; [done|]. intros _.
    assert (a ∈ filter (λ a, is_automatic i a = true) (activated w)) as Ha by (rewrite E; by left).
    apply list_elem_of_filter in Ha as [Ha Hin]. destruct a as [j|j]; [|done].
    cbn in Ha. apply Nat.eqb_eq in Ha. by subst.
Qed.

(** No row, no activation; a row that has not succeeded, none either. *)
Lemma fresh_row w i : pay_inv w → (∀ p, p ∈ payments w → p_id p = i → p_status p ≠ PaymentSucceeded) →
  (Automatic i ∉ activated w) ∧ automatics i w = 0%nat.
Proof.
  intros (_ & _ & I3) Hi. assert (Automatic i ∉ activated w) as Hn.
  { intros (p & Hp & Hpi & Hs & _)%I3. by apply (Hi p). }
  split; [done|]. destruct (automatics i w) eqn:E; [done|]. destruct Hn. apply automatic_count. lia.
Qed.

Lemma automatics_app i w w' a :
  activated w' = activated w ++ [a] →
  automatics i w' = (automatics i w + (if is_automatic i a then 1 else 0))%nat.
Proof.
  intros Ha. unfold automatics. rewrite Ha, filter_app, length_app. f_equal. cbn. by destruct (is_automatic i a).
Qed.

(** Every change of the payments, with at most one activation, that leaves the
    activated rows as they have to be. *)
Lemma changed_ok v v' :
  pay_inv v → ids_kept v v' → (∀ k p, payments v' !! k = Some p → p_id p = S k) →
  (∀ p, p ∈ payments v → Automatic (p_id p) ∈ activated v → p_status p = PaymentSucceeded →
     ∃ p', p' ∈ payments v' ∧ p_id p' = p_id p ∧ p_status p' = PaymentSucceeded ∧ p_yookassa p' = p_yookassa p) →
  (activated v' = activated v ∨
   (∃ i, activated v' = activated v ++ [Manual i]) ∨
   ∃ p, activated v' = activated v ++ [Automatic (p_id p)] ∧ p ∈ payments v' ∧ p_status p = PaymentSucceeded ∧
     settled (p_yookassa p) ∧ automatics (p_id p) v = 0%nat) →
  ids_kept v v' ∧ pay_inv v'.
Proof.
  intros Hv Hk Hi Hrows Ha. split; [done|]. pose proof Hv as (I1 & I2 & I3).
  assert (∀ i, Automatic i ∈ activated v →
    ∃ p, p ∈ payments v' ∧ p_id p = i ∧ p_status p = PaymentSucceeded ∧ settled (p_yookassa p)) as Hold.
  { intros i Hin. destruct (I3 i Hin) as (p & Hp & <- & Hs & Hy).
    destruct (Hrows p Hp Hin Hs) as (p' & Hp' & Hid & Hs' & Hyk). exists p'. by rewrite Hyk. }
  split; [done|]. destruct Ha as [Ha|[[i Ha]|(p & Ha & Hp & Hs & Hy & H0')]].
  - unfold automatics. by rewrite Ha.
  - split.
    + intros j. rewrite (automatics_app _ _ _ _ Ha). cbn. specialize (I2 j). lia.
    + intros j. rewrite Ha. intros [Hj|Hj%list_elem_of_singleton]%elem_of_app; [auto|discriminate].
  - split.
    + intros j. rewrite (automatics_app _ _ _ _ Ha). cbn. specialize (I2 j).
      destruct (Nat.eqb_spec (p_id p) j) as [<-|]; lia.
    + intros j. rewrite Ha. intros [Hj|[= ->]%list_elem_of_singleton]%elem_of_app; [auto|]. by exists p.
Qed.

(** ** The changes the handlers make *)

Lemma by_id_elem w p f : p ∈ payments w → f p ∈ set_where (by_id (p_id p)) f (payments w).
Proof.
  intros Hp. unfold set_where. apply list_elem_of_fmap. exists p. split; [|done].
  unfold by_id. by rewrite Nat.eqb_refl.
Qed.

Lemma settle_ok v v' p t :
  pay_inv v → p ∈ payments v → p_status p ≠ PaymentSucceeded → settled (p_yookassa p) →
  payments v' = set_where (by_id (p_id p)) (λ q, q <| p_status := PaymentSucceeded |> <| p_confirmed := Some t |>) (payments v) →
  activated v' = activated v ++ [Automatic (p_id p)] →
  ids_kept v v' ∧ pay_inv v'.
Proof.
  intros Hv Hp Hs Hy Hps Ha. set (f := λ q : Payment, q <| p_status := _ |> <| p_confirmed := _ |>) in *.
  destruct (rewritten_ids (by_id (p_id p)) f v) as [Hk Hi]; [done|done|].
  apply changed_ok; [done|unfold ids_kept; by rewrite Hps, Hk|by rewrite Hps| |].
  - intros q Hq _ Hqs. rewrite Hps. exists (if by_id (p_id p) q then f q else q).
    split; [apply list_elem_of_fmap; eauto|]. by destruct (by_id _ q).
  - right; right. exists (f p). split; [done|]. rewrite Hps. split; [by apply by_id_elem|].
    split; [done|]. split; [done|]. apply fresh_row; [done|]. intros q Hq Hid. by rewrite (same_row v q p).
Qed.

Lemma cancel_ok v v' P :
  pay_inv v → (∀ p, p ∈ payments v → P p = true → Automatic (p_id p) ∉ activated v) →
  payments v' = set_where P (λ p, p <| p_status := PaymentCancelled |>) (payments v) →
  activated v' = activated v → ids_kept v v' ∧ pay_inv v'.
Proof.
  intros Hv HP Hps Ha. destruct (rewritten_ids P (λ p, p <| p_status := PaymentCancelled |>) v) as [Hk Hi]; [done|done|].
  apply changed_ok; [done|unfold ids_kept; by rewrite Hps, Hk|by rewrite Hps| |by left].
  intros q Hq Hin Hqs. exists q. split; [|done]. rewrite Hps. apply list_elem_of_fmap. exists q. split; [|done].
  destruct (P q) eqn:E; [|done]. by destruct (HP q Hq E).
Qed.

Lemma save_ok v v' p :
  pay_inv v → known p v → p_status p = PaymentSucceeded →
  payments v' = set_where (by_id (p_id p)) (λ _, p) (payments v) →
  activated v' = activated v ++ [Manual (p_id p)] → ids_kept v v' ∧ pay_inv v'.
Proof.
  intros Hv (k & Hid & Hyk) Hs Hps Ha.
  assert (∀ q, q ∈ payments v → by_id (p_id p) q = true → p_id p = p_id q ∧ p_yookassa p = p_yookassa q) as Hq.
  { intros q [j Hj]%list_elem_of_lookup E%Nat.eqb_eq. split; [done|].
    destruct Hv as (I1 & _). rewrite (I1 j q Hj), Hid in E. injection E as <-.
    rewrite list_lookup_fmap, Hj in Hyk. cbn in Hyk. congruence. }
  destruct (rewritten_ids (by_id (p_id p)) (λ _, p) v) as [Hk Hi]; [done|done|].
  apply changed_ok; [done|unfold ids_kept; by rewrite Hps, Hk|by rewrite Hps| |right; left; eauto].
  intros q Hin _ Hqs. rewrite Hps. exists (if by_id (p_id p) q then p else q).
  split; [apply list_elem_of_fmap; eauto|]. destruct (by_id (p_id p) q) eqn:E; [|done].
  by destruct (Hq q Hin E) as [-> ->].
Qed.

Lemma appended_ok v v' row :
  pay_inv v → p_id row = S (length (payments v)) → payments v' = payments v ++ [row] →
  (activated v' = activated v ∨
   activated v' = activated v ++ [Automatic (p_id row)] ∧ p_status row = PaymentSucceeded ∧ settled (p_yookassa row)) →
  ids_kept v v' ∧ pay_inv v'.
Proof.
  intros Hv Hid Hps Ha. apply changed_ok; [done|unfold ids_kept; rewrite Hps, fmap_app; by eexists| | |].
  - intros k p. rewrite Hps. intros [Hk|[Hk Hp]]%lookup_app_Some; [by apply Hv|].
    apply list_lookup_singleton_Some in Hp as [Hk0 <-]. rewrite Hid. lia.
  - intros q Hq _ Hqs. exists q. split; [|done]. rewrite Hps. apply elem_of_app. by left.
  - destruct Ha as [Ha|(Ha & Hs & Hy)]; [by left|]. right; right. exists row. split; [done|].
    rewrite Hps. split; [apply elem_of_app; right; by apply list_elem_of_singleton|]. split; [done|]. split; [done|].
    apply fresh_row; [done|]. intros q [k Hk]%list_elem_of_lookup Hq. destruct Hv as (I1 & _).
    rewrite (I1 k q Hk), Hid in Hq. injection Hq as ->. apply lookup_lt_Some in Hk. lia.
Qed.

(** ** Transactions *)

Lemma markPromo_idle fault p : keeps idle (markPromoCodeUsed fault p).
Proof. unfold markPromoCodeUsed, promoSuccessfulUseCount. frame_tx. done. Qed.

Lemma activate_effect fault mark p m w w' :
  activateSubscriptionFromPayment fault mark p m w = (inl (), w') →
  payments w' = payments w ∧ activated w' = activated w ++ [mark].
Proof.
  unfold activateSubscriptionFromPayment. intros (t & w1 & [= <- <-] & E)%tx_bind_inl.
  apply tx_bind_inl in E as (sub & w2 & Hsub%caught_inl & E).
  assert (idle w w2) as [Hp Ha].
  { pose proof (statement_frame idle fault (find_row subs (by_user (p_user p))) w) as Hf.
    rewrite Hsub in Hf. by apply Hf. }
  destruct sub as [sub|e]; apply statement_inl in E.
  - injection E as <-. cbn. by rewrite Hp, Ha.
  - revert E. cbn. destruct (existsb _ _); [done|]. intros [= <-]. cbn. by rewrite Hp, Ha.
Qed.

Lemma find_row_inl {A} fault (table : World → list A) P w x w' :
  statement fault (find_row table P) w = (inl x, w') →
  x ∈ table (w <| queries := S (queries w) |>) ∧ P x = true ∧ w' = w <| queries := S (queries w) |>.
Proof.
  intros E%statement_inl. unfold find_row in E. destruct (find_first P _) as [y|] eqn:Ef; [|done].
  injection E as -> <-. apply find_first_Some in Ef as [??]. done.
Qed.

Lemma keeps_run {A} K (t : Tx A) w r w' : keeps K t → t w = (r, w') → K w w'.
Proof. intros Ht E. specialize (Ht w). by rewrite E in Ht. Qed.

(** The end of every transaction that activates. *)
Lemma activated_then fault mark p m q w w' :
  (activateSubscriptionFromPayment fault mark p m ≫= λ _, markPromoCodeUsed fault q) w = (inl (), w') →
  payments w' = payments w ∧ activated w' = activated w ++ [mark].
Proof.
  intros ([] & w1 & [Hp Ha]%activate_effect & E)%tx_bind_inl.
  apply (keeps_run idle) in E as [Hp' Ha']; [|apply markPromo_idle]. by rewrite Hp', Ha'.
Qed.

Lemma settle_pending_ok fault i m v v' :
  pay_inv v → (∀ p, p ∈ payments v → p_id p = i → settled (p_yookassa p)) →
  settle_pending fault i m v = (inl (), v') → ids_kept v v' ∧ pay_inv v'.
Proof.
  intros Hv Hset (p & w1 & (Hp & Hid%Nat.eqb_eq & ->)%find_row_inl & E)%tx_bind_inl. cbn in Hp. revert E.
  case_bool_decide as Hs; intros E.
  { apply (keeps_run idle) in E; [|apply markPromo_idle]. apply idle_ok; [|done]. etrans; [|exact E]. done. }
  apply tx_bind_inl in E as (t & w2 & [= <- <-] & E).
  apply tx_bind_inl in E as ([] & w3 & Hm & E). apply statement_inl in Hm. injection Hm as <-.
  apply activated_then in E as [Hps Ha]. cbn in Hps, Ha.
  eapply settle_ok; [done|exact Hp|done|by apply Hset|exact Hps|exact Ha].
Qed.

Definition no_fault : nat → option DbError := λ _, None.

Lemma settle_webhook_ok k m v v' :
  pay_inv v → settled k → settle_webhook no_fault k m v = (inl (), v') → ids_kept v v' ∧ pay_inv v'.
Proof.
  intros Hv Hset (p & w1 & (Hp & Hk%str_eqb_eq & ->)%find_row_inl & E)%tx_bind_inl. cbn in Hp. revert E.
  case_bool_decide as Hs; intros E.
  { apply (keeps_run idle) in E; [|apply markPromo_idle]. apply idle_ok; [|done]. etrans; [|exact E]. done. }
  apply tx_bind_inl in E as (t & w2 & [= <- <-] & E).
  apply tx_bind_inl in E as (r & w3 & Hm%caught_inl & E). injection Hm as <- <-.
  apply tx_bind_inl in E as (sub & w4 & Hsub%caught_inl & E).
  assert (idle _ w4) as [Hp4 Ha4] by (eapply (keeps_run idle); [|exact Hsub]; by intros ?).
  apply tx_bind_inl in E as ([] & w5 & Hsub' & E).
  assert (w5 = w4) as -> by (destruct sub as [?|[]]; by injection Hsub').
  apply activated_then in E as [Hps Ha]. rewrite Hp4 in Hps. rewrite Ha4 in Ha. cbn in Hps, Ha.
  eapply settle_ok; [done|exact Hp|done|by rewrite Hk|exact Hps|exact Ha].
Qed.

Lemma approve_payment_ok fault p v v' :
  pay_inv v → known p v → p_status p = PaymentSucceeded →
  (save_payment fault p ≫= λ _, activateSubscriptionFromPayment fault (Manual (p_id p)) p [] ≫= λ _,
     markPromoCodeUsed fault p) v = (inl (), v') →
  ids_kept v v' ∧ pay_inv v'.
Proof.
  intros Hv Hk Hs ([] & w1 & E%statement_inl & [Hps Ha]%activated_then)%tx_bind_inl.
  injection E as <-. by apply (save_ok v v' p).
Qed.

Lemma create_payment_inl fault f w p w' :
  create_payment fault f w = (inl p, w') →
  p = f (S (length (payments w))) ∧ payments w' = payments w ++ [p] ∧ activated w' = activated w.
Proof.
  intros E%statement_inl. revert E. cbn. destruct (existsb _ _); [done|]. by intros [= <- <-].
Qed.

Lemma create_payment_inr fault f w e w' : create_payment fault f w = (inr e, w') → idle w w'.
Proof.
  unfold create_payment, statement. cbn. destruct (fault _); [by intros [= _ <-]|].
  destruct (existsb _ _); [|done]. by intros [= _ <-].
Qed.

(** ** Handlers *)

Context {Laws : PaymentLaws}.
Abbreviation sound := (safe pay_inv ids_kept (λ _ _, True)).

Lemma idle_then {A B} (p : prog World A) (k : A → prog World B) w :
  only idle p → (∀ a v, ids_kept w v → sound (k a) v) → sound (p ≫= k) w.
Proof. apply (frame_then _ _ idle idle_ok). Qed.
Lemma idle_sound {A} (p : prog World A) w : only idle p → sound p w.
Proof. apply (frame_sound _ _ idle idle_ok). Qed.

Lemma PreviewPayment_idle fault claims c : only idle (PreviewPayment fault claims c).
Proof. unfold PreviewPayment, trial_checked. cbv zeta. frame. Qed.
Lemma CreatePromoCode_idle fault c : only idle (CreatePromoCode fault c).
Proof.
  unfold CreatePromoCode, promoCodeResponse, create_promo. frame.
  apply statement_frame; [apply _|]. intros v. cbn. by case_match.
Qed.
Lemma UpdatePromoCode_idle fault i c : only idle (UpdatePromoCode fault i c).
Proof.
  unfold UpdatePromoCode, promoCodeResponse, update_promo. frame.
  apply statement_frame; [apply _|]. intros v. cbn. by case_match.
Qed.
Lemma DeletePromoCode_idle fault i : only idle (DeletePromoCode fault i).
Proof. unfold DeletePromoCode. frame. done. Qed.

(** A YooKassa answer, before a program that knows it. *)
Lemma fetch_then {B} k (f : option yooKassaPaymentDetails → prog World B) w :
  (∀ n v, ids_kept w v → sound (f (details_of (yk_get n k))) v) →
  sound (fetchYooKassaPaymentDetails k ≫= f) w.
Proof.
  intros Hf. apply (safe_bind _ _ (λ d _, ∃ n, d = details_of (yk_get n k))).
  - intros d v v' _. done.
  - apply (safe_bind _ _ (λ _ _, True)); [done| |intros n v _ _; by exists n].
    apply idle_sound, draw_only, _.
  - intros d v Hv [n ->]. by apply Hf.
Qed.

Lemma settled_not_canceled w n k d p :
  pay_inv w → details_of (yk_get n k) = Some d → Status d = §"canceled" →
  p ∈ payments w → p_yookassa p = k → Automatic (p_id p) ∉ activated w.
Proof.
  intros Hw Hd Hs Hp Hk Ha. pose proof Hw as (_ & _ & I3). apply I3 in Ha as (q & Hq & Hid & _ & Hy).
  rewrite (same_row w q p Hw Hq Hp Hid), Hk in Hy. destruct Hy as [[m ->]|(m & d' & Hd' & Hs')].
  - by eapply promo_unknown.
  - by eapply (status_final m n).
Qed.

Lemma trial_then fault user plan (k : prog World PayReply) w :
  (∀ v, ids_kept w v → sound k v) → sound (trial_checked fault user plan k) w.
Proof.
  intros Hk. unfold trial_checked. case_bool_decide; [|by apply Hk].
  apply idle_then; [apply trialAvailable_only, _|]. intros [[|]|e] v Hv; [by apply Hk|done..].
Qed.

Lemma pay_nothing_sound fault user plan promo app w : sound (pay_nothing fault user plan promo app) w.
Proof.
  apply idle_then; [apply now_only, _|]. intros t v1 _.
  apply (safe_bind _ _ (λ _ _, True)); [done|apply idle_sound, draw_only, _|]. intros n v2 _ _.
  apply (transaction_then _ _ idle idle_ok); [|by intros [?|?]].
  intros v p v' _ Hv E. apply tx_bind_inl in E as (row & w1 & (-> & Hp1 & Ha1)%create_payment_inl & E).
  set (row := new_payment _ _ _ _ _ _ _ _ _ _) in *.
  apply tx_bind_inl in E as ([] & w2 & [Hp2 Ha2]%activate_effect & E).
  apply tx_bind_inl in E as ([] & w3 & E3 & [= _ <-]).
  apply (keeps_run idle) in E3 as [Hp3 Ha3]; [|apply markPromo_idle].
  apply (appended_ok v w3 row); [done|done|congruence|]. right.
  split; [congruence|]. split; [done|]. left. by exists n.
Qed.

Lemma pay_at_yookassa_sound fault user plan promo app w : sound (pay_at_yookassa fault user plan promo app) w.
Proof.
  apply idle_then; [apply first_only, _|]. intros [u|e] v1 _; [|done].
  apply idle_then; [apply draw_only, _|]. intros n v2 _. destruct (yk_post _ _) as [[code body]|]; [|done].
  cbv zeta. destruct (negb _); [done|]. apply idle_then; [apply now_only, _|]. intros t v3 _.
  apply (safe_bind _ _ (λ _ _, True)); [done| |by intros [?|?]].
  apply safe_atomic. intros v _ Hv. destruct (create_payment _ _ v) as [[p|e] v'] eqn:E.
  - apply create_payment_inl in E as (-> & Hp & Ha). 
    set (row := new_payment _ _ _ _ _ _ _ _ _ _) in Hp.
    destruct (appended_ok v v' row Hv) as [Hk Hi]; [done|done|by left|done].
  - apply create_payment_inr in E. destruct (idle_ok _ _ E Hv). done.
Qed.

Lemma CreatePayment_sound fault claims c w : sound (CreatePayment fault claims c) w.
Proof.
  unfold CreatePayment. cbv zeta. destruct (createPaymentRequest _) as [[plan promo]|]; [|done].
  apply trial_then. intros v _. destruct (planPrices plan) as [price|]; [|done].
  apply idle_then; [apply validate_only, _|]. intros [app|e] v' _; [|done].
  destruct (Qeq_bool _ _); [apply pay_nothing_sound|apply pay_at_yookassa_sound].
Qed.

Lemma Webhook_sound c w : sound (Webhook no_fault c) w.
Proof.
  unfold Webhook. destruct (go_decode _) as [event|]; [|done]. cbv zeta. destruct (str_eqb _ §"payment.canceled").
  - apply fetch_then. intros n v1 _. destruct (details_of _) as [d|] eqn:Ed; [|done].
    destruct (str_eqb _ _) eqn:Es; [|done]. apply str_eqb_eq in Es. cbn [negb].
    apply (execute_then _ _ idle idle_ok); [|by intros [?|?]]. intros v _ Hv.
    eapply (cancel_ok v _ _ Hv); [|reflexivity..]. intros p Hp Hk%str_eqb_eq. by eapply settled_not_canceled.
  - destruct (negb _); [done|].
    apply fetch_then. intros n v1 _. destruct (details_of _) as [d|] eqn:Ed; [|done].
    destruct (str_eqb _ _) eqn:Es; [|done]. apply str_eqb_eq in Es. cbn [negb].
    apply (transaction_then _ _ idle idle_ok); [|by intros [?|?]]. intros v [] v' _ Hv.
    apply settle_webhook_ok; [done|]. right. eauto.
Qed.

Lemma sync_sound fault ps w : Forall (λ p, known p w) ps → sound (sync_payments fault ps) w.
Proof.
  revert w. induction ps as [|p ps IH]; intros w; [done|]. intros [Hp Hps]%Forall_cons. cbn [sync_payments].
  assert (∀ v, ids_kept w v → sound (sync_payments fault ps) v) as Hnext.
  { intros v Hv. apply IH. eapply Forall_impl; [exact Hps|]. intros q. by apply known_stable. }
  destruct (starts_with _ _); [by apply Hnext|].
  apply fetch_then. intros n v1 Hv1. destruct (details_of _) as [d|] eqn:Ed; [|by apply Hnext].
  destruct (str_eqb (Status d) §"succeeded") eqn:Es; [|destruct (str_eqb (Status d) §"canceled"); [|by apply Hnext]].
  - apply str_eqb_eq in Es. apply (transaction_then _ _ idle idle_ok).
    + intros v [] v' Hv Hi. apply settle_pending_ok; [done|]. intros q Hq Hid. right. exists n, d.
      pose proof (known_stable _ _ _ (transitivity Hv1 Hv) Hp) as (k & Hk & Hy).
      apply list_elem_of_lookup in Hq as [j Hj]. destruct Hi as (I1 & _).
      rewrite <-Hid, (I1 j q Hj) in Hk. injection Hk as ->.
      rewrite list_lookup_fmap, Hj in Hy. injection Hy as ->. done.
    + intros [?|?] v Hv; [|done]. apply Hnext. by etrans.
  - apply (execute_then _ _ idle idle_ok).
    + intros v _ Hv. eapply (cancel_ok v _ _ Hv); [|reflexivity..].
      intros q Hq [_ Hpend%bool_decide_eq_true]%andb_true_iff. apply fresh_row; [done|].
      intros q' Hq' Hid. rewrite (same_row v q' q) by done. by rewrite Hpend.
    + intros [?|?] v Hv; [|done]. apply Hnext. by etrans.
Qed.

Lemma reconcile_sound fault user w : sound (reconcilePendingUserPayments fault user) w.
Proof.
  unfold reconcilePendingUserPayments. destruct (_ || _); [done|].
  apply (read_then _ _ idle idle_ok _ (λ w, inl _) (λ ps v, Forall (λ p, known p v) ps)); [| | |done].
  - intros ps v v' Hv Hps. eapply Forall_impl; [exact Hps|]. intros p. by apply known_stable.
  - intros v ps _ Hv [= <-]. apply Forall_forall. intros p Hp. apply known_row; [done|].
    apply (subseteq_take 5) in Hp. rewrite js_sort_perm in Hp. by apply list_elem_of_filter in Hp as [_ Hp].
  - intros ps v _. apply sync_sound.
Qed.

Lemma ApprovePayment_sound fault i w : sound (ApprovePayment fault i) w.
Proof.
  apply (first_then _ _ idle idle_ok _ _ _ known); [apply known_stable| | |done].
  - intros v p _ Hv Hp _. by apply known_row.
  - intros p v1 _ Hp. case_bool_decide; [done|].
    apply idle_then; [apply now_only, _|]. intros t v2 Hv2. cbv zeta.
    set (q := _ <| p_status := _ |> <| p_confirmed := _ |>).
    assert (p_id q = p_id p ∧ p_yookassa q = p_yookassa p) as [Hid Hyk] by (unfold q; by destruct (Qeq_bool _ _)).
    apply (transaction_then _ _ idle idle_ok); [|by intros [?|?]]. intros v [] v' Hv Hi.
    apply approve_payment_ok; [done| |done].
    destruct (known_stable _ _ _ (transitivity Hv2 Hv) Hp) as (k & Hk & Hy). exists k. by rewrite Hid, Hyk.
Qed.
End Once.
End GoPaySpec.
