(* ===== verification/GoRenew.v ===== *)
(** * Renewals: [vpn-backend/internal/handlers/renewal.go] and the part of
    [user.go] that switches them

    A goroutine looks once an hour for subscriptions that have run out: it
    charges the saved cards, then marks as expired what is left.  It runs beside
    the handlers, on the same tables. *)
From S2P Require Export GoPay.

Module GoRenew.
Import GoPay.

Section Renewal.
Context `{GoHost, Surroundings, PaymentHost} (fault : nat → option DbError).

(** ** Charges *)

Definition autoRenewalChargesEnabled : bool :=
  yooKassaRecurringPaymentsEnabled && str_truthy (TrimSpace shopID) && str_truthy (TrimSpace shopKey).

Definition renewal_order (user : User) (sub : Subscription) (amount : Q) : jval :=
  JObj [(§"amount", amount_json amount);
        (§"capture", JBool true);
        (§"description", JStr (fiscalProductName (s_plan sub)));
        (§"metadata", JObj [(§"auto_renew", JBool true);
                            (§"plan", JStr (plan_text (s_plan sub)));
                            (§"user_id", JNum (Z.of_nat (s_user sub)))]);
        (§"payment_method_id", JStr (s_method sub));
        (§"receipt", yooKassaReceipt (u_email user) (s_plan sub) amount)].

Definition accepted (r : option (Z * option (list (jstr * jval)))) : option (list (jstr * jval)) :=
  '(code, body) ← r;
  if (code =? 200) || (code =? 201) then Some (default [] body) else None.

(** The order is sent; that it was accepted is on record. *)
Definition charge_card (user : nat) (order : jval) : prog World (option (list (jstr * jval))) :=
  atomic (λ w,
    let r := accepted (yk_post (draws w) order) in
    (r, w <| draws := S (draws w) |> <| charges := charges w ++ from_option (λ _, [user]) [] r |>)).

Definition renewal_expiry (t : Z) (sub : Subscription) (price : Price) : Z :=
  let newExpiry := add_days (s_expires sub) (DurationDays price) in
  if newExpiry <? t then add_days t (DurationDays price) else newExpiry.

Definition renewal_payment (sub : Subscription) (price : Price) (id : jstr) (status : PaymentStatus)
    (confirmed : option Z) (t : Z) (i : nat) : Payment :=
  {| p_id := i; p_user := s_user sub; p_yookassa := id; p_amount := Amount price; p_original := Amount price;
     p_discount := 0; p_status := status; p_plan := s_plan sub; p_confirm_url := []; p_confirmed := confirmed;
     p_promo := None; p_created := t |}.

(** Whether there was no error. *)
Definition chargeAutoRenewal (sub : Subscription) : prog World bool :=
  match planPrices (s_plan sub) with
  | None => mret false
  | Some price =>
      user ← first fault users (λ u, (u_id u =? s_user sub)%nat);
      match user with
      | inr _ => mret false
      | inl user =>
          answered ← charge_card (s_user sub) (renewal_order user sub (Amount price));
          match answered with
          | None => mret false
          | Some ykResp =>
              let status := key_string ykResp §"status" in
              let ykPaymentID := key_string ykResp §"id" in
              t ← now;
              if str_eqb status §"succeeded" then
                _ ← execute fault (λ w, w <| subs := set_where (by_user (s_user sub)) (λ s,
                      s <| s_status := SubActive |> <| s_expires := renewal_expiry t sub price |>) (subs w) |>);
                _ ← atomic (create_payment fault (renewal_payment sub price ykPaymentID PaymentSucceeded (Some t) t));
                mret true
              else
                _ ← atomic (create_payment fault (renewal_payment sub price ykPaymentID PaymentPending None t));
                mret true
          end
      end
  end.

(** ** The hourly round *)

Definition due (t : Z) (s : Subscription) : bool :=
  s_auto_renew s && str_truthy (s_method s) && bool_decide (s_status s = SubActive) && (s_expires s <=? t).

Fixpoint charge_all (ss : list Subscription) : prog World () :=
  match ss with
  | [] => mret ()
  | sub :: ss => _ ← chargeAutoRenewal sub; charge_all ss
  end.

(** Users with a payment that was created in the last two hours and is not
    settled. *)
Definition waiting (t : Z) (w : World) : list nat :=
  p_user <$> filter (λ p, p_status p = PaymentPending ∧ t - 2 * hour <= p_created p) (payments w).

Definition lapsed (t : Z) (spared : list nat) (s : Subscription) : bool :=
  bool_decide (s_status s = SubActive) && (s_expires s <=? t) && negb (bool_decide (s_plan s = PlanFree))
  && negb (existsb (Nat.eqb (s_user s)) spared).

(** [processAutoRenewals], up to the revocation of the keys of expired
    subscriptions. *)
Definition processAutoRenewals : prog World () :=
  t ← now;
  _ ← (if autoRenewalChargesEnabled then
         ss ← query fault (λ w, (inl (filter (λ s, due t s = true) (subs w)), w));
         charge_all (match ss with inl ss => ss | inr _ => [] end)
       else mret ());
  spared ← query fault (λ w, (inl (waiting t w), w));
  _ ← execute fault (λ w, w <| subs := set_where (lapsed t (match spared with inl us => us | inr _ => [] end))
        (λ s, s <| s_status := SubExpired |>) (subs w) |>);
  mret ().

(** [RunAutoRenewalScheduler] for a number of rounds, which are as far apart as
    the clock says. *)
Fixpoint scheduler (rounds : nat) : prog World () :=
  match rounds with
  | O => mret ()
  | S rounds => _ ← processAutoRenewals; scheduler rounds
  end.

(** ** The user's switches *)

Definition enabledRequest (body : option jstr) : option bool :=
  fs ← go_decode body;
  go_field §"enabled" false (λ v, match v with JBool b => Some b | _ => None end) fs.

Definition SetAutoRenew (claims : Claims) (c : GoRequest) : prog World Response :=
  match enabledRequest (go_body c) with
  | None => refuse 400 (binding_error (go_body c))
  | Some enabled =>
      sub ← first fault subs (by_user (cl_user claims));
      match sub with
      | inr _ => refuse 404 §"subscription not found"
      | inl sub =>
          if enabled && negb yooKassaRecurringPaymentsEnabled then refuse 409 §"Автопродление временно недоступно"
          else
          _ ← execute fault (λ w, w <| subs := set_where (by_user (s_user sub))
                (λ s, s <| s_auto_renew := enabled |>) (subs w) |>);
          mret (reply 200 (JObj [(§"auto_renew", JBool enabled)]))
      end
  end.

Definition DeleteCard (claims : Claims) : prog World Response :=
  sub ← first fault subs (by_user (cl_user claims));
  match sub with
  | inr _ => refuse 404 §"subscription not found"
  | inl sub =>
      _ ← execute fault (λ w, w <| subs := set_where (by_user (s_user sub))
            (λ s, s <| s_method := [] |> <| s_auto_renew := false |>) (subs w) |>);
      mret (reply 200 (JObj [(§"message", JStr §"карта удалена, автосписание отключено")]))
  end.
End Renewal.
End GoRenew.
