(* ===== verification/GoRenewSpec.v ===== *)
(** * Renewals: how often a card is charged, and that nothing is activated twice

    The scheduler keeps what the other files show of histories; and with a
    YooKassa that settles charges at once, a subscription is never charged for
    a period that has not begun. *)
From S2P Require Export GoRenew GoPaySpec.

Module GoRenewSpec.
Import GoPay GoPaySpec GoRenew.

Section Frames.
Context `{GoHost, Surroundings, PaymentHost} (fault : nat → option DbError).

Lemma SetAutoRenew_account claims c : only account (SetAutoRenew fault claims c).
Proof. unfold SetAutoRenew. frame; by repeat split. Qed.
Lemma DeleteCard_account claims : only account (DeleteCard fault claims).
Proof. unfold DeleteCard. frame; by repeat split. Qed.

Lemma charge_card_only (K : relation World) `{!Frame K} user order :
  (∀ w l, K w (w <| charges := l |>)) → only K (charge_card user order).
Proof. intros HK. apply only_atomic. intros w. exact (transitivity (frame_draws w (S (draws w))) (HK _ _)). Qed.

Lemma create_aside f : only aside (atomic (create_payment fault f)).
Proof.
  apply only_atomic. intros w. unfold create_payment. apply statement_frame; [apply _|]. intros v. cbn. by case_match.
Qed.

Hint Resolve create_aside : frame.

Lemma chargeAutoRenewal_aside sub : only aside (chargeAutoRenewal fault sub).
Proof.
  unfold chargeAutoRenewal. cbv zeta. frame; [by apply charge_card_only; [apply _|]|by repeat split..].
Qed.

Lemma charge_all_aside ss : only aside (charge_all fault ss).
Proof. induction ss as [|s ss IH]; cbn [charge_all]; [done|]. apply only_bind; [apply chargeAutoRenewal_aside|done]. Qed.
Hint Resolve charge_all_aside : frame.

Lemma process_aside : only aside (processAutoRenewals fault).
Proof. unfold processAutoRenewals. frame; by repeat split. Qed.

(** ** Payments *)

Context {Laws : PaymentLaws}.
Abbreviation sound := (safe pay_inv ids_kept (λ _ _, True)).

Lemma create_sound f w : (∀ i, p_id (f i) = i) → sound (atomic (create_payment fault f)) w.
Proof.
  intros Hf. apply safe_atomic. intros v _ Hv. destruct (create_payment _ _ v) as [[p|e] v'] eqn:E.
  - apply create_payment_inl in E as (-> & Hp & Ha).
    destruct (appended_ok v v' _ Hv (Hf _) Hp) as [Hk Hi]; [by left|done].
  - apply create_payment_inr in E. destruct (idle_ok _ _ E Hv). done.
Qed.

Lemma chargeAutoRenewal_sound sub w : sound (chargeAutoRenewal fault sub) w.
Proof.
  unfold chargeAutoRenewal. destruct (planPrices _) as [price|]; [|done].
  apply idle_then; [apply first_only, _|]. intros [user|e] v1 _; [|done].
  apply idle_then; [by apply charge_card_only; [apply _|]|]. intros [ykResp|] v2 _; [|done]. cbv zeta.
  apply idle_then; [apply now_only, _|]. intros t v3 _. destruct (str_eqb _ _).
  - apply idle_then; [by apply execute_only; [apply _|]|]. intros r v4 _.
    apply (safe_bind _ _ (λ _ _, True)); [done| |done]. by apply create_sound.
  - apply (safe_bind _ _ (λ _ _, True)); [done| |done]. by apply create_sound.
Qed.

Lemma charge_all_sound ss w : sound (charge_all fault ss) w.
Proof.
  revert w. induction ss as [|s ss IH]; intros w; cbn [charge_all]; [done|].
  apply (safe_bind _ _ (λ _ _, True)); [done|apply chargeAutoRenewal_sound|]. intros b v _ _. apply IH.
Qed.

Lemma process_sound w : sound (processAutoRenewals fault) w.
Proof.
  apply idle_then; [apply now_only, _|]. intros t v1 _.
  apply (safe_bind _ _ (λ _ _, True)); [done| |].
  - destruct autoRenewalChargesEnabled; [|done]. apply idle_then; [by apply query_only; [apply _|]|].
    intros ss v2 _. apply charge_all_sound.
  - intros _ v2 _ _. apply idle_sound. frame; done.
Qed.
End Frames.

(** ** How often a card is charged *)

(** What the others may do meanwhile. *)
Definition elsewhere (w w' : World) : Prop :=
  subs w' = subs w ∧ charges w' = charges w ∧ clock w <= clock w'.
#[export] Instance elsewhere_frame : Frame elsewhere.
Proof.
  split; [|intros; split_and!; cbn; (done || lia)..]. split; [intros w; split_and!; (done || lia)|].
  intros w1 w2 w3 (? & ? & ?) (? & ? & ?). split_and!; [congruence..|lia].
Qed.

Definition charged (u : nat) (w : World) : Z := Z.of_nat (length (filter (λ i, i = u) (charges w))).

Section Bound.
Context `{GoHost, Surroundings, PaymentHost} (u : nat) (plan : PlanType) (price : Price) (e0 : Z).
Hypothesis Hprice : planPrices plan = Some price.

Abbreviation D := (DurationDays price * day).

(** With [k] charges that are not yet accounted for. *)
Definition paid_up (k : Z) (w : World) : Prop :=
  NoDup (s_user <$> subs w) ∧
  (0 < charged u w → e0 + (charged u w - 1) * D <= clock w) ∧
  ∃ s, s ∈ subs w ∧ s_user s = u ∧ s_plan s = plan ∧ e0 + (charged u w - k) * D <= s_expires s.

Lemma duration_positive : 0 < D.
Proof. unfold day, hour, minute, second. destruct plan; try done; injection Hprice as <-; cbn; lia. Qed.

Lemma paid_up_elsewhere k w w' : elsewhere w w' → paid_up k w → paid_up k w'.
Proof.
  intros (Hs & Hc & Ht) (Hn & Hb & s & Hin & Hu & Hp & He). unfold paid_up, charged in *. rewrite Hs, Hc.
  split; [done|]. split; [lia|]. by exists s.
Qed.

Lemma set_where_users (P : Subscription → bool) f l :
  (∀ s, s_user (f s) = s_user s) → s_user <$> set_where P f l = s_user <$> l.
Proof.
  intros Hf. unfold set_where. rewrite <-list_fmap_compose. apply list_fmap_ext. intros i s _. cbn. by destruct (P s).
Qed.

Lemma set_where_elem {A} (P : A → bool) f l x : x ∈ l → (if P x then f x else x) ∈ set_where P f l.
Proof. intros Hx. unfold set_where. by apply (list_elem_of_fmap_2 (λ x, if P x then f x else x)). Qed.

(** Rows are changed: the one of the user at least by what is owed. *)
Lemma paid_up_change k w w' P f :
  subs w' = set_where P f (subs w) → charges w' = charges w → clock w <= clock w' →
  (∀ s, s_user (f s) = s_user s) → (∀ s, s_plan (f s) = s_plan s) →
  (∀ s, s ∈ subs w → s_user s = u → s_plan s = plan → s_expires s + k * D <= s_expires (if P s then f s else s)) →
  paid_up k w → paid_up 0 w'.
Proof.
  intros Hs Hc Ht Hfu Hfp Hk (Hn & Hb & s & Hin & Hu & Hp & He). unfold paid_up, charged in *. rewrite Hs, Hc.
  split; [by rewrite set_where_users|]. split; [lia|]. specialize (Hk s Hin Hu Hp).
  eexists. split; [by apply set_where_elem|]. destruct (P s); rewrite ?Hfu, ?Hfp; (split; [done|]); (split; [done|]); lia.
Qed.

Lemma same_user w s s' : NoDup (s_user <$> subs w) → s ∈ subs w → s' ∈ subs w → s_user s = s_user s' → s = s'.
Proof.
  intros Hn [i Hi]%list_elem_of_lookup [j Hj]%list_elem_of_lookup E.
  assert (i = j) as -> by (eapply (NoDup_lookup _ i j (s_user s) Hn); rewrite list_lookup_fmap, ?Hi, ?Hj, ?E; cbn; congruence).
  congruence.
Qed.

Lemma NoDup_filter_users w (P : Subscription → Prop) `{∀ s, Decision (P s)} k :
  paid_up k w → NoDup (s_user <$> filter P (subs w)).
Proof.
  intros (Hn & _). revert Hn. induction (subs w) as [|s l IH]; [done|]. cbn. intros [Hnot Hn]%NoDup_cons.
  destruct (decide (P s)); cbn; [|by apply IH]. apply NoDup_cons. split; [|by apply IH].
  intros (s' & E & Hs')%list_elem_of_fmap. apply list_elem_of_filter in Hs' as [_ Hs'].
  destruct Hnot. rewrite E. by apply list_elem_of_fmap_2.
Qed.

(** Inside a round that began at [t]: the subscriptions that are left to be
    charged are as they were read. *)
Definition round_inv (t k : Z) (ss : list Subscription) (w : World) : Prop :=
  Forall (λ s, s ∈ subs w ∧ s_expires s <= t) ss ∧ NoDup (s_user <$> ss) ∧ t <= clock w ∧ paid_up k w.

Lemma round_elsewhere t k ss w w' : elsewhere w w' → round_inv t k ss w → round_inv t k ss w'.
Proof.
  intros He (Hss & Hn & Ht & Hp). pose proof He as (Hs & _ & Hc). split_and!; [by rewrite Hs|done|lia|].
  by apply (paid_up_elsewhere k w).
Qed.

Definition owed (sub : Subscription) : Z := if (s_user sub =? u)%nat then 1 else 0.

Lemma charge_owed t sub ss w w' :
  subs w' = subs w → clock w' = clock w → charges w' = charges w ++ [s_user sub] →
  round_inv t 0 (sub :: ss) w → round_inv t (owed sub) (sub :: ss) w'.
Proof.
  intros Hs Ht Hc (Hss & Hn & Hclk & Hu & Hb & s & Hin & Hsu & Hp & He). unfold round_inv, paid_up.
  assert (charged u w' = charged u w + owed sub) as Hch.
  { unfold charged, owed. rewrite Hc, filter_app, length_app. cbn.
    destruct (decide (s_user sub = u)) as [E|E], (Nat.eqb_spec (s_user sub) u); cbn; try done; lia. }
  rewrite Hs, Ht, Hch. split; [done|]. split; [done|]. split; [done|]. split; [done|]. split.
  - unfold owed. destruct (Nat.eqb_spec (s_user sub) u) as [E|_].
    + apply Forall_cons in Hss as [[Hsub Hexp] _].
      rewrite (same_user w sub s) in Hexp by (done || congruence). intros _. lia.
    + intros Hpos. rewrite Z.add_0_r in *. by apply Hb.
  - exists s. split_and!; [done..|]. replace (charged u w + owed sub - owed sub) with (charged u w - 0) by lia. done.
Qed.

Lemma renew_paid t sub ss w w' pr t' :
  planPrices (s_plan sub) = Some pr →
  subs w' = set_where (by_user (s_user sub)) (λ s,
    s <| s_status := SubActive |> <| s_expires := renewal_expiry t' sub pr |>) (subs w) →
  charges w' = charges w → clock w <= clock w' →
  round_inv t (owed sub) (sub :: ss) w → round_inv t 0 ss w'.
Proof.
  intros Hpr Hs Hc Hclk (Hss & [Hnot Hn]%NoDup_cons & Ht & Hp). apply Forall_cons in Hss as [[Hsub _] Hss].
  assert (NoDup (s_user <$> subs w)) as Hnu by apply Hp.
  split; [|split; [done|split; [lia|]]].
  - apply Forall_forall. intros s Hin. rewrite Forall_forall in Hss. destruct (Hss s Hin) as [Hold Hexp].
    split; [|done]. rewrite Hs.
    match goal with |- _ ∈ set_where ?P ?f _ => pose proof (set_where_elem P f _ s Hold) as Hkept end.
    unfold by_user in Hkept at 1. destruct (Nat.eqb_spec (s_user s) (s_user sub)) as [E|]; [|done].
    destruct Hnot. rewrite <-E. by apply list_elem_of_fmap_2.
  - apply (paid_up_change (owed sub) w w' _ _ Hs Hc Hclk); [done|done| |done]. intros s Hin Hu Hpl.
    unfold by_user, owed. destruct (Nat.eqb_spec (s_user s) (s_user sub)) as [E|E].
    + rewrite (same_user w s sub Hnu Hin Hsub E) in *. rewrite Hpl in Hpr.
      assert (pr = price) as -> by congruence. pose proof duration_positive. cbn.
      unfold renewal_expiry, add_days. rewrite Hu, Nat.eqb_refl. destruct (Z.ltb_spec (s_expires sub + DurationDays price * day) t'); lia.
    + destruct (Nat.eqb_spec (s_user sub) u); [congruence|]. lia.
Qed.

(** YooKassa settles a charge of a saved card at once or refuses it. *)
Definition prompt : Prop := ∀ n order fs,
  accepted (yk_post n order) = Some fs → key_string fs §"status" = §"succeeded".
Hypothesis Hprompt : prompt.

Abbreviation ensured := (ensures elsewhere).

Lemma elsewhere_then {A B} t k ss (p : prog World A) (next : A → prog World B) Q w :
  only elsewhere p → round_inv t k ss w → (∀ a v, round_inv t k ss v → ensured Q (next a) v) →
  ensured Q (p ≫= next) w.
Proof.
  intros Hp Hw Hn. eapply ensures_bind; [by apply ensures_only; [apply _|]|]. cbn. intros a v Hv.
  apply Hn. by apply (round_elsewhere t k ss w).
Qed.

Lemma create_elsewhere f : only elsewhere (atomic (create_payment no_fault f)).
Proof.
  apply only_atomic. intros w. unfold create_payment. apply statement_frame; [apply _|]. intros v. cbn.
  case_match; cbn; split_and!; (done || lia).
Qed.

Lemma charge_bounded t sub ss w :
  round_inv t 0 (sub :: ss) w → ensured (λ _ v, round_inv t 0 ss v) (chargeAutoRenewal no_fault sub) w.
Proof.
  assert (∀ v, round_inv t 0 (sub :: ss) v → round_inv t 0 ss v) as Hskip.
  { intros v ([_ Hss]%Forall_cons & [_ Hn]%NoDup_cons & Hr). done. }
  intros Hw. unfold chargeAutoRenewal. destruct (planPrices (s_plan sub)) as [pr|] eqn:Hpr; [|by apply Hskip].
  eapply elsewhere_then; [apply first_only, _|exact Hw|]. intros [user|e] v1 Hv1; [|by apply Hskip].
  apply (ensures_bind _ (λ r v, match r with
    | Some fs => round_inv t (owed sub) (sub :: ss) v ∧ key_string fs §"status" = §"succeeded"
    | None => round_inv t 0 (sub :: ss) v end)).
  { apply ensures_atomic. intros v Hv. cbn [fst snd]. pose proof (round_elsewhere t 0 _ _ v Hv Hv1) as Hr.
    destruct (accepted _) as [fs|] eqn:E; cbn [from_option].
    - split; [|by eapply Hprompt]. by apply (charge_owed t sub ss v).
    - apply (round_elsewhere t 0 _ v); [|done]. split_and!; cbn; [done|by rewrite app_nil_r|lia]. }
  intros [fs|] v2; [|apply Hskip]. intros [Hv2 Hstatus]. cbv zeta. rewrite Hstatus, str_eqb_refl.
  eapply elsewhere_then; [apply now_only, _|exact Hv2|]. intros t' v3 Hv3.
  apply (ensures_bind _ (λ _ v, round_inv t 0 ss v)).
  { apply ensures_atomic. intros v Hv. cbn. eapply (renew_paid t sub ss v _ pr t'); [done|done|done|cbn; lia|].
    by apply (round_elsewhere _ _ _ v3). }
  intros r v4 Hv4. eapply elsewhere_then; [apply create_elsewhere|exact Hv4|done].
Qed.

Lemma charge_all_bounded t ss w :
  round_inv t 0 ss w → ensured (λ _ v, round_inv t 0 [] v) (charge_all no_fault ss) w.
Proof.
  revert w. induction ss as [|s ss IH]; intros w Hw; cbn [charge_all]; [done|].
  eapply ensures_bind; [by apply charge_bounded|]. intros b v. apply IH.
Qed.

Lemma process_bounded w : paid_up 0 w → ensured (λ _ v, paid_up 0 v) (processAutoRenewals no_fault) w.
Proof.
  intros Hw. unfold processAutoRenewals.
  apply (ensures_bind _ (λ t v, round_inv t 0 [] v)).
  { apply ensures_atomic. intros v Hv. split_and!; [done|constructor|done|]. by apply (paid_up_elsewhere 0 w). }
  intros t v1 Hv1. apply (ensures_bind _ (λ _ v, round_inv t 0 [] v)).
  { destruct autoRenewalChargesEnabled; [|done].
    apply (ensures_bind _ (λ r v, match r with inl ss => round_inv t 0 ss v | inr _ => False end)).
    - apply ensures_atomic. intros v Hv. pose proof (round_elsewhere _ _ _ _ _ Hv Hv1) as (_ & _ & Ht & Hp).
      cbn. split_and!; [|by eapply NoDup_filter_users|done|by apply (paid_up_elsewhere 0 v)].
      apply Forall_forall. intros s [Hd Hin]%list_elem_of_filter. split; [done|].
      unfold due in Hd. rewrite !andb_true_iff in Hd. lia.
    - intros [ss|e] v Hv; [|done]. by apply charge_all_bounded. }
  intros [] v2 Hv2. eapply elsewhere_then; [by apply query_only; [apply _|]|exact Hv2|]. intros spared v3 Hv3.
  apply (ensures_bind _ (λ _ v, paid_up 0 v)); [|done].
  apply ensures_atomic. intros v Hv. pose proof (round_elsewhere _ _ _ _ _ Hv Hv3) as (_ & _ & _ & Hp).
  eapply (paid_up_change 0 v); [reflexivity|reflexivity|cbn; lia|done|done| |done].
  intros s _ _ _. destruct (lapsed _ _ _); cbn; lia.
Qed.

Lemma scheduler_bounded rounds w : paid_up 0 w → ensured (λ _ v, paid_up 0 v) (scheduler no_fault rounds) w.
Proof.
  revert w. induction rounds as [|n IH]; intros w Hw; cbn [scheduler]; [done|].
  eapply ensures_bind; [by apply process_bounded|]. intros a v. apply IH.
Qed.
End Bound.

Section Charged.
Context `{GoHost, Surroundings, PaymentHost}.

End Charged.
End GoRenewSpec.
