(* ===== verification/GoRouter.v ===== *)
(** * The backend as a whole: [vpn-backend/internal/router/router.go]

    The modelled endpoints behind their middlewares, and the server as a pool
    of requests in progress: requests arrive, each takes its steps whenever it
    is its turn, the clock goes on and the limiters clean up.  The theorems
    hold for every such history. *)
From S2P Require Export GoAuthSpec GoRenewSpec.

Module GoRouter.
Import GoAuth GoAuthSpec GoPay GoPaySpec GoRenew GoRenewSpec.

Section Router.
Context `{GoHost, Tokens, Passwords, Surroundings, PaymentHost}.

(** ** Routes *)

Inductive AuthRoute :=
| PostRegister | PostVerify | PostLogin | PostRefresh | PostForgotPassword | PostResetPassword
| PostTVStart | PostTVApprove | PostTVToken.

Inductive Route :=
| Auth (a : AuthRoute)
| PostWebhook
| GetProfile | PostMeTVApprove | PatchAutoRenew | DeleteSavedCard
| PostPreview | PostCreate
| PostApprove (payment : nat)
| PostPromo | PutPromo (promo : nat) | DeletePromo (promo : nat).

Definition authLimiter : nat := 0.
Definition webhookLimiter : nat := 1.

Section Serve.
Context (fault : nat → option DbError).

Definition plain (h : GoRequest → prog World Response) : GoRequest → prog World PayReply := λ c,
  r ← h c; mret (Answered r).
Definition auth_handler (a : AuthRoute) : GoRequest → prog World Response :=
  match a with
  | PostRegister => Register fault
  | PostVerify => VerifyEmail fault
  | PostLogin => Login fault
  | PostRefresh => Refresh fault
  | PostForgotPassword => ForgotPassword fault
  | PostResetPassword => ResetPassword fault
  | PostTVStart => TVStart fault
  | PostTVApprove => TVApprove fault
  | PostTVToken => TVToken fault
  end.
Definition auth_group (a : AuthRoute) : GoRequest → prog World Response :=
  RateLimit (λ r, r) authLimiter 10 minute (auth_handler a).
Definition authenticated (h : Claims → GoRequest → prog World PayReply) : GoRequest → prog World PayReply :=
  AuthRequired Answered h.
Definition admin_group (h : GoRequest → prog World PayReply) : GoRequest → prog World PayReply :=
  AuthRequired Answered (AdminRequired Answered (λ _, h)).

Definition serve (r : Route) : GoRequest → prog World PayReply :=
  match r with
  | Auth a => plain (auth_group a)
  | PostWebhook => RateLimit Answered webhookLimiter 30 minute (Webhook fault)
  | GetProfile => authenticated (λ claims, plain (GetMe fault claims))
  | PostMeTVApprove => authenticated (λ claims, plain (TVApproveAuthenticated fault claims))
  | PatchAutoRenew => authenticated (λ claims, plain (SetAutoRenew fault claims))
  | DeleteSavedCard => authenticated (λ claims, plain (λ _, DeleteCard fault claims))
  | PostPreview => authenticated (PreviewPayment fault)
  | PostCreate => authenticated (CreatePayment fault)
  | PostApprove i => admin_group (λ _, ApprovePayment fault i)
  | PostPromo => admin_group (CreatePromoCode fault)
  | PutPromo i => admin_group (UpdatePromoCode fault i)
  | DeletePromo i => admin_group (λ _, DeletePromoCode fault i)
  end.

(** The first step of [GetSubscription], which settles the user's payments. *)
Definition sync (user : nat) : prog World PayReply :=
  r ← reconcilePendingUserPayments fault user;
  match r with
  | inr DatabaseBusy => refused 503 §"database temporarily busy, please retry"
  | inr _ => refused 500 §"failed to sync pending payments"
  | inl _ => answer 200 JNull
  end.

(** A round of the scheduler, a goroutine among the others. *)
Definition renew : prog World PayReply := _ ← processAutoRenewals fault; answer 200 JNull.
End Serve.

(** ** Histories *)

Inductive Happening :=
| Arrives (fault : nat → option DbError) (r : Route) (c : GoRequest)
| Syncs (fault : nat → option DbError) (user : nat)
| Renews (fault : nat → option DbError)
| Works (i : nat)
| Passes (d : N)
| Cleans (limiter : nat).

Definition happen (h : Happening) : Turn World PayReply :=
  match h with
  | Arrives fault r c => Enter (serve fault r c)
  | Syncs fault user => Enter (sync fault user)
  | Renews fault => Enter (renew fault)
  | Works i => Take i
  | Passes d => Around (λ w, w <| clock := clock w + Z.of_N d |>)
  | Cleans limiter => Around (cleanup limiter)
  end.

Definition history (w : World) (hs : list Happening) : option World :=
  shared <$> run turn (Build_Pool w []) (happen <$> hs).

Lemma history_invariant (J : World → Prop) (R : relation World) `{!PreOrder R} w hs w' :
  J w → Forall (λ h, fair J R (happen h)) hs → history w hs = Some w' → J w'.
Proof.
  intros Hw Hhs (s & Hs & ->)%fmap_Some.
  apply (pool_invariant J R (Build_Pool w []) (happen <$> hs)); [|by apply Forall_fmap|done].
  split; [done|]. constructor.
Qed.

(** ** Middlewares keep what handlers keep *)

Section Middlewares.
Context (J : World → Prop) (R : relation World) `{!PreOrder R} (K : relation World) `{!Frame K}
  (HK : ∀ v v', K v v' → J v → R v v' ∧ J v').
Abbreviation sound p := (∀ w, safe J R (λ _ _, True) p w).

Lemma RateLimit_sound {A} (ok : Response → A) limiter limit window next c :
  sound (next c) → sound (RateLimit ok limiter limit window next c).
Proof. intros Hn w. apply (frame_then _ _ K HK); [apply Allow_only, _|]. intros [|] v _; [apply Hn|done]. Qed.

Lemma AuthRequired_sound {A} (ok : Response → A) next c :
  (∀ claims, sound (next claims c)) → sound (AuthRequired ok next c).
Proof.
  intros Hn w. unfold AuthRequired. destruct (default _ _) as [|x l]; [done|].
  destruct (SplitN2 _ _) as [scheme [token|]]; [|done]. destruct (str_eqb _ _); [|done].
  apply (frame_then _ _ K HK); [apply now_only, _|]. intros t v _. destruct (ParseWithClaims _ _); [apply Hn|done].
Qed.

Lemma AdminRequired_sound {A} (ok : Response → A) next claims c :
  sound (next claims c) → sound (AdminRequired ok next claims c).
Proof. intros Hn w. unfold AdminRequired. destruct (str_eqb _ _); [apply Hn|done]. Qed.

Lemma plain_sound h c : sound (h c) → sound (plain h c).
Proof. intros Hh w. apply (safe_bind _ _ (λ _ _, True)); [done|apply Hh|done]. Qed.

Lemma auth_group_sound fault a c : sound (auth_handler fault a c) → sound (auth_group fault a c).
Proof. intros Hh. by apply RateLimit_sound. Qed.

Lemma admin_group_sound h c : sound (h c) → sound (admin_group h c).
Proof. intros Hh. apply AuthRequired_sound. intros claims. by apply AdminRequired_sound. Qed.

Lemma only_sound {A} K' (p : prog World A) : (∀ v v', K' v v' → K v v') → only K' p → sound p.
Proof. intros HK' Hp w. apply (frame_sound _ _ K HK). by apply (only_impl K'). Qed.

Lemma around_fair (g : World → World) : (∀ w, K w (g w)) → fair J R (@Around World PayReply g).
Proof. intros Hg w Hw. by apply HK. Qed.
End Middlewares.

(** ** The device flow *)

Lemma account_aside v v' : account v v' → aside v v'.
Proof. by intros [H' _]. Qed.
Lemma account_idle v v' : account v v' → idle v v'.
Proof. intros [_ H']. by apply unpaid_idle. Qed.

Lemma serve_tv fault r c w : safe tv_inv grows (λ _ _, True) (serve fault r c) w.
Proof.
  revert w. destruct r as [a| | | | | | | |i| |i|i]; cbn [serve].
  - apply (plain_sound tv_inv grows), (auth_group_sound _ _ aside aside_ok). destruct a; cbn [auth_handler].
    1-6: apply (only_sound _ _ aside aside_ok account); [exact account_aside|].
    + apply Register_account.
    + apply VerifyEmail_account.
    + apply Login_account.
    + apply Refresh_account.
    + apply ForgotPassword_account.
    + apply ResetPassword_account.
    + intros w. apply TVStart_sound.
    + intros w. apply TVApprove_sound.
    + intros w. apply TVToken_sound.
  - apply (RateLimit_sound _ _ aside aside_ok), (only_sound _ _ aside aside_ok aside); [done|]. apply Webhook_aside.
  - apply (AuthRequired_sound _ _ aside aside_ok). intros claims.
    apply (plain_sound tv_inv grows), (only_sound _ _ aside aside_ok account); [exact account_aside|]. apply GetMe_account.
  - apply (AuthRequired_sound _ _ aside aside_ok). intros claims.
    apply (plain_sound tv_inv grows). intros w. apply TVApproveAuthenticated_sound.
  - apply (AuthRequired_sound _ _ aside aside_ok). intros claims.
    apply (plain_sound tv_inv grows), (only_sound _ _ aside aside_ok account); [exact account_aside|]. apply SetAutoRenew_account.
  - apply (AuthRequired_sound _ _ aside aside_ok). intros claims.
    apply (plain_sound tv_inv grows), (only_sound _ _ aside aside_ok account); [exact account_aside|]. apply DeleteCard_account.
  - apply (AuthRequired_sound _ _ aside aside_ok). intros claims.
    apply (only_sound _ _ aside aside_ok aside); [done|]. apply PreviewPayment_aside.
  - apply (AuthRequired_sound _ _ aside aside_ok). intros claims.
    apply (only_sound _ _ aside aside_ok aside); [done|]. apply CreatePayment_aside.
  - apply (admin_group_sound _ _ aside aside_ok), (only_sound _ _ aside aside_ok aside); [done|]. apply ApprovePayment_aside.
  - apply (admin_group_sound _ _ aside aside_ok), (only_sound _ _ aside aside_ok aside); [done|]. apply CreatePromoCode_aside.
  - apply (admin_group_sound _ _ aside aside_ok), (only_sound _ _ aside aside_ok aside); [done|]. apply UpdatePromoCode_aside.
  - apply (admin_group_sound _ _ aside aside_ok), (only_sound _ _ aside aside_ok aside); [done|]. apply DeletePromoCode_aside.
Qed.

Lemma happen_tv h : fair tv_inv grows (happen h).
Proof.
  destruct h as [fault r c|fault user|fault|i|d|limiter]; cbn [happen]; [| | |done|by apply (around_fair _ _ aside aside_ok)..].
  - intros w. apply serve_tv.
  - intros w. apply (frame_then _ _ aside aside_ok); [apply reconcile_aside|]. by intros [?|[]].
  - intros w. by apply (frame_then _ _ aside aside_ok); [apply process_aside|].
Qed.


(** ** Payments *)

(** No statement of a webhook's request fails; any other may. *)
Definition sane (h : Happening) : Prop :=
  match h with Arrives fault PostWebhook _ => fault = no_fault | _ => True end.

Section Payments.
Context {Laws : PaymentLaws}.

Lemma serve_pay fault r c w :
  sane (Arrives fault r c) → safe pay_inv ids_kept (λ _ _, True) (serve fault r c) w.
Proof.
  intros Hf. revert w. destruct r as [a| | | | | | | |i| |i|i]; cbn [serve].
  - apply (plain_sound pay_inv ids_kept), (auth_group_sound _ _ idle idle_ok). destruct a; cbn [auth_handler].
    1-6: apply (only_sound _ _ idle idle_ok account); [exact account_idle|].
    7-9: apply (only_sound _ _ idle idle_ok unpaid); [exact unpaid_idle|].
    + apply Register_account.
    + apply VerifyEmail_account.
    + apply Login_account.
    + apply Refresh_account.
    + apply ForgotPassword_account.
    + apply ResetPassword_account.
    + apply TVStart_unpaid.
    + apply TVApprove_unpaid.
    + apply TVToken_unpaid.
  - apply (RateLimit_sound _ _ idle idle_ok). cbn in Hf. subst fault. intros w. apply Webhook_sound.
  - apply (AuthRequired_sound _ _ idle idle_ok). intros claims.
    apply (plain_sound pay_inv ids_kept), (only_sound _ _ idle idle_ok account); [exact account_idle|]. apply GetMe_account.
  - apply (AuthRequired_sound _ _ idle idle_ok). intros claims.
    apply (plain_sound pay_inv ids_kept), (only_sound _ _ idle idle_ok unpaid); [exact unpaid_idle|].
    apply TVApproveAuthenticated_unpaid.
  - apply (AuthRequired_sound _ _ idle idle_ok). intros claims.
    apply (plain_sound pay_inv ids_kept), (only_sound _ _ idle idle_ok account); [exact account_idle|]. apply SetAutoRenew_account.
  - apply (AuthRequired_sound _ _ idle idle_ok). intros claims.
    apply (plain_sound pay_inv ids_kept), (only_sound _ _ idle idle_ok account); [exact account_idle|]. apply DeleteCard_account.
  - apply (AuthRequired_sound _ _ idle idle_ok). intros claims.
    apply (only_sound _ _ idle idle_ok idle); [done|]. apply PreviewPayment_idle.
  - apply (AuthRequired_sound _ _ idle idle_ok). intros claims w. apply CreatePayment_sound.
  - apply (admin_group_sound _ _ idle idle_ok). intros w. apply ApprovePayment_sound.
  - apply (admin_group_sound _ _ idle idle_ok), (only_sound _ _ idle idle_ok idle); [done|]. apply CreatePromoCode_idle.
  - apply (admin_group_sound _ _ idle idle_ok), (only_sound _ _ idle idle_ok idle); [done|]. apply UpdatePromoCode_idle.
  - apply (admin_group_sound _ _ idle idle_ok), (only_sound _ _ idle idle_ok idle); [done|]. apply DeletePromoCode_idle.
Qed.

Lemma happen_pay h : sane h → fair pay_inv ids_kept (happen h).
Proof.
  intros Hh. destruct h as [fault r c|fault user|fault|i|d|limiter]; cbn [happen];
    [| | |done|by apply (around_fair _ _ idle idle_ok)..].
  - intros w. by apply serve_pay.
  - intros w. apply (safe_bind _ _ (λ _ _, True)); [done|apply reconcile_sound|by intros [?|[]]].
  - intros w. by apply (safe_bind _ _ (λ _ _, True)); [|apply process_sound|].
Qed.

(** C2: Over every history of the backend in which YooKassa's final statuses are
    final, a payment that goes through activates a subscription at most once,
    however often and in whatever order the webhook, the check of pending
    payments and the creation of payments run, and the payment stays marked as
    succeeded. *)
Theorem payment_activates_once w hs w' :
  payments w = [] → activated w = [] → Forall sane hs → history w hs = Some w' →
  ∀ i, (automatics i w' ≤ 1)%nat ∧
    (Automatic i ∈ activated w' → ∃ p, p ∈ payments w' ∧ p_id p = i ∧ p_status p = PaymentSucceeded).
Proof.
  intros Hp Ha Hs Hr. assert (pay_inv w') as (_ & I2 & I3).
  { apply (history_invariant pay_inv ids_kept w hs); [| |done].
    - unfold pay_inv, automatics. rewrite Hp, Ha. split; [done|]. split; [intros; cbn; lia|].
      intros i Hin. by apply elem_of_nil in Hin.
    - eapply Forall_impl; [exact Hs|]. apply happen_pay. }
  intros i. split; [apply I2|]. intros (p & ? & ? & ? & _)%I3. eauto.
Qed.
End Payments.
End Router.
End GoRouter.
