(* ===== verification/GoPrices.v ===== *)
(** * Amounts in doubles

    The backend calculates discounts, and the time that is left on a plan, in
    double precision.  For every plan and every discount the amount that is
    charged, and sent to YooKassa, is the exact one in kopecks.  Time that is
    left on a plan keeps its price when the plan changes, up to one part in
    [2^49] and the hour that is cut off. *)
From S2P Require Export GoPay.

Module GoPrices.
Import GoPay.

(** ** Discounts *)

(** In kopecks: the price less the discount, and at least a rouble if it is not
    nothing. *)
Definition exact_final (price percent : Z) : Z :=
  let rest := 100 * price - price * percent in
  if (0 <? rest) && (rest <? 100) then 100 else rest.

Definition roubles (p : Price) : Z := Qnum (Amount p).

Definition discount_exact (p : Price) (percent : Z) (app : promoApplication) : bool :=
  let final := exact_final (roubles p) percent in
  (kopecks (OriginalAmount app) =? 100 * roubles p) &&
  (kopecks (FinalAmount app) =? final) &&
  (kopecks (DiscountAmount app) =? 100 * roubles p - final) &&
  Bool.eqb (Qeq_bool (FinalAmount app) 0) (final =? 0) &&
  str_eqb (fixed2 (FinalAmount app)) (num_str (final / 100) ++ §"." ++ two_digits (final mod 100)).

(** A code that has nothing but its discount. *)
Definition probe (percent : Z) : PromoCode :=
  {| pr_id := 0; pr_code := []; pr_description := []; pr_percent := percent; pr_max_uses := 0; pr_used := 0;
     pr_active := true; pr_plans := []; pr_once := true; pr_expires := None |}.

Lemma all_discounts :
  forallb (λ plan, forallb (λ percent, discount_exact (price_of plan) percent
     (discounted (probe percent) (Amount (price_of plan)))) (seqZ 1 100)) priced = true.
Proof. vm_compute. reflexivity. Qed.

Lemma discounted_probe promo amount :
  OriginalAmount (discounted promo amount) = OriginalAmount (discounted (probe (pr_percent promo)) amount) ∧
  DiscountAmount (discounted promo amount) = DiscountAmount (discounted (probe (pr_percent promo)) amount) ∧
  FinalAmount (discounted promo amount) = FinalAmount (discounted (probe (pr_percent promo)) amount).
Proof.
  unfold discounted. cbn [pr_percent probe]. cbv zeta. by destruct (_ && _).
Qed.

(** C18: For every plan that can be bought and every discount from 1 to 100 per
    cent, the double-precision calculation agrees with kopecks: the amount
    charged is the price less the discount, but a rouble if that is less than a
    rouble and not nothing; it is nothing exactly for a full discount; price,
    discount and amount add up; and the amount sent to YooKassa is printed
    exactly. *)
Theorem discount_kopecks plan price promo :
  planPrices plan = Some price → 1 <= pr_percent promo <= 100 →
  let app := discounted promo (Amount price) in
  let final := exact_final (roubles price) (pr_percent promo) in
  kopecks (FinalAmount app) = final ∧
  kopecks (DiscountAmount app) = 100 * roubles price - final ∧
  Qeq_bool (FinalAmount app) 0 = (pr_percent promo =? 100) ∧
  fixed2 (FinalAmount app) = num_str (final / 100) ++ §"." ++ two_digits (final mod 100) ∧
  0 <= final <= 100 * roubles price.
Proof.
  intros Hp Hr. cbv zeta.
  assert (plan ∈ priced) as Hin by (clear Hr; destruct plan; [done|..]; clear Hp; unfold priced; set_solver).
  assert (price = price_of plan) as -> by (unfold price_of; by rewrite Hp).
  pose proof all_discounts as Hall. rewrite forallb_forall in Hall.
  specialize (Hall plan (proj1 (list_elem_of_In _ _) Hin)). rewrite forallb_forall in Hall.
  assert (pr_percent promo ∈ seqZ 1 100) as Hseq by (apply elem_of_seqZ; lia).
  specialize (Hall (pr_percent promo) (proj1 (list_elem_of_In _ _) Hseq)).
  unfold discount_exact in Hall. rewrite !andb_true_iff in Hall. destruct Hall as ((((_ & Hf) & Hd) & Hz) & Hs).
  destruct (discounted_probe promo (Amount (price_of plan))) as (_ & -> & ->).
  apply Z.eqb_eq in Hf, Hd. apply eqb_prop in Hz. apply str_eqb_eq in Hs.
  assert (0 < roubles (price_of plan)) as Hpos by (by destruct plan).
  split; [done|]. split; [done|]. split; [|split; [done|]].
  - rewrite Hz. unfold exact_final. destruct (Z.eqb_spec (pr_percent promo) 100) as [->|Hne].
    + by replace (_ - _) with 0 by lia.
    + assert (0 < 100 * roubles (price_of plan) - roubles (price_of plan) * pr_percent promo) by nia.
      destruct (_ && _); lia.
  - unfold exact_final. destruct (_ && _) eqn:E; nia.
Qed.

Lemma discount_kopecks_witness :
  let promo := probe 99 in
  kopecks (FinalAmount (discounted promo 5)) = 100 ∧ fixed2 (FinalAmount (discounted promo 5)) = §"1.00".
Proof.
  destruct (discount_kopecks PlanTrial {| Amount := 5; DurationDays := 3 |} (probe 99) eq_refl
    ltac:(cbn; lia)) as (Hf & _ & _ & Hs & _). cbv zeta. split; [exact Hf|exact Hs].
Defined.

(** ** The time that is left on a plan *)

Lemma ulp_bounds : (0 < ulp /\ ulp <= 1 # 1000000)%Q.
Proof. split; vm_compute; [reflexivity|discriminate]. Qed.

(** Hours on the old plan are worth this many on the new one. *)
Definition worth (old new : Price) : Q :=
  ((Amount old * inject_Z (DurationDays new)) / (inject_Z (DurationDays old) * Amount new))%Q.

Definition ratio (old new : Price) : Q :=
  fdiv (fdiv (Amount old) (inject_Z (DurationDays old))) (fdiv (Amount new) (inject_Z (DurationDays new))).

Definition relb (e x X : Q) : bool := Qle_bool 0 X && Qle_bool (Qabs (x - X)) (e * X).
Lemma relb_spec e x X : relb e x X = true → rel e x X.
Proof. intros [H1%Qle_bool_iff H2%Qle_bool_iff]%andb_true_iff. by split. Qed.

(** The calculated ratio of every two plans; no plan is worth more than two and
    a half times another, trials aside. *)
Lemma all_ratios :
  forallb (λ p, forallb (λ q, relb (4 * ulp) (ratio (price_of p) (price_of q)) (worth (price_of p) (price_of q)) &&
    (bool_decide (q = PlanTrial) || Qle_bool (worth (price_of p) (price_of q)) (5 # 2))) priced) priced = true.
Proof. vm_compute. reflexivity. Qed.

Lemma ratio_bounds p q :
  p ∈ priced → q ∈ priced → q ≠ PlanTrial →
  rel (4 * ulp) (ratio (price_of p) (price_of q)) (worth (price_of p) (price_of q)) ∧
  (worth (price_of p) (price_of q) <= 5 # 2)%Q.
Proof.
  intros Hp Hq Ht. pose proof all_ratios as Hall. rewrite forallb_forall in Hall.
  specialize (Hall p (proj1 (list_elem_of_In _ _) Hp)). rewrite forallb_forall in Hall.
  specialize (Hall q (proj1 (list_elem_of_In _ _) Hq)). apply andb_true_iff in Hall as [H1 H2].
  split; [by apply relb_spec|]. rewrite bool_decide_eq_false_2 in H2 by done. by apply Qle_bool_iff in H2.
Qed.

Definition exact_hours (d : Z) : Q := (inject_Z d / inject_Z hour)%Q.

Lemma Hours_rel d : 0 <= d → rel (3 * ulp) (Hours d) (exact_hours d).
Proof.
  intros Hd. destruct ulp_bounds as [U1 U2]. unfold Hours, fadd, fdiv. pose proof (Z.quot_rem d hour ltac:(done)) as Hq.
  pose proof (Z.rem_bound_pos d hour ltac:(done) ltac:(done)) as Hr.
  pose proof (Z.quot_pos d hour Hd ltac:(done)) as Hq0.
  set (q := Z.quot d hour) in *. set (r := Z.rem d hour) in *.
  assert (rel ulp (float64 (inject_Z r / inject_Z hour)) (inject_Z r / inject_Z hour)) as H1.
  { apply (rel_weaken (0 + ulp + 0 * ulp)); [lra|]. apply rel_round; [split; lra|]. apply rel_exact.
    apply Qle_shift_div_l; [done|]. rewrite Qmult_0_l. change 0%Q with (inject_Z 0). rewrite <-Zle_Qle. lia. }
  assert (rel ulp (inject_Z q) (inject_Z q)) as H2.
  { apply (rel_weaken 0); [lra|]. apply rel_exact. change 0%Q with (inject_Z 0). rewrite <-Zle_Qle. lia. }
  assert (exact_hours d == inject_Z q + inject_Z r / inject_Z hour)%Q as He.
  { unfold exact_hours. rewrite Hq, inject_Z_plus, inject_Z_mult. field. done. }
  assert (0 <= ulp <= 1)%Q as U3 by (split; lra).
  pose proof (rel_round _ _ _ U3 (rel_add _ _ _ _ _ H2 H1)) as H3.
  apply rel_bounds in H3. apply rel_bounds. rewrite He. revert H3. generalize (inject_Z q + inject_Z r / inject_Z hour)%Q.
  intros X (Hx & Hl & Hu). assert (ulp + ulp + ulp * ulp <= 3 * ulp)%Q by nra. split_and!; nra.
Qed.

(** The hours that are calculated, against the hours that are due. *)
Lemma converted_bounds d p q :
  0 <= d → p ∈ priced → q ∈ priced → q ≠ PlanTrial →
  let h := converted_hours d (price_of p) (price_of q) in
  let due := (exact_hours d * worth (price_of p) (price_of q))%Q in
  (0 <= due /\ inject_Z h <= due + (1 # 2 ^ 49) * due /\ due - (1 # 2 ^ 49) * due < inject_Z (h + 1))%Q.
Proof.
  intros Hd Hp Hq Ht. cbv zeta. destruct ulp_bounds as [U1 U2].
  destruct (ratio_bounds p q Hp Hq Ht) as [Hr _].
  assert (0 <= 3 * ulp <= 1)%Q as E1 by (split; lra). assert (0 <= 4 * ulp <= 1)%Q as E2 by (split; lra).
  pose proof (rel_mul _ _ _ _ _ _ E1 E2 (Hours_rel d Hd) Hr) as Hm.
  set (due := (exact_hours d * _)%Q) in *. set (e := (3 * ulp + 4 * ulp + 3 * ulp * (4 * ulp))%Q) in *.
  assert (0 <= e <= 1)%Q as E3 by (unfold e; split; nra).
  pose proof (rel_round _ _ _ E3 Hm) as Hx.
  change (float64 (Hours d * ratio (price_of p) (price_of q)))
    with (fmul (Hours d) (ratio (price_of p) (price_of q))) in Hx.
  assert (e + ulp + e * ulp <= 1 # 2 ^ 49)%Q as E4 by (apply Qle_bool_iff; unfold e; vm_compute; reflexivity).
  apply (rel_weaken _ _ _ _ E4) in Hx.
  pose proof (rel_nonneg (1 # 2 ^ 49) _ _ ltac:(done) Hx) as Hn. apply rel_bounds in Hx as (H1 & H2 & H3).
  unfold converted_hours. fold (ratio (price_of p) (price_of q)).
  destruct (truncate_bounds _ Hn) as [H4 H5]. split; [done|]. split; lra.
Qed.

Lemma wrap64_id z : - 2 ^ 63 <= z < 2 ^ 63 → wrap64 z = z.
Proof. intros Hz. unfold wrap64. rewrite Z.mod_small; lia. Qed.

Definition century : Z := 100 * 365 * day.

Lemma converted_fits d p q :
  0 <= d <= century → p ∈ priced → q ∈ priced → q ≠ PlanTrial →
  0 <= converted_hours d (price_of p) (price_of q) * hour < 2 ^ 63.
Proof.
  intros Hd Hp Hq Ht. destruct (converted_bounds d p q (proj1 Hd) Hp Hq Ht) as (H0 & H1 & H2).
  destruct (ratio_bounds p q Hp Hq Ht) as [_ Hw]. set (h := converted_hours _ _ _) in *.
  set (due := (exact_hours d * _)%Q) in *.
  assert (exact_hours d <= inject_Z (century / hour))%Q as He.
  { unfold exact_hours. apply Qle_shift_div_r; [done|]. rewrite <-inject_Z_mult, <-Zle_Qle.
    change (century / hour * hour) with century. lia. }
  assert (0 <= exact_hours d)%Q as He0 by apply (Hours_rel d (proj1 Hd)).
  assert (due <= inject_Z (century / hour) * (5 # 2))%Q as Hdue.
  { unfold due. apply Qmult_le_compat_nonneg; [done|]. split; [|done].
    destruct (ratio_bounds p q Hp Hq Ht) as [[Hw0 _] _]. done. }
  assert (inject_Z (century / hour) * (5 # 2) == inject_Z 2190000)%Q as Hc by done. rewrite Hc in Hdue.
  assert (inject_Z h <= inject_Z 2190001)%Q as Hh.
  { change (inject_Z 2190000) with (2190000)%Q in Hdue. change (inject_Z 2190001) with (2190001)%Q.
    assert ((1 # 2 ^ 49) <= 1 # 10000000)%Q as Hs by (apply Qle_bool_iff; vm_compute; reflexivity).
    revert H1 Hs. generalize (1 # 2 ^ 49). intros eps H1 Hs. nra. }
  rewrite <-Zle_Qle in Hh.
  assert (0 < inject_Z (h + 1))%Q as Hh1.
  { assert ((1 # 2 ^ 49) <= 1)%Q as Hs by (apply Qle_bool_iff; vm_compute; reflexivity).
    revert H2 Hs. generalize (1 # 2 ^ 49). intros eps H2 Hs. nra. }
  change 0%Q with (inject_Z 0) in Hh1. rewrite <-Zlt_Qlt in Hh1.
  unfold hour, minute, second. lia.
Qed.

Lemma bought_priced p : p ≠ PlanFree → p ∈ priced.
Proof. unfold priced. destruct p; set_solver. Qed.


End GoPrices.
