(* ===== verification/GoLimits.v ===== *)
(** * How often one may try

    Two limiters of the backend: the attempts of the device flow are counted in
    a window that slides, the requests for sign-in in windows that start anew.
    Over any sequence of attempts, the first admits no more than its limit in
    any window, the second no more than twice its limit. *)
From S2P Require Export GoAuth.

Module GoLimits.
Import GoAuth.

(** How many of the times lie in a set. *)
Definition among (P : Z → bool) (l : list Z) : nat := length (filter (λ a, P a = true) l).

Lemma among_app P l k : among P (l ++ k) = (among P l + among P k)%nat.
Proof. unfold among. by rewrite filter_app, length_app. Qed.
Lemma among_one P x : among P [x] = if P x then 1%nat else 0%nat.
Proof. unfold among. cbn. by destruct (P x). Qed.
Lemma among_mono P Q l : (∀ a, a ∈ l → P a = true → Q a = true) → (among P l ≤ among Q l)%nat.
Proof.
  induction l as [|x l IH]; intros H'; [done|]. change (x :: l) with ([x] ++ l). rewrite !among_app, !among_one.
  assert (among P l ≤ among Q l)%nat by (apply IH; intros a Ha; apply H'; by right).
  destruct (P x) eqn:E; [rewrite (H' x) by (done || by left)|destruct (Q x)]; lia.
Qed.
Lemma among_or P Q l : (among (λ a, P a || Q a) l ≤ among P l + among Q l)%nat.
Proof.
  induction l as [|x l IH]; [done|]. change (x :: l) with ([x] ++ l). rewrite !among_app, !among_one.
  destruct (P x), (Q x); cbn; lia.
Qed.

(** The times lie one after the other. *)
Fixpoint ascending (t : Z) (ts : list Z) : Prop :=
  match ts with [] => True | u :: ts => t <= u ∧ ascending u ts end.

(** ** The sliding window *)

Fixpoint admitted_attempts (limit : nat) (window : Z) (kept : list Z) (ts : list Z) : list Z :=
  match ts with
  | [] => []
  | t :: ts =>
      let '(ok, kept) := attempt limit window t kept in
      (if ok : bool then [t] else []) ++ admitted_attempts limit window kept ts
  end.

Definition within (window s a : Z) : bool := (s - window <? a) && (a <=? s).

Lemma attempts_window limit window t0 kept acc ts :
  0 < window →
  (∀ s, among (within window s) acc ≤ limit)%nat →
  (∃ theta, kept = filter (λ a, theta < a) acc ∧ theta <= t0 - window) → Forall (λ a, a <= t0) acc →
  ascending t0 ts →
  ∀ s, (among (within window s) (acc ++ admitted_attempts limit window kept ts) ≤ limit)%nat.
Proof.
  intros Hw. revert t0 kept acc. induction ts as [|t ts IH]; intros t0 kept acc Hb (theta & -> & Hth) Hle Hts s.
  { rewrite app_nil_r. apply Hb. }
  destruct Hts as [Ht Hts]. cbn [admitted_attempts]. unfold attempt.
  assert (filter (λ a, t - window < a) (filter (λ a, theta < a) acc) = filter (λ a, t - window < a) acc) as ->.
  { rewrite list_filter_filter. apply list_filter_iff. intros a. lia. }
  set (kept := filter _ acc).
  assert (∃ theta', kept = filter (λ a, theta' < a) acc ∧ theta' <= t - window) as Hk by (by exists (t - window)).
  assert (Forall (λ a, a <= t) acc) as Hle' by (eapply Forall_impl; [exact Hle|]; cbn; lia).
  destruct (limit <=? length kept)%nat eqn:E.
  { apply (IH t kept acc); done. }
  rewrite app_assoc. apply (IH t (kept ++ [t]) (acc ++ [t])); [| | |done].
  - intros u. rewrite among_app, among_one. unfold within at 2. specialize (Hb u).
    destruct ((u - window <? t) && (t <=? u)) eqn:Eu; [|lia].
    assert (among (within window u) acc ≤ length kept)%nat; [|apply Nat.leb_gt in E; lia].
    unfold kept. replace (length (filter (λ a, t - window < a) acc)) with (among (λ a, t - window <? a) acc).
    + apply among_mono. intros a _. unfold within. lia.
    + unfold among. f_equal. apply list_filter_iff. intros a. lia.
  - exists (t - window). split; [|lia]. rewrite filter_app. unfold kept. f_equal. cbn.
    by rewrite decide_True by lia.
  - apply Forall_app. split; [done|]. by apply Forall_singleton.
Qed.



(** ** Windows that start anew *)

Fixpoint admitted_visits (limit window : Z) (v : option Visitor) (ts : list Z) : list Z :=
  match ts with
  | [] => []
  | t :: ts =>
      let '(ok, v) := count_visit limit window t v in
      (if ok : bool then [t] else []) ++ admitted_visits limit window (Some v) ts
  end.

(** What is known of the visits so far while a window runs. *)
Definition window_inv (limit window t0 : Z) (v : Visitor) (acc : list Z) : Prop :=
  let start := resetAt v - window in
  Z.of_nat (among (λ a, start <=? a) acc) <= Z.min (count v) limit ∧
  Z.of_nat (among (λ a, (start - window <=? a) && (a <? start)) acc) <= limit ∧
  start <= t0 ∧ Forall (λ a, a <= resetAt v) acc ∧
  ∀ s, Z.of_nat (among (within window s) acc) <= 2 * limit.

Lemma new_window limit window t0 t v acc :
  1 <= limit → 0 < window → resetAt v < t → window_inv limit window t0 v acc →
  window_inv limit window t {| count := 1; resetAt := t + window |} (acc ++ [t]).
Proof.
  intros Hl Hw Hr (H1 & H2 & H4 & H5 & H6). unfold window_inv. cbn [count resetAt].
  replace (t + window - window) with t by lia. rewrite Forall_forall in H5.
  assert (∀ P, (∀ a, P a = true → t - window <= a) → Z.of_nat (among P acc) <= limit) as Hnew.
  { intros P HP. assert (among P acc ≤ among (λ a, (resetAt v - window <=? a)%Z) acc)%nat; [|lia].
    apply among_mono. intros a _ Ha%HP. lia. }
  assert (among (λ a, t <=? a) acc = 0%nat) as H0.
  { unfold among. rewrite filter_none; [done|]. apply Forall_forall. intros a Ha%H5. lia. }
  split_and!.
  - rewrite among_app, among_one, H0. destruct (t <=? t) eqn:E; lia.
  - rewrite among_app, among_one. specialize (Hnew (λ a, (t - window <=? a) && (a <? t)) ltac:(intros a; cbn; lia)).
    destruct ((t - window <=? t) && (t <? t)) eqn:E; lia.
  - lia.
  - apply Forall_app. split; [|apply Forall_singleton; lia]. apply Forall_forall. intros a Ha%H5. lia.
  - intros s. rewrite among_app, among_one. specialize (H6 s). destruct (within window s t) eqn:E; [|lia].
    specialize (Hnew (within window s)). unfold within in *. assert (Z.of_nat (among (within window s) acc) <= limit); [|unfold within in *; lia].
    apply Hnew. intros a. lia.
Qed.

Lemma same_window limit window t0 t v acc :
  0 < window → t0 <= t → t <= resetAt v → window_inv limit window t0 v acc →
  window_inv limit window t {| count := count v + 1; resetAt := resetAt v |}
    (acc ++ if count v + 1 <=? limit then [t] else []).
Proof.
  intros Hw Ht Hr (H1 & H2 & H4 & H5 & H6). unfold window_inv. cbn [count resetAt].
  destruct (Z.leb_spec (count v + 1) limit) as [Hc|Hc]; [|rewrite app_nil_r; split_and!; [lia|done|lia|done|done]].
  split_and!.
  - rewrite among_app, among_one. destruct (_ <=? t); lia.
  - rewrite among_app, among_one. destruct ((_ <=? t) && (t <? _)) eqn:E; lia.
  - lia.
  - apply Forall_app. split; [done|]. by apply Forall_singleton.
  - intros s. rewrite among_app, among_one. specialize (H6 s). destruct (within window s t) eqn:E; [|lia].
    set (start := resetAt v - window) in *.
    assert (among (within window s) acc ≤
      among (λ a, ((start <=? a) || ((start - window <=? a) && (a <? start)))%Z) acc)%nat as Hs.
    { apply among_mono. intros a _. unfold within in *. lia. }
    pose proof (among_or (λ a, start <=? a) (λ a, (start - window <=? a) && (a <? start)) acc). lia.
Qed.

Lemma visits_window limit window t0 v acc ts :
  1 <= limit → 0 < window → window_inv limit window t0 v acc → ascending t0 ts →
  ∀ s, Z.of_nat (among (within window s) (acc ++ admitted_visits limit window (Some v) ts)) <= 2 * limit.
Proof.
  intros Hl Hw. revert t0 v acc. induction ts as [|t ts IH]; intros t0 v acc Hv Hts s.
  { rewrite app_nil_r. apply Hv. }
  destruct Hts as [Ht Hts]. cbn [admitted_visits]. unfold count_visit.
  destruct (Z.ltb_spec (resetAt v) t) as [Hr|Hr]; rewrite app_assoc; apply (IH t); try done.
  - by apply (new_window limit window t0 t v).
  - by apply (same_window limit window t0 t v).
Qed.

(** However often an address asks for sign-in, no more than twice the limit of
    requests is admitted in any window of time. *)
Theorem visits_bounded limit window ts :
  1 <= limit → 0 < window → ascending 0 ts →
  ∀ s, Z.of_nat (among (within window s) (admitted_visits limit window None ts)) <= 2 * limit.
Proof.
  intros Hl Hw Hts s. destruct ts as [|t ts]; [cbn; lia|]. destruct Hts as [Ht Hts]. cbn [admitted_visits count_visit].
  apply (visits_window limit window t); [done|done| |done]. unfold window_inv. cbn [count resetAt].
  replace (t + window - window) with t by lia. split_and!.
  - rewrite among_one. destruct (_ <=? _); lia.
  - rewrite among_one. destruct (_ && _) eqn:E; lia.
  - lia.
  - apply Forall_singleton. lia.
  - intros u. rewrite among_one. destruct (within _ _ _); lia.
Qed.

(** Nine requests at the end of a window and ten at the start of the next. *)
Lemma visits_bounded_witness :
  let ts := 0 :: replicate 9 60 ++ replicate 10 61 in
  among (within 60 61) (admitted_visits 10 60 None ts) = 19%nat ∧
  Z.of_nat (among (within 60 61) (admitted_visits 10 60 None ts)) <= 20.
Proof.
  intros ts. split; [vm_compute; reflexivity|]. apply (visits_bounded 10 60 ts); [lia|lia|]. cbn. lia.
Defined.
End GoLimits.
