(* ===== verification/GoWeb.v ===== *)
(** * What the site shows and what the backend charges:
    [vpn-backend/internal/handlers/web_config.go]

    The configuration that the backend sends to the site, and the order of a
    customer on its way back: whatever the operator configured, the prices on
    the site are the ones in the backend's table, and the backend reads from an
    order the plan and the promo code the customer chose. *)
From S2P Require Export Dashboard GoPay.

Module GoWeb.
Import GoPay.

(** ** [GET /api/v1/web/config] *)

Record Config := {
  PublicBaseURL : jstr;
  AndroidDownloadURL : jstr;
  WindowsDownloadURL : jstr;
  MacOSDownloadURL : jstr;
  LinuxDownloadURL : jstr;
  HappAppURL : jstr;
  SupportEmail : jstr;
  SupportTelegramURL : jstr;
  SupportWhatsAppURL : jstr;
  SupportMaxURL : jstr;
}.

Section Config.
(** The configuration, which may be missing, and the platforms for which a file
    was uploaded. *)
Context (cfg : option Config) (uploaded : jstr → bool).

Definition configValue (value : Config → jstr) (fallback : jstr) : jstr :=
  match cfg with
  | None => fallback
  | Some c => if str_truthy (value c) then value c else fallback
  end.

Definition publicDownloadURL (platform : jstr) : jstr :=
  let path := §"/download/" ++ platform in
  match cfg with
  | None => path
  | Some c =>
      if str_truthy (TrimSpace (PublicBaseURL c)) then strip_trailing 47 (PublicBaseURL c) ++ path else path
  end.

Definition downloadURL (platform : jstr) (value : Config → jstr) (fallback : jstr) : jstr :=
  if uploaded platform then publicDownloadURL platform else configValue value fallback.

(** The prices are whole roubles. *)
Definition period (plan : PlanType) (label : jstr) : jval :=
  JObj [(§"amount", JNum (Qnum (Amount (price_of plan)))); (§"currency", JStr §"RUB");
        (§"duration_days", JNum (DurationDays (price_of plan))); (§"id", JStr (plan_text plan));
        (§"label", JStr label)].

Definition webPlan (code title : jstr) (monthlyPlan threeMonthPlan : PlanType) : jval :=
  let '(description, features) :=
    if str_eqb code §"vip"
    then (§"Приоритетная сеть, Xray и расширенные функции приватности.",
          [§"VLESS/Xray Reality"; §"VIP-серверы"; §"AdBlock DNS"])
    else (§"Быстрый защищенный доступ для ежедневной работы.",
          [§"Безлимитный трафик"; §"Все основные платформы"; §"Быстрое подключение"]) in
  JObj [(§"code", JStr code); (§"description", JStr description); (§"features", JArr (JStr <$> features));
        (§"periods", JArr [period monthlyPlan §"1 месяц"; period threeMonthPlan §"3 месяца"]);
        (§"title", JStr title)].

Definition web_config : jval :=
  JObj [(§"brand", JStr §"FBLink VPN");
    (§"downloads", JObj
      [(§"android", JStr (downloadURL §"android" AndroidDownloadURL §"https://fblink-sc.com/download/android"));
       (§"happ", JStr (configValue HappAppURL §"https://apps.apple.com/search?term=happ%20proxy"));
       (§"linux", JStr (downloadURL §"linux" LinuxDownloadURL §"https://fblink-sc.com/download/linux"));
       (§"macos", JStr (downloadURL §"macos" MacOSDownloadURL §"https://fblink-sc.com/download/macos"));
       (§"windows", JStr (downloadURL §"windows" WindowsDownloadURL §"https://fblink-sc.com/download/windows"))]);
    (§"plans", JArr [webPlan §"premium" §"Premium" PlanBasic PlanBasic3M; webPlan §"vip" §"VIP" PlanVIP PlanVIP3M]);
    (§"support", JObj
      [(§"email", JStr (configValue SupportEmail §"fbapps.help@yandex.ru"));
       (§"max", JStr (configValue SupportMaxURL §"https://max.ru/fblinkvpn"));
       (§"telegram", JStr (configValue SupportTelegramURL §"https://t.me/+79966732628"));
       (§"whatsapp", JStr (configValue SupportWhatsAppURL §"https://wa.me/79966732628"))])].
End Config.

(** ** The plan of an order *)

Definition ordered_plan (i : PlanId) : PlanType :=
  match i with basic => PlanBasic | basic_3m => PlanBasic3M | vip => PlanVIP | vip_3m => PlanVIP3M end.

Definition order_body (i : PlanId) (promo : jstr) : option jstr :=
  body (Dashboard.operation_request (Dashboard.CreatePayment i promo)).

(** The site decodes what the backend sends, with the built-in plans. *)
Lemma web_config_plans cfg uploaded :
  ∃ c, decode_config (normalizeSiteConfig (web_config cfg uploaded)) = Some c ∧ plans c = plans defaultSiteConfig.
Proof.
  unfold web_config. generalize (downloadURL cfg uploaded) (configValue cfg). intros d v.
  eexists. split; vm_compute; reflexivity.
Qed.

Lemma order_reads (i : PlanId) promo :
  Forall is_unit promo →
  reads (JObj ((§"plan", JStr (plan_id_str i)) :: (if str_truthy promo then [(§"promo_code", JStr promo)] else []))).
Proof.
  intros Hp. apply reads_object.
  - destruct (str_truthy promo); [|apply NoDup_singleton].
    apply NoDup_cons. split; [|apply NoDup_singleton]. rewrite list_elem_of_singleton. vm_compute. discriminate.
  - apply Forall_cons. split; [by apply unitsb_spec; vm_compute|].
    destruct (str_truthy promo); [|done]. apply Forall_singleton. by apply unitsb_spec; vm_compute.
  - apply Forall_cons. split; [apply reads_string; apply unitsb_spec; by destruct i; vm_compute|].
    destruct (str_truthy promo); [|done]. apply Forall_singleton. by apply reads_string.
Qed.

Lemma order_fields i x t :
  (plan ← string_field §"plan" [(§"plan", JStr (plan_id_str i)); (§"promo_code", JStr (x :: t))];
   promo ← string_field §"promo_code" [(§"plan", JStr (plan_id_str i)); (§"promo_code", JStr (x :: t))];
   plan ← plan_named plan; Some (plan, promo)) = Some (ordered_plan i, x :: t).
Proof. destruct i; vm_compute; reflexivity. Qed.

Lemma order_read i promo :
  Forall is_unit promo → createPaymentRequest (order_body i promo) = Some (ordered_plan i, promo).
Proof.
  intros Hp. unfold createPaymentRequest, order_body. cbn [Dashboard.operation_request body].
  rewrite go_decode_text by (by apply order_reads). destruct promo as [|x t]; [destruct i; vm_compute; reflexivity|].
  exact (order_fields i x t).
Qed.

(** C10: What a customer sees is what is charged: whatever the operator configured,
    the site shows the built-in plans, and from an order for any of their
    periods, with any promo code, the backend reads a plan that its table has
    with the price and the days that were shown, and the promo code. *)
Theorem shown_is_charged cfg uploaded :
  (∃ c, decode_config (normalizeSiteConfig (web_config cfg uploaded)) = Some c ∧ plans c = plans defaultSiteConfig) ∧
  ∀ plan per promo, plan ∈ plans defaultSiteConfig → per ∈ periods plan → Forall is_unit promo →
    createPaymentRequest (order_body (id per) promo) = Some (ordered_plan (id per), promo) ∧
    ∃ price, planPrices (ordered_plan (id per)) = Some price ∧
      Amount price = inject_Z (amount per) ∧ DurationDays price = duration_days per.
Proof.
  split; [apply web_config_plans|]. intros plan per promo Hplan Hper Hp. split; [by apply order_read|].
  assert (Forall (λ p, Forall (λ q, ∃ price, planPrices (ordered_plan (id q)) = Some price ∧
    Amount price = inject_Z (amount q) ∧ DurationDays price = duration_days q) (periods p)) (plans defaultSiteConfig)) as Hall.
  { repeat constructor; eexists; (split; [reflexivity|]); split; reflexivity. }
  rewrite Forall_forall in Hall. specialize (Hall plan Hplan). rewrite Forall_forall in Hall. by apply Hall.
Qed.

Lemma shown_is_charged_witness :
  createPaymentRequest (order_body vip §"SAVE") = Some (PlanVIP, §"SAVE") ∧
  ∃ price, planPrices PlanVIP = Some price ∧ Amount price = inject_Z 399 ∧ DurationDays price = 30.
Proof.
  apply (proj2 (shown_is_charged None (λ _, false)) (nth 1 (plans defaultSiteConfig) (nth 0 (plans defaultSiteConfig)
    {| code := premium; title := []; description := []; periods := []; features := [] |}))
    {| id := vip; label := §"1 месяц"; duration_days := 30; amount := 399; currency := §"RUB" |} §"SAVE").
  - right; left.
  - left.
  - by apply unitsb_spec; vm_compute.
Defined.
End GoWeb.
