(* ===== verification/GoSite.v ===== *)
(** * The site in front of the backend

    The web server's requests for sign-in, refresh and profile run the
    backend's handlers, in the middle of whatever else the backend does: before
    each of their steps, other requests may have changed the world in any way.
    The implementation keeps the promise [TokenBackend] that the theorems on
    sessions rest on, so they hold of the site with this backend.  Endpoints
    that are not modelled answer as they like. *)
From S2P Require Export Stack GoRouter.

Module GoSite.
Import GoAuth GoPay GoPaySpec GoRouter.

(** ** The web server with a running backend *)

Record LiveWorld := {
  requests : list Request;
  cookies : gmap jstr Cookie;
  live : World;
  steps : nat;
}.
#[global] Instance LiveWorld_eta : Eta LiveWorld := λ w,
  Build_LiveWorld (requests w) (cookies w) (live w) (steps w).

Section Live.
Context `{GoHost, Tokens, Passwords, Surroundings} (env : Env) (fault : nat → option DbError).
(** What other requests do, what gets lost on the way, and the endpoints that
    are not modelled. *)
Context (others : nat → World → World) (lost : nat → option exn) (rest : nat → Request → res Response).
Context (site_ip host : jstr).

Definition go_request (q : Request) : GoRequest :=
  {| go_headers := headers q; go_body := body q; client_ip := site_ip; go_host := host; go_tls := false |}.

Definition auth_paths : list (jstr * AuthRoute) :=
  [(§"/api/v1/auth/refresh", PostRefresh); (§"/api/v1/auth/login", PostLogin);
   (§"/api/v1/auth/verify", PostVerify); (§"/api/v1/auth/register", PostRegister);
   (§"/api/v1/auth/forgot-password", PostForgotPassword); (§"/api/v1/auth/reset-password", PostResetPassword);
   (§"/api/v1/auth/tv/start", PostTVStart); (§"/api/v1/auth/tv/approve", PostTVApprove);
   (§"/api/v1/auth/tv/token", PostTVToken)].

(** [gin] has no route for another method. *)
Definition not_found : Response :=
  {| status := 404; resp_headers := [(§"Content-Type", §"text/plain")]; resp_body := RawBody §"404 page not found" |}.
Definition on_method (m : jstr) (q : Request) (p : prog World Response) : prog World Response :=
  if str_eqb (method q) m then p else mret not_found.

Definition endpoint (q : Request) : option (prog World Response) :=
  match find_first (λ x, str_eqb (url q) (backendBaseURL env ++ x.1)) auth_paths with
  | Some (_, a) => Some (on_method §"POST" q (auth_group fault a (go_request q)))
  | None =>
      if str_eqb (url q) (backendBaseURL env ++ §"/api/v1/me")
      then Some (on_method §"GET" q (AuthRequired (λ r, r) (GetMe fault) (go_request q)))
      else None
  end.

Definition live_fetch (q : Request) : M LiveWorld Response := λ w,
  let w' := w <| requests := requests w ++ [q] |> in
  match lost (length (requests w)) with
  | Some e => (Throw e, w')
  | None =>
      match endpoint q with
      | None => (rest (length (requests w)) q, w')
      | Some p =>
          let '(r, v, n) := exec_among others (steps w) p (live w) in
          (Ok r, w' <| live := v |> <| steps := n |>)
      end
  end.

Definition cookie_value (k : jstr) (w : LiveWorld) : jval := from_option value JUndefined (cookies w !! k).

#[local] Instance live_server : Server LiveWorld := {|
  server_fetch := live_fetch;
  cookie_get := cookie_value;
  cookie_set k v o := modify (λ w, w <| cookies := <[k := {| value := v; options := o |}]> (cookies w) |>);
  cookie_delete k := modify (λ w, w <| cookies := delete k (cookies w) |>);
  sent := requests;
|}.

Lemma live_fetch_frame q w :
  requests (live_fetch q w).2 = requests w ++ [q] ∧ cookies (live_fetch q w).2 = cookies w.
Proof.
  unfold live_fetch. destruct (lost _); [done|]. destruct (endpoint q); [|done].
  by destruct (exec_among _ _ _ _) as [[??]?].
Qed.

#[local] Instance live_laws : ServerLaws LiveWorld.
Proof.
  split.
  - intros q w. apply live_fetch_frame.
  - intros q w k. unfold cookie_get. cbn. unfold cookie_value. by rewrite (proj2 (live_fetch_frame q w)).
  - done.
  - done.
  - intros k s o w w' [= <-]. cbn. unfold cookie_value. cbn. by rewrite lookup_insert_eq.
  - intros k k' v o w Hk. cbn. unfold cookie_value. cbn. by rewrite lookup_insert_ne.
  - intros k w w' [= <-]. cbn. unfold cookie_value. cbn. by rewrite lookup_delete_eq.
  - intros k k' w Hk. cbn. unfold cookie_value. cbn. by rewrite lookup_delete_ne.
Qed.

#[local] Instance live_writable : Writable LiveWorld.
Proof. by split. Qed.

(** ** Tokens come in pairs *)

Section Pairs.
Context {Laws : TokenLaws}.

(** A refusal, or a pair of tokens. *)
Definition pair_or_refusal (r : Response) : Prop := ok r = false ∨ ∃ a t, renewed r a t.

Lemma reply_refusal status v : (200 <=? status) && (status <=? 299) = false → pair_or_refusal (reply status v).
Proof. by left. Qed.

Lemma respond_tokens_pair message user st :
  st = 200 ∨ st = 201 → returns pair_or_refusal (respond_tokens st message user).
Proof.
  intros Hs.
  assert (returns (λ p, match p with Some (a, t) => a ≠ [] ∧ t ≠ [] | None => True end) (generateTokens user)) as Hg.
  { apply returns_then. intros t. destruct (sign _) as [a|] eqn:Ea; [|done].
    apply returns_then. intros t'. destruct (sign (token_claims user t' _)) as [r|] eqn:Er; [|done].
    cbn. split; by eapply sign_nonempty. }
  apply (returns_bind _ _ _ _ Hg). intros [[a t]|] Hp; [|by left]. cbn. right. exists a, t.
  split; [by destruct Hs as [-> | ->]|]. split; [apply Hp|]. split; [apply Hp|].
  eexists. split; [done|]. done.
Qed.

(** Walk a program that refuses or ends with tokens. *)
Ltac answers :=
  repeat first
    [ solve [by left]
    | apply respond_tokens_pair; by (left + right)
    | lazymatch goal with
      | |- returns _ (_ ≫= _) => apply returns_then; intros ?
      | |- returns _ (match ?x with _ => _ end) => destruct x
      | |- returns _ (load_failed _ _ ?e) => destruct e
      end ].

Lemma sign_in_answers a c :
  a ∈ [PostRefresh; PostLogin; PostVerify] → returns pair_or_refusal (auth_group fault a c).
Proof.
  intros Ha. apply returns_then. intros [|]; [|by left].
  rewrite !elem_of_cons, elem_of_nil in Ha. destruct Ha as [->|[->|[->|[]]]]; cbn [auth_handler].
  - unfold Refresh, binding. answers.
  - unfold Login, binding. answers.
  - unfold VerifyEmail, binding. answers.
Qed.

Lemma live_answers q w r w' a :
  find_first (λ x, str_eqb (url q) (backendBaseURL env ++ x.1)) auth_paths = Some a →
  a.2 ∈ [PostRefresh; PostLogin; PostVerify] → live_fetch q w = (Ok r, w') → pair_or_refusal r.
Proof.
  intros Hf Ha. unfold live_fetch, endpoint. rewrite Hf. destruct a as [path a]. destruct (lost _); [done|].
  assert (returns pair_or_refusal (on_method §"POST" q (auth_group fault a (go_request q)))) as Hr.
  { unfold on_method. destruct (str_eqb _ _); [by apply sign_in_answers|by left]. }
  pose proof (exec_among_returns _ others (steps w) _ (live w) Hr) as Hq.
  destruct (exec_among _ _ _ _) as [[r' v] n]. by intros [= <- _].
Qed.

Lemma found_path path init :
  find_first (λ x, str_eqb (url (backend_request env path init)) (backendBaseURL env ++ x.1)) auth_paths =
  find_first (λ x, str_eqb path x.1) auth_paths.
Proof.
  assert (∀ x, str_eqb (backendBaseURL env ++ path) (backendBaseURL env ++ x) = str_eqb path x) as Hx.
  { intros x. apply bool_decide_ext. split; [|by intros ->]. by intros ?%(inj (app _)). }
  unfold find_first. f_equal. apply list_filter_iff. intros [x y]. cbn. by rewrite Hx.
Qed.

#[local] Instance live_tokens : TokenBackend LiveWorld env.
Proof.
  split.
  - intros rt w r w' E.
    assert (find_first (λ x, str_eqb §"/api/v1/auth/refresh" x.1) auth_paths = Some (§"/api/v1/auth/refresh", PostRefresh))
      as Hf by reflexivity.
    destruct (live_answers _ w r w' _ (eq_trans (found_path _ _) Hf) ltac:(by left) E) as [Hr|Hr]; [by left; left|by right].
  - intros path init w r w' fs Hp E Hok _ _.
    assert (∃ a, find_first (λ x, str_eqb path x.1) auth_paths = Some a ∧ a.2 ∈ [PostRefresh; PostLogin; PostVerify])
      as (a & Hf & Ha).
    { rewrite !elem_of_cons, elem_of_nil in Hp. destruct Hp as [->|[->|[]]].
      - exists (§"/api/v1/auth/login", PostLogin). split; [done|]. by right; left.
      - exists (§"/api/v1/auth/verify", PostVerify). split; [done|]. by right; right; left. }
    destruct (live_answers _ w r w' a (eq_trans (found_path _ _) Hf) Ha E) as [Hr|Hr]; [congruence|done].
Qed.

(** C4: With the backend as it is implemented, in the middle of anything else it
    does, with queries that fail, requests that get lost and unknown endpoints
    that answer as they like, no run of any page of the site against its
    routes leaves half a session in the cookies. *)
Theorem live_session C (w0 : LiveWorld) s :
  running C env w0 s → whole w0 → whole (world C s).
Proof. intros Hr Hw. exact (running_whole C env w0 s Hr Hw). Qed.
End Pairs.
End Live.

(** ** A session that lasts

    The backend alone, with nothing lost and no query that fails. *)
Section Lasting.
Context `{GoHost, Tokens, Passwords, Surroundings} {Laws : TokenLaws} (env : Env).
Context (rest : nat → Request → res Response) (site_ip host : jstr).

#[local] Instance calm_server : Server LiveWorld :=
  live_server env no_fault (λ _ w, w) (λ _, None) rest site_ip host.
#[local] Instance calm_laws : ServerLaws LiveWorld :=
  live_laws env no_fault (λ _ w, w) (λ _, None) rest site_ip host.
#[local] Instance calm_writable : Writable LiveWorld :=
  live_writable env no_fault (λ _ w, w) (λ _, None) rest site_ip host.

Lemma fetch_endpoint q p w :
  endpoint env no_fault site_ip host q = Some p →
  ∃ n, fetch q w = (Ok (exec p (live w)).1,
    w <| requests := requests w ++ [q] |> <| live := (exec p (live w)).2 |> <| steps := n |>).
Proof.
  intros Hp. unfold fetch. cbn. unfold live_fetch. rewrite Hp.
  pose proof (exec_among_alone (steps w) p (live w)) as E.
  destruct (exec_among _ _ _ _) as [[r v] n]. cbn in E. rewrite <-E. by exists n.
Qed.

Definition profile (user : User) : jval :=
  JObj [(§"created_at", time_json (u_created user)); (§"email", JStr (u_email user));
        (§"id", JNum (Z.of_nat (u_id user))); (§"role", JStr (u_role user))].

Definition me_request (a : jstr) : Request :=
  backend_request env §"/api/v1/me" {| init_method := None; init_headers := bearer (JStr a); init_body := None |}.

Lemma me_endpoint a :
  endpoint env no_fault site_ip host (me_request a) =
  Some (AuthRequired (λ r, r) (GetMe no_fault) (go_request site_ip host (me_request a))).
Proof.
  unfold endpoint, me_request. rewrite found_path.
  change (find_first _ auth_paths) with (@None (jstr * AuthRoute)). cbn. by rewrite str_eqb_refl.
Qed.

Lemma bearer_token a : SplitN2 32 (§"Bearer " ++ a) = (§"Bearer", Some a).
Proof. reflexivity. Qed.

Lemma me_claims a v :
  exec (AuthRequired (λ r, r) (GetMe no_fault) (go_request site_ip host (me_request a))) v =
  match ParseWithClaims (clock v) a with
  | None => (reply 401 (error_json §"invalid or expired token"), v)
  | Some claims => exec (GetMe no_fault claims (go_request site_ip host (me_request a))) v
  end.
Proof.
  unfold AuthRequired.
  assert (default [] (headers_get (go_headers (go_request site_ip host (me_request a))) §"Authorization")
    = §"Bearer " ++ a) as -> by reflexivity.
  destruct (§"Bearer " ++ a) as [|x l] eqn:E; [done|]. rewrite <-E, bearer_token, str_eqb_refl.
  rewrite exec_bind. cbn [fst snd exec now asks atomic]. by destruct (ParseWithClaims _ _).
Qed.

Definition has_user (user : User) (v : World) : Prop :=
  find_first (λ u, (u_id u =? u_id user)%nat) (users v) = Some user.

Lemma me_found user claims c v :
  cl_user claims = u_id user → has_user user v →
  exec (GetMe no_fault claims c) v = (reply 200 (profile user), v <| queries := S (queries v) |>).
Proof.
  intros Hc Hu. unfold GetMe, user_by_id. rewrite Hc, exec_bind. unfold first, query.
  rewrite exec_atomic. unfold statement, find_row. cbn. unfold has_user in Hu. by rewrite Hu.
Qed.

Definition admitted (v : World) : Prop :=
  (count_visit 10 minute (clock v) (visitors v !! (authLimiter, site_ip))).1 = true.

Lemma refresh_found user claims t a' t' c v :
  client_ip c = site_ip → refreshRequest (go_body c) = Some t →
  ParseWithClaims (clock v) t = Some claims → cl_user claims = u_id user → has_user user v → admitted v →
  sign (token_claims user (clock v) (1 * hour)) = Some a' →
  sign (token_claims user (clock v) (30 * 24 * hour)) = Some t' →
  ∃ v', exec (auth_group no_fault PostRefresh c) v = (reply 200 (tokenResponse (a', t')), v') ∧
    clock v' = clock v ∧ users v' = users v.
Proof.
  intros Hip Hb Ht Hc Hu Ha Hsa Hst. unfold auth_group, RateLimit. rewrite exec_bind. unfold Allow.
  rewrite exec_atomic, Hip. unfold admitted in Ha.
  destruct (count_visit _ _ _ _) as [okay vis]. cbn in Ha. subst okay. cbn [fst snd auth_handler].
  unfold Refresh, binding. rewrite Hb, exec_bind. cbn [exec now asks atomic fst snd]. 
  change (clock (v <| visitors := _ |>)) with (clock v). rewrite Ht, exec_bind. unfold user_by_id, first, query.
  rewrite exec_atomic, Hc. unfold statement, find_row. cbn [no_fault fst snd].
  change (users (_ <| queries := _ |>)) with (users v). unfold has_user in Hu. rewrite Hu. cbn [fst snd].
  eexists. split; [|split].
  - unfold respond_tokens, generateTokens. rewrite exec_bind, exec_bind. cbn [exec now asks atomic fst snd].
    change (clock (_ <| queries := _ |>)) with (clock v). rewrite Hsa, exec_bind. cbn [exec now asks atomic fst snd].
    change (clock (_ <| queries := _ |>)) with (clock v). rewrite Hst. cbn [exec mret prog_ret fst snd]. reflexivity.
  - done.
  - done.
Qed.

Lemma refresh_body_reads t : Forall is_unit t → reads (JObj [(§"refresh_token", JStr t)]).
Proof.
  intros Hu. apply reads_object.
  - apply NoDup_singleton.
  - apply Forall_singleton. apply unitsb_spec. vm_compute. reflexivity.
  - apply Forall_singleton. by apply reads_string.
Qed.

Lemma refresh_field x t : required §"refresh_token" [(§"refresh_token", JStr (x :: t))] = Some (x :: t).
Proof. vm_compute. reflexivity. Qed.

Lemma refresh_body t :
  Forall is_unit t → t ≠ [] →
  refreshRequest (Some (stringify (JObj [(§"refresh_token", JStr t)]))) = Some t.
Proof.
  intros Hu Hn. unfold refreshRequest. rewrite go_decode_text by (by apply refresh_body_reads).
  destruct t as [|x t]; [done|]. exact (refresh_field x t).
Qed.

(** The token is one the backend gave this user, and it is still good. *)
Definition good_token (user : User) (s : jstr) (v : World) : Prop :=
  ∃ claims, sign claims = Some s ∧ cl_user claims = u_id user ∧ clock v < cl_expires claims * second.

Lemma good_claims user s v : good_token user s v → ∃ claims, ParseWithClaims (clock v) s = Some claims ∧ cl_user claims = u_id user.
Proof.
  intros (claims & Hs & Hc & Ht). exists claims. split; [|done]. unfold ParseWithClaims.
  rewrite (verify_sign _ _ Hs). cbn. by rewrite (proj2 (Z.ltb_lt _ _)).
Qed.

Lemma fresh_token user s v ttl :
  second ≤ ttl → sign (token_claims user (clock v) ttl) = Some s → good_token user s v.
Proof.
  intros Ht Hs. eexists. split; [exact Hs|]. split; [done|]. cbn.
  pose proof (Z.div_mod (clock v + ttl) second ltac:(done)). pose proof (Z.mod_pos_bound (clock v + ttl) second ltac:(done)).
  lia.
Qed.

Lemma get_me_good user a w :
  good_token user a (live w) → has_user user (live w) →
  ∃ r w', get_me env (JStr a) w = (Ok r, w') ∧ r = reply 200 (profile user) ∧
    cookies w' = cookies w ∧ clock (live w') = clock (live w) ∧ users (live w') = users (live w).
Proof.
  intros (claims & Hp & Hc)%good_claims Hu.
  destruct (fetch_endpoint _ _ w (me_endpoint a)) as [n E]. rewrite me_claims, Hp, (me_found user) in E by done.
  eexists _, _. split; [exact E|]. done.
Qed.

Lemma get_me_bad a w :
  ParseWithClaims (clock (live w)) a = None →
  ∃ r w', get_me env (JStr a) w = (Ok r, w') ∧ status r = 401 ∧
    cookies w' = cookies w ∧ live w' = live w.
Proof.
  intros Hp. destruct (fetch_endpoint _ _ w (me_endpoint a)) as [n E]. rewrite me_claims, Hp in E.
  eexists _, _. split; [exact E|]. done.
Qed.

Lemma refresh_endpoint t :
  endpoint env no_fault site_ip host (refresh_request env (JStr t)) =
  Some (auth_group no_fault PostRefresh (go_request site_ip host (refresh_request env (JStr t)))).
Proof.
  unfold endpoint, refresh_request. rewrite found_path.
  change (find_first _ auth_paths) with (Some (§"/api/v1/auth/refresh", PostRefresh)). reflexivity.
Qed.

(** A refresh with a good token gives the user a new pair. *)
Lemma refresh_good user t a' t' w :
  good_token user t (live w) → has_user user (live w) → admitted (live w) →
  cookie_get refreshCookieName w = JStr t →
  sign (token_claims user (clock (live w)) (1 * hour)) = Some a' →
  sign (token_claims user (clock (live w)) (30 * 24 * hour)) = Some t' →
  ∃ w', refreshAccessToken env w = (Ok (JStr a'), w') ∧ signed_in a' t' w' ∧
    clock (live w') = clock (live w) ∧ users (live w') = users (live w).
Proof.
  intros Ht Hu Ha Hk Hsa Hst. pose proof Ht as (claims & Hp & Hc)%good_claims. destruct Ht as (ct & Hct & _).
  destruct (fetch_endpoint _ _ w (refresh_endpoint t)) as [n E].
  destruct (refresh_found user claims t a' t' (go_request site_ip host (refresh_request env (JStr t))) (live w))
    as (v' & Ev & Hcl & Hus); [done| |done..|].
  { apply refresh_body; [by eapply sign_units|by eapply sign_nonempty]. }
  rewrite Ev in E. pose proof (sign_nonempty _ _ Hsa). pose proof (sign_nonempty _ _ Hst).
  pose proof (sign_nonempty _ _ Hct).
  unfold refreshAccessToken, currentRefreshToken, gets. rewrite bind_run, Hk.
  destruct t as [|x t]; [done|]. cbn [truthy str_truthy negb]. rewrite bind_run. unfold backendFetch.
  fold (refresh_request env (JStr (x :: t))). rewrite E. cbn [fst snd].
  destruct a' as [|y a']; [done|]. destruct t' as [|z t']; [done|].
  eexists. split; [reflexivity|]. split; [|done].
  split; unfold cookie_get; cbn; unfold cookie_value; cbn.
  - rewrite lookup_insert_ne by done. by rewrite lookup_insert_eq.
  - by rewrite lookup_insert_eq.
Qed.


(** The limiter counts all requests for sign-in of the web server together. *)
Lemma refresh_limited c v :
  client_ip c = site_ip → ¬ admitted v →
  ∃ v', exec (auth_group no_fault PostRefresh c) v =
    (reply 429 (error_json §"too many requests, try again later"), v').
Proof.
  intros Hip Ha. unfold auth_group, RateLimit. rewrite exec_bind. unfold Allow. rewrite exec_atomic, Hip.
  unfold admitted in Ha. destruct (count_visit _ _ _ _) as [[|] vis]; [done|]. eexists. reflexivity.
Qed.

(** C36: When the limiter has no room for the web server, a user with a good
    refresh token whose access token has expired is signed out: the refusal to
    refresh counts like a refusal of the token, and both cookies go. *)
Theorem limited_signs_out user a t w :
  holds (Some (a, t)) w → good_token user t (live w) → ParseWithClaims (clock (live w)) a = None →
  ¬ admitted (live w) →
  ∃ r w', authorizedFetch env (get_me env) w = (Ok r, w') ∧ status r = 401 ∧ signed_out w'.
Proof.
  intros (Hna & Hnt & Hca & Hct) Ht Ha Had.
  destruct (get_me_bad a w Ha) as (r & w1 & Eme & Hr & Hk & Hl).
  assert (cookie_get refreshCookieName w1 = JStr t) as Hct1.
  { unfold cookie_get in *. cbn in *. unfold cookie_value in *. by rewrite Hk. }
  destruct (fetch_endpoint _ _ w1 (refresh_endpoint t)) as [n E].
  destruct (refresh_limited (go_request site_ip host (refresh_request env (JStr t))) (live w)) as [v' Ev]; [done..|].
  rewrite Hl, Ev in E.
  destruct (authorizedFetch_401 env (get_me env) w r w1 (JStr t) _ _
    ltac:(rewrite Hca; by destruct a) ltac:(rewrite Hca; exact Eme) Hr Hct1 ltac:(by destruct t) E) as [Hrej _].
  destruct Hrej as (w3 & E3 & Hw3); [by left|]. eauto.
Qed.

(** C35: An access token does for a refresh: as long as it is good, the backend
    answers a refresh with it with a new pair, whose second token is good for
    thirty days.  So the hour for which an access token lives does not bound
    what someone who got hold of it can do. *)
Theorem access_refreshes user a t' v :
  good_token user a v → has_user user v → admitted v →
  is_Some (sign (token_claims user (clock v) (1 * hour))) →
  sign (token_claims user (clock v) (30 * 24 * hour)) = Some t' →
  ∃ a' v', exec (auth_group no_fault PostRefresh (go_request site_ip host (refresh_request env (JStr a)))) v
    = (reply 200 (tokenResponse (a', t')), v') ∧
    ∃ claims, sign claims = Some t' ∧ clock v + 30 * day - second < cl_expires claims * second.
Proof.
  intros Ha Hu Had [a' Hsa] Hst. pose proof Ha as (claims & Hp & Hc)%good_claims. destruct Ha as (ct & Hct & _).
  destruct (refresh_found user claims a a' t' (go_request site_ip host (refresh_request env (JStr a))) v)
    as (v' & Ev & _); [done| |done..|].
  { apply refresh_body; [by eapply sign_units|by eapply sign_nonempty]. }
  exists a', v'. split; [exact Ev|]. eexists. split; [exact Hst|]. cbn.
  pose proof (Z.div_mod (clock v + 30 * 24 * hour) second ltac:(done)).
  pose proof (Z.mod_pos_bound (clock v + 30 * 24 * hour) second ltac:(done)). unfold day. lia.
Qed.
End Lasting.
End GoSite.
