(* ===== verification/GoRuns.v ===== *)
(** * The backend at work

    Simple surroundings for the backend (tokens that carry their claims in the
    clear, passwords with a prefix, a YooKassa that says every payment it made
    has succeeded) which keep the laws, instances of the theorems in them, and
    runs that show what the code does not exclude. *)
From S2P Require Export AuthForm GoSite GoLimits GoPrices.

Module GoRuns.
Import GoAuth GoAuthSpec GoPay GoPaySpec GoRenew GoRenewSpec GoRouter GoSite.

(** ** Surroundings *)

#[local] Instance plain_host : GoHost := {| go_upper_other s := s; go_lower_other s := s |}.

Definition show_claims (c : Claims) : jstr :=
  num_str (Z.of_nat (cl_user c)) ++ 124 :: num_str (cl_expires c) ++ 124 :: cl_role c.
Definition read_claims (s : jstr) : option Claims :=
  '(u, r) ← natural s;
  '(e, r) ← natural (drop 1 r);
  Some {| cl_user := Z.to_nat u; cl_role := drop 1 r; cl_expires := e |}.

#[local] Instance clear_tokens : Tokens := {|
  sign c := if unitsb (cl_role c) && (0 <=? cl_expires c) then Some (show_claims c) else None;
  verify := read_claims;
|}.

Lemma read_show c : 0 <= cl_expires c → read_claims (show_claims c) = Some c.
Proof.
  intros He. unfold read_claims, show_claims. rewrite !num_str_nonneg by lia. rewrite natural_text by done.
  cbn. rewrite drop_0, natural_text by done. cbn. rewrite drop_0. destruct c as [u r e]. cbn in *.
  f_equal. f_equal; lia.
Qed.

#[local] Instance clear_laws : TokenLaws.
Proof.
  assert (∀ c s, sign c = Some s → s = show_claims c ∧ Forall is_unit (cl_role c) ∧ 0 <= cl_expires c) as Hs.
  { intros c s. cbn. destruct (unitsb (cl_role c)) eqn:E; [|done]. destruct (Z.leb_spec 0 (cl_expires c)); [|done].
    intros [= <-]. split; [done|]. by split; [apply unitsb_spec|]. }
  split.
  - intros c s (-> & _ & He)%Hs. by apply read_show.
  - intros c s (-> & _)%Hs. unfold show_claims. by destruct (num_str_head (Z.of_nat (cl_user c))) as (x & r & -> & _).
  - intros c s (-> & Hr & _)%Hs. unfold show_claims.
    assert (∀ n, Forall is_unit (num_str n)) as Hn.
    { intros n. eapply Forall_impl; [apply num_str_units|]. unfold decimal, is_unit. lia. }
    apply Forall_app. split; [apply Hn|]. apply Forall_cons. split; [done|]. apply Forall_app. split; [apply Hn|].
    by apply Forall_cons.
Qed.

#[local] Instance plain_passwords : Passwords := {|
  GenerateFromPassword _ p := Some (§"hash:" ++ p);
  CompareHashAndPassword h p := str_eqb h (§"hash:" ++ p);
|}.

#[local] Instance plain_surroundings : Surroundings := {|
  rand_int n := Z.of_nat n;
  rand_device_code n := §"device" ++ num_str (Z.of_nat n);
  jwtSecret := §"secret";
  sha256_base64 s := s;
  time_json t := JNum t;
  is_email s := existsb (Z.eqb 64) s;
  binding_error _ := §"bad request";
  update_without_table _ l := l;
|}.

(** YooKassa names its payments by the number of the request. *)
Definition yk_name (n : nat) : jstr := §"yk-" ++ num_str (Z.of_nat n).

#[local] Instance paying_host : PaymentHost := {|
  yk_get _ k := if starts_with §"yk-" k then Some (200, Some [(§"status", JStr §"succeeded")]) else None;
  yk_post n _ := Some (200, Some [(§"id", JStr (yk_name n)); (§"status", JStr §"pending")]);
  new_uuid n := num_str (Z.of_nat n);
  fmt_other _ := [];
  db_text _ := §"database error";
  rfc3339 _ := None;
  shopID := §"shop";
  shopKey := §"key";
  PaymentReturnURL := §"https://fblink-sc.com/dashboard";
  recurring_env := [];
|}.

Lemma paying_details n k d : details_of (yk_get n k) = Some d → Status d = §"succeeded".
Proof. cbn. destruct (starts_with _ _); [|done]. cbn. by intros [= <-]. Qed.

#[local] Instance paying_laws : PaymentLaws.
Proof.
  split.
  - intros n m k d d' _ Hd%paying_details _. rewrite Hd. vm_compute. discriminate.
  - intros n m d Hd%paying_details. rewrite Hd. vm_compute. discriminate.
Qed.

(** ** A world with three users *)

Definition some_user (i : nat) (email role : jstr) : User :=
  {| u_id := i; u_email := email; u_hash := §"hash:password"; u_role := role; u_created := 0 |}.
Definition alice : User := some_user 1 §"alice@example.com" RoleUser.
Definition bob : User := some_user 2 §"bob@example.com" RoleUser.
Definition boss : User := some_user 3 §"boss@example.com" RoleAdmin.

Definition start : World := {|
  clock := 1000 * second; users := [alice; bob; boss]; subs := []; logins := []; codes := []; payments := [];
  promos := []; visitors := ∅; approveAttempts := ∅; tokenAttempts := ∅; mails := []; queries := 0; draws := 0;
  events := []; activated := []; charges := [] |}.

Definition post (headers : list header) (v : jval) : GoRequest :=
  {| go_headers := headers; go_body := Some (stringify v); client_ip := §"10.0.0.1"; go_host := §"api"; go_tls := false |}.

(** The access token of a user. *)
Definition token_of (u : User) (w : World) : jstr :=
  default [] (sign (token_claims u (clock w) (1 * hour))).
Definition as_user (u : User) (w : World) : list header := bearer (JStr (token_of u w)).

Definition runs (i n : nat) : list Happening := replicate n (Works i).

(** ** The device flow *)

Definition tv_start : Happening := Arrives no_fault (Auth PostTVStart) (post [] (JObj [])).
Definition tv_approve (e : jstr) : Happening :=
  Arrives no_fault (Auth PostTVApprove) (post []
    (JObj [(§"user_code", JStr §"bcde-fghj"); (§"email", JStr e); (§"password", JStr §"password")])).
Definition tv_token : Happening :=
  Arrives no_fault (Auth PostTVToken) (post [] (JObj [(§"device_code", JStr §"device0")])).

Fixpoint steps_of {A} (p : prog World A) (w : World) : nat :=
  match p with Ret _ => 0%nat | Step f => let '(p', w') := f w in S (steps_of p' w') end.

(** ** Payments *)

Definition create (u : User) (plan promo : jstr) : Happening :=
  Arrives no_fault PostCreate (post (as_user u start) (JObj [(§"plan", JStr plan); (§"promo_code", JStr promo)])).
Definition webhook (fault : nat → option DbError) (n : nat) : Happening :=
  Arrives fault PostWebhook (post []
    (JObj [(§"event", JStr §"payment.succeeded"); (§"object", JObj [(§"id", JStr (yk_name n))])])).
Definition approve_payment (i : nat) : Happening :=
  Arrives no_fault (PostApprove i) (post (as_user boss start) (JObj [])).

(** The third statement of this run, the update that marks the payment, fails. *)
Definition fails_at (k : nat) : nat → option DbError := λ n, if (n =? k)%nat then Some OtherError else None.

Definition beside_webhook : list Happening :=
  create alice §"basic" [] :: runs 0 5 ++ approve_payment 1 :: runs 1 3 ++ webhook no_fault 0 :: runs 2 3 ++ runs 1 1.
Definition failing_update : list Happening :=
  create alice §"basic" [] :: runs 0 5 ++ webhook (fails_at 4) 0 :: runs 1 3 ++ webhook no_fault 0 :: runs 2 3.


Definition one_use : PromoCode :=
  {| pr_id := 1; pr_code := §"SAVE"; pr_description := []; pr_percent := 50; pr_max_uses := 1; pr_used := 0;
     pr_active := true; pr_plans := §"all"; pr_once := true; pr_expires := None |}.
Definition late_promo : list Happening :=
  create alice §"vip" §"save" :: runs 0 9 ++ create alice §"vip" §"save" :: runs 1 9 ++
  webhook no_fault 0 :: runs 2 3 ++ webhook no_fault 1 :: runs 3 3.
Definition late_trial : list Happening :=
  create alice §"trial" [] :: runs 0 6 ++ create alice §"vip" [] :: runs 1 5 ++
  webhook no_fault 1 :: runs 2 3 ++ webhook no_fault 0 :: runs 3 3.


(** ** Renewals *)

(** A YooKassa that charges saved cards; [status n] is its answer to the [n]-th
    order. *)
Definition card_host (status : nat → jstr) : PaymentHost := {|
  yk_get _ k := if starts_with §"yk-" k then Some (200, Some [(§"status", JStr §"succeeded")]) else None;
  yk_post n _ := Some (200, Some [(§"id", JStr (yk_name n)); (§"status", JStr (status n))]);
  new_uuid n := num_str (Z.of_nat n);
  fmt_other _ := [];
  db_text _ := §"database error";
  rfc3339 _ := None;
  shopID := §"shop";
  shopKey := §"key";
  PaymentReturnURL := §"https://fblink-sc.com/dashboard";
  recurring_env := §"1";
|}.

(** Alice, with a card, on the day her month is over. *)
Definition month_over : Subscription :=
  {| s_user := 1; s_plan := PlanBasic; s_status := SubActive; s_expires := 900 * second;
     s_auto_renew := true; s_method := §"card" |}.
Definition card_world : World := start <| subs := [month_over] |>.

Abbreviation card_history status := (@history plain_host clear_tokens plain_passwords plain_surroundings (card_host status)).

(** Two rounds of the scheduler, an hour apart, before YooKassa's word comes. *)
Definition slow_charges : list Happening :=
  Renews no_fault :: runs 0 8 ++ Passes 3600000000000 :: Renews no_fault :: runs 1 8 ++
  webhook no_fault 0 :: runs 2 3 ++ webhook no_fault 1 :: runs 3 3.

(** The user pays while the scheduler is at work. *)
Definition crossed_payments : list Happening :=
  create alice §"basic" [] :: runs 0 5 ++ Renews no_fault :: runs 1 3 ++ webhook no_fault 0 :: runs 2 3 ++ runs 1 6.


(** ** Codes *)

Definition twice_approved : list Happening :=
  tv_start :: runs 0 14 ++ tv_approve (u_email alice) :: runs 1 11 ++ tv_approve (u_email bob) :: runs 2 12 ++
  tv_token :: runs 3 14 ++ runs 1 1 ++ tv_token :: runs 4 14.

Definition register : Happening :=
  Arrives no_fault (Auth PostRegister) (post []
    (JObj [(§"email", JStr §"carol@example.com"); (§"password", JStr §"password")])).
Definition verify_with (code : jstr) : GoRequest :=
  post [] (JObj [(§"email", JStr §"carol@example.com"); (§"code", JStr code)]).


Definition status_of (r : Route) (c : GoRequest) (w : World) : option Z :=
  match (exec (serve no_fault r c) w).1 with Answered a => Some (status a) | _ => None end.


Definition resent : list Happening :=
  register :: runs 0 10 ++ Passes 60000000000 :: register :: runs 1 10.

(** With an update that GORM refuses for want of a table, older codes stay
    open: of two codes mailed a minute apart, the one that was mailed last is
    refused, and the older one is the one that works. *)
Theorem resent_code_rejected :
  ∃ w, history start resent = Some w ∧
    (mails w).*1.*2 = [§"100001"; §"100003"] ∧
    status_of (Auth PostVerify) (verify_with §"100003") w = Some 400 ∧
    status_of (Auth PostVerify) (verify_with §"100001") w = Some 201.
Proof. eexists; (split; [vm_compute; reflexivity|]); vm_compute; done. Qed.

(** ** Instances of the theorems *)

Definition one_approval : list Happening :=
  tv_start :: runs 0 14 ++ tv_approve (u_email alice) :: runs 1 12 ++ tv_token :: runs 2 14.


Definition paid_and_synced : list Happening :=
  create alice §"basic" [] :: runs 0 5 ++ webhook no_fault 0 :: runs 1 2 ++ Syncs no_fault 1 :: runs 2 3 ++
  runs 1 1 ++ webhook no_fault 0 :: runs 3 3.

Lemma payment_activates_once_witness :
  ∃ w, history start paid_and_synced = Some w ∧ activated w = [Automatic 1] ∧ (automatics 1 w ≤ 1)%nat.
Proof.
  eexists. split; [vm_compute; reflexivity|]. match goal with |- activated ?v = _ ∧ _ => set (w := v) end.
  assert (history start paid_and_synced = Some w) as Hw by (vm_compute; reflexivity).
  split; [reflexivity|]. apply (payment_activates_once start paid_and_synced w eq_refl eq_refl); [|exact Hw].
  unfold paid_and_synced, runs. repeat (apply Forall_cons; split; [done|]). done.
Defined.

Lemma settled_at_once : @prompt (card_host (λ _, §"succeeded")).
Proof. intros n order fs. cbn. intros [= <-]. vm_compute. reflexivity. Qed.


(** ** The site with this backend *)

Definition elsewhere (n : nat) (q : Request) : res Response := Ok not_found.

(** The cookies of a user whose access token has expired. *)
Definition old_access : jstr := show_claims {| cl_user := 1; cl_role := RoleUser; cl_expires := 900 |}.
Definition long_refresh : jstr := show_claims {| cl_user := 1; cl_role := RoleUser; cl_expires := 2000000 |}.
Definition returning (v : World) : LiveWorld :=
  let o := cookieOptions sample_env in
  {| requests := []; cookies := <[accessCookieName := {| value := JStr old_access; options := o |}]>
       (<[refreshCookieName := {| value := JStr long_refresh; options := o |}]> ∅);
     live := v; steps := 0 |}.

Abbreviation quiet_site := (calm_server sample_env elsewhere §"10.0.0.9" §"api").

Lemma returning_holds v : @holds _ quiet_site (Some (old_access, long_refresh)) (returning v).
Proof. split; [done|]. split; [done|]. split; vm_compute; reflexivity. Qed.

Lemma long_refresh_good v : clock v < 2000000 * second → good_token alice long_refresh v.
Proof.
  intros Hv. exists {| cl_user := 1; cl_role := RoleUser; cl_expires := 2000000 |}.
  split; [vm_compute; reflexivity|]. by split.
Qed.


(** Ten requests of the web server in this minute. *)
Definition crowded : World :=
  start <| visitors := {[ (authLimiter, §"10.0.0.9") := {| count := 10; resetAt := 1060 * second |} ]} |>.

Lemma limited_signs_out_witness :
  ∃ r w', @authorizedFetch _ quiet_site sample_env (@get_me _ quiet_site sample_env) (returning crowded) = (Ok r, w') ∧
    status r = 401 ∧ @signed_out _ quiet_site w' ∧ good_token alice long_refresh crowded.
Proof.
  destruct (limited_signs_out sample_env elsewhere §"10.0.0.9" §"api" alice old_access long_refresh (returning crowded)
    (returning_holds crowded) (long_refresh_good crowded eq_refl) ltac:(vm_compute; reflexivity)
    ltac:(vm_compute; discriminate)) as (r & w' & E & Hr & Hw).
  exists r, w'. split; [exact E|]. split; [exact Hr|]. split; [exact Hw|]. by apply long_refresh_good.
Defined.

Lemma access_refreshes_witness :
  ∃ a' v', exec (auth_group no_fault PostRefresh
    (go_request §"10.0.0.9" §"api" (refresh_request sample_env (JStr (token_of alice start))))) start
    = (reply 200 (tokenResponse (a', §"1|2593000|user")), v').
Proof.
  assert (good_token alice (token_of alice start) start) as Ha.
  { exists (token_claims alice (clock start) (1 * hour)). split; [vm_compute; reflexivity|]. by split. }
  destruct (access_refreshes sample_env §"10.0.0.9" §"api" alice (token_of alice start) §"1|2593000|user" start Ha
    ltac:(vm_compute; reflexivity) ltac:(vm_compute; reflexivity) ltac:(vm_compute; eexists; reflexivity)
    ltac:(vm_compute; reflexivity)) as (a' & v' & E & _).
  exists a', v'. exact E.
Defined.

(** A sign-in at the site, with requests of others in between that change
    everything about the limiter. *)
Definition busy_site : Server LiveWorld :=
  live_server sample_env (fails_at 100) (λ n w, w <| clock := clock w + Z.of_nat n |> <| visitors := ∅ |>)
    (λ _, None) elsewhere §"10.0.0.9" §"api".
Definition signing_in : list Move :=
  [UserInput 0 §"alice@example.com"; UserInput 1 §"password"; UserClick 0; Process 0; Deliver 0].
Abbreviation signed := (@outcome (AuthForm.component []) LiveWorld busy_site sample_env (returning start) signing_in).

Lemma live_session_witness :
  @whole _ busy_site (world (AuthForm.component []) signed) ∧
  @cookie_get _ busy_site refreshCookieName (world (AuthForm.component []) signed) = JStr §"1|2593000|user".
Proof.
  split; [|vm_compute; reflexivity].
  apply (live_session sample_env (fails_at 100) (λ n w, w <| clock := clock w + Z.of_nat n |> <| visitors := ∅ |>)
    (λ _, None) elsewhere §"10.0.0.9" §"api" (AuthForm.component []) (returning start)).
  - apply outcome_running. vm_compute. reflexivity.
  - exists (Some (old_access, long_refresh)). split; [done|split; [done|split; vm_compute; reflexivity]].
Defined.
End GoRuns.
