(* ===== verification/Shapes.v ===== *)
(** * The shapes of the animated background:
    [web/components/ui/dithering-shader.tsx]

    The noise functions and the seven shapes of the fragment shader, over the
    real numbers.  Where GLSL leaves a result undefined (a root or a power of a
    negative number, a division by zero, the angle of the origin) the model has
    no value.  Every shape lies between 0 and 1 wherever it is defined. *)
From Stdlib Require Import Reals Lra Psatz.
From S2P Require Import Prelude.
Open Scope R_scope.

Module Shapes.

(** ** GLSL *)

Definition vec2 : Type := R * R.

Definition fract (x : R) : R := frac_part x.
Definition glsl_floor (x : R) : R := IZR (Int_part x).
Definition glsl_mod (x y : R) : R := x - y * glsl_floor (x / y).
Definition clamp01 (x : R) : R := Rmax 0 (Rmin 1 x).
Definition smoothstep (a b x : R) : R := let t := clamp01 ((x - a) / (b - a)) in t * t * (3 - 2 * t).
Definition mix (x y a : R) : R := x * (1 - a) + y * a.
Definition glsl_step (edge x : R) : R := if Rlt_dec x edge then 0 else 1.
Definition sign (x : R) : R := if Rlt_dec 0 x then 1 else if Rlt_dec x 0 then -1 else 0.
Definition dot2 (a b : vec2) : R := a.1 * b.1 + a.2 * b.2.
Definition scale (k : R) (a : vec2) : vec2 := (k * a.1, k * a.2).
Definition add2 (a b : vec2) : vec2 := (a.1 + b.1, a.2 + b.2).
Definition length2 (a : vec2) : R := sqrt (dot2 a a).

(** Undefined for a negative base, and for zero unless the power is positive. *)
Definition glsl_pow (x y : R) : option R :=
  if Rlt_dec 0 x then Some (Rpower x y)
  else if Req_dec_T x 0 then if Rlt_dec 0 y then Some 0 else None
  else None.
Definition glsl_sqrt (x : R) : option R := if Rle_dec 0 x then Some (sqrt x) else None.
Definition glsl_div (x y : R) : option R := if Req_dec_T y 0 then None else Some (x / y).

(** The angle of a vector, between [-PI] and [PI]. *)
Definition glsl_atan (y x : R) : option R :=
  if Rlt_dec 0 x then Some (atan (y / x))
  else if Rlt_dec x 0 then Some (if Rlt_dec y 0 then atan (y / x) - PI else atan (y / x) + PI)
  else if Rlt_dec 0 y then Some (PI / 2)
  else if Rlt_dec y 0 then Some (- (PI / 2))
  else None.

Definition TWO_PI : R := 6.28318530718.

(** ** Noise *)

Definition hash11 (p : R) : R :=
  let p := fract (p * 0.3183099) + 0.1 in
  let p := p * (p + 19.19) in
  fract (p * p).

Definition permute (x : R) : R := glsl_mod ((x * 34 + 1) * x) 289.

(** One of the three corners: the weight and the gradient of [snoise]. *)
Definition corner (p : R) (d : vec2) : R :=
  let m := Rmax (0.5 - dot2 d d) 0 in
  let m := m * m in
  let m := m * m in
  let x := 2 * fract (p * 0.024390243902439) - 1 in
  let h := Rabs x - 0.5 in
  let ox := glsl_floor (x + 0.5) in
  let a0 := x - ox in
  let m := m * (1.79284291400159 - 0.85373472095314 * (a0 * a0 + h * h)) in
  let g := a0 * d.1 + h * d.2 in
  m * g.

Definition snoise (v : vec2) : R :=
  let Cx := 0.211324865405187 in
  let Cy := 0.366025403784439 in
  let Cz := -0.577350269189626 in
  let skew := v.1 * Cy + v.2 * Cy in
  let i := (glsl_floor (v.1 + skew), glsl_floor (v.2 + skew)) in
  let unskew := i.1 * Cx + i.2 * Cx in
  let x0 := (v.1 - i.1 + unskew, v.2 - i.2 + unskew) in
  let i1 := if Rlt_dec x0.2 x0.1 then (1, 0) else (0, 1) in
  let x1 := (x0.1 + Cx - i1.1, x0.2 + Cx - i1.2) in
  let x2 := (x0.1 + Cz, x0.2 + Cz) in
  let i := (glsl_mod i.1 289, glsl_mod i.2 289) in
  let p (dx dy : R) := permute (permute (i.2 + dy) + i.1 + dx) in
  130 * (corner (p 0 0) x0 + corner (p i1.1 i1.2) x1 + corner (p 1 1) x2).

Definition getSimplexNoise (uv : vec2) (t : R) : R :=
  0.5 * snoise (add2 uv (0, - (0.3 * t))) + 0.5 * snoise (add2 (scale 2 uv) (0, 0.32 * t)).

Definition hash21 (p : vec2) : R :=
  let p := (fract (p.1 * 0.3183099) + 0.1, fract (p.2 * 0.3678794) + 0.1) in
  let d := dot2 p (p.1 + 19.19, p.2 + 19.19) in
  let p := (p.1 + d, p.2 + d) in
  fract (p.1 * p.2).

(** ** Shapes *)

Definition simplex (t : R) (uv : vec2) : option R :=
  Some (smoothstep 0.3 0.9 (0.5 + 0.5 * getSimplexNoise (scale 0.001 uv) t)).

(** A round of the loop of [warp]. *)
Definition warp_round (t : R) (uv : vec2) (i : R) : vec2 :=
  let x := uv.1 + 0.6 / i * cos (i * 2.5 * uv.2 + t) in
  (x, uv.2 + 0.6 / i * cos (i * 1.5 * x + t)).
Definition warp (t : R) (uv : vec2) : option R :=
  let uv := foldl (warp_round t) (scale 0.003 uv) [1; 2; 3; 4; 5] in
  shape ← glsl_div 0.15 (Rabs (sin (t - uv.2 - uv.1)));
  Some (smoothstep 0.02 1 shape).

Definition dots (t : R) (uv : vec2) : option R :=
  let uv := scale 0.05 uv in
  let stripeIdx := glsl_floor (2 * uv.1 / TWO_PI) in
  let rand := hash11 (stripeIdx * 10) in
  power ← glsl_pow (0.1 + Rabs rand) 0.4;
  let rand := sign (rand - 0.5) * power in
  glsl_pow (Rabs (sin uv.1 * cos (uv.2 - 5 * rand * t))) 6.

Definition wave (t : R) (uv : vec2) : option R :=
  let uv := scale 4 uv in
  let w := cos (0.5 * uv.1 - 2 * t) * sin (1.5 * uv.1 + t) * (0.75 + 0.25 * cos (3 * t)) in
  Some (1 - smoothstep (-1) 1 (uv.2 + w)).

Definition ripple (t : R) (uv : vec2) : option R :=
  d ← glsl_pow (length2 uv) 1.7;
  Some (sin (d * 7 - 3 * t) * 0.5 + 0.5).

Definition swirl (t : R) (uv : vec2) : option R :=
  let l := length2 uv in
  angle ← glsl_atan uv.2 uv.1;
  let angle := 6 * angle + 4 * t in
  inner ← glsl_pow l (-1.2);
  outer ← glsl_pow l 1.2;
  let offset := inner + angle / TWO_PI in
  Some (mix 0 (fract offset) (smoothstep 0 1 outer)).

Definition sphere (t : R) (uv : vec2) : option R :=
  let uv := scale 2 uv in
  squared ← glsl_pow (length2 uv) 2;
  let d := 1 - squared in
  z ← glsl_sqrt d;
  let light := (cos (1.5 * t), 0.8, sin (1.25 * t)) in
  let n := sqrt (light.1.1 * light.1.1 + light.1.2 * light.1.2 + light.2 * light.2) in
  let lit := light.1.1 / n * uv.1 + light.1.2 / n * uv.2 + light.2 / n * z in
  Some ((0.5 + 0.5 * lit) * glsl_step 0 d).

Definition shape_value (u_shape t : R) (uv : vec2) : option R :=
  if Rlt_dec u_shape 1.5 then simplex t uv
  else if Rlt_dec u_shape 2.5 then warp t uv
  else if Rlt_dec u_shape 3.5 then dots t uv
  else if Rlt_dec u_shape 4.5 then wave t uv
  else if Rlt_dec u_shape 5.5 then ripple t uv
  else if Rlt_dec u_shape 6.5 then swirl t uv
  else sphere t uv.

(** ** [main] for a fragment, up to the shape and the noise *)

Section Fragment.
Context (u_time u_pxSize u_shape : R) (u_resolution fragCoord : vec2).

Definition pxSizeUv : vec2 :=
  ((fragCoord.1 - 0.5 * u_resolution.1) / u_pxSize, (fragCoord.2 - 0.5 * u_resolution.2) / u_pxSize).
Definition pixelizedUv : vec2 :=
  (glsl_floor pxSizeUv.1 * u_pxSize / u_resolution.1 + 0.5 - 0.5,
   glsl_floor pxSizeUv.2 * u_pxSize / u_resolution.2 + 0.5 - 0.5).
Definition ditheringNoise_uv : vec2 :=
  ((fragCoord.1 / u_resolution.1 - 0.5) * u_resolution.1, (fragCoord.2 / u_resolution.2 - 0.5) * u_resolution.2).

Definition main_shape : option R := shape_value u_shape (0.5 * u_time) pixelizedUv.
Definition main_noise : R := hash21 ditheringNoise_uv.
End Fragment.

(** ** Between 0 and 1 *)

Lemma clamp01_range x : 0 <= clamp01 x <= 1.
Proof. unfold clamp01, Rmax, Rmin. repeat case_match; lra. Qed.

Lemma smoothstep_range a b x : 0 <= smoothstep a b x <= 1.
Proof.
  unfold smoothstep. pose proof (clamp01_range ((x - a) / (b - a))) as H. set (t := clamp01 _) in *.
  assert (0 <= t * t) by nra. assert (0 <= (1 - t) * (1 - t)) by nra. split; [nra|].
  assert (1 - t * t * (3 - 2 * t) = (1 - t) * (1 - t) * (1 + 2 * t)) by ring.
  assert (0 <= (1 - t) * (1 - t) * (1 + 2 * t)) by (apply Rmult_le_pos; lra). lra.
Qed.

Lemma fract_range x : 0 <= fract x < 1.
Proof. unfold fract. pose proof (base_fp x). lra. Qed.

Lemma Rabs_product_le1 a b : -1 <= a <= 1 → -1 <= b <= 1 → 0 <= Rabs (a * b) <= 1.
Proof. intros Ha Hb. split; [apply Rabs_pos|]. apply Rabs_le. nra. Qed.

Lemma pow6_range x s : 0 <= x <= 1 → glsl_pow x 6 = Some s → 0 <= s <= 1.
Proof.
  intros Hx. unfold glsl_pow. destruct (Rlt_dec 0 x) as [H0|H0].
  - intros [= <-]. split; [left; apply exp_pos|]. replace 6 with (INR 6) by (simpl; lra).
    rewrite Rpower_pow by done. rewrite <-(pow1 6). apply pow_incr. lra.
  - destruct (Req_dec_T x 0); [|done]. destruct (Rlt_dec 0 6); [|lra]. intros [= <-]. lra.
Qed.

Lemma unit_dot a b c x y z :
  a * a + b * b + c * c = 1 → x * x + y * y + z * z = 1 → -1 <= a * x + b * y + c * z <= 1.
Proof.
  intros H1 H2.
  pose proof (Rle_0_sqr (a - x)). pose proof (Rle_0_sqr (b - y)). pose proof (Rle_0_sqr (c - z)).
  pose proof (Rle_0_sqr (a + x)). pose proof (Rle_0_sqr (b + y)). pose proof (Rle_0_sqr (c + z)).
  unfold Rsqr in *. lra.
Qed.

Lemma dot2_nonneg a : 0 <= dot2 a a.
Proof. unfold dot2. nra. Qed.

Lemma length2_squared a s : glsl_pow (length2 a) 2 = Some s → s = dot2 a a.
Proof.
  pose proof (dot2_nonneg a) as Hd. pose proof (sqrt_sqrt _ Hd) as Hs. unfold glsl_pow, length2 in *.
  destruct (Rlt_dec 0 _) as [H0|H0].
  - intros [= <-]. replace 2 with (INR 2) by (simpl; lra). rewrite Rpower_pow by done. simpl. lra.
  - destruct (Req_dec_T _ _) as [E|]; [|done]. destruct (Rlt_dec 0 2); [|lra]. intros [= <-]. rewrite E in Hs. lra.
Qed.

Lemma step_range e x : 0 <= glsl_step e x <= 1.
Proof. unfold glsl_step. destruct (Rlt_dec x e); lra. Qed.

Lemma normalized a b c : b <> 0 → let n := sqrt (a * a + b * b + c * c) in
  a / n * (a / n) + b / n * (b / n) + c / n * (c / n) = 1.
Proof.
  intros Hb n. assert (0 < a * a + b * b + c * c) as Hp by (pose proof (Rsqr_pos_lt b Hb); unfold Rsqr in *; nra).
  pose proof (sqrt_lt_R0 _ Hp) as Hn. pose proof (sqrt_sqrt _ (Rlt_le _ _ Hp)) as Hs. fold n in Hn, Hs.
  replace (a / n * (a / n) + b / n * (b / n) + c / n * (c / n)) with ((a * a + b * b + c * c) / (n * n)) by (field; lra).
  rewrite Hs. field. lra.
Qed.

Lemma sphere_range t uv s : sphere t uv = Some s → 0 <= s <= 1.
Proof.
  unfold sphere. intros (sq & Hsq%length2_squared & (z & Hz & [= <-])%bind_Some)%bind_Some. cbn [fst snd].
  set (v := scale 2 uv) in *. unfold glsl_sqrt in Hz. destruct (Rle_dec 0 (1 - sq)) as [Hd|]; [|done].
  injection Hz as <-. pose proof (sqrt_sqrt _ Hd) as Hz. unfold dot2 in Hsq.
  set (a := cos (1.5 * t)). set (c := sin (1.25 * t)).
  assert (0.8 <> 0) as H8 by lra. pose proof (normalized a 0.8 c H8) as Hn. cbv zeta in Hn. set (n := sqrt (a * a + _ + _)) in *.
  pose proof (unit_dot (a / n) (0.8 / n) (c / n) v.1 v.2 (sqrt (1 - sq)) Hn ltac:(lra)) as Hdot.
  pose proof (step_range 0 (1 - sq)) as Hst. set (x := glsl_step _ _) in *. set (l := _ + _ + _) in Hdot |- *.
  split; [apply Rmult_le_pos; lra|]. nra.
Qed.

Lemma sphere_undefined t uv : 1 < dot2 (scale 2 uv) (scale 2 uv) → sphere t uv = None.
Proof.
  intros Hd. unfold sphere. destruct (glsl_pow _ _) as [sq|] eqn:E; [|done]. apply length2_squared in E. cbn.
  unfold glsl_sqrt. destruct (Rle_dec 0 (1 - sq)); [lra|done].
Qed.

Lemma swirl_range t uv s : swirl t uv = Some s → 0 <= s <= 1.
Proof.
  unfold swirl. intros (a & _ & (i & _ & (o & _ & [= <-])%bind_Some)%bind_Some)%bind_Some. unfold mix.
  pose proof (smoothstep_range 0 1 o) as Ho. pose proof (fract_range (i + (6 * a + 4 * t) / TWO_PI)) as Hf.
  set (x := smoothstep _ _ _) in *. set (y := fract _) in *.
  replace (0 * (1 - x) + y * x) with (y * x) by ring. split; [apply Rmult_le_pos; lra|nra].
Qed.

Lemma pow_defined x y : 0 <= x → 0 < y → is_Some (glsl_pow x y).
Proof.
  intros Hx Hy. unfold glsl_pow. destruct (Rlt_dec 0 x); [by eexists|]. destruct (Req_dec_T x 0); [|lra].
  destruct (Rlt_dec 0 y); [by eexists|lra].
Qed.

Lemma dots_defined t uv : is_Some (dots t uv).
Proof.
  unfold dots. cbv zeta. set (h := hash11 _). pose proof (Rabs_pos h).
  destruct (pow_defined (0.1 + Rabs h) 0.4) as [p ->]; [lra|lra|]. apply pow_defined; [apply Rabs_pos|lra].
Qed.

Lemma shape_value_range u_shape t uv :
  (∀ s, shape_value u_shape t uv = Some s → 0 <= s <= 1) ∧
  (u_shape < 1.5 \/ 2.5 <= u_shape < 5.5 → is_Some (shape_value u_shape t uv)) ∧
  (6.5 <= u_shape → 1 < dot2 (scale 2 uv) (scale 2 uv) → shape_value u_shape t uv = None).
Proof.
  split; [|split].
  - intros s. unfold shape_value. repeat (destruct (Rlt_dec _ _) as [_|_]).
    + intros [= <-]. apply smoothstep_range.
    + intros (x & _ & [= <-])%bind_Some. apply smoothstep_range.
    + intros (p & _ & Hp)%bind_Some. revert Hp. apply pow6_range. apply Rabs_product_le1; [apply SIN_bound|apply COS_bound].
    + intros [= <-]. match goal with |- context [smoothstep ?a ?b ?x] => pose proof (smoothstep_range a b x) end. lra.
    + intros (d & _ & [= <-])%bind_Some. pose proof (SIN_bound (d * 7 - 3 * t)). lra.
    + apply swirl_range.
    + apply sphere_range.
  - intros Hs. unfold shape_value. destruct (Rlt_dec u_shape 1.5); [by eexists|].
    destruct (Rlt_dec u_shape 2.5); [lra|]. destruct (Rlt_dec u_shape 3.5).
    + apply dots_defined.
    + destruct (Rlt_dec u_shape 4.5); [by eexists|]. destruct (Rlt_dec u_shape 5.5); [|lra].
      unfold ripple. destruct (pow_defined (length2 uv) 1.7) as [p ->]; [apply sqrt_pos|lra|]. by eexists.
  - intros Hs Hd. unfold shape_value. repeat (destruct (Rlt_dec u_shape _); [lra|]). by apply sphere_undefined.
Qed.

End Shapes.
